(** * Maple tree: a shallow embedding of lib/maple_tree.c and
      include/linux/maple_tree.h, and the properties checked against it.

    Conventions of the embedding.

    - An [unsigned long] (and every pointer) is a [Z] in [0, 2^64); the
      arithmetic of the source is written with its wrap-around ([u64]).
      An [unsigned char] wraps with [u8], an [unsigned int] with [u32].
    - [enum maple_type] is the inductive [maple_type]; the four type bits of
      an encoded node are decoded by [mte_node_type].
    - A [struct maple_node] is its 32 machine words (CONFIG_64BIT, NODE256:
      256 bytes); the members of the union are views on those words.
    - The memory is a finite map from node addresses to nodes; the tree
      handle ([ma_flags], [ma_root]) is part of the same world.
    - A [struct ma_state] lives on the C stack and is passed by value here.
    - Locks, RCU read sections and memory barriers have no counterpart:
      one thread runs one operation at a time. *)

From Stdlib Require Import ZArith List Lia Bool.
From stdpp Require Import gmap list.

Local Open Scope Z_scope.

(** ** Machine integers *)

Definition ULONG_MAX : Z := 2 ^ 64 - 1.
Definition u64 (x : Z) : Z := x mod 2 ^ 64.
Definition u32 (x : Z) : Z := x mod 2 ^ 32.
Definition u8 (x : Z) : Z := x mod 2 ^ 8.

(** Conversion of a word to a C [int] and to a C [long]. *)
Definition to_int (x : Z) : Z :=
  let y := x mod 2 ^ 32 in if y <? 2 ^ 31 then y else y - 2 ^ 32.
Definition to_long (x : Z) : Z :=
  let y := x mod 2 ^ 64 in if y <? 2 ^ 63 then y else y - 2 ^ 64.

(** [x & ~mask] on words. *)
Definition clear_bits (x mask : Z) : Z := Z.land x (Z.lnot mask).

Definition nonzero (x : Z) : bool := negb (x =? 0).

(** errno values used by the tree. *)
Definition ENOENT : Z := 2.
Definition ENOMEM : Z := 12.
Definition EBUSY : Z := 16.
Definition EEXIST : Z := 17.
Definition EINVAL : Z := 22.
Definition MAX_ERRNO : Z := 4095.

(** ** The entry encodings of <linux/xarray.h>

    maple_tree.c includes <linux/xarray.h> and uses its entry predicates;
    the header itself is not among the sources. *)

(** Modelled from the spec: xarray.h's xa_mk_internal; an internal entry
    carries the low-bit tag binary 10 (the comment above mt_is_reserved:
    "the bottom two bits set to '10'"). *)
Definition xa_mk_internal (v : Z) : Z := Z.lor (u64 (Z.shiftl v 2)) 2.

(** Modelled from the spec: xarray.h's xa_is_internal, "the internal low-bit
    tag" of an entry. *)
Definition xa_is_internal (entry : Z) : bool := Z.land entry 3 =? 2.

(** Modelled from the spec: xarray.h's XA_RETRY_ENTRY, internal entry 256,
    the largest of the "advanced" sentinel encodings. *)
Definition XA_RETRY_ENTRY : Z := xa_mk_internal 256.

(** Modelled from the spec: xarray.h's XA_ZERO_ENTRY, internal entry 257,
    the "zero" sentinel. *)
Definition XA_ZERO_ENTRY : Z := xa_mk_internal 257.

(** Modelled from the spec: xarray.h's xa_is_zero. *)
Definition xa_is_zero (entry : Z) : bool := entry =? XA_ZERO_ENTRY.

(** Modelled from the spec: xarray.h's xa_is_node, an internal entry above
    the first page. *)
Definition xa_is_node (entry : Z) : bool :=
  xa_is_internal entry && (4096 <? entry).

(** Modelled from the spec: xarray.h's xa_is_advanced, the "advanced"
    sentinel encodings of the indexed array (internal entries up to the
    retry entry). *)
Definition xa_is_advanced (entry : Z) : bool :=
  xa_is_internal entry && (entry <=? XA_RETRY_ENTRY).

(** Modelled from the spec: xarray.h's xa_is_err, an internal entry that
    encodes a negative errno. *)
Definition xa_is_err (entry : Z) : bool :=
  xa_is_internal entry && (xa_mk_internal (- MAX_ERRNO) <=? entry).

(** Modelled from the spec: xarray.h's xa_err, the errno of an error entry
    (an arithmetic shift of the entry read as a long) and 0 otherwise. *)
Definition xa_err (entry : Z) : Z :=
  if xa_is_err entry then Z.shiftr (to_long entry) 2 else 0.

(** ** maple_tree.h: node types and sizes (CONFIG_64BIT, NODE256) *)

Definition MAPLE_NODE_SLOTS : Z := 31.
Definition MAPLE_RANGE64_SLOTS : Z := 16.
Definition MAPLE_ARANGE64_SLOTS : Z := 10.
Definition MAPLE_RANGE32_SLOTS : Z := 21.
Definition MAPLE_RANGE16_SLOTS : Z := 25.
Definition MAPLE_SPARSE64_SLOTS : Z := 15.
Definition MAPLE_SPARSE32_SLOTS : Z := 20.
Definition MAPLE_SPARSE21_SLOTS : Z := 23.
Definition MAPLE_SPARSE16_SLOTS : Z := 24.
Definition MAPLE_SPARSE9_SLOTS : Z := 27.
Definition MAPLE_SPARSE6_SLOTS : Z := 30.
Definition MA_NODE_PER_PAGE : Z := 16.

Inductive maple_type : Set :=
  | maple_dense
  | maple_sparse_6
  | maple_sparse_9
  | maple_sparse_16
  | maple_sparse_21
  | maple_sparse_32
  | maple_sparse_64
  | maple_leaf_16
  | maple_leaf_32
  | maple_leaf_64
  | maple_range_16
  | maple_range_32
  | maple_range_64
  | maple_arange_64.

#[global] Instance maple_type_eq_dec : EqDecision maple_type.
Proof. solve_decision. Defined.

Definition all_maple_types : list maple_type :=
  [ maple_dense; maple_sparse_6; maple_sparse_9; maple_sparse_16;
    maple_sparse_21; maple_sparse_32; maple_sparse_64; maple_leaf_16;
    maple_leaf_32; maple_leaf_64; maple_range_16; maple_range_32;
    maple_range_64; maple_arange_64 ].

(** The value of the enumerator. *)
Definition type_code (t : maple_type) : Z :=
  match t with
  | maple_dense => 0 | maple_sparse_6 => 1 | maple_sparse_9 => 2
  | maple_sparse_16 => 3 | maple_sparse_21 => 4 | maple_sparse_32 => 5
  | maple_sparse_64 => 6 | maple_leaf_16 => 7 | maple_leaf_32 => 8
  | maple_leaf_64 => 9 | maple_range_16 => 10 | maple_range_32 => 11
  | maple_range_64 => 12 | maple_arange_64 => 13
  end.

(** An enumerator from its value; 14 and 15 name no type. *)
Definition type_of_code (c : Z) : option maple_type :=
  nth_error all_maple_types (Z.to_nat c).

(** *** Flags of the tree handle *)

Definition MAPLE_ALLOC_RANGE : Z := 1.   (* Bit 0 *)
Definition MAPLE_USE_RCU : Z := 2.       (* Bit 1 *)
Definition MAPLE_HEIGHT_OFFSET : Z := 2. (* Bit 2 *)
Definition MAPLE_HEIGHT_MASK : Z := 60.  (* Bits 2-5 *)

(** *** Special values of ma_state.node *)

Definition MAS_START : Z := 1.
Definition MAS_ROOT : Z := 5.
Definition MAS_NONE : Z := 9.
Definition MA_ERROR (err : Z) : Z := Z.lor (u64 (Z.shiftl err 2)) 2.

(** ** maple_tree.c: the per-type tables *)

Definition MA_ROOT_PARENT : Z := 1.

Definition mt_max (t : maple_type) : Z :=
  match t with
  | maple_dense => MAPLE_NODE_SLOTS
  | maple_sparse_6 => 2 ^ 6 - 1
  | maple_sparse_9 => 2 ^ 9 - 1
  | maple_sparse_16 => 2 ^ 16 - 1
  | maple_sparse_21 => 2 ^ 21 - 1
  | maple_sparse_32 => 2 ^ 32 - 1
  | maple_sparse_64 => ULONG_MAX
  | maple_leaf_16 => 2 ^ 16 - 1
  | maple_leaf_32 => 2 ^ 32 - 1
  | maple_leaf_64 => ULONG_MAX
  | maple_range_16 => 2 ^ 16 - 1
  | maple_range_32 => 2 ^ 32 - 1
  | maple_range_64 => ULONG_MAX
  | maple_arange_64 => ULONG_MAX
  end.

Definition mt_slots (t : maple_type) : Z :=
  match t with
  | maple_dense => MAPLE_NODE_SLOTS
  | maple_sparse_6 => MAPLE_SPARSE6_SLOTS
  | maple_sparse_9 => MAPLE_SPARSE9_SLOTS
  | maple_sparse_16 => MAPLE_SPARSE16_SLOTS
  | maple_sparse_21 => MAPLE_SPARSE21_SLOTS
  | maple_sparse_32 => MAPLE_SPARSE32_SLOTS
  | maple_sparse_64 => MAPLE_SPARSE64_SLOTS
  | maple_leaf_16 => MAPLE_RANGE16_SLOTS
  | maple_leaf_32 => MAPLE_RANGE32_SLOTS
  | maple_leaf_64 => MAPLE_RANGE64_SLOTS
  | maple_range_16 => MAPLE_RANGE16_SLOTS
  | maple_range_32 => MAPLE_RANGE32_SLOTS
  | maple_range_64 => MAPLE_RANGE64_SLOTS
  | maple_arange_64 => MAPLE_ARANGE64_SLOTS
  end.

Definition mt_pivots (t : maple_type) : Z :=
  match t with
  | maple_dense => 0
  | maple_sparse_6 => 1
  | maple_sparse_9 => MAPLE_SPARSE9_SLOTS - 1
  | maple_sparse_16 => MAPLE_SPARSE16_SLOTS - 1
  | maple_sparse_21 => MAPLE_SPARSE21_SLOTS - 1
  | maple_sparse_32 => MAPLE_SPARSE32_SLOTS - 1
  | maple_sparse_64 => MAPLE_SPARSE64_SLOTS - 1
  | maple_leaf_16 => MAPLE_RANGE16_SLOTS - 1
  | maple_leaf_32 => MAPLE_RANGE32_SLOTS - 1
  | maple_leaf_64 => MAPLE_RANGE64_SLOTS - 1
  | maple_range_16 => MAPLE_RANGE16_SLOTS - 1
  | maple_range_32 => MAPLE_RANGE32_SLOTS - 1
  | maple_range_64 => MAPLE_RANGE64_SLOTS - 1
  | maple_arange_64 => MAPLE_ARANGE64_SLOTS - 1
  end.

(** The C division of two non-negative constants. *)
Definition mt_min_slots (t : maple_type) : Z :=
  match t with
  | maple_dense => MAPLE_NODE_SLOTS / 2
  | maple_sparse_6 => MAPLE_SPARSE6_SLOTS / 2
  | maple_sparse_9 => MAPLE_SPARSE9_SLOTS / 2
  | maple_sparse_16 => MAPLE_SPARSE16_SLOTS / 2
  | maple_sparse_21 => MAPLE_SPARSE21_SLOTS / 2
  | maple_sparse_32 => MAPLE_SPARSE32_SLOTS / 2
  | maple_sparse_64 => MAPLE_SPARSE64_SLOTS / 2
  | maple_leaf_16 => MAPLE_RANGE16_SLOTS / 2
  | maple_leaf_32 => MAPLE_RANGE32_SLOTS / 2
  | maple_leaf_64 => MAPLE_RANGE64_SLOTS / 2 - 2
  | maple_range_16 => MAPLE_RANGE16_SLOTS / 2
  | maple_range_32 => MAPLE_RANGE32_SLOTS / 2
  | maple_range_64 => MAPLE_RANGE64_SLOTS / 2 - 2
  | maple_arange_64 => MAPLE_ARANGE64_SLOTS / 2 - 1   (* NODE256 *)
  end.

Definition MAPLE_BIG_NODE_SLOTS : Z := MAPLE_RANGE64_SLOTS * 2 + 2.

(** ** Tree flags *)

Definition mt_height (ma_flags : Z) : Z :=
  Z.shiftr (Z.land ma_flags MAPLE_HEIGHT_MASK) MAPLE_HEIGHT_OFFSET.

(** [mas_in_rcu], on the flags word of the cursor's tree. *)
Definition mas_in_rcu (ma_flags : Z) : bool :=
  nonzero (Z.land ma_flags (Z.shiftl 1 MAPLE_USE_RCU)).

Definition mt_is_alloc (ma_flags : Z) : bool :=
  nonzero (Z.land ma_flags MAPLE_ALLOC_RANGE).

(** [mt_clear_in_rcu] and [mt_set_in_rcu], as functions on the flags word
    (an unsigned int). *)
Definition mt_clear_in_rcu (ma_flags : Z) : Z :=
  if Z.land ma_flags MAPLE_USE_RCU =? 0 then ma_flags
  else u32 (Z.land ma_flags (Z.lnot (Z.shiftl 1 MAPLE_USE_RCU))).

Definition mt_set_in_rcu (ma_flags : Z) : Z :=
  if nonzero (Z.land ma_flags MAPLE_USE_RCU) then ma_flags
  else Z.lor ma_flags (Z.shiftl 1 MAPLE_USE_RCU).

(** ** Encoded nodes *)

(** The four type bits of an encoded node, as the value of the enumerator. *)
Definition mte_node_type (entry : Z) : Z := Z.land (Z.shiftr entry 3) 15.

(** [ma_is_dense], [ma_is_leaf]: comparisons of enumerator values. *)
Definition ma_is_dense (type : Z) : bool := type <? type_code maple_sparse_6.
Definition mte_is_dense (entry : Z) : bool := ma_is_dense (mte_node_type entry).
Definition ma_is_leaf (type : Z) : bool := type <? type_code maple_range_16.
Definition mte_is_leaf (entry : Z) : bool := ma_is_leaf (mte_node_type entry).

Definition mt_is_reserved (entry : Z) : bool :=
  (entry <? 4096) && xa_is_internal entry.

Definition mt_is_empty (entry : Z) : bool := entry =? 0.

Definition mte_to_node (entry : Z) : Z := clear_bits entry 127.

Definition mt_mk_node (node : Z) (type : Z) : Z :=
  Z.lor (Z.lor node (Z.shiftl type 3)) 4.

Definition mte_mk_root (node : Z) : Z := Z.lor node 2.
Definition mte_safe_root (node : Z) : Z := clear_bits node 2.

(** ** The cursor, struct ma_state

    [mas_alloc_word] is the [alloc] word: the address of the first node of the
    allocation pool with, in its low seven bits, the request count, which
    the source also uses as the cursor's slot offset. *)

Record ma_state : Set := MkMas {
  mas_index : Z;
  mas_last : Z;
  mas_node : Z;
  mas_min : Z;
  mas_max : Z;
  mas_alloc_word : Z;
  mas_span_enode : Z;
  mas_full_cnt : Z;
  mas_depth : Z
}.

Definition set_index (v : Z) (m : ma_state) : ma_state :=
  MkMas v (mas_last m) (mas_node m) (mas_min m) (mas_max m) (mas_alloc_word m)
        (mas_span_enode m) (mas_full_cnt m) (mas_depth m).
Definition set_last (v : Z) (m : ma_state) : ma_state :=
  MkMas (mas_index m) v (mas_node m) (mas_min m) (mas_max m) (mas_alloc_word m)
        (mas_span_enode m) (mas_full_cnt m) (mas_depth m).
Definition set_node (v : Z) (m : ma_state) : ma_state :=
  MkMas (mas_index m) (mas_last m) v (mas_min m) (mas_max m) (mas_alloc_word m)
        (mas_span_enode m) (mas_full_cnt m) (mas_depth m).
Definition set_min (v : Z) (m : ma_state) : ma_state :=
  MkMas (mas_index m) (mas_last m) (mas_node m) v (mas_max m) (mas_alloc_word m)
        (mas_span_enode m) (mas_full_cnt m) (mas_depth m).
Definition set_max (v : Z) (m : ma_state) : ma_state :=
  MkMas (mas_index m) (mas_last m) (mas_node m) (mas_min m) v (mas_alloc_word m)
        (mas_span_enode m) (mas_full_cnt m) (mas_depth m).
Definition set_alloc (v : Z) (m : ma_state) : ma_state :=
  MkMas (mas_index m) (mas_last m) (mas_node m) (mas_min m) (mas_max m) v
        (mas_span_enode m) (mas_full_cnt m) (mas_depth m).
Definition set_span_enode (v : Z) (m : ma_state) : ma_state :=
  MkMas (mas_index m) (mas_last m) (mas_node m) (mas_min m) (mas_max m)
        (mas_alloc_word m) v (mas_full_cnt m) (mas_depth m).
Definition set_full_cnt (v : Z) (m : ma_state) : ma_state :=
  MkMas (mas_index m) (mas_last m) (mas_node m) (mas_min m) (mas_max m)
        (mas_alloc_word m) (mas_span_enode m) v (mas_depth m).
Definition set_depth (v : Z) (m : ma_state) : ma_state :=
  MkMas (mas_index m) (mas_last m) (mas_node m) (mas_min m) (mas_max m)
        (mas_alloc_word m) (mas_span_enode m) (mas_full_cnt m) v.

(** [MA_STATE(name, mt, first, end)]; the members the macro leaves out are
    zero. *)
Definition MA_STATE (first last : Z) : ma_state :=
  MkMas first last MAS_START 0 ULONG_MAX 0 0 0 0.

Definition mas_is_none (mas : ma_state) : bool := mas_node mas =? MAS_NONE.
Definition mas_is_ptr (mas : ma_state) : bool := mas_node mas =? MAS_ROOT.
Definition mas_is_start (mas : ma_state) : bool := mas_node mas =? MAS_START.
Definition mas_is_err (mas : ma_state) : bool := xa_is_err (mas_node mas).
Definition mas_set_err (err : Z) (mas : ma_state) : ma_state :=
  set_node (MA_ERROR err) mas.

Definition mas_searchable (mas : ma_state) : bool :=
  if mas_is_none mas then false
  else if mas_is_ptr mas then false
  else true.

Definition mas_mn (mas : ma_state) : Z := mte_to_node (mas_node mas).

Definition mas_is_root_limits (mas : ma_state) : bool :=
  (mas_min mas =? 0) && (mas_max mas =? ULONG_MAX).

Definition mas_reset (mas : ma_state) : ma_state := set_node MAS_START mas.

Definition mas_set_range (start last : Z) (mas : ma_state) : ma_state :=
  set_node MAS_START (set_last last (set_index start mas)).

Definition mas_set (index : Z) (mas : ma_state) : ma_state :=
  mas_set_range index index mas.

(** The pool pointer and the request count / slot offset share [alloc]. *)
Definition mas_get_alloc (ms : ma_state) : Z := clear_bits (mas_alloc_word ms) 127.

(** [count] is an int, converted to unsigned long for the bit-or. *)
Definition mas_set_alloc_req (count : Z) (mas : ma_state) : ma_state :=
  set_alloc (Z.lor (clear_bits (mas_alloc_word mas) 127) (u64 count)) mas.

Definition mas_get_alloc_req (mas : ma_state) : Z := Z.land (mas_alloc_word mas) 127.
Definition mas_offset (mas : ma_state) : Z := mas_get_alloc_req mas.
Definition mas_set_offset (slot : Z) (mas : ma_state) : ma_state :=
  mas_set_alloc_req slot mas.

(** [mas_dup_state]: the destination keeps its pool, span node, full count
    and depth. *)
Definition mas_dup_state (dst src : ma_state) : ma_state :=
  mas_set_offset (mas_offset src)
    (set_min (mas_min src)
      (set_max (mas_max src)
        (set_node (mas_node src)
          (set_last (mas_last src)
            (set_index (mas_index src) dst))))).

(** [mas_pause]. *)
Definition mas_pause (mas : ma_state) : ma_state :=
  if mas_last mas =? ULONG_MAX then set_node MAS_NONE mas
  else
    let mas := mas_reset mas in
    let mas := set_last (u64 (mas_last mas + 1)) mas in
    set_index (mas_last mas) mas.

(** [mas_is_span_wr]: the answer and the cursor, whose [span_enode] the
    function may set. *)
Definition mas_is_span_wr (mas : ma_state) (piv entry : Z) : bool * ma_state :=
  if nonzero (mas_span_enode mas) then (true, mas)
  else if mas_last mas <? piv then (false, mas)
  else if (mas_last mas =? ULONG_MAX) && (mas_min mas <=? mas_index mas)
          && (mas_last mas =? mas_max mas) then (false, mas)
  else if negb (mte_is_leaf (mas_node mas)) then
    if mas_last mas <? piv then (false, mas)
    else if nonzero entry && (piv =? mas_last mas) then (false, mas)
    else (true, set_span_enode (mas_node mas) mas)
  else
    if mas_last mas <? mas_max mas then (false, mas)
    else if nonzero entry && (mas_last mas =? mas_max mas) then (false, mas)
    else (true, set_span_enode (mas_node mas) mas).

Definition mas_cnt_full (mas : ma_state) : ma_state :=
  if mas_full_cnt mas <? 0 then set_full_cnt 1 mas
  else set_full_cnt (mas_full_cnt mas + 1) mas.

Definition mas_cnt_empty (mas : ma_state) : ma_state :=
  if 0 <? mas_full_cnt mas then set_full_cnt (-1) mas
  else set_full_cnt (mas_full_cnt mas - 1) mas.

Definition mas_cnt_positive (mas : ma_state) : Z :=
  if mas_full_cnt mas <? 0 then mas_full_cnt mas * -1 else mas_full_cnt mas.

(** ** The world: node memory, the slab allocator and the tree handle

    [heap] maps the address of every allocated node to its 32 words.
    [brk] is the address the allocator hands out next and [avail] the number
    of nodes it can still provide before kmem_cache_alloc returns NULL.
    [tree_addr] is the address of the struct maple_tree, which the root node
    stores in its parent word. *)

Record world : Type := MkWorld {
  heap : gmap Z (list Z);
  brk : Z;
  avail : nat;
  ma_flags : Z;
  ma_root : Z;
  tree_addr : Z
}.

Definition set_heap (h : gmap Z (list Z)) (w : world) : world :=
  MkWorld h (brk w) (avail w) (ma_flags w) (ma_root w) (tree_addr w).
Definition set_ma_flags (f : Z) (w : world) : world :=
  MkWorld (heap w) (brk w) (avail w) f (ma_root w) (tree_addr w).
Definition set_ma_root (r : Z) (w : world) : world :=
  MkWorld (heap w) (brk w) (avail w) (ma_flags w) r (tree_addr w).

Definition NODE_WORDS : nat := 32.
Definition NODE_SIZE : Z := 256.

(** [mtree_init], [mt_init_flags]: an empty tree; the memory starts empty. *)
Definition mtree_init (addr first_node : Z) (nodes : nat) (flags : Z) : world :=
  MkWorld ∅ first_node nodes flags 0 addr.

(** *** A monad for code that may write memory or hit undefined behaviour

    [None] stands for an execution the C standard leaves undefined (an access
    outside an array or to memory that is not a live node, a failed BUG_ON)
    or for a walk that ran out of the fuel given to it. *)

Definition M (A : Type) : Type := world -> option (A * world).

Definition mret {A} (a : A) : M A := fun w => Some (a, w).
Definition mbind {A B} (c : M A) (k : A -> M B) : M B :=
  fun w => match c w with
           | Some (a, w') => k a w'
           | None => None
           end.
Definition mfail {A} : M A := fun _ => None.
Definition mget : M world := fun w => Some (w, w).
Definition mput (w : world) : M unit := fun _ => Some (tt, w).
(** A read of the world. *)
Definition mread {A} (r : world -> option A) : M A :=
  fun w => match r w with Some a => Some (a, w) | None => None end.

Notation "x <- c ;; k" := (mbind c (fun x => k))
  (at level 100, c at next level, right associativity).
Notation "c ;;; k" := (mbind c (fun _ => k))
  (at level 100, right associativity).
Notation "x <-? c ;; k" := (match c with Some x => k | None => None end)
  (at level 100, c at next level, right associativity).

(** *** Words of a node *)

Definition rd_word (w : world) (node idx : Z) : option Z :=
  l <-? heap w !! node ;;
  if (0 <=? idx) && (idx <? Z.of_nat NODE_WORDS) then l !! Z.to_nat idx
  else None.

Definition wr_word (node idx v : Z) : M unit :=
  fun w =>
    l <-? heap w !! node ;;
    if (0 <=? idx) && (idx <? Z.of_nat NODE_WORDS)
    then Some (tt, set_heap (<[node := <[Z.to_nat idx := v]> l]> (heap w)) w)
    else None.

(** A little-endian field of [size] bytes at byte [off] of a node; the
    fields of the node structures never straddle two words. *)
Definition rd_field (w : world) (node off size : Z) : option Z :=
  x <-? rd_word w node (off / 8) ;;
  Some (Z.land (Z.shiftr x (8 * (off mod 8))) (Z.ones (8 * size))).

Definition wr_field (node off size v : Z) : M unit :=
  x <- mread (fun w => rd_word w node (off / 8)) ;;
  let sh := 8 * (off mod 8) in
  let mask := Z.shiftl (Z.ones (8 * size)) sh in
  wr_word node (off / 8)
    (Z.lor (clear_bits x mask) (Z.shiftl (Z.land v (Z.ones (8 * size))) sh)).

(** The parent word, first member of every view of the union. *)
Definition rd_parent (w : world) (node : Z) : option Z := rd_word w node 0.
Definition wr_parent (node v : Z) : M unit := wr_word node 0 v.

(** Where the pivot array of a node type lives: the byte offset of
    [pivot[0]], the size of an element and the length of the array.  A dense
    node has none; the sparse_6 node has a single pivot word. *)
Definition pivot_layout (t : maple_type) : option (Z * Z * Z) :=
  match t with
  | maple_arange_64 => Some (8, 8, MAPLE_ARANGE64_SLOTS - 1)
  | maple_range_64 | maple_leaf_64 => Some (8, 8, MAPLE_RANGE64_SLOTS - 1)
  | maple_sparse_6 => Some (8, 8, 1)
  | maple_sparse_9 => Some (8, 8, (MAPLE_SPARSE9_SLOTS + 6) / 7)
  | maple_sparse_16 => Some (8, 2, MAPLE_SPARSE16_SLOTS)
  | maple_sparse_21 => Some (8, 8, (MAPLE_SPARSE21_SLOTS + 2) / 3)
  | maple_sparse_32 => Some (8, 4, MAPLE_SPARSE32_SLOTS)
  | maple_sparse_64 => Some (8, 8, MAPLE_SPARSE64_SLOTS)
  | maple_range_16 | maple_leaf_16 => Some (8, 2, MAPLE_RANGE16_SLOTS - 1)
  | maple_range_32 | maple_leaf_32 => Some (8, 4, MAPLE_RANGE32_SLOTS - 1)
  | maple_dense => None
  end.

(** Where the slot array lives: the word index of [slot[0]] and the length
    of the array. *)
Definition slot_layout (t : maple_type) : Z * Z :=
  match t with
  | maple_range_64 | maple_leaf_64 => (16, MAPLE_RANGE64_SLOTS)
  | maple_dense => (1, MAPLE_NODE_SLOTS)
  | maple_arange_64 => (10, MAPLE_ARANGE64_SLOTS)
  | maple_sparse_6 => (2, MAPLE_SPARSE6_SLOTS)
  | maple_sparse_9 => (5, MAPLE_SPARSE9_SLOTS)
  | maple_sparse_16 => (7, MAPLE_SPARSE16_SLOTS)
  | maple_sparse_21 => (9, MAPLE_SPARSE21_SLOTS)
  | maple_sparse_32 => (11, MAPLE_SPARSE32_SLOTS)
  | maple_sparse_64 => (16, MAPLE_SPARSE64_SLOTS)
  | maple_range_16 | maple_leaf_16 => (7, MAPLE_RANGE16_SLOTS)
  | maple_range_32 | maple_leaf_32 => (11, MAPLE_RANGE32_SLOTS)
  end.

(** The gap array of an arange_64 node follows its slots. *)
Definition GAP_WORD : Z := 20.

(** The decoded type of an encoded node. *)
Definition node_type (enode : Z) : option maple_type :=
  type_of_code (mte_node_type enode).

(** [ma_get_pivot]; [slot] is an unsigned char. *)
Definition ma_get_pivot (w : world) (mn slot : Z) (type : maple_type)
  : option Z :=
  match type with
  | maple_dense => Some 0
  | maple_sparse_6 => rd_field w mn 8 8
  | _ =>
    match pivot_layout type with
    | Some (off, size, len) =>
      if (0 <=? slot) && (slot <? len)
      then rd_field w mn (off + size * slot) size
      else None
    | None => None
    end
  end.

Definition _mte_get_pivot (w : world) (mn slot : Z) (type : maple_type)
  : option Z :=
  ma_get_pivot w (mte_to_node mn) slot type.

Definition mte_get_pivot (w : world) (mn slot : Z) : option Z :=
  type <-? node_type mn ;; _mte_get_pivot w mn slot type.

Definition _mas_get_safe_pivot (w : world) (mas : ma_state) (slot : Z)
    (type : maple_type) : option Z :=
  if mt_pivots type <=? slot then Some (mas_max mas)
  else _mte_get_pivot w (mas_node mas) slot type.

Definition mas_get_safe_pivot (w : world) (mas : ma_state) (slot : Z)
  : option Z :=
  type <-? node_type (mas_node mas) ;; _mas_get_safe_pivot w mas slot type.

Definition mas_get_safe_lower_bound (w : world) (mas : ma_state) (slot : Z)
  : option Z :=
  if slot =? 0 then Some (mas_min mas)
  else p <-? mas_get_safe_pivot w mas (slot - 1) ;; Some (u64 (p + 1)).

(** [ma_set_pivot]; the BUG_ON is a failure. *)
Definition ma_set_pivot (mn slot : Z) (type : maple_type) (val : Z) : M unit :=
  if mt_pivots type <=? slot then mfail
  else
    match type with
    | maple_dense => mret tt
    | maple_sparse_6 => wr_field mn 8 8 val
    | _ =>
      match pivot_layout type with
      | Some (off, size, len) =>
        if (0 <=? slot) && (slot <? len)
        then wr_field mn (off + size * slot) size val
        else mfail
      | None => mfail
      end
    end.

Definition mte_set_pivot (mn slot val : Z) : M unit :=
  match node_type mn with
  | Some type => ma_set_pivot (mte_to_node mn) slot type val
  | None => mfail
  end.

(** [ma_get_rcu_slot]. *)
Definition ma_get_rcu_slot (w : world) (mn slot : Z) (type : maple_type)
  : option Z :=
  let '(base, len) := slot_layout type in
  if (0 <=? slot) && (slot <? len) then rd_word w mn (base + slot) else None.

Definition _mte_get_rcu_slot (w : world) (mn slot : Z) (type : maple_type)
  : option Z :=
  ma_get_rcu_slot w (mte_to_node mn) slot type.

Definition mte_get_rcu_slot (w : world) (mn slot : Z) : option Z :=
  type <-? node_type mn ;; _mte_get_rcu_slot w mn slot type.

Definition mas_get_rcu_slot (w : world) (mas : ma_state) (slot : Z)
  : option Z :=
  mte_get_rcu_slot w (mas_node mas) slot.

(** [ma_set_rcu_slot]; the BUG_ON is a failure. *)
Definition ma_set_rcu_slot (mn slot : Z) (type : maple_type) (val : Z)
  : M unit :=
  if mt_slots type <=? slot then mfail
  else
    let '(base, len) := slot_layout type in
    if (0 <=? slot) && (slot <? len) then wr_word mn (base + slot) val
    else mfail.

Definition mte_set_rcu_slot (mn slot val : Z) : M unit :=
  match node_type mn with
  | Some type => ma_set_rcu_slot (mte_to_node mn) slot type val
  | None => mfail
  end.

(** [ma_get_gap], [mte_get_gap], [mte_set_gap]. *)
Definition ma_get_gap (w : world) (mn gap : Z) (type : maple_type)
  : option Z :=
  match type with
  | maple_arange_64 =>
    if (0 <=? gap) && (gap <? MAPLE_ARANGE64_SLOTS)
    then rd_word w mn (GAP_WORD + gap) else None
  | _ => Some 0
  end.

Definition mte_get_gap (w : world) (mn gap : Z) : option Z :=
  type <-? node_type mn ;; ma_get_gap w (mte_to_node mn) gap type.

Definition mte_set_gap (mn gap val : Z) : M unit :=
  match node_type mn with
  | Some maple_arange_64 =>
    if (0 <=? gap) && (gap <? MAPLE_ARANGE64_SLOTS)
    then wr_word (mte_to_node mn) (GAP_WORD + gap) val else mfail
  | Some _ => mret tt
  | None => mfail
  end.

(** ** Parent words *)

Definition ma_is_root (w : world) (node : Z) : option bool :=
  p <-? rd_parent w node ;; Some (nonzero (Z.land p MA_ROOT_PARENT)).

Definition mte_is_root (w : world) (enode : Z) : option bool :=
  ma_is_root w (mte_to_node enode).

Definition mte_parent_shift (parent : Z) : Z :=
  if Z.land parent 2 =? 0 then 2 else 3.

Definition mte_parent_range_enum (parent : Z) : maple_type :=
  if parent =? 6 then maple_range_64
  else if parent =? 4 then maple_range_32
  else if parent =? 0 then maple_range_16
  else maple_dense.

Definition mte_parent_alloc_enum (parent : Z) : maple_type :=
  if parent =? 6 then maple_arange_64 else maple_dense.

Definition mas_parent_enum (w : world) (mas : ma_state) (node : Z)
  : option maple_type :=
  r <-? mte_is_root w (mas_node mas) ;;
  parent <-? (if r then Some 6
              else p <-? rd_parent w (mte_to_node node) ;;
                   Some (Z.land p (Z.shiftl 1 (mte_parent_shift p) - 1))) ;;
  if mt_is_alloc (ma_flags w) then Some (mte_parent_alloc_enum parent)
  else Some (mte_parent_range_enum parent).

(** [mte_set_parent]; [slot] is an unsigned char. *)
Definition mte_set_parent (node parent slot : Z) : M unit :=
  let bitmask := 120 in                      (* 0x78 *)
  match node_type parent with
  | None => mfail
  | Some ptype =>
    let '(slot_shift, type) :=
      match ptype with
      | maple_range_64 | maple_arange_64 => (3, 6)
      | maple_range_32 => (3, 2)
      | maple_range_16 => (2, 0)
      | _ => (3, 0)
      end in
    let val := clear_bits parent bitmask in
    let val := Z.lor val (Z.shiftl slot slot_shift) in
    let val := Z.lor val type in
    wr_parent (mte_to_node node) val
  end.

Definition mte_parent_slot (w : world) (node : Z) : option Z :=
  let bitmask := 124 in                      (* 0x7C *)
  val <-? rd_parent w (mte_to_node node) ;;
  let slot_shift := mte_parent_shift val in
  if nonzero (Z.land val 1) then Some 0
  else Some (Z.shiftr (Z.land val bitmask) slot_shift).

Definition mte_parent (w : world) (node : Z) : option Z :=
  p <-? rd_parent w (mte_to_node node) ;; Some (clear_bits p 127).

Definition mte_dead_node (w : world) (enode : Z) : option bool :=
  parent <-? mte_parent w enode ;; Some (parent =? mte_to_node enode).

Definition mte_set_node_dead (mn : Z) : M unit :=
  wr_parent (mte_to_node mn) (mte_to_node mn).

(** [ma_free_rcu]: the node is marked dead and handed to call_rcu; the
    grace period does not end while an operation runs, so the node stays
    readable. *)
Definition ma_free_rcu (node : Z) : M unit := wr_parent node node.
Definition mte_free (enode : Z) : M unit := ma_free_rcu (mte_to_node enode).

(** ** The slab cache *)

(** [mt_alloc_one]: kmem_cache_alloc with __GFP_ZERO; NULL when the cache
    has nothing left. *)
Definition mt_alloc_one : M Z :=
  fun w =>
    match avail w with
    | O => Some (0, w)
    | S n =>
      Some (brk w,
            MkWorld (<[brk w := replicate NODE_WORDS 0]> (heap w))
                    (brk w + NODE_SIZE) n (ma_flags w) (ma_root w)
                    (tree_addr w))
    end.

(** [kmem_cache_free]: the node is gone at once. *)
Definition kmem_cache_free (node : Z) : M unit :=
  fun w =>
    match heap w !! node with
    | Some _ => Some (tt, set_heap (delete node (heap w)) w)
    | None => None
    end.

(** ** The allocation pool of a cursor *)

(** [ma_get_node_alloc_cnt]; [fuel] bounds the depth of the recursion. *)
Fixpoint ma_get_node_alloc_cnt (fuel : nat) (w : world) (node : Z)
  : option Z :=
  match fuel with
  | O => None
  | S f =>
    (fix loop (n : nat) (slot ret : Z) {struct n} : option Z :=
       match n with
       | O => Some ret
       | S n' =>
         s <-? rd_word w node (1 + slot) ;;
         if s =? 0 then Some ret
         else
           s0 <-? rd_word w s 1 ;;
           if nonzero s0
           then c <-? ma_get_node_alloc_cnt f w s ;; loop n' (slot + 1) (ret + c)
           else loop n' (slot + 1) (ret + 1)
       end) (Z.to_nat MAPLE_NODE_SLOTS) 0 1
  end.

Definition ALLOC_DEPTH : nat := 8.

Definition mas_get_alloc_cnt (w : world) (mas : ma_state) : option Z :=
  let node := mas_get_alloc mas in
  if node =? 0 then Some 0 else ma_get_node_alloc_cnt ALLOC_DEPTH w node.

Definition mas_next_alloc (ms : ma_state) : M (Z * ma_state) :=
  if mas_alloc_word ms =? 0 then mret (0, ms)
  else
    cnt <- mread (fun w => mas_get_alloc_cnt w ms) ;;
    let mn := mas_get_alloc ms in
    if cnt =? 1 then mret (mn, set_alloc 0 ms)
    else if cnt <=? MAPLE_NODE_SLOTS + 1 then
      let cnt := cnt - 2 in
      smn <- mread (fun w => rd_word w mn (1 + cnt)) ;;
      wr_word mn (1 + cnt) 0 ;;;
      mret (smn, ms)
    else
      let cnt := cnt - 2 in
      smn <- mread (fun w => rd_word w mn (1 + (cnt / MAPLE_NODE_SLOTS - 1))) ;;
      mn' <- mread (fun w => rd_word w smn (1 + cnt mod MAPLE_NODE_SLOTS)) ;;
      wr_word smn (1 + cnt mod MAPLE_NODE_SLOTS) 0 ;;;
      mret (mn', ms).

(** The while loop of [mas_node_node]; [n] bounds the request count. *)
Fixpoint mas_node_node_loop (n : nat) (head mn slot req allocated : Z)
  : M Z :=
  match n with
  | O => mret req
  | S n' =>
    if req <=? 0 then mret req
    else
      smn <- mt_alloc_one ;;
      if smn =? 0 then mret req
      else
        wr_parent smn 0 ;;;
        wr_word mn (1 + slot) smn ;;;
        let req := req - 1 in
        let allocated := allocated + 1 in
        let slot := slot + 1 in
        if MAPLE_NODE_SLOTS <=? slot then
          let slot := (allocated - 1) / MAPLE_NODE_SLOTS in
          mn' <- mread (fun w => rd_word w head (1 + (slot - 1))) ;;
          mas_node_node_loop n' head mn' 0 req allocated
        else mas_node_node_loop n' head mn slot req allocated
  end.

Definition mas_node_node (ms : ma_state) : M ma_state :=
  let req := mas_get_alloc_req ms in
  allocated <- mread (fun w => mas_get_alloc_cnt w ms) ;;
  if req =? 0 then mret ms
  else
    let mn := mas_get_alloc ms in
    mn1 <- (if mn =? 0 then mt_alloc_one else mret mn) ;;
    if mn1 =? 0 then
      (* list_failed *)
      mret (if 0 <? req then mas_set_err (- ENOMEM) ms else ms)
    else
      let req := if mn =? 0 then req - 1 else req in
      let allocated := if mn =? 0 then allocated + 1 else allocated in
      let ms := set_alloc mn1 ms in
      let slot := allocated - 1 in
      mn2 <- (if MAPLE_NODE_SLOTS <=? allocated - 1
              then mread (fun w =>
                     rd_word w mn1 (1 + (slot / MAPLE_NODE_SLOTS - 1)))
              else mret mn1) ;;
      let slot := if MAPLE_NODE_SLOTS <=? allocated - 1
                  then slot / MAPLE_NODE_SLOTS else slot in
      req' <- mas_node_node_loop 128 mn1 mn2 slot req allocated ;;
      (* slot_failed *)
      let ms := mas_set_alloc_req req' ms in
      (* list_failed *)
      mret (if 0 <? req' then mas_set_err (- ENOMEM) ms else ms).

Fixpoint mas_empty_alloc_loop (n : nat) (mas : ma_state) : M ma_state :=
  match n with
  | O => mfail
  | S n' =>
    if mas_get_alloc mas =? 0 then mret mas
    else
      r <- mas_next_alloc mas ;;
      kmem_cache_free (fst r) ;;;
      mas_empty_alloc_loop n' (snd r)
  end.

Definition mas_empty_alloc (mas : ma_state) : M ma_state :=
  mas_empty_alloc_loop 256 mas.

(** [mas_nomem]: whether the caller retries, and the cursor. *)
Definition mas_nomem (mas : ma_state) : M (bool * ma_state) :=
  if negb (mas_node mas =? MA_ERROR (- ENOMEM)) then
    mas <- mas_empty_alloc mas ;; mret (false, mas)
  else
    mas <- mas_node_node mas ;;
    if mas_get_alloc mas =? 0 then mret (false, mas)
    else mret (true, set_node MAS_START mas).

Definition mas_node_cnt (mas : ma_state) (count : Z) : M ma_state :=
  allocated <- mread (fun w => mas_get_alloc_cnt w mas) ;;
  if 127 <? count then mfail
  else if allocated <? count then
    mas_node_node (mas_set_alloc_req (count - allocated) mas)
  else mret mas.

(** ** Moving a cursor *)

Definition mas_descend (w : world) (mas : ma_state) : option ma_state :=
  let slot := mas_offset mas in
  mas1 <-? (if nonzero slot
            then p <-? mas_get_safe_pivot w mas (slot - 1) ;;
                 Some (set_min (u64 (p + 1)) mas)
            else Some mas) ;;
  p <-? mas_get_safe_pivot w mas1 slot ;;
  let mas2 := set_max p mas1 in
  n <-? mas_get_rcu_slot w mas2 (mas_offset mas2) ;;
  Some (set_node n mas2).

(** The tail of [mas_ascend] from the label no_parent on: either the new
    bounds, or the order to ascend once more. *)
Definition mas_ascend_no_parent (w : world) (a_node : Z) (a_type : Z)
    (min max : Z) (is_set_min is_set_max : bool) : option (Z * Z) :=
  r <-? ma_is_root w a_node ;;
  t <-? (if r && negb is_set_max then
           t <-? type_of_code a_type ;; Some (mt_max t)
         else Some max) ;;
  let min := if r && negb is_set_min then 0 else min in
  Some (min, t).

Fixpoint mas_ascend_loop (fuel : nat) (w : world) (mas : ma_state)
    (p_enode min max : Z) (is_set_min is_set_max : bool) : option ma_state :=
  match fuel with
  | O => None
  | S f =>
    a_type <-? mas_parent_enum w mas (mas_node mas) ;;
    a_node <-? mte_parent w (mas_node mas) ;;
    a_slot <-? mte_parent_slot w (mas_node mas) ;;
    let a_enode := mt_mk_node a_node (type_code a_type) in
    mn <-? (if negb is_set_min && nonzero a_slot
            then p <-? mte_get_pivot w a_enode (a_slot - 1) ;;
                 Some (u64 (p + 1))
            else Some min) ;;
    let is_set_min' := is_set_min || nonzero a_slot in
    mx <-? (if negb is_set_max && (a_slot <? mt_pivots a_type)
            then mte_get_pivot w a_enode a_slot
            else Some max) ;;
    let is_set_max' := is_set_max || (a_slot <? mt_pivots a_type) in
    b <-? mas_ascend_no_parent w a_node (type_code a_type) mn mx
            is_set_min' is_set_max' ;;
    let '(min', max') := b in
    if (max' =? 0) || (min' =? ULONG_MAX) then
      if mas_node mas =? a_enode then None
      else mas_ascend_loop f w (set_node a_enode mas) p_enode min' max'
             is_set_min' is_set_max'
    else Some (set_node p_enode (set_min min' (set_max max' mas)))
  end.

Definition TREE_DEPTH : nat := 32.

Definition mas_ascend (w : world) (mas : ma_state) : option ma_state :=
  let a_node := mas_mn mas in
  r <-? ma_is_root w a_node ;;
  if r then
    b <-? mas_ascend_no_parent w a_node (mte_node_type (mas_node mas))
            ULONG_MAX 0 false false ;;
    let '(min', max') := b in
    if (max' =? 0) || (min' =? ULONG_MAX) then None
    else Some (set_node (mas_node mas) (set_min min' (set_max max' mas)))
  else
    pt <-? mas_parent_enum w mas (mas_node mas) ;;
    pn <-? mte_parent w (mas_node mas) ;;
    let p_enode := mt_mk_node pn (type_code pt) in
    pr <-? mte_is_root w p_enode ;;
    if pr then
      b <-? mas_ascend_no_parent w (mte_to_node p_enode) (type_code pt)
              ULONG_MAX 0 false false ;;
      let '(min', max') := b in
      if (max' =? 0) || (min' =? ULONG_MAX) then
        if mas_node mas =? p_enode then None
        else mas_ascend_loop TREE_DEPTH w (set_node p_enode mas) p_enode
               min' max' false false
      else Some (set_node p_enode (set_min min' (set_max max' mas)))
    else
      mas_ascend_loop TREE_DEPTH w (set_node p_enode mas) p_enode
        ULONG_MAX 0 false false.

(** [mas_set_height]: the depth of the cursor goes to the height bits. *)
Definition mas_set_height (mas : ma_state) : M unit :=
  fun w =>
    let new_flags := u32 (clear_bits (ma_flags w) MAPLE_HEIGHT_MASK) in
    let new_flags :=
      u32 (Z.lor new_flags (Z.shiftl (mas_depth mas) MAPLE_HEIGHT_OFFSET)) in
    Some (tt, set_ma_flags new_flags w).

Definition mas_mt_height (w : world) : Z := mt_height (ma_flags w).

(** [mas_start]: the entry it returns and the cursor. *)
Definition mas_start (w : world) (mas : ma_state) : Z * ma_state :=
  if mas_is_err mas then (0, mas)
  else if mas_is_start mas then
    let mas := set_node MAS_NONE mas in
    let mas := set_min 0 mas in
    let mas := set_max ULONG_MAX mas in
    let mas := mas_set_offset 0 mas in
    if ma_root w =? 0 then (0, mas)
    else
      let root := mte_safe_root (ma_root w) in
      if negb (xa_is_node (ma_root w)) then
        if 0 <? mas_index mas then (0, mas)
        else (ma_root w,
              mas_set_offset MAPLE_NODE_SLOTS (set_node MAS_ROOT mas))
      else (0, set_node root mas)
  else (0, mas).

(** ** The end of the data of a node *)

(** The for loop of [_mas_data_end]: the slot (an int) and the last
    pivot. *)
Fixpoint _mas_data_end_loop (n : nat) (w : world) (mas : ma_state)
    (type : maple_type) (slot piv prev_piv : Z) : option (Z * Z) :=
  match n with
  | O => Some (slot, piv)
  | S n' =>
    piv <-? _mas_get_safe_pivot w mas slot type ;;
    if mas_max mas <=? piv then Some (slot, piv)
    else if (piv =? 0) && nonzero slot then Some (slot - 1, prev_piv)
    else _mas_data_end_loop n' w mas type (slot + 1) piv piv
  end.

(** [_mas_data_end]: the slot, as the unsigned char returned, and the last
    pivot. *)
Definition _mas_data_end (w : world) (mas : ma_state) (type : maple_type)
  : option (Z * Z) :=
  t <-? node_type (mas_node mas) ;;
  r <-? _mas_data_end_loop (Z.to_nat (mt_slots t)) w mas type 0
          (mas_min mas) (mas_min mas) ;;
  Some (u8 (fst r), snd r).

Definition mas_data_end (w : world) (mas : ma_state) : option Z :=
  t <-? node_type (mas_node mas) ;;
  r <-? _mas_data_end w mas t ;;
  Some (fst r).

(** ** Gaps *)

(** The dense loop of [mas_leaf_max_gap]. *)
Fixpoint mas_leaf_max_gap_dense (n : nat) (w : world) (mas : ma_state)
    (i gap max_gap : Z) : option Z :=
  match n with
  | O => Some (if max_gap <? gap then gap else max_gap)
  | S n' =>
    entry <-? mas_get_rcu_slot w mas i ;;
    if negb (mt_is_empty entry)
    then mas_leaf_max_gap_dense n' w mas (i + 1) 0
           (if max_gap <? gap then gap else max_gap)
    else mas_leaf_max_gap_dense n' w mas (i + 1) (u64 (gap + 1)) max_gap
  end.

(** The loop of [mas_leaf_max_gap] over the ranges of a leaf. *)
Fixpoint mas_leaf_max_gap_loop (n : nat) (w : world) (mas : ma_state)
    (i pstart max_gap : Z) : option Z :=
  match n with
  | O => Some max_gap
  | S n' =>
    pend <-? mas_get_safe_pivot w mas i ;;
    let pend := if (pend =? 0) && nonzero i then mas_max mas else pend in
    let gap := u64 (pend - pstart + 1) in
    entry <-? mas_get_rcu_slot w mas i ;;
    let max_gap :=
      if negb (mt_is_empty entry) then max_gap
      else if max_gap <? gap then gap else max_gap in
    if mas_max mas <=? pend then Some max_gap
    else mas_leaf_max_gap_loop n' w mas (i + 1) (u64 (pend + 1)) max_gap
  end.

Definition mas_leaf_max_gap (w : world) (mas : ma_state) : option Z :=
  mt <-? node_type (mas_node mas) ;;
  if ma_is_dense (type_code mt)
  then mas_leaf_max_gap_dense (Z.to_nat (mt_slots mt)) w mas 0 0 0
  else mas_leaf_max_gap_loop (Z.to_nat (mt_slots mt)) w mas 0 (mas_min mas) 0.

Fixpoint mas_max_gap_loop (n : nat) (w : world) (mas : ma_state)
    (i max_gap : Z) : option Z :=
  match n with
  | O => Some max_gap
  | S n' =>
    gap <-? mte_get_gap w (mas_node mas) i ;;
    mas_max_gap_loop n' w mas (i + 1) (if max_gap <? gap then gap else max_gap)
  end.

Definition mas_max_gap (w : world) (mas : ma_state) : option Z :=
  t <-? node_type (mas_node mas) ;;
  mas_max_gap_loop (Z.to_nat (mt_slots t)) w mas 0 0.

Definition mas_find_gap (w : world) (mas : ma_state) : option Z :=
  if mte_is_leaf (mas_node mas) then mas_leaf_max_gap w mas
  else mas_max_gap w mas.

(** The loop of [mas_parent_gap] from the label ascend. *)
Fixpoint mas_parent_gap_loop (fuel : nat) (gaps : ma_state) (slot new : Z)
  : M unit :=
  match fuel with
  | O => mfail
  | S f =>
    gaps <- mread (fun w => mas_ascend w gaps) ;;
    old_max_gap <- mread (fun w => mas_max_gap w gaps) ;;
    mte_set_gap (mas_node gaps) slot new ;;;
    new <- mread (fun w => mas_max_gap w gaps) ;;
    if new =? old_max_gap then mret tt
    else
      r <- mread (fun w => mte_is_root w (mas_node gaps)) ;;
      if (r : bool) then mret tt
      else
        slot <- mread (fun w => mte_parent_slot w (mas_node gaps)) ;;
        mas_parent_gap_loop f gaps slot new
  end.

Definition mas_parent_gap (mas : ma_state) (slot new : Z) : M unit :=
  let gaps := mas_dup_state (MA_STATE (mas_index mas) (mas_last mas)) mas in
  mas_parent_gap_loop TREE_DEPTH gaps slot new.

Definition mas_update_gap (mas : ma_state) : M unit :=
  w <- mget ;;
  if negb (mt_is_alloc (ma_flags w)) then mret tt
  else
    r <- mread (fun w => mte_is_root w (mas_node mas)) ;;
    if (r : bool) then mret tt
    else
      max_gap <- mread (fun w => if mte_is_leaf (mas_node mas)
                                 then mas_leaf_max_gap w mas
                                 else mas_max_gap w mas) ;;
      pslot <- mread (fun w => mte_parent_slot w (mas_node mas)) ;;
      p_gap <- mread (fun w =>
                 p <-? mte_parent w (mas_node mas) ;;
                 t <-? mas_parent_enum w mas (mas_node mas) ;;
                 ma_get_gap w p pslot t) ;;
      if negb (p_gap =? max_gap) then mas_parent_gap mas pslot max_gap
      else mret tt.

(** ** Walking a node and the tree *)

(** The result of a walk that reports a range: the answer, the cursor and
    the two out-parameters, which keep the value they had when the walk does
    not set them. *)
Record walk_result : Set := MkWalk {
  wk_ret : bool;
  wk_mas : ma_state;
  wk_min : Z;
  wk_max : Z
}.

(** The for loop of [mas_node_walk]: i, min, pivot and ret. *)
Fixpoint mas_node_walk_loop (n : nat) (w : world) (mas : ma_state)
    (type : maple_type) (i min pivot : Z) : option (Z * Z * Z * bool) :=
  match n with
  | O => Some (i, min, pivot, true)
  | S n' =>
    pivot <-? _mas_get_safe_pivot w mas i type ;;
    if (pivot =? 0) && nonzero i then
      if mas_max mas <? mas_index mas
      then Some (MAPLE_NODE_SLOTS, min, mas_max mas, false)
      else Some (i, min, mas_max mas, true)
    else if mas_index mas <=? pivot then Some (i, min, pivot, true)
    else mas_node_walk_loop n' w mas type (i + 1) (u64 (pivot + 1)) pivot
  end.

Definition mas_node_walk (w : world) (mas : ma_state) (type : maple_type)
    (range_min range_max : Z) : option walk_result :=
  match type with
  | maple_dense =>
    let i := u8 (mas_min mas) in
    let mas' := set_index (mas_min mas) mas in
    Some (MkWalk true (mas_set_offset i mas') (mas_index mas) (mas_index mas))
  | _ =>
    r <-? mas_node_walk_loop (Z.to_nat (mt_slots type - mas_offset mas)) w mas
            type (mas_offset mas) (mas_min mas) 0 ;;
    let '(i, min, pivot, ret) := r in
    Some (MkWalk ret (mas_set_offset i mas)
            (if ret then min else range_min)
            (if ret then pivot else range_max))
  end.

(** The while loop of [mas_wr_walk]. *)
Fixpoint mas_wr_walk_loop (fuel : nat) (w : world) (mas : ma_state)
    (range_min range_max entry : Z) : option walk_result :=
  match fuel with
  | O => None
  | S f =>
    type <-? node_type (mas_node mas) ;;
    let mas := set_depth (u8 (mas_depth mas + 1)) mas in
    end_ <-? mas_data_end w mas ;;
    r <-? mas_node_walk w mas type range_min range_max ;;
    if negb (wk_ret r) then Some (MkWalk false (wk_mas r) (wk_min r) (wk_max r))
    else
      let '(span, mas) := mas_is_span_wr (wk_mas r) (wk_max r) entry in
      if span
      then Some (MkWalk (ma_is_leaf (type_code type)) mas (wk_min r) (wk_max r))
      else if ma_is_leaf (type_code type)
      then Some (MkWalk true mas (wk_min r) (wk_max r))
      else
        let mas :=
          if end_ <=? mt_min_slots type then mas_cnt_empty mas
          else if mt_slots type - 1 <=? end_ then mas_cnt_full mas
          else set_full_cnt 0 mas in
        next <-? mas_get_rcu_slot w mas (mas_offset mas) ;;
        let mas := set_min (wk_min r) (set_max (wk_max r) mas) in
        if mt_is_empty next
        then Some (MkWalk false mas (wk_min r) (wk_max r))
        else mas_wr_walk_loop f w (mas_set_offset 0 (set_node next mas))
               (wk_min r) (wk_max r) entry
  end.

Definition mas_wr_walk (w : world) (mas : ma_state)
    (range_min range_max entry : Z) : option walk_result :=
  let mas := set_depth 0 (set_full_cnt 0 (set_span_enode 0 mas)) in
  mas_wr_walk_loop TREE_DEPTH w mas range_min range_max entry.

(** The while loop of [__mas_walk]. *)
Fixpoint __mas_walk (fuel : nat) (w : world) (mas : ma_state)
    (range_min range_max : Z) : option walk_result :=
  match fuel with
  | O => None
  | S f =>
    let mas := set_depth (u8 (mas_depth mas + 1)) mas in
    type <-? node_type (mas_node mas) ;;
    r <-? mas_node_walk w mas type range_min range_max ;;
    if negb (wk_ret r) then Some (MkWalk false (wk_mas r) (wk_min r) (wk_max r))
    else if ma_is_leaf (type_code type) then Some r
    else
      let mas := wk_mas r in
      next <-? mas_get_rcu_slot w mas (mas_offset mas) ;;
      if mt_is_empty next
      then Some (MkWalk false mas (wk_min r) (wk_max r))
      else
        let mas := set_min (wk_min r) (set_max (wk_max r) mas) in
        __mas_walk f w (mas_set_offset 0 (set_node next mas))
          (wk_min r) (wk_max r)
  end.

Definition _mas_range_walk (w : world) (mas : ma_state)
    (range_min range_max : Z) : option walk_result :=
  let '(entry, mas) := mas_start w mas in
  if nonzero entry then Some (MkWalk true mas range_min range_max)
  else if mas_is_none mas
  then Some (MkWalk false (mas_set_offset MAPLE_NODE_SLOTS mas)
               range_min range_max)
  else if mas_is_ptr mas then Some (MkWalk true mas range_min range_max)
  else __mas_walk TREE_DEPTH w (mas_set_offset 0 mas) range_min range_max.

Definition _mas_walk (w : world) (mas : ma_state) : option (bool * ma_state) :=
  r <-? _mas_range_walk w mas 0 0 ;; Some (wk_ret r, wk_mas r).

(** [mas_range_load]: the entry, the cursor and the range.  [fuel] bounds
    the retries on a dead node. *)
Fixpoint mas_range_load (fuel : nat) (w : world) (mas : ma_state)
    (range_min range_max : Z) : option (Z * walk_result) :=
  match fuel with
  | O => None
  | S f =>
    r <-? _mas_range_walk w mas range_min range_max ;;
    let mas := wk_mas r in
    if wk_ret r then
      if mas_is_ptr mas && (mas_last mas =? 0)
      then Some (mte_safe_root (ma_root w), r)
      else
        let slot := mas_offset mas in
        if MAPLE_NODE_SLOTS <=? slot then Some (0, r)
        else
          entry <-? mas_get_rcu_slot w mas slot ;;
          dead <-? mte_dead_node w (mas_node mas) ;;
          if (dead : bool) then mas_range_load f w mas (wk_min r) (wk_max r)
          else if mas_is_none mas then Some (0, r)
          else Some (entry, r)
    else Some (0, r)
  end.

Definition RETRIES : nat := 4.

Definition mas_load (w : world) (mas : ma_state) : option (Z * ma_state) :=
  r <-? mas_range_load RETRIES w mas 0 0 ;; Some (fst r, wk_mas (snd r)).

(** [mtree_load]. *)
Definition mtree_load (w : world) (index : Z) : option Z :=
  r <-? mas_load w (MA_STATE index index) ;;
  let entry := fst r in
  if xa_is_zero entry then Some 0 else Some entry.

(** ** Topiary: the lists of dead nodes

    The list is threaded through the nodes themselves: [next] of
    struct maple_topiary overlaps the first pivot word. *)

Record ma_topiary : Set := MkTopiary { mat_head : Z; mat_tail : Z }.

Definition MA_TOPIARY : ma_topiary := MkTopiary 0 0.

Definition mte_to_mat (entry : Z) : Z := clear_bits entry 127.
Definition MAT_NEXT_WORD : Z := 1.

Definition mat_add (mat : ma_topiary) (dead_enode : Z) : M ma_topiary :=
  mte_set_node_dead dead_enode ;;;
  wr_word (mte_to_mat dead_enode) MAT_NEXT_WORD 0 ;;;
  if mat_tail mat =? 0 then mret (MkTopiary dead_enode dead_enode)
  else
    wr_word (mte_to_mat (mat_tail mat)) MAT_NEXT_WORD dead_enode ;;;
    mret (MkTopiary (mat_head mat) dead_enode).

(** [mte_destroy_walk]: the type and the flags are saved in the node, the
    node is marked dead and its sub-tree is left to call_rcu. *)
Definition mte_destroy_walk (enode : Z) : M unit :=
  let node := mte_to_node enode in
  w <- mget ;;
  wr_field node 24 4 (mte_node_type enode) ;;;
  wr_field node 36 4 (ma_flags w) ;;;
  mte_set_node_dead enode.

Fixpoint mat_free_loop (fuel : nat) (head : Z) (recursive : bool) : M unit :=
  match fuel with
  | O => mfail
  | S f =>
    if head =? 0 then mret tt
    else
      next <- mread (fun w => rd_word w (mte_to_mat head) MAT_NEXT_WORD) ;;
      (if recursive then mte_destroy_walk head else mte_free head) ;;;
      mat_free_loop f next recursive
  end.

Definition mat_free (mat : ma_topiary) (recursive : bool) : M unit :=
  mat_free_loop 1024 (mat_head mat) recursive.

(** ** Replacing a node *)

Fixpoint mas_adopt_children_loop (n : nat) (parent : Z) (type : maple_type)
    (slot : Z) : M unit :=
  match n with
  | O => mret tt
  | S n' =>
    let slot_cnt := mt_slots type in
    stop <- mread (fun w =>
              if nonzero slot && (slot <? slot_cnt - 1)
              then p <-? _mte_get_pivot w parent slot type ;; Some (p =? 0)
              else Some false) ;;
    if (stop : bool) then mret tt
    else
      child <- mread (fun w => _mte_get_rcu_slot w parent slot type) ;;
      (if negb (mt_is_empty child) then mte_set_parent child parent slot
       else mret tt) ;;;
      mas_adopt_children_loop n' parent type (slot + 1)
  end.

Definition mas_adopt_children (parent : Z) : M unit :=
  match node_type parent with
  | Some type =>
    mas_adopt_children_loop (Z.to_nat (mt_slots type)) parent type 0
  | None => mfail
  end.

Definition mas_replace (mas : ma_state) (advanced : bool) : M unit :=
  let mn := mas_mn mas in
  root <- mread (fun w => mte_is_root w (mas_node mas)) ;;
  loc <- mread (fun w =>
           if (root : bool) then Some (0, 0, ma_root w)
           else
             ptype <-? mas_parent_enum w mas (mas_node mas) ;;
             pn <-? mte_parent w (mas_node mas) ;;
             let parent := mt_mk_node pn (type_code ptype) in
             slot <-? mte_parent_slot w (mas_node mas) ;;
             prev <-? mte_get_rcu_slot w parent slot ;;
             Some (parent, slot, prev)) ;;
  let '(parent, slot, prev) := loc in
  if mte_to_node prev =? mn then mret tt
  else
    (if negb advanced && negb (mte_is_leaf (mas_node mas))
     then mas_adopt_children (mas_node mas) else mret tt) ;;;
    root <- mread (fun w => mte_is_root w (mas_node mas)) ;;
    (if (root : bool) then
       w <- mget ;;
       wr_parent mn (Z.lor (tree_addr w) MA_ROOT_PARENT) ;;;
       (fun w => Some (tt, set_ma_root (mte_mk_root (mas_node mas)) w)) ;;;
       mas_set_height mas
     else mte_set_rcu_slot parent slot (mas_node mas)) ;;;
    if negb advanced then mte_free prev else mret tt.

(** [mas_new_child]: whether a child was found, the cursor and the child. *)
Fixpoint mas_new_child_loop (n : nat) (w : world) (mas child : ma_state)
    (slot : Z) : option (bool * ma_state * ma_state) :=
  match n with
  | O => Some (false, mas, child)
  | S n' =>
    entry <-? mas_get_rcu_slot w mas slot ;;
    if entry =? 0 then Some (false, mas, child)
    else
      p <-? mte_parent w entry ;;
      if p =? mas_mn mas then
        let mas := mas_set_offset slot mas in
        let child := mas_dup_state child mas in
        let mas := mas_set_offset (slot + 1) mas in
        child <-? mas_descend w child ;;
        Some (true, mas, child)
      else mas_new_child_loop n' w mas child (u8 (slot + 1))
  end.

Definition mas_new_child (w : world) (mas child : ma_state)
  : option (bool * ma_state * ma_state) :=
  t <-? node_type (mas_node mas) ;;
  mas_new_child_loop (Z.to_nat (mt_slots t - mas_offset mas)) w mas child
    (mas_offset mas).

(** ** The big node

    struct maple_big_node is an automatic variable; its arrays are lists of
    the declared lengths, an index outside them is a failure.  Where the
    source does not clear the structure before use, it starts zeroed
    here. *)

Record maple_big_node : Set := MkBig {
  bn_slot : list Z;
  bn_pivot : list Z;
  bn_gap : list Z;
  bn_min : Z;
  b_end : Z;
  bn_type : Z
}.

Definition big_node_zero : maple_big_node :=
  MkBig (replicate (Z.to_nat MAPLE_BIG_NODE_SLOTS) 0)
        (replicate (Z.to_nat (MAPLE_BIG_NODE_SLOTS - 1)) 0)
        (replicate (Z.to_nat MAPLE_BIG_NODE_SLOTS) 0) 0 0 0.

Definition arr_get (l : list Z) (i : Z) : option Z :=
  if 0 <=? i then l !! Z.to_nat i else None.
Definition arr_set (l : list Z) (i v : Z) : option (list Z) :=
  if (0 <=? i) && (i <? Z.of_nat (length l))
  then Some (<[Z.to_nat i := v]> l) else None.

Definition bn_get_slot (b : maple_big_node) (i : Z) := arr_get (bn_slot b) i.
Definition bn_get_pivot (b : maple_big_node) (i : Z) := arr_get (bn_pivot b) i.
Definition bn_get_gap (b : maple_big_node) (i : Z) := arr_get (bn_gap b) i.
Definition bn_set_slot (i v : Z) (b : maple_big_node) : option maple_big_node :=
  l <-? arr_set (bn_slot b) i v ;;
  Some (MkBig l (bn_pivot b) (bn_gap b) (bn_min b) (b_end b) (bn_type b)).
Definition bn_set_pivot (i v : Z) (b : maple_big_node) : option maple_big_node :=
  l <-? arr_set (bn_pivot b) i v ;;
  Some (MkBig (bn_slot b) l (bn_gap b) (bn_min b) (b_end b) (bn_type b)).
Definition bn_set_gap (i v : Z) (b : maple_big_node) : option maple_big_node :=
  l <-? arr_set (bn_gap b) i v ;;
  Some (MkBig (bn_slot b) (bn_pivot b) l (bn_min b) (b_end b) (bn_type b)).
Definition bn_set_min (v : Z) (b : maple_big_node) : maple_big_node :=
  MkBig (bn_slot b) (bn_pivot b) (bn_gap b) v (b_end b) (bn_type b).
Definition bn_set_end (v : Z) (b : maple_big_node) : maple_big_node :=
  MkBig (bn_slot b) (bn_pivot b) (bn_gap b) (bn_min b) v (bn_type b).
Definition bn_set_type (v : Z) (b : maple_big_node) : maple_big_node :=
  MkBig (bn_slot b) (bn_pivot b) (bn_gap b) (bn_min b) (b_end b) v.

(** The type of the big node, which indexes the tables. *)
Definition bn_mtype (b : maple_big_node) : option maple_type :=
  type_of_code (bn_type b).

(** memmove of [size] bytes, that is [size / 8] words, of an array onto
    itself [shift] elements further. *)
Definition arr_shift_right (l : list Z) (shift words : Z) : option (list Z) :=
  if (0 <=? shift) && (0 <=? words)
     && (shift + words <=? Z.of_nat (length l))
  then Some (take (Z.to_nat shift) l
             ++ take (Z.to_nat words) l
             ++ drop (Z.to_nat (shift + words)) l)
  else None.

(** [mab_shift_right]: all three arrays move by b_end * sizeof(unsigned
    long) bytes. *)
Definition mab_shift_right (b : maple_big_node) (shift : Z)
  : option maple_big_node :=
  let words := b_end b in
  p <-? arr_shift_right (bn_pivot b) shift words ;;
  s <-? arr_shift_right (bn_slot b) shift words ;;
  g <-? arr_shift_right (bn_gap b) shift words ;;
  Some (MkBig s p g (bn_min b) (b_end b) (bn_type b)).

Definition mab_middle_node (b : maple_big_node) (split slot_cnt : Z)
  : option bool :=
  let size := b_end b in
  if 2 * slot_cnt <=? size then Some true
  else
    s <-? bn_get_slot b split ;;
    if (s =? 0) && (2 * slot_cnt - 1 <=? size) then Some true
    else Some false.

(** [mab_no_null_split]; [split] and the result are unsigned chars. *)
Definition mab_no_null_split (b : maple_big_node) (split slot_cnt : Z)
  : option Z :=
  s <-? bn_get_slot b split ;;
  t <-? bn_mtype b ;;
  if s =? 0 then
    if (split <? slot_cnt - 1) && (mt_min_slots t <? b_end b - split)
    then Some (u8 (split + 1))
    else Some (u8 (split - 1))
  else Some split.

(** The while loop of [mab_calc_split]. *)
Fixpoint mab_calc_split_loop (n : nat) (b : maple_big_node) (t : maple_type)
    (split : Z) : option Z :=
  match n with
  | O => Some split
  | S n' =>
    p <-? bn_get_pivot b split ;;
    let slot_cnt := mt_slots t in
    if (u64 (p - bn_min b) <? slot_cnt - 1) && (split <? slot_cnt - 1)
       && (mt_min_slots t - 1 <? b_end b - split)
    then mab_calc_split_loop n' b t (split + 1)
    else Some split
  end.

(** [mab_calc_split]: the split and the middle split. *)
Definition mab_calc_split (b : maple_big_node) : option (Z * Z) :=
  t <-? bn_mtype b ;;
  let split := b_end b / 2 in
  let slot_cnt := mt_slots t in
  mid <-? mab_middle_node b split slot_cnt ;;
  r <-? (if (mid : bool) then
           let split := b_end b / 3 in Some (split, u8 (split * 2))
         else
           s <-? mab_calc_split_loop 64 b t split ;; Some (s, 0)) ;;
  let '(split, mid_split) := r in
  split <-? mab_no_null_split b (u8 split) slot_cnt ;;
  if mid_split =? 0 then Some (split, 0)
  else
    mid_split <-? mab_no_null_split b mid_split slot_cnt ;;
    Some (split, mid_split).

(** The for loop of [mas_mab_cp]: the big node and j. *)
Fixpoint mas_mab_cp_loop (n : nat) (w : world) (mas : ma_state)
    (t : maple_type) (i j : Z) (b : maple_big_node)
  : option (maple_big_node * Z) :=
  match n with
  | O => Some (b, j)
  | S n' =>
    s <-? mas_get_rcu_slot w mas i ;;
    b <-? bn_set_slot j s b ;;
    b <-? (if negb (mte_is_leaf (mas_node mas)) && mt_is_alloc (ma_flags w)
           then g <-? mte_get_gap w (mas_node mas) i ;; bn_set_gap j g b
           else Some b) ;;
    if i <? mt_pivots t then
      p <-? mas_get_safe_pivot w mas i ;;
      b <-? bn_set_pivot j p b ;;
      if (nonzero j && (p =? 0)) || (mas_max mas =? p)
      then Some (b, j + 1)
      else mas_mab_cp_loop n' w mas t (i + 1) (j + 1) b
    else
      b <-? bn_set_pivot j (mas_max mas) b ;;
      Some (b, j + 1)
  end.

Definition mas_mab_cp (w : world) (mas : ma_state) (mas_start mas_end : Z)
    (b_node : maple_big_node) (mab_start : Z) : option maple_big_node :=
  t <-? node_type (mas_node mas) ;;
  r <-? mas_mab_cp_loop (Z.to_nat (mas_end - mas_start + 1)) w mas t
          mas_start mab_start b_node ;;
  Some (bn_set_end (u8 (snd r)) (fst r)).

(** The for loop of [mab_mas_cp]. *)
Fixpoint mab_mas_cp_loop (n : nat) (b : maple_big_node) (t : maple_type)
    (i j : Z) (mas : ma_state) : M ma_state :=
  match n with
  | O => mret mas
  | S n' =>
    match bn_get_pivot b i, bn_get_slot b i with
    | Some p, Some s =>
      if nonzero j && (p =? 0) then mret mas
      else
        let mas := set_max p mas in
        mte_set_rcu_slot (mas_node mas) j s ;;;
        (if j <? mt_pivots t then mte_set_pivot (mas_node mas) j p
         else mret tt) ;;;
        w <- mget ;;
        (if negb (mte_is_leaf (mas_node mas)) && mt_is_alloc (ma_flags w)
         then match bn_get_gap b i with
              | Some g => mte_set_gap (mas_node mas) j g
              | None => mfail
              end
         else mret tt) ;;;
        mab_mas_cp_loop n' b t (i + 1) (j + 1) mas
    | _, _ => mfail
    end
  end.

Definition mab_mas_cp (b_node : maple_big_node) (mab_start mab_end : Z)
    (mas : ma_state) : M ma_state :=
  match node_type (mas_node mas) with
  | Some t =>
    mab_mas_cp_loop (Z.to_nat (mab_end - mab_start + 1)) b_node t mab_start 0
      mas
  | None => mfail
  end.

(** ** Adopting the children of a rebuilt sub-tree *)

(** The members of an automatic ma_state that no statement has set yet. *)
Definition mas_uninit : ma_state := MkMas 0 0 0 0 0 0 0 0 0.

Definition nth_mas (l : list ma_state) (i : Z) : ma_state :=
  nth (Z.to_nat i) l mas_uninit.

(** [while ((n < 3) && (mas_new_child(&list[i], &next[n]))) n++;] *)
Fixpoint mas_descend_adopt_children (k : nat) (w : world) (li : ma_state)
    (next : list ma_state) (n : Z) : option (ma_state * list ma_state * Z) :=
  match k with
  | O => Some (li, next, n)
  | S k' =>
    if n <? 3 then
      r <-? mas_new_child w li (nth_mas next n) ;;
      let '(found, li, child) := r in
      if (found : bool)
      then mas_descend_adopt_children k' w li (<[Z.to_nat n := child]> next)
             (n + 1)
      else Some (li, next, n)
    else Some (li, next, n)
  end.

(** The for loop over list[0..2] of [mas_descend_adopt]. *)
Fixpoint mas_descend_adopt_level (k : nat) (i : Z) (lst next : list ma_state)
    (n : Z) : M (list ma_state * Z) :=
  match k with
  | O => mret (next, n)
  | S k' =>
    let li := nth_mas lst i in
    if mas_is_none li then mas_descend_adopt_level k' (i + 1) lst next n
    else if nonzero i && (mas_node (nth_mas lst (i - 1)) =? mas_node li)
    then mas_descend_adopt_level k' (i + 1) lst next n
    else
      r <- mread (fun w => mas_descend_adopt_children 4 w li next n) ;;
      let '(li, next, n) := r in
      mas_adopt_children (mas_node li) ;;;
      mas_descend_adopt_level k' (i + 1) (<[Z.to_nat i := li]> lst) next n
  end.

Fixpoint mas_descend_adopt_loop (fuel : nat) (lst next : list ma_state)
  : M unit :=
  match fuel with
  | O => mfail
  | S f =>
    if mte_is_leaf (mas_node (nth_mas lst 0)) then mret tt
    else
      r <- mas_descend_adopt_level 3 0 lst next 0 ;;
      let '(next, n) := r in
      let next :=
        imap (fun i x => if n <=? Z.of_nat i then set_node MAS_NONE x else x)
             next in
      let next := map (mas_set_offset 0) next in
      let lst := map (fun p => mas_dup_state (fst p) (snd p))
                     (combine lst next) in
      mas_descend_adopt_loop f lst next
  end.

Definition mas_descend_adopt (mas : ma_state) : M unit :=
  let li := mas_set_offset 0 (mas_dup_state mas_uninit mas) in
  let ni := mas_set_offset 0 mas_uninit in
  mas_descend_adopt_loop TREE_DEPTH [li; li; li]
    [mas_dup_state ni mas; ni; ni].

(** ** Storing into the big node *)

(** [do { piv = mas_get_safe_pivot(mas, ++slot); }
     while ((piv <= mas->last) && (slot <= end));] *)
Fixpoint mas_store_b_node_skip (n : nat) (w : world) (mas : ma_state)
    (slot end_ : Z) : option (Z * Z) :=
  match n with
  | O => None
  | S n' =>
    let slot := u8 (slot + 1) in
    piv <-? mas_get_safe_pivot w mas slot ;;
    if (piv <=? mas_last mas) && (slot <=? end_)
    then mas_store_b_node_skip n' w mas slot end_
    else Some (piv, slot)
  end.

(** [mas_store_b_node]: the end it returns and the big node. *)
Definition mas_store_b_node (w : world) (mas : ma_state)
    (b_node : maple_big_node) (entry : Z) : option (Z * maple_big_node) :=
  let slot := mas_offset mas in
  end_ <-? mas_data_end w mas ;;
  contents <-? mas_get_rcu_slot w mas slot ;;
  let piv := u64 (mas_min mas - 1) in
  (* Copy start data up to insert. *)
  r <-? (if nonzero slot then
           b <-? mas_mab_cp w mas 0 (slot - 1) b_node 0 ;;
           p <-? bn_get_pivot b (b_end b - 1) ;;
           Some (b, b_end b, p)
         else Some (b_node, 0, piv)) ;;
  let '(b, bend, piv) := r in
  (* Handle range overlap start. *)
  r <-? (if u64 (piv + 1) <? mas_index mas then
           b <-? bn_set_slot bend contents b ;;
           b <-? (if contents =? 0
                  then bn_set_gap bend (u64 (mas_index mas - 1 - piv)) b
                  else Some b) ;;
           b <-? bn_set_pivot bend (u64 (mas_index mas - 1)) b ;;
           Some (b, u8 (bend + 1))
         else Some (b, bend)) ;;
  let '(b, bend) := r in
  (* Insert the data. *)
  b <-? bn_set_slot bend entry b ;;
  b <-? bn_set_pivot bend (mas_last mas) b ;;
  (* Handle range overlap end. *)
  piv <-? mas_get_safe_pivot w mas slot ;;
  r <-? (if mas_last mas <? piv then
           let bend := u8 (bend + 1) in
           b <-? bn_set_slot bend contents b ;;
           b <-? (if contents =? 0
                  then bn_set_gap bend (u64 (piv - mas_last mas + 1)) b
                  else Some b) ;;
           b <-? bn_set_pivot bend piv b ;;
           Some (b, bend, piv)
         else Some (b, bend, mas_last mas)) ;;
  let '(b, bend, piv) := r in
  (* Appended. *)
  if mas_max mas <=? piv then Some (bend, b)
  else
    (* Handle range overwrites. *)
    r <-? mas_store_b_node_skip 256 w mas slot end_ ;;
    let '(piv, slot) := r in
    (* Copy end data to the end of the node. *)
    if mas_last mas <? piv then
      if end_ <? slot then
        let bend := u8 (bend + 1) in
        b <-? bn_set_slot bend 0 b ;;
        b <-? bn_set_pivot bend piv b ;;
        Some (bend, b)
      else
        let bend := u8 (bend + 1) in
        b <-? mas_mab_cp w mas slot (end_ + 1) b bend ;;
        Some (u8 (b_end b - 1), b)
    else Some (bend, b).

(** ** Siblings and neighbours *)

Definition mas_prev_sibling (w : world) (mas : ma_state)
  : option (bool * ma_state) :=
  p_slot <-? mte_parent_slot w (mas_node mas) ;;
  r <-? mte_is_root w (mas_node mas) ;;
  if (r : bool) then Some (false, mas)
  else if p_slot =? 0 then Some (false, mas)
  else
    mas <-? mas_ascend w mas ;;
    mas <-? mas_descend w (mas_set_offset (p_slot - 1) mas) ;;
    Some (true, mas).

Definition mas_next_sibling (w : world) (mas : ma_state)
  : option (bool * ma_state) :=
  p_slot <-? mte_parent_slot w (mas_node mas) ;;
  let p_slot := u8 p_slot in
  r <-? mte_is_root w (mas_node mas) ;;
  if (r : bool) then Some (false, mas)
  else
    let parent :=
      mas_dup_state (MA_STATE (mas_index mas) (mas_last mas)) mas in
    parent <-? mas_ascend w parent ;;
    p_end <-? mas_data_end w parent ;;
    if p_end =? p_slot then Some (false, mas)
    else
      mas <-? mas_ascend w mas ;;
      mas <-? mas_descend w (mas_set_offset (p_slot + 1) mas) ;;
      Some (true, mas).

Definition mte_node_or_none (enode : Z) : Z :=
  if nonzero enode then enode else MAS_NONE.

Definition mas_dead_node (w : world) (mas : ma_state) (index : Z)
  : option (bool * ma_state) :=
  if negb (mas_searchable mas) then Some (false, mas)
  else
    d <-? mte_dead_node w (mas_node mas) ;;
    if negb d then Some (false, mas)
    else
      r <-? _mas_walk w (set_node MAS_START (set_index index mas)) ;;
      Some (true, snd r).

(** How a scan of the slots of one level ends. *)
Inductive scan_result : Set :=
  | ScanFound (mas : ma_state) (pivot : Z)
  | ScanNoEntry (mas : ma_state)
  | ScanRestart (mas : ma_state)
  | ScanAscend (mas : ma_state) (level : Z).

(** The do-while loop of [mas_prev_node]; [slot] is an int. *)
Fixpoint mas_prev_node_scan (fuel : nat) (w : world) (mas : ma_state)
    (limit start_piv level slot : Z) : option scan_result :=
  match fuel with
  | O => None
  | S f =>
    pivot <-? mas_get_safe_pivot w mas slot ;;
    min <-? mas_get_safe_lower_bound w mas slot ;;
    if pivot <? limit then Some (ScanNoEntry mas)
    else if nonzero slot && (pivot =? 0) then Some (ScanAscend mas level)
    else
      mn <-? mas_get_rcu_slot w mas slot ;;
      if mt_is_empty mn then
        if 0 <? slot
        then mas_prev_node_scan f w mas limit start_piv level (slot - 1)
        else Some (ScanAscend mas level)
      else if level =? 1 then
        let mas := mas_set_offset slot mas in
        let mas := set_min min (set_max pivot (set_node mn mas)) in
        d <-? mas_dead_node w mas start_piv ;;
        if fst d then Some (ScanRestart (snd d)) else Some (ScanFound mas pivot)
      else
        let level := level - 1 in
        let mas := set_min min (set_max pivot (set_node mn mas)) in
        t <-? node_type mn ;;
        e <-? _mas_data_end w mas t ;;
        let slot := fst e + 1 in
        if 0 <? slot
        then mas_prev_node_scan f w mas limit start_piv level (slot - 1)
        else Some (ScanAscend mas level)
  end.

(** The while (1) loop of [mas_prev_node], from the label
    restart_prev_node when [level] is 0. *)
Fixpoint mas_prev_node_loop (fuel : nat) (w : world) (mas : ma_state)
    (limit start_piv level : Z) : option ma_state :=
  match fuel with
  | O => None
  | S f =>
    r <-? (if level =? 0 then
             r <-? mte_is_root w (mas_node mas) ;;
             Some (r || (mas_node mas =? MAS_NONE))
           else Some false) ;;
    if (r : bool) then Some (set_node MAS_NONE mas)
    else
      slot <-? mte_parent_slot w (mas_node mas) ;;
      mas <-? mas_ascend w mas ;;
      let level := level + 1 in
      d <-? mas_dead_node w mas start_piv ;;
      if fst d then mas_prev_node_loop f w (snd d) limit start_piv 0
      else
        sc <-? (if slot =? 0 then Some (ScanAscend mas level)
                else mas_prev_node_scan 1024 w mas limit start_piv level
                       (slot - 1)) ;;
        match sc with
        | ScanFound mas _ => Some mas
        | ScanNoEntry mas => Some (set_node MAS_NONE mas)
        | ScanRestart mas => mas_prev_node_loop f w mas limit start_piv 0
        | ScanAscend mas level =>
          r <-? mte_is_root w (mas_node mas) ;;
          if (r : bool) then Some (set_node MAS_NONE mas)
          else mas_prev_node_loop f w mas limit start_piv level
        end
  end.

Definition WALK_FUEL : nat := 256.

Definition mas_prev_node (w : world) (mas : ma_state) (limit : Z)
  : option ma_state :=
  start_piv <-? mas_get_safe_pivot w mas (mas_offset mas) ;;
  mas_prev_node_loop WALK_FUEL w mas limit start_piv 0.

(** The inner while loop of [mas_next_node]; [slot] is an int, already
    incremented. *)
Fixpoint mas_next_node_scan (fuel : nat) (w : world) (mas : ma_state)
    (max start_piv level slot count prev_piv : Z) : option scan_result :=
  match fuel with
  | O => None
  | S f =>
    if negb (slot <? count) then Some (ScanAscend mas level)
    else
      pivot <-? mas_get_safe_pivot w mas slot ;;
      if max <? prev_piv then Some (ScanNoEntry mas)
      else if nonzero slot && (pivot =? 0) then Some (ScanAscend mas level)
      else
        mn <-? mas_get_rcu_slot w mas slot ;;
        if mt_is_empty mn
        then mas_next_node_scan f w mas max start_piv level (slot + 1) count
               pivot
        else
          let mas := set_max pivot (set_min (u64 (prev_piv + 1)) mas) in
          if level =? 1 then
            let mas := set_node mn (mas_set_offset slot mas) in
            d <-? mas_dead_node w mas start_piv ;;
            if fst d then Some (ScanRestart (snd d))
            else Some (ScanFound mas pivot)
          else
            let mas := set_node mn mas in
            t <-? node_type mn ;;
            mas_next_node_scan f w mas max start_piv (level - 1) 0
              (mt_slots t) prev_piv
  end.

Fixpoint mas_next_node_loop (fuel : nat) (w : world) (mas : ma_state)
    (max level : Z) : option (Z * ma_state) :=
  match fuel with
  | O => None
  | S f =>
    r <-? mte_is_root w (mas_node mas) ;;
    if r || (mas_node mas =? MAS_NONE)
    then Some (mas_max mas, set_node MAS_NONE mas)
    else
      let slot := mas_offset mas in
      start_piv <-? mas_get_safe_pivot w mas slot ;;
      let level := level + 1 in
      mas <-? mas_ascend w mas ;;
      d <-? mas_dead_node w mas start_piv ;;
      if fst d then mas_next_node_loop f w (snd d) max 0
      else
        t <-? node_type (mas_node mas) ;;
        prev_piv <-? mas_get_safe_pivot w mas slot ;;
        sc <-? mas_next_node_scan 1024 w mas max start_piv level (slot + 1)
                 (mt_slots t) prev_piv ;;
        match sc with
        | ScanFound mas pivot => Some (pivot, mas)
        | ScanNoEntry mas => Some (mas_max mas, set_node MAS_NONE mas)
        | ScanRestart mas => mas_next_node_loop f w mas max 0
        | ScanAscend mas level =>
          r <-? mte_is_root w (mas_node mas) ;;
          if (r : bool) then Some (mas_max mas, set_node MAS_NONE mas)
          else
            ps <-? mte_parent_slot w (mas_node mas) ;;
            mas_next_node_loop f w (mas_set_offset ps mas) max level
        end
  end.

Definition mas_next_node (w : world) (mas : ma_state) (max : Z)
  : option (Z * ma_state) :=
  mas_next_node_loop WALK_FUEL w mas max 0.

(** ** The state of a sub-tree rebuild

    The five cursors, the two topiary lists and the big node that
    struct maple_subtree_state points to. *)

Record maple_subtree_state : Set := MkMast {
  orig_l : ma_state;
  orig_r : ma_state;
  mast_l : ma_state;
  mast_m : ma_state;
  mast_r : ma_state;
  mast_free : ma_topiary;
  mast_destroy : ma_topiary;
  mast_bn : maple_big_node
}.

Definition set_orig_l (v : ma_state) (m : maple_subtree_state) :=
  MkMast v (orig_r m) (mast_l m) (mast_m m) (mast_r m) (mast_free m)
         (mast_destroy m) (mast_bn m).
Definition set_orig_r (v : ma_state) (m : maple_subtree_state) :=
  MkMast (orig_l m) v (mast_l m) (mast_m m) (mast_r m) (mast_free m)
         (mast_destroy m) (mast_bn m).
Definition set_mast_l (v : ma_state) (m : maple_subtree_state) :=
  MkMast (orig_l m) (orig_r m) v (mast_m m) (mast_r m) (mast_free m)
         (mast_destroy m) (mast_bn m).
Definition set_mast_m (v : ma_state) (m : maple_subtree_state) :=
  MkMast (orig_l m) (orig_r m) (mast_l m) v (mast_r m) (mast_free m)
         (mast_destroy m) (mast_bn m).
Definition set_mast_r (v : ma_state) (m : maple_subtree_state) :=
  MkMast (orig_l m) (orig_r m) (mast_l m) (mast_m m) v (mast_free m)
         (mast_destroy m) (mast_bn m).
Definition set_mast_free (v : ma_topiary) (m : maple_subtree_state) :=
  MkMast (orig_l m) (orig_r m) (mast_l m) (mast_m m) (mast_r m) v
         (mast_destroy m) (mast_bn m).
Definition set_mast_destroy (v : ma_topiary) (m : maple_subtree_state) :=
  MkMast (orig_l m) (orig_r m) (mast_l m) (mast_m m) (mast_r m) (mast_free m)
         v (mast_bn m).
Definition set_mast_bn (v : maple_big_node) (m : maple_subtree_state) :=
  MkMast (orig_l m) (orig_r m) (mast_l m) (mast_m m) (mast_r m) (mast_free m)
         (mast_destroy m) v.

(** [for (slot = from; slot < to; slot++) mat_add(mat, mas_get_rcu_slot(mas,
    slot));] with an unsigned char [slot]. *)
Fixpoint mat_add_slots (n : nat) (mas : ma_state) (slot : Z)
    (mat : ma_topiary) : M ma_topiary :=
  match n with
  | O => mret mat
  | S n' =>
    e <- mread (fun w => mas_get_rcu_slot w mas slot) ;;
    mat <- mat_add mat e ;;
    mat_add_slots n' mas (slot + 1) mat
  end.

Definition mast_topiary (mast : maple_subtree_state)
  : M maple_subtree_state :=
  let ol := orig_l mast in
  let l_index := mas_index ol in
  let ol := set_index (mas_last ol) ol in
  r <- mread (fun w =>
         t <-? node_type (mas_node ol) ;; mas_node_walk w ol t 0 0) ;;
  let ol := set_index l_index (wk_mas r) in
  let mast := set_orig_l ol mast in
  let l_slot := mas_offset ol in
  let r_slot := mas_offset (orig_r mast) in
  if mas_node ol =? mas_node (orig_r mast) then
    d <- mat_add_slots (Z.to_nat (r_slot - (l_slot + 1))) ol (l_slot + 1)
           (mast_destroy mast) ;;
    mret (set_mast_destroy d mast)
  else if mte_is_leaf (mas_node (orig_r mast)) then mret mast
  else
    end_ <- mread (fun w => mas_data_end w ol) ;;
    d <- mat_add_slots (Z.to_nat (end_ + 1 - (l_slot + 1))) ol (l_slot + 1)
           (mast_destroy mast) ;;
    d <- mat_add_slots (Z.to_nat r_slot) (orig_r mast) 0 d ;;
    mret (set_mast_destroy d mast).

Definition mast_rebalance_next (mast : maple_subtree_state) (old_r : Z)
  : M maple_subtree_state :=
  let bend := b_end (mast_bn mast) in
  end_ <- mread (fun w => mas_data_end w (orig_r mast)) ;;
  bn <- mread (fun w => mas_mab_cp w (orig_r mast) 0 end_ (mast_bn mast) bend) ;;
  let mast := set_mast_bn bn mast in
  f <- mat_add (mast_free mast) old_r ;;
  let mast := set_mast_free f mast in
  let mast :=
    set_orig_r (set_last (mas_max (orig_r mast)) (orig_r mast)) mast in
  if old_r =? mas_node (orig_l mast)
  then mret (set_orig_l (set_node (mas_node (orig_r mast)) (orig_l mast)) mast)
  else mret mast.

Definition mast_rebalance_prev (mast : maple_subtree_state) (old_l : Z)
  : M maple_subtree_state :=
  end_ <- mread (fun w => mas_data_end w (orig_l mast)) ;;
  let bend := b_end (mast_bn mast) in
  bn <- mread (fun w =>
          b <-? mab_shift_right (mast_bn mast) (end_ + 1) ;;
          mas_mab_cp w (orig_l mast) 0 end_ b 0) ;;
  let mast := set_mast_bn bn mast in
  f <- mat_add (mast_free mast) old_l ;;
  let mast := set_mast_free f mast in
  let mast :=
    if mas_node (orig_r mast) =? old_l
    then set_orig_r (set_node (mas_node (orig_l mast)) (orig_r mast)) mast
    else mast in
  let mast := set_mast_l (set_min (mas_min (orig_l mast)) (mast_l mast)) mast in
  let mast :=
    set_orig_l (set_index (mas_min (orig_l mast)) (orig_l mast)) mast in
  let mast := set_mast_bn (bn_set_end (u8 (end_ + 1 + bend)) (mast_bn mast))
                mast in
  mret (set_mast_l
          (mas_set_offset (mas_offset (mast_l mast) + end_ + 1) (mast_l mast))
          mast).

Definition mast_sibling_rebalance_left (mast : maple_subtree_state)
  : M (bool * maple_subtree_state) :=
  let old_r := mas_node (orig_r mast) in
  let old_l := mas_node (orig_l mast) in
  p <- mread (fun w => mas_prev_sibling w (orig_l mast)) ;;
  if fst p then
    mast <- mast_rebalance_prev (set_orig_l (snd p) mast) old_l ;;
    mret (true, mast)
  else
    n <- mread (fun w => mas_next_sibling w (orig_r mast)) ;;
    if fst n then
      mast <- mast_rebalance_next (set_orig_r (snd n) mast) old_r ;;
      mret (true, mast)
    else mret (false, mast).

Definition mast_sibling_rebalance_right (mast : maple_subtree_state)
  : M (bool * maple_subtree_state) :=
  let old_r := mas_node (orig_r mast) in
  let old_l := mas_node (orig_l mast) in
  n <- mread (fun w => mas_next_sibling w (orig_r mast)) ;;
  if fst n then
    mast <- mast_rebalance_next (set_orig_r (snd n) mast) old_r ;;
    mret (true, mast)
  else
    p <- mread (fun w => mas_prev_sibling w (orig_l mast)) ;;
    if fst p then
      mast <- mast_rebalance_prev (set_orig_l (snd p) mast) old_l ;;
      mret (true, mast)
    else mret (false, mast).

Definition mast_cousin_rebalance_right (mast : maple_subtree_state)
  : M (bool * maple_subtree_state) :=
  let old_l := mas_node (orig_l mast) in
  let old_r := mas_node (orig_r mast) in
  let tmp :=
    mas_dup_state (MA_STATE (mas_index (orig_r mast)) (mas_last (orig_r mast)))
      (orig_r mast) in
  ps <- mread (fun w => mte_parent_slot w (mas_node (orig_r mast))) ;;
  n <- mread (fun w => mas_next_node w (mas_set_offset ps (orig_r mast))
                         ULONG_MAX) ;;
  let mast := set_orig_r (snd n) mast in
  if negb (mas_is_none (orig_r mast)) then
    mast <- mast_rebalance_next mast old_r ;;
    mret (true, mast)
  else
    let mast := set_orig_r (mas_dup_state (orig_r mast) (orig_l mast)) mast in
    let mast := set_mast_r (mas_dup_state (mast_r mast) (mast_l mast)) mast in
    p <- mread (fun w => mas_prev_node w (orig_l mast) 0) ;;
    let mast := set_orig_l p mast in
    if mas_is_none (orig_l mast) then
      let mast :=
        set_orig_l (mas_dup_state (orig_l mast) (orig_r mast)) mast in
      let mast := set_orig_r (mas_dup_state (orig_r mast) tmp) mast in
      mret (false, mast)
    else
      let mast := set_orig_l (mas_set_offset 0 (orig_l mast)) mast in
      mast <- mast_rebalance_prev mast old_l ;;
      mret (true, mast).

Definition mast_ascend_free (mast : maple_subtree_state)
  : M maple_subtree_state :=
  let left := mas_node (orig_l mast) in
  let right := mas_node (orig_r mast) in
  ol <- mread (fun w => mas_ascend w (orig_l mast)) ;;
  or <- mread (fun w => mas_ascend w (orig_r mast)) ;;
  f <- mat_add (mast_free mast) left ;;
  f <- (if negb (left =? right) then mat_add f right else mret f) ;;
  let or := mas_set_offset 0 or in
  let or := set_index (mas_max (mast_r mast)) or in
  let or := if mas_last or <? mas_index or
            then set_last (mas_index or) or else or in
  r <- mread (fun w =>
         t <-? node_type (mas_node or) ;; mas_node_walk w or t 0 0) ;;
  or <- (if negb (wk_ret r) then
           e <- mread (fun w => mas_data_end w (wk_mas r)) ;;
           mret (mas_set_offset (e + 1) (wk_mas r))
         else mret (wk_mas r)) ;;
  let ol := mas_set_offset 0 ol in
  let ol := set_index (mas_min (mast_l mast)) ol in
  r <- mread (fun w =>
         t <-? node_type (mas_node ol) ;; mas_node_walk w ol t 0 0) ;;
  mret (set_orig_l (wk_mas r) (set_orig_r or (set_mast_free f mast))).

(** [mas_new_ma_node]: the new encoded node and the cursor that owns the
    pool. *)
Definition mas_new_ma_node (mas : ma_state) (b_node : maple_big_node)
  : M (Z * ma_state) :=
  r <- mas_next_alloc mas ;;
  mret (mt_mk_node (fst r) (bn_type b_node), snd r).

(** The nodes and splits that [mas_mab_to_node] hands back. *)
Record split_nodes : Set := MkSplit {
  sp_split : Z;
  sp_left : Z;
  sp_right : Z;
  sp_middle : Z;
  sp_mid_split : Z
}.

Definition mas_mab_to_node (mas : ma_state) (b_node : maple_big_node)
  : M (split_nodes * ma_state) :=
  match bn_mtype b_node with
  | None => mfail
  | Some t =>
    let slot_cnt := mt_slots t in
    l <- mas_new_ma_node mas b_node ;;
    let '(node_l, mas) := l in
    r <- (if b_end b_node <? slot_cnt then
            mret (b_end b_node, 0, 0, mas)
          else
            match mab_calc_split b_node with
            | Some (split, mid_split) =>
              r <- mas_new_ma_node mas b_node ;;
              mret (split, mid_split, fst r, snd r)
            | None => mfail
            end) ;;
    let '(split, mid_split, node_r, mas) := r in
    m <- (if nonzero mid_split then mas_new_ma_node mas b_node
          else mret (0, mas)) ;;
    let '(node_m, mas) := m in
    mret (MkSplit (u8 split) node_l node_r node_m mid_split, mas)
  end.

Definition mab_set_b_end (w : world) (b_node : maple_big_node)
    (mas : ma_state) (entry : Z) : option maple_big_node :=
  if entry =? 0 then Some b_node
  else
    b <-? bn_set_slot (b_end b_node) entry b_node ;;
    b <-? (if mt_is_alloc (ma_flags w)
           then g <-? mas_find_gap w mas ;; bn_set_gap (b_end b) g b
           else Some b) ;;
    b <-? bn_set_pivot (b_end b) (mas_max mas) b ;;
    Some (bn_set_end (u8 (b_end b + 1)) b).

(** [mas_set_split_parent]: the slot after the call. *)
Definition mas_set_split_parent (mas : ma_state) (left right slot split : Z)
  : M Z :=
  if mas_is_none mas then mret slot
  else
    (if slot <=? split then mte_set_parent (mas_node mas) left slot
     else if nonzero right
     then mte_set_parent (mas_node mas) right (u8 (slot - split - 1))
     else mret tt) ;;;
    mret (u8 (slot + 1)).

(** [mte_mid_split_check]: l, r and split after the call. *)
Definition mte_mid_split_check (l r right slot split mid_split : Z)
  : Z * Z * Z :=
  if r =? right then (l, r, split)
  else if slot <? mid_split then (l, r, split)
  else (r, right, mid_split).

Definition mast_set_split_parents (mast : maple_subtree_state)
    (left middle right split mid_split : Z) : M unit :=
  let l := left in
  let r := right in
  if mas_is_none (mast_l mast) then mret tt
  else
    let r := if nonzero middle then middle else r in
    let slot := mas_offset (mast_l mast) in
    let '(l, r, split) := mte_mid_split_check l r right slot split mid_split in
    slot <- mas_set_split_parent (mast_l mast) l r slot split ;;
    let '(l, r, split) := mte_mid_split_check l r right slot split mid_split in
    slot <- mas_set_split_parent (mast_m mast) l r slot split ;;
    let '(l, r, split) := mte_mid_split_check l r right slot split mid_split in
    slot <- mas_set_split_parent (mast_r mast) l r slot split ;;
    mret tt.

Definition mas_wmb_replace (mas : ma_state) (free : ma_topiary)
    (destroy : option ma_topiary) : M unit :=
  mas_replace mas true ;;;
  (if negb (mte_is_leaf (mas_node mas)) then mas_descend_adopt mas
   else mret tt) ;;;
  mat_free free false ;;;
  match destroy with Some d => mat_free d true | None => mret tt end ;;;
  if mte_is_leaf (mas_node mas) then mret tt
  else mas_update_gap mas.

(** [do { mast_ascend_free(mast); mast_topiary(mast); }
     while (!mte_is_root(mast->orig_l->node));] *)
Fixpoint mast_new_root_loop (fuel : nat) (mast : maple_subtree_state)
  : M maple_subtree_state :=
  match fuel with
  | O => mfail
  | S f =>
    mast <- mast_ascend_free mast ;;
    mast <- mast_topiary mast ;;
    r <- mread (fun w => mte_is_root w (mas_node (orig_l mast))) ;;
    if (r : bool) then mret mast else mast_new_root_loop f mast
  end.

Definition mast_new_root (mast : maple_subtree_state) (mas : ma_state)
  : M maple_subtree_state :=
  w <- mget ;;
  wr_parent (mas_mn (mast_l mast)) (Z.lor (tree_addr w) MA_ROOT_PARENT) ;;;
  d <- mread (fun w => mte_dead_node w (mas_node (orig_l mast))) ;;
  mast <- (if negb d then
             r <- mread (fun w => mte_is_root w (mas_node (orig_l mast))) ;;
             if negb r then mast_new_root_loop TREE_DEPTH mast else mret mast
           else mret mast) ;;
  w <- mget ;;
  if negb (mas_node (orig_l mast) =? mas_node mas)
     && (mas_mt_height w <? mas_depth (mast_l mast))
  then f <- mat_add (mast_free mast) (mas_node mas) ;;
       mret (set_mast_free f mast)
  else mret mast.

Definition mast_cp_to_nodes (mast : maple_subtree_state)
    (left middle right split mid_split : Z) : M maple_subtree_state :=
  let bn := mast_bn mast in
  let l := set_node (mte_node_or_none left) (mast_l mast) in
  let m := set_node (mte_node_or_none middle) (mast_m mast) in
  let r := set_node (mte_node_or_none right) (mast_r mast) in
  let l := set_min (mas_min (orig_l mast)) l in
  match bn_get_pivot bn split with
  | None => mfail
  | Some psplit =>
    let l := set_max psplit l in
    l <- mab_mas_cp bn 0 split l ;;
    let r := set_max (mas_max l) r in
    ms <- (if nonzero middle then
             m <- mab_mas_cp bn (1 + split) mid_split m ;;
             match bn_get_pivot bn split, bn_get_pivot bn mid_split with
             | Some p1, Some p2 =>
               mret (set_max p2 (set_min (u64 (p1 + 1)) m), mid_split)
             | _, _ => mfail
             end
           else mret (m, split)) ;;
    let '(m, split) := ms in
    r <- (if nonzero right then
            r <- mab_mas_cp bn (1 + split) (b_end bn) r ;;
            match bn_get_pivot bn split, bn_get_pivot bn (b_end bn) with
            | Some p1, Some p2 => mret (set_max p2 (set_min (u64 (p1 + 1)) r))
            | _, _ => mfail
            end
          else mret r) ;;
    mret (set_mast_r r (set_mast_m m (set_mast_l l mast)))
  end.

Definition mast_combine_cp_left (w : world) (mast : maple_subtree_state)
  : option maple_subtree_state :=
  let l_slot := mas_offset (orig_l mast) in
  if l_slot =? 0 then Some mast
  else
    b <-? mas_mab_cp w (orig_l mast) 0 (l_slot - 1) (mast_bn mast) 0 ;;
    Some (set_mast_bn b mast).

Definition mast_combine_cp_right (w : world) (mast : maple_subtree_state)
  : option maple_subtree_state :=
  let bn := mast_bn mast in
  p <-? bn_get_pivot bn (b_end bn - 1) ;;
  if mas_max (orig_r mast) <=? p then Some mast
  else
    e <-? mas_data_end w (orig_r mast) ;;
    b <-? mas_mab_cp w (orig_r mast) (mas_offset (orig_r mast) + 1) e bn
            (b_end bn) ;;
    Some (set_orig_r (set_last (mas_max (orig_r mast)) (orig_r mast))
            (set_mast_bn b mast)).

Definition mast_sufficient (mast : maple_subtree_state) : option bool :=
  t <-? node_type (mas_node (orig_l mast)) ;;
  Some (mt_min_slots t <? b_end (mast_bn mast)).

Definition mast_overflow (mast : maple_subtree_state) : option bool :=
  t <-? node_type (mas_node (orig_l mast)) ;;
  Some (mt_slots t <=? b_end (mast_bn mast)).

Definition mast_setup_bnode_for_split (mast : maple_subtree_state)
  : maple_subtree_state :=
  let bn := mast_bn mast in
  let bn := bn_set_end (u8 (b_end bn - 1)) bn in
  let bn := bn_set_min (mas_min (orig_l mast)) bn in
  let bn := bn_set_type (mte_node_type (mas_node (orig_l mast))) bn in
  set_mast_bn bn mast.

(** ** Rebalancing across two nodes *)

(** The locals of [mas_spanning_rebalance] that outlive an iteration. *)
Record rebalance_state : Set := MkReb {
  rb_mas : ma_state;
  rb_mast : maple_subtree_state;
  rb_left : Z;
  rb_middle : Z;
  rb_right : Z
}.

(** The while (count--) loop of [mas_spanning_rebalance]; the answer tells
    whether the loop was left by the jump to new_root. *)
Fixpoint mas_spanning_rebalance_loop (fuel : nat) (mas : ma_state)
    (mast : maple_subtree_state) (count : Z) (lft mid rgt : Z)
  : M (bool * rebalance_state) :=
  match fuel with
  | O => mfail
  | S f =>
    if count =? 0 then mret (false, MkReb mas mast lft mid rgt)
    else
      let count := u8 (count - 1) in
      let mast := mast_setup_bnode_for_split mast in
      s <- mas_mab_to_node mas (mast_bn mast) ;;
      let mas := snd s in
      let split := sp_split (fst s) in
      let mid_split := sp_mid_split (fst s) in
      let lft := sp_left (fst s) in
      let rgt := sp_right (fst s) in
      let mid := sp_middle (fst s) in
      mast_set_split_parents mast lft mid rgt split mid_split ;;;
      mast <- mast_cp_to_nodes mast lft mid rgt split mid_split ;;
      (* Copy data from next level in the tree to mast->bn *)
      let mast :=
        set_mast_bn (bn_set_type (mte_node_type lft) big_node_zero) mast in
      let mast :=
        set_orig_l (set_depth (u8 (mas_depth (orig_l mast) + 1)) (orig_l mast))
          mast in
      if mas_is_root_limits (mast_l mast)
      then mret (true, MkReb mas mast lft mid rgt)
      else
        mast <- mast_ascend_free mast ;;
        mast <- mread (fun w => mast_combine_cp_left w mast) ;;
        let mast :=
          set_mast_l (mas_set_offset (b_end (mast_bn mast)) (mast_l mast))
            mast in
        bn <- mread (fun w =>
                b <-? mab_set_b_end w (mast_bn mast) (mast_l mast) lft ;;
                b <-? mab_set_b_end w b (mast_m mast) mid ;;
                mab_set_b_end w b (mast_r mast) rgt) ;;
        let mast := set_mast_bn bn mast in
        (* Copy anything necessary out of the right node. *)
        mast <- mread (fun w => mast_combine_cp_right w mast) ;;
        mast <- mast_topiary mast ;;
        let mast :=
          set_orig_l (set_last (mas_max (orig_l mast)) (orig_l mast)) mast in
        suff <- mread (fun _ => mast_sufficient mast) ;;
        if (suff : bool)
        then mas_spanning_rebalance_loop f mas mast count lft mid rgt
        else
          over <- mread (fun _ => mast_overflow mast) ;;
          if (over : bool)
          then mas_spanning_rebalance_loop f mas mast count lft mid rgt
          else if mas_is_root_limits (orig_l mast)
          then mret (false, MkReb mas mast lft mid rgt)
          else
            sib <- mast_sibling_rebalance_right mast ;;
            r <- (if fst sib then mret sib
                  else mast_cousin_rebalance_right (snd sib)) ;;
            if negb (fst r)
            then mret (false, MkReb mas (snd r) lft mid rgt)
            else
              let count := if count =? 0 then 1 else count in
              mas_spanning_rebalance_loop f mas (snd r) count lft mid rgt
  end.

(** [mas_spanning_rebalance]: the number it returns and the cursor. *)
Definition mas_spanning_rebalance (mas : ma_state)
    (mast : maple_subtree_state) (count : Z) : M (Z * ma_state) :=
  let none := set_node MAS_NONE (MA_STATE (mas_index mas) (mas_index mas)) in
  let mast :=
    MkMast (orig_l mast) (orig_r mast) none none none MA_TOPIARY MA_TOPIARY
           (mast_bn mast) in
  if negb (mas_depth (orig_l mast) =? mas_depth (orig_r mast)) then mfail
  else
    let mast := set_orig_l (set_depth 0 (orig_l mast)) mast in
    mast <- mast_topiary mast ;;
    r <- mas_spanning_rebalance_loop 512 mas mast count 0 0 0 ;;
    let '(new_root, st) := r in
    let mas := rb_mas st in
    let mast := rb_mast st in
    st' <- (if (new_root : bool) then mret (mas, mast)
            else
              a <- mas_next_alloc mas ;;
              let mas := snd a in
              let l_mas :=
                set_node (mt_mk_node (fst a)
                            (mte_node_type (mas_node (orig_l mast))))
                         (mast_l mast) in
              let mast :=
                set_orig_l
                  (set_depth (u8 (mas_depth (orig_l mast) + 1)) (orig_l mast))
                  mast in
              match bn_mtype (mast_bn mast) with
              | None => mfail
              | Some t =>
                l_mas <- mab_mas_cp (mast_bn mast) 0 (mt_slots t - 1) l_mas ;;
                mte_set_parent (rb_left st) (mas_node l_mas) 0 ;;;
                (if nonzero (rb_middle st)
                 then mte_set_parent (rb_middle st) (mas_node l_mas) 1
                 else mret tt) ;;;
                (if nonzero (rb_right st)
                 then mte_set_parent (rb_right st) (mas_node l_mas)
                        (if nonzero (rb_middle st) then 2 else 1)
                 else mret tt) ;;;
                mret (mas, set_mast_l l_mas mast)
              end) ;;
    let '(mas, mast) := st' in
    (* new_root: *)
    mast <- (if mas_is_root_limits (mast_l mast) then mast_new_root mast mas
             else
               p <- mread (fun w => rd_parent w (mas_mn (orig_l mast))) ;;
               wr_parent (mas_mn (mast_l mast)) p ;;;
               mret mast) ;;
    d <- mread (fun w => mte_dead_node w (mas_node (orig_l mast))) ;;
    mast <- (if negb d then
               f <- mat_add (mast_free mast) (mas_node (orig_l mast)) ;;
               mret (set_mast_free f mast)
             else mret mast) ;;
    let mast := set_orig_l (mas_dup_state (orig_l mast) (mast_l mast)) mast in
    let mas := set_depth (mas_depth (orig_l mast)) mas in
    mte_set_node_dead (mas_node mas) ;;;
    (* Set up mas for insertion. *)
    let mas := mas_dup_state mas (orig_l mast) in
    mas_wmb_replace mas (mast_free mast) (Some (mast_destroy mast)) ;;;
    mret (b_end (mast_bn mast), mas).

(** [mas_rebalance]. *)
Definition mas_rebalance (mas : ma_state) (b_node : maple_big_node)
  : M (Z * ma_state) :=
  let empty_cnt := mas_cnt_positive mas in
  let bend := u8 (b_end b_node + 1) in
  let b_node := bn_set_end bend b_node in
  let l_mas := MA_STATE (mas_index mas) (mas_last mas) in
  let r_mas := MA_STATE (mas_index mas) (mas_last mas) in
  mas <- mas_node_cnt mas (1 + empty_cnt * 2) ;;
  if mas_is_err mas then mret (0, mas)
  else
    let l_mas := mas_dup_state l_mas mas in
    let r_mas := mas_dup_state r_mas mas in
    n <- mread (fun w => mas_next_sibling w r_mas) ;;
    st <- (if fst n then
             let r_mas := snd n in
             b <- mread (fun w =>
                    e <-? mas_data_end w r_mas ;;
                    mas_mab_cp w r_mas 0 e b_node bend) ;;
             let r_mas := set_index (mas_max r_mas) r_mas in
             let r_mas := set_last (mas_index r_mas) r_mas in
             mret (l_mas, r_mas, b)
           else
             p <- mread (fun w => mas_prev_sibling w l_mas) ;;
             let l_mas := snd p in
             b <- mread (fun w =>
                    e <-? mas_data_end w l_mas ;;
                    let shift := u8 (e + 1) in
                    b <-? mab_shift_right b_node shift ;;
                    b <-? mas_mab_cp w l_mas 0 (shift - 1) b 0 ;;
                    Some (bn_set_end (u8 (shift + bend)) b)) ;;
             let l_mas := set_last (mas_min l_mas) l_mas in
             let l_mas := set_index (mas_last l_mas) l_mas in
             mret (l_mas, r_mas, b)) ;;
    let '(l_mas, r_mas, b) := st in
    let mast :=
      MkMast l_mas r_mas mas_uninit mas_uninit mas_uninit MA_TOPIARY
             MA_TOPIARY b in
    mas_spanning_rebalance mas mast (u8 empty_cnt).

(** ** Splitting a node *)

Definition _mas_split_final_node (mast : maple_subtree_state)
    (mas : ma_state) (height : Z) : M (maple_subtree_state * ma_state) :=
  r <- mread (fun w => mte_is_root w (mas_node mas)) ;;
  w <- mget ;;
  let mast :=
    if (r : bool) then
      set_mast_bn
        (bn_set_type (if mt_is_alloc (ma_flags w)
                      then type_code maple_arange_64
                      else type_code maple_range_64) (mast_bn mast)) mast
    else mast in
  let mas := if (r : bool) then set_depth (u8 height) mas else mas in
  (* Only a single node is used here, could be root. *)
  a <- mas_new_ma_node mas (mast_bn mast) ;;
  let '(ancestor, mas) := a in
  mte_set_parent (mas_node (mast_l mast)) ancestor (mas_offset (mast_l mast)) ;;;
  mte_set_parent (mas_node (mast_r mast)) ancestor (mas_offset (mast_r mast)) ;;;
  p <- mread (fun w => rd_parent w (mas_mn mas)) ;;
  wr_parent (mte_to_node ancestor) p ;;;
  let l := set_node ancestor (mast_l mast) in
  match bn_mtype (mast_bn mast) with
  | None => mfail
  | Some t =>
    l <- mab_mas_cp (mast_bn mast) 0 (mt_slots t - 1) l ;;
    mret (set_mast_l l mast, mas)
  end.

(** [mas_split_final_node]: whether the final node was built. *)
Definition mas_split_final_node (mast : maple_subtree_state)
    (mas : ma_state) (height : Z)
  : M (bool * maple_subtree_state * ma_state) :=
  if height <=? mas_full_cnt mas then mret (false, mast, mas)
  else
    r <- _mas_split_final_node mast mas height ;;
    mret (true, fst r, snd r).

Definition mast_split_fill_bnode (mast : maple_subtree_state)
    (mas : ma_state) (skip : Z) : M (maple_subtree_state * ma_state) :=
  let old := mas_node mas in
  let mast := set_mast_bn big_node_zero mast in
  r <- mread (fun w => mte_is_root w (mas_node mas)) ;;
  let cp := negb r in
  st <- (if (r : bool) then mret (mast, mas)
         else
           mas <- mread (fun w => mas_ascend w mas) ;;
           f <- mat_add (mast_free mast) old ;;
           ps <- mread (fun w => mte_parent_slot w (mas_node mas)) ;;
           mret (set_mast_free f mast, mas_set_offset ps mas)) ;;
  let '(mast, mas) := st in
  let bn := bn_set_min (mas_min mas) (mast_bn mast) in
  bn <- (if cp && nonzero (mas_offset (mast_l mast))
         then mread (fun w =>
                mas_mab_cp w mas 0 (mas_offset (mast_l mast) - 1) bn 0)
         else mret bn) ;;
  let split := b_end bn in
  bn <- mread (fun w =>
          mab_set_b_end w bn (mast_l mast) (mas_node (mast_l mast))) ;;
  let mast := set_mast_r (mas_set_offset (b_end bn) (mast_r mast)) mast in
  bn <- mread (fun w =>
          mab_set_b_end w bn (mast_r mast) (mas_node (mast_r mast))) ;;
  bn <- (if cp
         then mread (fun w =>
                t <-? node_type (mas_node mas) ;;
                mas_mab_cp w mas (u8 (split + skip)) (mt_slots t - 1) bn
                  (b_end bn))
         else mret bn) ;;
  let bn := bn_set_end (u8 (b_end bn - 1)) bn in
  let bn := bn_set_type (mte_node_type (mas_node mas)) bn in
  mret (set_mast_bn bn mast, mas).

Definition mast_split_data (mast : maple_subtree_state) (mas : ma_state)
    (split : Z) : M maple_subtree_state :=
  let bn := mast_bn mast in
  l <- mab_mas_cp bn 0 split (mast_l mast) ;;
  mte_set_pivot (mas_node (mast_r mast)) 0 (mas_max (mast_r mast)) ;;;
  r <- mab_mas_cp bn (split + 1) (b_end bn) (mast_r mast) ;;
  ps <- mread (fun w => mte_parent_slot w (mas_node mas)) ;;
  let l := mas_set_offset ps l in
  match bn_get_pivot bn split with
  | None => mfail
  | Some p =>
    let l := set_max p l in
    let r := set_min (u64 (mas_max l + 1)) r in
    let mast := set_mast_r r (set_mast_l l mast) in
    if negb (mte_is_leaf (mas_node mas)) then
      let p_slot := mas_offset (orig_l mast) in
      p_slot <- mas_set_split_parent (orig_l mast) (mas_node l) (mas_node r)
                  p_slot split ;;
      p_slot <- mas_set_split_parent (orig_r mast) (mas_node l) (mas_node r)
                  p_slot split ;;
      mret mast
    else mret mast
  end.

(** [mas_push_data]: whether data was pushed to the sibling. *)
Definition mas_push_data (mas : ma_state) (height : Z)
    (mast : maple_subtree_state) (to_left : bool)
  : M (bool * maple_subtree_state * ma_state) :=
  let slot_total := b_end (mast_bn mast) in
  let tmp_mas :=
    mas_dup_state (MA_STATE (mas_index mas) (mas_last mas)) (mast_l mast) in
  let tmp_mas := set_node (mas_node mas) tmp_mas in
  sib <- mread (fun w => if to_left then mas_prev_sibling w tmp_mas
                         else mas_next_sibling w tmp_mas) ;;
  if negb (fst sib) then mret (false, mast, mas)
  else
    let tmp_mas := snd sib in
    end_ <- mread (fun w => mas_data_end w tmp_mas) ;;
    let slot_total := u8 (slot_total + end_) in
    cnt <- mread (fun _ =>
             t <-? node_type (mas_node mas) ;; Some (mt_slots t)) ;;
    let space := u8 (2 * cnt - 1) in
    (* -2 instead of -1 to ensure there isn't a triple split *)
    let space := if ma_is_leaf (bn_type (mast_bn mast))
                 then u8 (space - 1) else space in
    let space := if mas_max mas =? ULONG_MAX then u8 (space - 1) else space in
    if space <=? slot_total then mret (false, mast, mas)
    else
      match bn_mtype (mast_bn mast) with
      | None => mfail
      | Some bt =>
        (* Get the data; Fill mast->bn *)
        let bn := bn_set_end (u8 (b_end (mast_bn mast) + 1)) (mast_bn mast) in
        bn <- mread (fun w =>
                if to_left then
                  b <-? mab_shift_right bn (end_ + 1) ;;
                  b <-? mas_mab_cp w tmp_mas 0 end_ b 0 ;;
                  Some (bn_set_end (u8 (slot_total + 1)) b)
                else mas_mab_cp w tmp_mas 0 end_ bn (b_end bn)) ;;
        let mast := set_mast_bn bn mast in
        (* Configure mast for splitting of mast->bn *)
        let split := u8 (mt_slots bt - 1) in
        st <- (if to_left then
                 (* Switch mas to prev node *)
                 f <- mat_add (mast_free mast) (mas_node mas) ;;
                 let mas := mas_dup_state mas tmp_mas in
                 (* Start using mast->l for the left side. *)
                 let tmp_mas := set_node (mas_node (mast_l mast)) tmp_mas in
                 let l := mas_dup_state (mast_l mast) tmp_mas in
                 mret (set_mast_l l (set_mast_free f mast), mas, split)
               else
                 f <- mat_add (mast_free mast) (mas_node tmp_mas) ;;
                 let tmp_mas := set_node (mas_node (mast_r mast)) tmp_mas in
                 let r := mas_dup_state (mast_r mast) tmp_mas in
                 mret (set_mast_r r (set_mast_free f mast), mas,
                       u8 (slot_total - split))) ;;
        let '(mast, mas, split) := st in
        match mab_no_null_split (mast_bn mast) split (mt_slots bt) with
        | None => mfail
        | Some split =>
          let split := u8 split in
          (* Update parent slot for split calculation. *)
          let mast :=
            if to_left
            then set_orig_l
                   (mas_set_offset (mas_offset (orig_l mast) + end_ + 1)
                      (orig_l mast)) mast
            else mast in
          mast <- mast_split_data mast mas split ;;
          r <- mast_split_fill_bnode mast mas 2 ;;
          r <- _mas_split_final_node (fst r) (snd r) (height + 1) ;;
          mret (true, fst r, snd r)
        end
      end.

Definition mas_push_right (mas : ma_state) (height : Z)
    (mast : maple_subtree_state) :=
  mas_push_data mas height mast false.

Definition mas_push_left (mas : ma_state) (height : Z)
    (mast : maple_subtree_state) :=
  mas_push_data mas height mast true.

(** The while loop of [mas_split]; [height] has been incremented. *)
Fixpoint mas_split_loop (fuel : nat) (mas : ma_state)
    (mast : maple_subtree_state) (height : Z)
  : M (maple_subtree_state * ma_state) :=
  match fuel with
  | O => mfail
  | S f =>
    if negb (height - 1 <=? mas_full_cnt mas) then mret (mast, mas)
    else
      fin <- mas_split_final_node mast mas height ;;
      let '(done, mast, mas) := fin in
      if (done : bool) then mret (mast, mas)
      else
        let l_mas := mas_dup_state (mast_l mast) mas in
        let r_mas := mas_dup_state (mast_r mast) mas in
        a <- mas_new_ma_node mas (mast_bn mast) ;;
        let l_mas := set_node (fst a) l_mas in
        b <- mas_new_ma_node (snd a) (mast_bn mast) ;;
        let r_mas := set_node (fst b) r_mas in
        let mas := snd b in
        let mast := set_mast_r r_mas (set_mast_l l_mas mast) in
        pl <- mas_push_left mas height mast ;;
        let '(done, mast, mas) := pl in
        if (done : bool) then mret (mast, mas)
        else
          pr <- mas_push_right mas height mast ;;
          let '(done, mast, mas) := pr in
          if (done : bool) then mret (mast, mas)
          else
            match mab_calc_split (mast_bn mast) with
            | None => mfail
            | Some (split, mid_split) =>
              mast <- mast_split_data mast mas split ;;
              (* Usually correct, mab_mas_cp in the above call overwrites
                 r->max. *)
              let mast :=
                set_mast_r (set_max (mas_max mas) (mast_r mast)) mast in
              r <- mast_split_fill_bnode mast mas 1 ;;
              let '(mast, mas) := r in
              let mast :=
                set_orig_l (mas_dup_state (orig_l mast) (mast_l mast)) mast in
              let mast :=
                set_orig_r (mas_dup_state (orig_r mast) (mast_r mast)) mast in
              mas_split_loop f mas mast (height + 1)
            end
  end.

(** [mas_split]. *)
Definition mas_split (mas : ma_state) (b_node : maple_big_node)
  : M (Z * ma_state) :=
  let st := MA_STATE (mas_index mas) (mas_last mas) in
  (* Allocation failures will happen early. *)
  mas <- mas_node_cnt mas (1 + mas_full_cnt mas * 2) ;;
  if mas_is_err mas then mret (0, mas)
  else
    let mast := MkMast st st st mas_uninit st MA_TOPIARY MA_TOPIARY b_node in
    w <- mget ;;
    let mas := set_depth (u8 (mas_mt_height w)) mas in
    r <- mas_split_loop 64 mas mast 1 ;;
    let '(mast, mas) := r in
    (* Set the original node as dead *)
    f <- mat_add (mast_free mast) (mas_node mas) ;;
    let mas := set_node (mas_node (mast_l mast)) mas in
    mas_wmb_replace mas f None ;;;
    mret (1, mas).

(** ** Committing the big node *)

(** [for (i = bn->b_end + 1; i < mt_slot_count(mas->node); i++)] of
    [mas_reuse_node]. *)
Fixpoint mas_reuse_node_clear (n : nat) (mas : ma_state) (t : maple_type)
    (i : Z) : M unit :=
  match n with
  | O => mret tt
  | S n' =>
    mte_set_rcu_slot (mas_node mas) i 0 ;;;
    (if i <? mt_pivots t then mte_set_pivot (mas_node mas) i 0 else mret tt) ;;;
    mas_reuse_node_clear n' mas t (i + 1)
  end.

Definition mas_reuse_node (mas : ma_state) (bn : maple_big_node) (end_ : Z)
  : M (bool * ma_state) :=
  w <- mget ;;
  if mas_in_rcu (ma_flags w) then mret (false, mas)   (* Need to be rcu safe. *)
  else
    mas <- mab_mas_cp bn 0 (b_end bn) mas ;;
    match node_type (mas_node mas) with
    | None => mfail
    | Some t =>
      (if b_end bn <? end_
       then mas_reuse_node_clear (Z.to_nat (mt_slots t - (b_end bn + 1))) mas t
              (b_end bn + 1)
       else mret tt) ;;;
      mret (true, mas)
    end.

(** [mas_commit_b_node]. *)
Definition mas_commit_b_node (mas : ma_state) (b_node : maple_big_node)
    (end_ : Z) : M (Z * ma_state) :=
  w <- mget ;;
  r <- mread (fun w => mte_is_root w (mas_node mas)) ;;
  match node_type (mas_node mas) with
  | None => mfail
  | Some t =>
    if (b_end b_node <? mt_min_slots t) && negb r && (1 <? mas_mt_height w)
    then mas_rebalance mas b_node
    else if mt_slots t <=? b_end b_node then
      if mas_is_err mas then mret (0, mas)
      else mas_split mas b_node
    else
      ru <- mas_reuse_node mas b_node end_ ;;
      if fst ru then
        (* reused_node: *)
        mas_update_gap (snd ru) ;;;
        mret (2, snd ru)
      else
        mas <- mas_node_cnt (snd ru) 1 ;;
        if mas_is_err mas then mret (0, mas)
        else
          let old_type := mte_node_type (mas_node mas) in
          a <- mas_next_alloc mas ;;
          let new_node := mt_mk_node (fst a) old_type in
          p <- mread (fun w => rd_parent w (mas_mn mas)) ;;
          wr_parent (mte_to_node new_node) p ;;;
          let mas := set_node new_node (snd a) in
          mas <- mab_mas_cp b_node 0 (b_end b_node) mas ;;
          mas_replace mas false ;;;
          (* reused_node: *)
          mas_update_gap mas ;;;
          mret (2, mas)
  end.

(** ** Stores at the root *)

(** [mas_root_expand]: the slot it returns and the cursor. *)
Definition mas_root_expand (mas : ma_state) (entry : Z) : M (Z * ma_state) :=
  w <- mget ;;
  let contents := ma_root w in
  let type := type_code maple_leaf_64 in
  let slot := 0 in
  mas <- mas_node_cnt mas 1 ;;
  if mas_is_err mas then mret (0, mas)
  else
    a <- mas_next_alloc mas ;;
    let mas := set_node (mt_mk_node (fst a) type) (snd a) in
    wr_parent (mas_mn mas) (Z.lor (tree_addr w) MA_ROOT_PARENT) ;;;
    slot <- (if nonzero contents
             then mte_set_rcu_slot (mas_node mas) slot contents ;;;
                  mret (slot + 1)
             else mret slot) ;;
    slot <- (if (mas_index mas =? 0) && nonzero slot then mret (slot - 1)
             else if 1 <? mas_index mas
             then mte_set_pivot (mas_node mas) slot (mas_index mas - 1) ;;;
                  mret (slot + 1)
             else mret slot) ;;
    mte_set_rcu_slot (mas_node mas) slot entry ;;;
    mte_set_pivot (mas_node mas) slot (mas_last mas) ;;;
    let slot := slot + 1 in
    (* swap the new root into the tree *)
    (fun w => Some (tt, set_ma_root (mte_mk_root (mas_node mas)) w)) ;;;
    let mas := set_depth 1 mas in
    mas_set_height mas ;;;
    mret (slot, mas).

(** [ma_root_ptr]; the parameter [contents] of the source is dead, the
    function overwrites it before any use. *)
Definition ma_root_ptr (mas : ma_state) (entry : Z) (overwrite : bool)
  : M (Z * ma_state) :=
  w <- mget ;;
  if xa_is_node (ma_root w) then mret (0, mas)
  else if nonzero (ma_root w) && (mas_last mas =? 0) && negb overwrite
  then (* exists: *) mret (0, mas_set_err (- EEXIST) mas)
  else if negb (mas_last mas =? 0) then mas_root_expand mas entry
  else if Z.land entry 3 =? 2 then mas_root_expand mas entry
  else
    (fun w => Some (tt, set_ma_root entry w)) ;;;
    mret (1, mas).

(** [mas_extend_null]; [same] tells that both arguments are the one
    cursor, as in the call mas_extend_null(mas, mas).  The result is the two
    cursors (twice the same one when [same]). *)
Definition mas_extend_null (w : world) (same : bool) (l_mas r_mas : ma_state)
  : option (ma_state * ma_state) :=
  let upd_l (l' : ma_state) (r : ma_state) := (l', if same then l' else r) in
  let upd_r (l : ma_state) (r' : ma_state) := (if same then r' else l, r') in
  let l_slot := mas_offset l_mas in
  let r_slot := mas_offset r_mas in
  let cp_r_slot := r_slot in
  content <-? mas_get_rcu_slot w l_mas l_slot ;;
  range_max <-? mas_get_safe_pivot w r_mas r_slot ;;
  range_min <-? (if nonzero l_slot
                 then p <-? mas_get_safe_pivot w l_mas (l_slot - 1) ;;
                      Some (u64 (p + 1))
                 else Some (mas_min l_mas)) ;;
  let '(l, r) := if content =? 0 then upd_l (set_index range_min l_mas) r_mas
                 else (l_mas, r_mas) in
  prev_null <-? (if (mas_index l =? range_min) && nonzero l_slot
                 then s <-? mas_get_rcu_slot w l (l_slot - 1) ;; Some (s =? 0)
                 else Some false) ;;
  lr <-? (if (prev_null : bool) then
            i <-? (if 1 <? l_slot
                   then p <-? mas_get_safe_pivot w l (l_slot - 2) ;;
                        Some (u64 (p + 1))
                   else Some (mas_min l)) ;;
            Some (upd_l (mas_set_offset (l_slot - 1) (set_index i l)) r)
          else Some (l, r)) ;;
  let '(l, r) := lr in
  s <-? mas_get_rcu_slot w r r_slot ;;
  let '(l, r, cp_r_slot) :=
    if s =? 0 then
      let '(l, r) := if mas_last r <? range_max
                     then upd_r l (set_last range_max r) else (l, r) in
      (l, r, cp_r_slot + 1)
    else (l, r, cp_r_slot) in
  next_null <-? (if (mas_last r =? range_max) && (mas_last r <? mas_max r)
                 then s <-? mas_get_rcu_slot w r (r_slot + 1) ;; Some (s =? 0)
                 else Some false) ;;
  lrc <-? (if (next_null : bool) then
             p <-? mas_get_safe_pivot w r (r_slot + 1) ;;
             let '(l, r) := upd_r l (set_last p r) in
             Some (l, r, cp_r_slot + 1)
           else Some (l, r, cp_r_slot)) ;;
  let '(l, r, cp_r_slot) := lrc in
  let '(l, r) := if nonzero r_slot && (mas_last r =? 0)
                 then upd_r l (set_last (mas_max r) r) else (l, r) in
  if same then Some (l, r)
  else Some (l, mas_set_offset (u8 cp_r_slot) r).

(** ** A store that spans nodes *)

Definition mas_spanning_store (mas : ma_state) (entry : Z)
  : M (Z * ma_state) :=
  w <- mget ;;
  (* Holds new left and right sub-tree *)
  let l_mas := MA_STATE (mas_index mas) (mas_index mas) in
  let r_mas := MA_STATE (mas_index mas) (mas_index mas) in
  let node_cnt := if 0 <? mas_full_cnt mas then mas_full_cnt mas
                  else mas_cnt_positive mas in
  let node_cnt := node_cnt + (1 + mas_mt_height w * 2) in
  mas <- mas_node_cnt mas node_cnt ;;
  if mas_is_err mas then mret (0, mas)
  else
    let b_node := bn_set_type (mte_node_type (mas_node mas)) big_node_zero in
    (* Set up right side. *)
    let r_mas := set_depth (mas_depth mas) (mas_dup_state r_mas mas) in
    let r_mas := if nonzero (u64 (mas_last r_mas + 1))
                 then set_last (u64 (mas_last r_mas + 1)) r_mas else r_mas in
    let r_mas := mas_set_offset 0 (set_index (mas_last r_mas) r_mas) in
    rw <- mread (fun w => __mas_walk TREE_DEPTH w r_mas 0 0) ;;
    let r_mas := set_index (mas_last mas) (wk_mas rw) in
    let r_mas := set_last (mas_index r_mas) r_mas in
    (* Set up left side. *)
    let l_mas := set_depth (mas_depth mas) (mas_dup_state l_mas mas) in
    let l_mas := mas_set_offset 0 l_mas in
    lw <- mread (fun w => __mas_walk TREE_DEPTH w l_mas 0 0) ;;
    let l_mas := wk_mas lw in
    if negb (mas_depth l_mas =? mas_depth r_mas) then mfail
    else
      st <- (if entry =? 0 then
               e <- mread (fun w => mas_extend_null w false l_mas r_mas) ;;
               let '(l_mas, r_mas) := e in
               let mas := set_index (mas_index l_mas) mas in
               let r_mas := set_index (mas_last r_mas) r_mas in
               let l_mas := set_last (mas_index r_mas) l_mas in
               let mas := set_last (mas_last l_mas) mas in
               let mas := mas_set_offset (mas_offset l_mas) mas in
               mret (mas, l_mas, r_mas)
             else mret (mas, l_mas, r_mas)) ;;
      let '(mas, l_mas, r_mas) := st in
      (* Copy l_mas and store the value in b_node. *)
      sb <- mread (fun w => mas_store_b_node w l_mas b_node entry) ;;
      let b_node := bn_set_end (fst sb) (snd sb) in
      (* Copy r_mas into b_node. *)
      b_node <- mread (fun w =>
                  e <-? mas_data_end w r_mas ;;
                  mas_mab_cp w r_mas (mas_offset r_mas) e b_node
                    (u8 (b_end b_node + 1))) ;;
      (* Stop spanning searches by searching for just index. *)
      let l_mas := set_last (mas_index mas) l_mas in
      let l_mas := set_index (mas_last l_mas) l_mas in
      (* Calc the number of iterations of combining and splitting that will
         need to occur. *)
      w <- mget ;;
      let count :=
        u8 (mas_cnt_positive mas + mas_mt_height w - mas_depth mas + 1) in
      let mast :=
        MkMast l_mas r_mas mas_uninit mas_uninit mas_uninit MA_TOPIARY
               MA_TOPIARY b_node in
      (* Combine l_mas and r_mas and split them up evenly again. *)
      mas_spanning_rebalance mas mast count.

(** ** The store *)

Definition mas_can_append (mas : ma_state) (bn : maple_big_node)
    (slot_cnt end_ : Z) : option bool :=
  if slot_cnt <=? b_end bn then Some false          (* no room. *)
  else if b_end bn <=? end_ then Some false         (* truncated data. *)
  else if mas_last mas =? 0 then Some false  (* zero cannot be an append. *)
  else
    p <-? bn_get_pivot bn (b_end bn) ;;
    if p =? mas_last mas then Some true   (* last entry is the insert. *)
    else
      p1 <-? bn_get_pivot bn (b_end bn - 1) ;;
      if p1 =? mas_last mas then
        s <-? bn_get_slot bn (b_end bn) ;;
        Some (s =? 0)  (* inserting second last entry and last is NULL. *)
      else Some false.

(** The do-while loop of the append in [_mas_store]. *)
Fixpoint mas_append_loop (n : nat) (mas : ma_state) (b_node : maple_big_node)
    (slot slot_cnt end_ : Z) : M unit :=
  match n with
  | O => mfail
  | S n' =>
    match bn_get_slot b_node slot, bn_get_pivot b_node slot with
    | Some s, Some p =>
      mte_set_rcu_slot (mas_node mas) slot s ;;;
      (if slot <? slot_cnt - 1 then mte_set_pivot (mas_node mas) slot p
       else mret tt) ;;;
      if nonzero slot && (end_ <=? slot)
      then mas_append_loop n' mas b_node (u8 (slot - 1)) slot_cnt end_
      else mret tt
    | _, _ => mfail
    end
  end.

(** [_mas_store] from the write walk on. *)
Definition _mas_store_walk (mas : ma_state) (entry : Z) (overwrite : bool)
  : M (Z * ma_state) :=
  wr <- mread (fun w => mas_wr_walk w mas 0 0 entry) ;;
  let mas := wk_mas wr in
  let r_max := wk_max wr in
  if negb (wk_ret wr) && (mas_span_enode mas =? 0) then mret (0, mas)
  else if nonzero (mas_span_enode mas) then
    if negb overwrite
    then mret (0, mas_set_err (- EEXIST) mas)
         (* spanning writes always overwrite something. *)
    else
      r <- mas_spanning_store mas entry ;;
      (* spanning_store: *)
      mret (0, snd r)
  else
    (* At this point, we are at the leaf node that needs to be altered. *)
    let slot := mas_offset mas in
    match node_type (mas_node mas) with
    | None => mfail
    | Some t =>
      let slot_cnt := mt_slots t in
      content <- mread (fun w => mas_get_rcu_slot w mas slot) ;;
      if negb overwrite && ((r_max <? mas_last mas) || nonzero content)
      then (* exists: *) mret (content, mas_set_err (- EEXIST) mas)
      else
        mas <- (if entry =? 0 then
                  r <- mread (fun w => mas_extend_null w true mas mas) ;;
                  mret (fst r)
                else mret mas) ;;
        let slot := mas_offset mas in
        let mas := mas_set_offset slot mas in
        sb <- mread (fun w => mas_store_b_node w mas big_node_zero entry) ;;
        let b_node := bn_set_end (fst sb) (snd sb) in
        let b_node := bn_set_min (mas_min mas) b_node in
        let b_node := bn_set_type (mte_node_type (mas_node mas)) b_node in
        (* Check if this is an append operation. *)
        end_ <- mread (fun w => mas_data_end w mas) ;;
        app <- mread (fun _ => mas_can_append mas b_node slot_cnt end_) ;;
        if (app : bool) then
          mas_append_loop 256 mas b_node (b_end b_node) slot_cnt end_ ;;;
          mas_update_gap mas ;;;
          (* append: *)
          mret (content, mas)
        else
          (* count the node as full if it has not already been counted. *)
          let mas :=
            if (slot_cnt <=? b_end b_node) && (end_ <? slot_cnt)
            then mas_cnt_full mas
            else if b_end b_node <? mt_min_slots t then mas_cnt_empty mas
            else mas in
          c <- mas_commit_b_node mas b_node end_ ;;
          if fst c =? 0 then mret (0, snd c)
          else mret (content, snd c)
    end.

(** [_mas_store]: the previous content it returns and the cursor. *)
Definition _mas_store (mas : ma_state) (entry : Z) (overwrite : bool)
  : M (Z * ma_state) :=
  w <- mget ;;
  let '(e, mas) := mas_start w mas in
  if nonzero e || (mas_is_none mas || (mas_node mas =? MAS_ROOT)) then
    r <- ma_root_ptr mas entry overwrite ;;
    let '(ret, mas) := r in
    if mas_is_err mas then mret (0, mas)
    else if nonzero ret then (* complete_at_root: *) mret (0, mas)
    else _mas_store_walk mas entry overwrite
  else _mas_store_walk mas entry overwrite.

(** [mas_store]. *)
Definition mas_store (mas : ma_state) (entry : Z) : M (Z * ma_state) :=
  if mas_index mas <=? mas_last mas then _mas_store mas entry true
  else mret (0, mas_set_err (- EINVAL) mas).

(** ** The public interface: store, insert, erase *)

Definition RETRY_FUEL : nat := 4.

(** [retry: _mas_store(&mas, entry, overwrite); if (mas_nomem(&mas, gfp))
    goto retry;] *)
Fixpoint mas_store_retry (fuel : nat) (mas : ma_state) (entry : Z)
    (overwrite : bool) : M ma_state :=
  match fuel with
  | O => mfail
  | S f =>
    r <- _mas_store mas entry overwrite ;;
    n <- mas_nomem (snd r) ;;
    if fst n then mas_store_retry f (snd n) entry overwrite
    else mret (snd n)
  end.

Definition mtree_store_range (index last entry : Z) : M Z :=
  let mas := MA_STATE index last in
  if xa_is_advanced entry then mret (- EINVAL)
  else if last <? index then mret (- EINVAL)
  else
    mas <- mas_store_retry RETRY_FUEL mas entry true ;;
    if mas_is_err mas then mret (xa_err (mas_node mas))
    else mret 0.

Definition mtree_store (index entry : Z) : M Z :=
  mtree_store_range index index entry.

Definition mtree_insert_range (first last entry : Z) : M Z :=
  let ms := MA_STATE first last in
  if xa_is_advanced entry then mret (- EINVAL)
  else if last <? first then mret (- EINVAL)
  else
    ms <- mas_store_retry RETRY_FUEL ms entry false ;;
    if mas_is_err ms then mret (xa_err (mas_node ms))
    else mret 0.

Definition mtree_insert (index entry : Z) : M Z :=
  mtree_insert_range index index entry.

(** The retry loop of [mas_erase]. *)
Fixpoint mas_erase_retry (fuel : nat) (mas : ma_state) (r_min r_max : Z)
  : M ma_state :=
  match fuel with
  | O => mfail
  | S f =>
    let mas := set_node MAS_START mas in
    let mas := set_index r_min mas in
    let mas := set_last r_max mas in
    r <- _mas_store mas 0 true ;;
    n <- mas_nomem (snd r) ;;
    if fst n then mas_erase_retry f (snd n) r_min r_max
    else mret (snd n)
  end.

(** [mas_erase]; r_min and r_max are not initialised by the source, they
    start at 0 here. *)
Definition mas_erase (mas : ma_state) : M (Z * ma_state) :=
  l <- mread (fun w => mas_range_load RETRIES w mas 0 0) ;;
  let '(entry, r) := l in
  mas <- mas_erase_retry RETRY_FUEL (wk_mas r) (wk_min r) (wk_max r) ;;
  mret (entry, mas).

Definition mtree_erase (index : Z) : M Z :=
  r <- mas_erase (MA_STATE index index) ;;
  mret (fst r).

(** ** Searching for an empty area *)

(** How one step of an allocation walk ends: with the answer of the
    function, or with the cursor in error. *)
Definition Zmin (a b : Z) : Z := if a <? b then a else b.
Definition Zmax (a b : Z) : Z := if a <? b then b else a.

(** The for loop of [_mas_awalk]: found, the cursor and the slot, or the
    early return with -EBUSY ([None] inside). *)
Fixpoint _mas_awalk_loop (n : nat) (w : world) (mas : ma_state)
    (type : maple_type) (size slot min gap : Z)
  : option (option (bool * ma_state * Z)) :=
  match n with
  | O => Some (Some (false, mas, slot))
  | S n' =>
    if negb (slot <=? mt_pivots type) then Some (Some (false, mas, slot))
    else
      pivot <-? _mas_get_safe_pivot w mas slot type ;;
      if nonzero slot && (pivot =? 0) then Some (Some (false, mas, slot))
      else
        gap <-? (if pivot <? mas_index mas then Some gap   (* Not within lower bounds *)
                 else if ma_is_leaf (type_code type) then
                   s <-? mas_get_rcu_slot w mas slot ;;
                   if mt_is_empty s
                   then Some (u64 (Zmin pivot (mas_last mas)
                                   - Zmax (mas_index mas) min + 1))
                   else Some 0
                 else mte_get_gap w (mas_node mas) slot) ;;
        (* next_slot: *)
        if (size <=? gap) && ma_is_leaf (type_code type)
        then Some (Some (true, mas, slot))
        else if (size <=? gap) && (mas_index mas <=? pivot) then
          nx <-? mas_get_rcu_slot w mas slot ;;
          Some (Some (false, set_max pivot (set_min min (set_node nx mas)), 0))
        else
          let min := u64 (pivot + 1) in
          if mas_last mas <? min then Some None
          else _mas_awalk_loop n' w mas type size (u8 (slot + 1)) min gap
  end.

(** [_mas_awalk]: the answer and the cursor. *)
Definition _mas_awalk (w : world) (mas : ma_state) (size : Z)
  : option (bool * ma_state) :=
  type <-? node_type (mas_node mas) ;;
  match type with
  | maple_dense =>
    let slot := u8 (mas_index mas - mas_min mas) in
    Some (true, mas_set_offset slot mas)
  | _ =>
    let slot := match type with maple_leaf_64 => 0 | _ => mas_offset mas end in
    min <-? mas_get_safe_lower_bound w mas slot ;;
    r <-? _mas_awalk_loop 64 w mas type size slot min 0 ;;
    match r with
    | None => Some (true, mas_set_err (- EBUSY) mas)
    | Some (found, mas, slot) =>
      root <-? mte_is_root w (mas_node mas) ;;
      Some (found || root, mas_set_offset slot mas)
    end
  end.

(** The do-while loop of [mas_skip_node]: the slot and the cursor, or the
    cursor in error. *)
Fixpoint mas_skip_node_loop (fuel : nat) (w : world) (mas : ma_state)
  : option (option Z * ma_state) :=
  match fuel with
  | O => None
  | S f =>
    r <-? mte_is_root w (mas_node mas) ;;
    if (r : bool) then
      let slot := mas_offset mas in
      t <-? node_type (mas_node mas) ;;
      if mt_slots t - 1 <? slot then Some (None, mas_set_err (- EBUSY) mas)
      else Some (Some slot, mas)
    else
      slot <-? mte_parent_slot w (mas_node mas) ;;
      let slot := u8 slot in
      mas <-? mas_ascend w mas ;;
      t <-? node_type (mas_node mas) ;;
      if mt_slots t - 1 <? slot then mas_skip_node_loop f w mas
      else Some (Some slot, mas)
  end.

(* Skip this slot in the parent. *)
Definition mas_skip_node (w : world) (mas : ma_state)
  : option (bool * ma_state) :=
  r <-? mas_skip_node_loop TREE_DEPTH w mas ;;
  match r with
  | (None, mas) => Some (false, mas)
  | (Some slot, mas) =>
    let slot := u8 (slot + 1) in
    let mas := mas_set_offset slot mas in
    mas <-? (if 0 <? slot
             then p <-? mte_get_pivot w (mas_node mas) (slot - 1) ;;
                  Some (set_min (u64 (p + 1)) mas)
             else Some mas) ;;
    t <-? node_type (mas_node mas) ;;
    mas <-? (if slot <? mt_pivots t
             then p <-? mte_get_pivot w (mas_node mas) slot ;;
                  Some (set_max p mas)
             else Some mas) ;;
    Some (true, mas)
  end.

(** The while loop of [mas_awalk]. *)
Fixpoint mas_awalk_loop (fuel : nat) (w : world) (mas : ma_state)
    (size last : Z) : option ma_state :=
  match fuel with
  | O => None
  | S f =>
    if mas_is_err mas then Some mas
    else
      r <-? _mas_awalk w mas size ;;
      let '(found, mas) := r in
      if (found : bool) then Some mas
      else if last =? mas_node mas then
        s <-? mas_skip_node w mas ;;
        mas_awalk_loop f w (snd s) size last
      else mas_awalk_loop f w mas size (mas_node mas)
  end.

Definition mas_awalk (w : world) (mas : ma_state) (size : Z)
  : option ma_state :=
  let '(_, mas) := mas_start w mas in
  if mas_is_none mas then Some mas
  else if mas_is_ptr mas then Some mas
  else mas_awalk_loop WALK_FUEL w mas size 0.

(** How the do-while loop of [_mas_rev_awalk] ends. *)
Inductive rev_scan : Set :=
  | RevBusy (mas : ma_state)
  | RevBreak (found : bool) (mas : ma_state) (slot min max : Z)
  | RevAscend (mas : ma_state) (slot : Z).

Fixpoint _mas_rev_awalk_loop (n : nat) (w : world) (mas : ma_state)
    (type : maple_type) (size slot max : Z) : option rev_scan :=
  match n with
  | O => None
  | S n' =>
    min <-? mas_get_safe_lower_bound w mas slot ;;
    let next_slot :=
      if slot =? 0 then Some (RevAscend mas slot)
      else _mas_rev_awalk_loop n' w mas type size (slot - 1) (u64 (min - 1)) in
    (* last is below this range *)
    if mas_last mas <? min then next_slot
    (* index is above this range. *)
    else if max <? mas_index mas then Some (RevBusy (mas_set_err (- EBUSY) mas))
    else
      g <-? (if ma_is_leaf (type_code type) then
               s <-? mas_get_rcu_slot w mas slot ;;
               if nonzero s then Some None
               else Some (Some (u64 (max - min + 1)))
             else g <-? mte_get_gap w (mas_node mas) slot ;; Some (Some g)) ;;
      match g with
      | None => next_slot
      | Some gap =>
        if u64 (mas_last mas - min + 1) <? size then next_slot
        else if gap <? size then next_slot
        else if ma_is_leaf (type_code type)
        then Some (RevBreak true
                     (set_max (u64 (min + gap - 1)) (set_min min mas))
                     slot min max)
        else Some (RevBreak false mas slot min max)
      end
  end.

(** [_mas_rev_awalk]: the answer and the cursor. *)
Definition _mas_rev_awalk (w : world) (mas : ma_state) (size : Z)
  : option (bool * ma_state) :=
  type <-? node_type (mas_node mas) ;;
  let slot := mas_offset mas in
  max <-? _mas_get_safe_pivot w mas slot type ;;
  let ascend (found : bool) (mas : ma_state) (slot : Z) :=
    r <-? mte_is_root w (mas_node mas) ;;
    let mas := if (r : bool) then mas_set_err (- EBUSY) mas else mas in
    Some (found, mas_set_offset slot mas) in
  sc <-? match type with
         | maple_dense =>
           Some (RevBreak true mas (u8 (mas_index mas - mas_min mas))
                   (mas_min mas) max)
         | _ => _mas_rev_awalk_loop 64 w mas type size slot max
         end ;;
  match sc with
  | RevBusy mas => Some (false, mas)
  | RevAscend mas slot => ascend false mas slot
  | RevBreak found mas slot min max =>
    if negb (ma_is_leaf (type_code type)) then (* descend *)
      next <-? mas_get_rcu_slot w mas slot ;;
      let mas := set_max max (set_min min mas) in
      if mt_is_empty next then ascend found mas slot
      else
        let mas := set_node next mas in
        nt <-? node_type next ;;
        e <-? _mas_data_end w mas nt ;;
        Some (found, mas_set_offset (fst e) mas)
    else Some (found, mas_set_offset slot mas)
  end.

Fixpoint mas_rewind_node_loop (fuel : nat) (w : world) (mas : ma_state)
  : option (option Z * ma_state) :=
  match fuel with
  | O => None
  | S f =>
    r <-? mte_is_root w (mas_node mas) ;;
    if (r : bool) then
      let slot := mas_offset mas in
      if slot =? 0 then Some (None, mas_set_err (- EBUSY) mas)
      else Some (Some slot, mas)
    else
      slot <-? mte_parent_slot w (mas_node mas) ;;
      let slot := u8 slot in
      mas <-? mas_ascend w mas ;;
      if slot =? 0 then mas_rewind_node_loop f w mas
      else Some (Some slot, mas)
  end.

Definition mas_rewind_node (w : world) (mas : ma_state)
  : option (bool * ma_state) :=
  r <-? mas_rewind_node_loop TREE_DEPTH w mas ;;
  match r with
  | (None, mas) => Some (false, mas)
  | (Some slot, mas) => Some (true, mas_set_offset (u8 (slot - 1)) mas)
  end.

Fixpoint mas_rev_awalk_loop (fuel : nat) (w : world) (mas : ma_state)
    (size last : Z) : option ma_state :=
  match fuel with
  | O => None
  | S f =>
    if mas_is_err mas then Some mas
    else
      r <-? _mas_rev_awalk w mas size ;;
      let '(found, mas) := r in
      if (found : bool) then Some mas
      else if last =? mas_node mas then
        s <-? mas_rewind_node w mas ;;
        mas_rev_awalk_loop f w (snd s) size last
      else mas_rev_awalk_loop f w mas size (mas_node mas)
  end.

Definition mas_rev_awalk (w : world) (mas : ma_state) (size : Z)
  : option ma_state :=
  let '(_, mas) := mas_start w mas in
  if mas_is_none mas then Some (mas_set_offset MAPLE_NODE_SLOTS mas)
  else if mas_is_ptr mas then Some mas
  else if mas_is_err mas then Some mas
  else
    e <-? mas_data_end w mas ;;
    mas_rev_awalk_loop WALK_FUEL w (mas_set_offset e mas) size 0.

(** ** Allocation *)

(** [mas_fill_gap]: the value it returns, the value written to *index and
    the cursor. *)
Definition mas_fill_gap (mas : ma_state) (entry slot size : Z)
  : M (Z * Z * ma_state) :=
  pslot <- mread (fun w => mte_parent_slot w (mas_node mas)) ;;
  let pslot := u8 pslot in
  let mn := mas_node mas in
  let index := mas_index mas in
  let mas := set_last (u64 (mas_index mas + size - 1)) mas in
  mas <- mread (fun w =>
           mas <-? mas_ascend w mas ;;
           p <-? mas_get_safe_pivot w mas pslot ;;
           let mas := set_max p mas in
           l <-? mas_get_safe_lower_bound w mas pslot ;;
           Some (mas_set_offset slot (set_node mn (set_min l mas)))) ;;
  r <- _mas_store mas entry false ;;
  mret (0, index, snd r).

Definition mas_set_fwd_index (w : world) (mas : ma_state) (size : Z)
  : option ma_state :=
  let slot := mas_offset mas in
  min <-? (if nonzero slot
           then p <-? mte_get_pivot w (mas_node mas) (slot - 1) ;;
                Some (u64 (p + 1))
           else Some (mas_min mas)) ;;
  let mas := set_min min mas in
  p <-? mas_get_safe_pivot w mas slot ;;
  let mas := set_max p mas in
  let mas := if mas_index mas <? min then set_index min mas else mas in
  Some (set_last (u64 (mas_index mas + size - 1)) mas).

Definition mas_set_rev_index (mas : ma_state) (size : Z) : ma_state :=
  let gap_max := mas_max mas in
  let range_max := mas_last mas in
  let gap_max := if range_max <? gap_max then range_max else gap_max in
  let mas := set_last gap_max mas in
  set_index (u64 (mas_last mas - size + 1)) mas.

Definition _mas_empty_or_single_empty_area (mas : ma_state)
    (min max size : Z) (fwd : bool) : ma_state :=
  let start := if negb (mas_is_none mas) then 1 else 0 in
  let start := if start <? min then min else start in
  if fwd then set_last (u64 (start + size - 1)) (set_index start mas)
  else set_index max mas.

(** [_mas_get_empty_area]: the value returned and the cursor. *)
Definition _mas_get_empty_area (w : world) (mas : ma_state)
    (min max size : Z) (forward : bool) : option (Z * ma_state) :=
  let '(_, mas) := mas_start w mas in
  let max := u64 (max - 1) in            (* Convert to inclusive. *)
  if mas_is_none mas || mas_is_ptr mas
  then Some (0, _mas_empty_or_single_empty_area mas min max size forward)
  else
    (* The start of the window can only be within these values. *)
    let mas := set_last max (set_index min mas) in
    mas <-? (if forward then mas_awalk w mas size
             else mas_rev_awalk w mas size) ;;
    if mas_is_err mas then Some (to_int (xa_err (mas_node mas)), mas)
    else if mas_offset mas =? MAPLE_NODE_SLOTS then Some (- EBUSY, mas)
    else
      mas <-? (if forward then mas_set_fwd_index w mas size
               else Some (mas_set_rev_index mas size)) ;;
      Some (0, mas).

Definition mas_get_empty_area (w : world) (mas : ma_state) (min max size : Z) :=
  _mas_get_empty_area w mas min max size true.
Definition mas_get_empty_area_rev (w : world) (mas : ma_state)
    (min max size : Z) :=
  _mas_get_empty_area w mas min max size false.

(** The outcome of an allocation: the int returned, what was written to
    the out-parameter (if anything was) and the cursor. *)
Record alloc_result : Set := MkAlloc {
  al_ret : Z;
  al_index : option Z;
  al_mas : ma_state
}.

(** [mas_alloc]. *)
Definition mas_alloc (mas : ma_state) (entry size : Z) : M alloc_result :=
  w <- mget ;;
  let '(_, mas) := mas_start w mas in
  if mas_is_none mas || mas_is_ptr mas then
    r <- mas_root_expand mas entry ;;
    let mas := snd r in
    if mas_is_err mas
    then mret (MkAlloc (to_int (xa_err (mas_node mas))) None mas)
    else
      p <- mread (fun w => mte_get_pivot w (mas_node mas)
                             (if mas_index mas =? 0 then 0 else 1)) ;;
      mret (MkAlloc (to_int p) None mas)
  else
    mas <- mread (fun w => mas_awalk w mas size) ;; (* Must be walking a tree. *)
    if mas_is_err mas
    then mret (MkAlloc (to_int (xa_err (mas_node mas))) None mas)
    else
      let slot := mas_offset mas in
      if slot =? MAPLE_NODE_SLOTS then mret (MkAlloc (- EBUSY) None mas)
      else
        (* At this point, mas->node points to the right node and we have a
           slot that has a sufficient gap. *)
        min <- mread (fun w =>
                 if nonzero slot
                 then p <-? mte_get_pivot w (mas_node mas) (slot - 1) ;;
                      Some (u64 (p + 1))
                 else Some (mas_min mas)) ;;
        let mas := if mas_index mas <? min then set_index min mas else mas in
        r <- mas_fill_gap mas entry slot size ;;
        let '(ret, index, mas) := r in
        mret (MkAlloc ret (Some index) mas).

(** [mas_rev_alloc]. *)
Definition mas_rev_alloc (mas : ma_state) (min max entry size : Z)
  : M alloc_result :=
  r <- mread (fun w => _mas_get_empty_area w mas min max size false) ;;
  let '(ret, mas) := r in
  if nonzero ret then mret (MkAlloc ret None mas)
  else if mas_is_err mas
  then mret (MkAlloc (to_int (xa_err (mas_node mas))) None mas)
  else
    let slot := mas_offset mas in
    if slot =? MAPLE_NODE_SLOTS then mret (MkAlloc (- EBUSY) None mas)
    else
      r <- mas_fill_gap mas entry slot size ;;
      let '(ret, index, mas) := r in
      mret (MkAlloc ret (Some index) mas).

(** The retry loops of the two allocation entry points; the last write to
    the out-parameter wins. *)
Fixpoint mtree_alloc_range_retry (fuel : nat) (mas : ma_state)
    (entry size min max : Z) (startp : option Z) : M (Z * option Z) :=
  match fuel with
  | O => mfail
  | S f =>
    let mas := mas_set_offset 0 mas in
    let mas := set_index min mas in
    let mas := set_last (u64 (max - size)) mas in
    r <- mas_alloc mas entry size ;;
    let startp := match al_index r with Some i => Some i | None => startp end in
    n <- mas_nomem (al_mas r) ;;
    if fst n then mtree_alloc_range_retry f (snd n) entry size min max startp
    else mret (al_ret r, startp)
  end.

(** [mtree_alloc_range]: the int returned and the value left in *startp,
    [None] when the function never wrote it. *)
Definition mtree_alloc_range (entry size min max : Z) : M (Z * option Z) :=
  w <- mget ;;
  let mas := MA_STATE min (u64 (max - size)) in
  if negb (mt_is_alloc (ma_flags w)) then mret (- EINVAL, None)
  else if mt_is_reserved entry then mret (- EINVAL, None)
  else if max <? min then mret (- EINVAL, None)
  else if max <? size then mret (- EINVAL, None)
  else if size =? 0 then mret (- EINVAL, None)
  else mtree_alloc_range_retry RETRY_FUEL mas entry size min max None.

Fixpoint mtree_alloc_rrange_retry (fuel : nat) (mas : ma_state)
    (entry size min max : Z) (startp : option Z) : M (Z * option Z) :=
  match fuel with
  | O => mfail
  | S f =>
    r <- mas_rev_alloc mas min max entry size ;;
    let startp := match al_index r with Some i => Some i | None => startp end in
    n <- mas_nomem (al_mas r) ;;
    if fst n then mtree_alloc_rrange_retry f (snd n) entry size min max startp
    else mret (al_ret r, startp)
  end.

(** [mtree_alloc_rrange]. *)
Definition mtree_alloc_rrange (entry size min max : Z) : M (Z * option Z) :=
  w <- mget ;;
  let mas := MA_STATE min (u64 (max - size)) in
  if negb (mt_is_alloc (ma_flags w)) then mret (- EINVAL, None)
  else if mt_is_reserved entry then mret (- EINVAL, None)
  else if max <=? min then mret (- EINVAL, None)
  else if max <? u64 (size - 1) then mret (- EINVAL, None)
  else if size =? 0 then mret (- EINVAL, None)
  else mtree_alloc_rrange_retry RETRY_FUEL mas entry size min max None.

(** ** The validation code of the source (CONFIG_DEBUG_MAPLE_TREE)

    [MT_BUG_ON] reports a broken tree; the functions below answer [false]
    where the source would report one. *)

(** The loop of [mas_validate_gaps] over the ranges of a node: whether no
    bug was reported, and max_gap. *)
Fixpoint mas_validate_gaps_loop (n : nat) (w : world) (mas : ma_state)
    (i p_start gap max_gap : Z) : option (bool * Z) :=
  match n with
  | O => Some (true, max_gap)
  | S n' =>
    p_end <-? mas_get_safe_pivot w mas i ;;
    let p_end := if (p_end =? 0) && nonzero i then mas_max mas else p_end in
    entry <-? mas_get_rcu_slot w mas i ;;
    let width := u64 (p_end - p_start + 1) in
    st <-? (if mte_is_leaf (mas_node mas) then
              if negb (mt_is_empty entry) then Some (true, 0, max_gap)
              else
                let gap := u64 (gap + width) in
                Some (true, gap, if max_gap <? gap then gap else max_gap)
            else
              g <-? mte_get_gap w (mas_node mas) i ;;
              let ok := if mt_is_empty entry then g =? width
                        else negb (width <? g) in
              Some (ok, g, if max_gap <? g then g else max_gap)) ;;
    let '(ok, gap, max_gap) := st in
    if negb ok then Some (false, max_gap)
    else if mas_max mas <=? p_end then Some (true, max_gap)
    else mas_validate_gaps_loop n' w mas (i + 1) (u64 (p_end + 1)) gap max_gap
  end.

(** The dense loop of [mas_validate_gaps]. *)
Fixpoint mas_validate_gaps_dense (n : nat) (w : world) (mas : ma_state)
    (i gap max_gap : Z) : option Z :=
  match n with
  | O => Some max_gap
  | S n' =>
    entry <-? mas_get_rcu_slot w mas i ;;
    if negb (mt_is_empty entry)
    then mas_validate_gaps_dense n' w mas (i + 1) 0
           (if max_gap <? gap then gap else max_gap)
    else mas_validate_gaps_dense n' w mas (i + 1) (u64 (gap + 1)) max_gap
  end.

(** [mas_validate_gaps]: [false] when an MT_BUG_ON fires. *)
Definition mas_validate_gaps (w : world) (mas : ma_state) : option bool :=
  let mte := mas_node mas in
  t <-? node_type mte ;;
  r <-? (if mte_is_dense mte then
           g <-? mas_validate_gaps_dense (Z.to_nat (mt_slots t)) w mas 0 0 0 ;;
           Some (true, g)
         else mas_validate_gaps_loop (Z.to_nat (mt_slots t)) w mas 0
                (mas_min mas) 0 0) ;;
  let '(ok, max_gap) := r in
  if negb ok then Some false
  else
    (* counted: *)
    root <-? mte_is_root w mte ;;
    if (root : bool) then Some true
    else
      p_slot <-? mte_parent_slot w mte ;;
      p_mn <-? mte_parent w mte ;;
      pt <-? mas_parent_enum w mas mte ;;
      g <-? ma_get_gap w p_mn (u8 p_slot) pt ;;
      if mas_max mas <? max_gap then Some false
      else Some (g =? max_gap).

(** The size check of [mt_validate] on one node: [false] when the node is
    reported as having an invalid size. *)
Definition mt_validate_size (w : world) (mas : ma_state) : option bool :=
  root <-? mte_is_root w (mas_node mas) ;;
  if (root : bool) then Some true
  else
    end_ <-? mas_data_end w mas ;;
    t <-? node_type (mas_node mas) ;;
    Some (negb ((end_ <? mt_min_slots t)
                && negb (mas_max mas =? ULONG_MAX))).

(** ** What the tree maps, read off the nodes

    These definitions are not code of the source: they say which ranges a
    sub-tree holds, resolving the slots of a node the way mas_node_walk
    does, and are what the properties below compare the code with. *)

(** A range of indices and the entry stored for it. *)
Record range_entry : Set := MkRange {
  re_first : Z;
  re_last : Z;
  re_entry : Z
}.

(** The ranges of the slots of one node that covers [lo, hi]. *)
Fixpoint node_ranges (n : nat) (w : world) (enode : Z) (t : maple_type)
    (i lo hi : Z) : option (list range_entry) :=
  match n with
  | O => Some []
  | S n' =>
    if mt_slots t <=? i then Some []
    else
      p <-? (if mt_pivots t <=? i then Some hi
             else _mte_get_pivot w enode i t) ;;
      s <-? _mte_get_rcu_slot w enode i t ;;
      if (p =? 0) && nonzero i then Some [MkRange lo hi s]
      else if hi <=? p then Some [MkRange lo p s]
      else
        r <-? node_ranges n' w enode t (i + 1) (p + 1) hi ;;
        Some (MkRange lo p s :: r)
  end.

(** The ranges of the leaves below [enode], in order. *)
Fixpoint subtree_ranges (fuel : nat) (w : world) (enode lo hi : Z)
  : option (list range_entry) :=
  match fuel with
  | O => None
  | S f =>
    t <-? node_type enode ;;
    rs <-? node_ranges (Z.to_nat (mt_slots t)) w enode t 0 lo hi ;;
    if ma_is_leaf (type_code t) then Some rs
    else
      (fix children (l : list range_entry) : option (list range_entry) :=
         match l with
         | [] => Some []
         | r :: tl =>
           sub <-? (if re_entry r =? 0 then Some [r]
                    else subtree_ranges f w (re_entry r) (re_first r)
                           (re_last r)) ;;
           rest <-? children tl ;;
           Some (sub ++ rest)
         end) rs
  end.

(** The length of the longest run of consecutive indices without an entry
    in a list of adjacent ranges. *)
Fixpoint max_empty_run (l : list range_entry) (run best : Z) : Z :=
  match l with
  | [] => Z.max run best
  | r :: tl =>
    if re_entry r =? 0
    then max_empty_run tl (run + (re_last r - re_first r + 1)) best
    else max_empty_run tl 0 (Z.max run best)
  end.

(** The classification of a write at a node as the specification words
    it: spanning when last >= pivot and the node is internal or last >=
    max, except for a write up to the last index that exactly fills
    [min, max]. *)
Definition span_wr_as_specified (mas : ma_state) (piv : Z) : bool :=
  (piv <=? mas_last mas)
  && (negb (mte_is_leaf (mas_node mas)) || (mas_max mas <=? mas_last mas))
  && negb ((mas_last mas =? ULONG_MAX) && (mas_index mas =? mas_min mas)
           && (mas_last mas =? mas_max mas)).

(** A sequence of range stores, each of which has to succeed. *)
Fixpoint store_all (ops : list range_entry) : M unit :=
  match ops with
  | [] => mret tt
  | op :: tl =>
    r <- mtree_store_range (re_first op) (re_last op) (re_entry op) ;;
    if r =? 0 then store_all tl else mfail
  end.

(** A cursor placed on the node [enode] that covers [lo, hi]. *)
Definition mas_at (enode lo hi : Z) : ma_state :=
  set_max hi (set_min lo (set_node enode (MA_STATE lo lo))).

(** ** The trees and cursors the properties are checked on *)

(** Two entries, as the addresses of two objects of the caller. *)
Definition entry_A : Z := 40000.
Definition entry_B : Z := 50000.

(** An empty tree at address 128, with room for 64 nodes from address 4096
    on; without and with allocation mode. *)
Definition empty_tree : world := mtree_init 128 4096 64 0.
Definition empty_alloc_tree : world := mtree_init 128 4096 64 MAPLE_ALLOC_RANGE.

(** The world an operation leaves behind; the world it started from when
    the operation has no defined result. *)
Definition world_after {A : Type} (c : M A) (w : world) : world :=
  match c w with
  | Some (_, w') => w'
  | None => w
  end.

(** Seven ranges of three indices, ten apart, then a range between the
    first two, then a store of NULL over [100, 110]. *)
Definition gap_scenario : list range_entry :=
  map (fun i => MkRange (10 * i + 5) (10 * i + 7) (entry_A + 8 * i))
      [0; 1; 2; 3; 4; 5; 6]
  ++ [MkRange 10 11 entry_B; MkRange 100 110 0].

(** Sixteen single indices stored in ascending order, 1 to 16. *)
Definition ascending_stores : list range_entry :=
  map (fun i => MkRange i i (entry_A + 8 * (i - 1)))
      [1; 2; 3; 4; 5; 6; 7; 8; 9; 10; 11; 12; 13; 14; 15; 16].

(** Single indices four apart, from 4 to 48, then the indices 2, 6, 10
    and 13 in the gaps of the first of the two leaves. *)
Definition sparse_stores : list range_entry :=
  map (fun i => MkRange i i (entry_A + 8 * i))
      [4; 8; 12; 16; 20; 24; 28; 32; 36; 40; 44; 48; 2; 6; 10; 13].

(** The encoded leaf_64 node at the first node address. *)
Definition first_leaf : Z := mt_mk_node 4096 (type_code maple_leaf_64).

(** A cursor writing [index, last] at the node [enode] that covers
    [lo, hi]. *)
Definition mas_writing (index last enode lo hi : Z) : ma_state :=
  set_last last (set_index index (mas_at enode lo hi)).

(** ** Predicates used to state the properties of the code *)

(** [w'] is [w] with the word [i] of the node [n] set to [v]: every other
    word of the memory and the tree handle are as before. *)
Definition word_written (w w' : world) (n i v : Z) : Prop :=
  (forall n' j,
     rd_word w' n' j
     = if decide (n' = n /\ j = i) then Some v else rd_word w n' j)
  /\ ma_root w' = ma_root w /\ ma_flags w' = ma_flags w
  /\ brk w' = brk w /\ avail w' = avail w /\ tree_addr w' = tree_addr w.

(** The node at address [n] is allocated, with all its words. *)
Definition node_live (w : world) (n : Z) : Prop :=
  exists l, heap w !! n = Some l /\ length l = NODE_WORDS.

(** The node types the tree builds: mas_root_expand makes a leaf_64,
    mas_new_ma_node a range_64 or, in allocation mode, an arange_64. *)
Definition type_is_64 (t : maple_type) : bool :=
  match t with
  | maple_leaf_64 | maple_range_64 | maple_arange_64 => true
  | _ => false
  end.

(** The entry of the first range of a list that ends at or after the
    index [i]. *)
Fixpoint ranges_entry (l : list range_entry) (i : Z) : option Z :=
  match l with
  | [] => None
  | r :: tl => if i <=? re_last r then Some (re_entry r) else ranges_entry tl i
  end.

(** The ranges of a list are not empty and each one ends before the next
    one starts. *)
Fixpoint ranges_ascending (l : list range_entry) : bool :=
  match l with
  | [] => true
  | r :: tl =>
    (re_first r <=? re_last r)
    && match tl with
       | [] => true
       | r' :: _ => re_last r <? re_first r'
       end
    && ranges_ascending tl
  end.

(** The ranges of the sub-trees in the slots of an internal node, given
    the ranges [rs] of its slots: the second half of subtree_ranges. *)
Definition children_ranges (f : nat) (w : world) (rs : list range_entry)
  : option (list range_entry) :=
  (fix children (l : list range_entry) : option (list range_entry) :=
     match l with
     | [] => Some []
     | r :: tl =>
       sub <-? (if re_entry r =? 0 then Some [r]
                else subtree_ranges f w (re_entry r) (re_first r)
                       (re_last r)) ;;
       rest <-? children tl ;;
       Some (sub ++ rest)
     end) rs.

(** The encoded nodes below and including [enode], listed the way
    subtree_ranges visits them. *)
Fixpoint subtree_nodes (fuel : nat) (w : world) (enode lo hi : Z)
  : option (list Z) :=
  match fuel with
  | O => None
  | S f =>
    t <-? node_type enode ;;
    rs <-? node_ranges (Z.to_nat (mt_slots t)) w enode t 0 lo hi ;;
    if ma_is_leaf (type_code t) then Some [enode]
    else
      sub <-? (fix children (l : list range_entry) : option (list Z) :=
                 match l with
                 | [] => Some []
                 | r :: tl =>
                   sub <-? (if re_entry r =? 0 then Some []
                            else subtree_nodes f w (re_entry r) (re_first r)
                                   (re_last r)) ;;
                   rest <-? children tl ;;
                   Some (sub ++ rest)
                 end) rs ;;
      Some (enode :: sub)
  end.

Definition children_nodes (f : nat) (w : world) (rs : list range_entry)
  : option (list Z) :=
  (fix children (l : list range_entry) : option (list Z) :=
     match l with
     | [] => Some []
     | r :: tl =>
       sub <-? (if re_entry r =? 0 then Some []
                else subtree_nodes f w (re_entry r) (re_first r)
                       (re_last r)) ;;
       rest <-? children tl ;;
       Some (sub ++ rest)
     end) rs.

(** A node of one of the three 64-bit types that is not marked dead. *)
Definition node_ok (w : world) (e : Z) : bool :=
  match node_type e, mte_dead_node w e with
  | Some t, Some false => type_is_64 t
  | _, _ => false
  end.

(** The words of the leaf that mas_root_expand builds in an empty tree
    whose handle is at [ta], for a store of [entry] over [index, last]: the
    parent word, then the pivots, then the slots. *)
Definition root_leaf_words (ta index last entry : Z) : list Z :=
  if 1 <? index
  then <[2%nat := last]> (<[17%nat := entry]> (<[1%nat := index - 1]>
         (<[0%nat := Z.lor ta MA_ROOT_PARENT]> (replicate NODE_WORDS 0))))
  else <[1%nat := last]> (<[16%nat := entry]>
         (<[0%nat := Z.lor ta MA_ROOT_PARENT]> (replicate NODE_WORDS 0))).

(** The flags after mas_set_height with a depth of 1. *)
Definition flags_height_1 (f : Z) : Z :=
  u32 (Z.lor (u32 (clear_bits f MAPLE_HEIGHT_MASK))
         (Z.shiftl 1 MAPLE_HEIGHT_OFFSET)).

(** The world after that store: the new leaf at the address the cache
    hands out, marked as the root. *)
Definition root_leaf_world (w : world) (index last entry : Z) : world :=
  MkWorld (<[brk w := root_leaf_words (tree_addr w) index last entry]>
             (heap w))
          (brk w + NODE_SIZE) (Nat.pred (avail w))
          (flags_height_1 (ma_flags w))
          (mte_mk_root (mt_mk_node (brk w) (type_code maple_leaf_64)))
          (tree_addr w).

(** The ranges of that leaf: NULL below [index] when index > 1, the entry
    up to [last], NULL above [last]. *)
Definition root_leaf_ranges (index last entry : Z) : list range_entry :=
  (if 1 <? index then [MkRange 0 (index - 1) 0] else [])
  ++ [MkRange (if 1 <? index then index - 1 + 1 else 0) last entry]
  ++ (if ULONG_MAX <=? last then []
      else [MkRange (last + 1) ULONG_MAX 0]).

(** ** Destroying a tree *)

(** [mtree_destroy]: the root node, if there is one, goes to
    mte_destroy_walk; the flags and the root of the handle are cleared. *)
Definition mtree_destroy : M unit :=
  w <- mget ;;
  (if xa_is_node (ma_root w) then mte_destroy_walk (ma_root w)
   else mret tt) ;;;
  (fun w => Some (tt, set_ma_root 0 (set_ma_flags 0 w))).

(** The gap mas_leaf_max_gap computes from the ranges of a leaf: the
    largest length, as an unsigned long, of a range without an entry. *)
Fixpoint ranges_max_gap (l : list range_entry) (best : Z) : Z :=
  match l with
  | [] => best
  | r :: tl =>
    ranges_max_gap tl
      (if mt_is_empty (re_entry r)
       then let gap := u64 (re_last r - re_first r + 1) in
            if best <? gap then gap else best
       else best)
  end.

(** ** What a tree holds for an index *)

(** The entry a tree holds for an index: in a tree of nodes, the entry of
    the range of the leaves that contains the index; in a tree without a
    node, the root pointer for index 0 and nothing for any other index. *)
Definition stored_entry (w : world) (i : Z) : option Z :=
  if xa_is_node (ma_root w) then
    l <-? subtree_ranges TREE_DEPTH w (mte_safe_root (ma_root w)) 0
            ULONG_MAX ;;
    ranges_entry l i
  else Some (if i =? 0 then ma_root w else 0).

(** A well-formed tree.  Under a root node: the nodes are live nodes of
    the 64-bit types and the ranges of the leaves are in ascending order.
    Without a root node: the root pointer is NULL or an entry whose two low
    bits are not 10, the only entries ma_root_ptr puts there (it expands
    the root into a leaf for every other entry). *)
Definition tree_ok (w : world) : Prop :=
  if xa_is_node (ma_root w) then
    exists (l : list range_entry) (ns : list Z),
      subtree_ranges TREE_DEPTH w (mte_safe_root (ma_root w)) 0 ULONG_MAX
      = Some l
      /\ subtree_nodes TREE_DEPTH w (mte_safe_root (ma_root w)) 0 ULONG_MAX
         = Some ns
      /\ forallb (node_ok w) ns = true
      /\ ranges_ascending l = true
  else Z.land (ma_root w) 3 <> 2.

(** ** Proof automation *)

(** Case analysis on every comparison of integers in the goal. *)
Ltac cases_on_comparisons :=
  repeat match goal with
  | |- context [?a <? ?b] => destruct (Z.ltb_spec a b)
  | |- context [?a <=? ?b] => destruct (Z.leb_spec a b)
  | |- context [?a =? ?b] => destruct (Z.eqb_spec a b)
  end.

(** Evaluation of a conjunction of closed equations, one conjunct after the
    other: a conjunct may name a value that the one before it yields. *)
Ltac evaluate :=
  repeat (split; [vm_compute; reflexivity|]); vm_compute; reflexivity.

(** * Properties *)

(** ** Helper facts *)

Lemma u64_small (x : Z) : 0 <= x < 2 ^ 64 -> u64 x = x.
Proof. intros H. unfold u64. apply Z.mod_small. exact H. Qed.

(** The first scenario of the specification: a range stored in an empty
    tree is found at its indices and nowhere else. *)
Lemma store_range_10_20_loads :
  exists w,
    mtree_store_range 10 20 entry_A empty_tree = Some (0, w)
    /\ mtree_load w 9 = Some 0
    /\ mtree_load w 10 = Some entry_A
    /\ mtree_load w 15 = Some entry_A
    /\ mtree_load w 20 = Some entry_A
    /\ mtree_load w 21 = Some 0.
Proof.
  eexists. evaluate.
Qed.

(** The sixth scenario of the specification: the second insert fails
    with -EEXIST and leaves the tree, the memory included, as it was. *)
Lemma insert_range_10_20_then_15_25 :
  exists w,
    mtree_insert_range 10 20 entry_A empty_tree = Some (0, w)
    /\ mtree_insert_range 15 25 entry_B w = Some (- EEXIST, w).
Proof.
  eexists. evaluate.
Qed.

(** An insert at index 0 over a root that holds an entry for index 0 is
    refused. *)
Lemma insert_0_twice :
  exists w,
    mtree_insert 0 entry_A empty_tree = Some (0, w)
    /\ mtree_insert 0 entry_B w = Some (- EEXIST, w).
Proof.
  eexists. evaluate.
Qed.

(** The allocation entry points refuse every reserved entry. *)
Lemma mtree_alloc_rejects_reserved (w : world) (entry size min max : Z) :
  mt_is_alloc (ma_flags w) = true ->
  mt_is_reserved entry = true ->
  mtree_alloc_range entry size min max w = Some ((- EINVAL, None), w)
  /\ mtree_alloc_rrange entry size min max w = Some ((- EINVAL, None), w).
Proof.
  intros Ha Hr. unfold mtree_alloc_range, mtree_alloc_rrange, mbind, mget.
  rewrite Ha, Hr. simpl. split; reflexivity.
Qed.

(** Setting RCU mode on a flags word whose bit 1 is clear sets bit 2 and
    leaves bit 1 clear. *)
Lemma mt_set_in_rcu_bits (f : Z) :
  Z.land f MAPLE_USE_RCU = 0 ->
  mt_set_in_rcu f = Z.lor f 4
  /\ Z.testbit (mt_set_in_rcu f) 1 = false
  /\ Z.testbit (mt_set_in_rcu f) 2 = true.
Proof.
  intros H.
  assert (E : mt_set_in_rcu f = Z.lor f 4).
  { unfold mt_set_in_rcu. rewrite H. reflexivity. }
  assert (Hb : Z.testbit f 1 = false).
  { assert (T : Z.testbit (Z.land f MAPLE_USE_RCU) 1 = false)
      by (rewrite H; reflexivity).
    rewrite Z.land_spec, andb_true_r in T. exact T. }
  rewrite E. split; [reflexivity|].
  rewrite !Z.lor_spec, Hb. split; [reflexivity|]. apply orb_true_r.
Qed.

(** ** C1: what a load returns after stores *)

(** C1, evaluated on the code where it fails: in an empty tree, after the
    one store of entry_B over [1, 5], which does not cover index 0, the
    load of index 0 returns entry_B and not NULL (mas_root_expand writes no
    NULL range below an index of 1). *)
Theorem mtree_load_after_store_from_1 :
  exists w,
    mtree_store_range 1 5 entry_B empty_tree = Some (0, w)
    /\ mtree_load w 0 = Some entry_B
    /\ mtree_load w 1 = Some entry_B
    /\ mtree_load w 5 = Some entry_B
    /\ mtree_load w 6 = Some 0.
Proof.
  eexists. evaluate.
Qed.

(** The same store from index 2 on leaves index 0 and index 1 empty. *)
Lemma mtree_load_after_store_from_2 :
  exists w,
    mtree_store_range 2 5 entry_B empty_tree = Some (0, w)
    /\ mtree_load w 0 = Some 0
    /\ mtree_load w 1 = Some 0
    /\ mtree_load w 2 = Some entry_B
    /\ mtree_load w 5 = Some entry_B
    /\ mtree_load w 6 = Some 0.
Proof.
  eexists. evaluate.
Qed.

(** An entry with both low bits set, stored at index 0 of an empty tree,
    becomes the root and is loaded without its bit 1 (mas_range_load
    returns mte_safe_root of the root). *)
Lemma mtree_load_root_entry_low_bits :
  exists w,
    mtree_store_range 0 0 3 empty_tree = Some (0, w)
    /\ ma_root w = 3
    /\ mtree_load w 0 = Some 1.
Proof.
  eexists. evaluate.
Qed.

(** ** C2: allocation of a range *)

(** C2, evaluated on the code where it fails: in an empty tree in
    allocation mode, the forward allocation of 16 indices in the window
    [0, hi], with hi the largest unsigned long or the largest unsigned int,
    returns -17 and never writes the start index; the entry is stored over
    [0, hi - 16], seventeen indices short of the whole window, instead of
    [0, 15].  The reverse allocation with the same arguments has no defined
    result (mas_fill_gap reads the parent of the node of a cursor that is
    MAS_NONE). *)
Theorem mtree_alloc_range_empty_tree :
  (exists w,
     mtree_alloc_range entry_A 16 0 ULONG_MAX empty_alloc_tree
       = Some ((-17, None), w)
     /\ subtree_ranges 2 w (mte_safe_root (ma_root w)) 0 ULONG_MAX
          = Some [MkRange 0 (ULONG_MAX - 16) entry_A;
                  MkRange (ULONG_MAX - 15) ULONG_MAX 0]
     /\ mtree_load w 16 = Some entry_A)
  /\ (exists w,
        mtree_alloc_range entry_A 16 0 (2 ^ 32 - 1) empty_alloc_tree
          = Some ((-17, None), w)
        /\ subtree_ranges 2 w (mte_safe_root (ma_root w)) 0 ULONG_MAX
             = Some [MkRange 0 (2 ^ 32 - 17) entry_A;
                     MkRange (2 ^ 32 - 16) ULONG_MAX 0]
        /\ mtree_load w 16 = Some entry_A)
  /\ mtree_alloc_rrange entry_A 16 0 ULONG_MAX empty_alloc_tree = None.
Proof.
  split; [eexists; evaluate|].
  split; [eexists; evaluate|].
  vm_compute. reflexivity.
Qed.

(** ** C3: the classification of a write as spanning *)

(** C3 fails as stated: a write of the non-NULL entry_A over [15, 20] at a
    leaf that covers [0, 20] (last = max = the pivot) is classified
    spanning by the wording and not by the code; and a write of NULL over
    [5, ULONG_MAX] at a leaf that covers [0, ULONG_MAX], which does not
    fill the node exactly, is classified spanning by the wording and not by
    the code. *)
Lemma mas_is_span_wr_not_as_specified :
  span_wr_as_specified (mas_writing 15 20 first_leaf 0 20) 20 = true
  /\ fst (mas_is_span_wr (mas_writing 15 20 first_leaf 0 20) 20 entry_A)
       = false
  /\ span_wr_as_specified (mas_writing 5 ULONG_MAX first_leaf 0 ULONG_MAX)
       ULONG_MAX = true
  /\ fst (mas_is_span_wr (mas_writing 5 ULONG_MAX first_leaf 0 ULONG_MAX)
            ULONG_MAX 0) = false.
Proof. repeat split; vm_compute; reflexivity. Qed.

(** C3, amended: for a cursor not yet marked as spanning, mas_is_span_wr
    answers true exactly when last >= pivot, the write is not one with
    last = ULONG_MAX = max and min <= index, and either the node is
    internal and last > pivot or the entry is NULL, or the node is a leaf
    and last > max, or last = max and the entry is NULL.  When it answers
    true the cursor records the node as span_enode; otherwise the cursor is
    unchanged. *)
Theorem mas_is_span_wr_spec (mas : ma_state) (piv entry : Z) :
  mas_span_enode mas = 0 ->
  (fst (mas_is_span_wr mas piv entry) = true <->
     piv <= mas_last mas
     /\ ~ (mas_last mas = ULONG_MAX /\ mas_min mas <= mas_index mas
           /\ mas_last mas = mas_max mas)
     /\ (if mte_is_leaf (mas_node mas)
         then mas_max mas < mas_last mas
              \/ (mas_last mas = mas_max mas /\ entry = 0)
         else piv < mas_last mas \/ entry = 0))
  /\ snd (mas_is_span_wr mas piv entry)
       = (if fst (mas_is_span_wr mas piv entry)
          then set_span_enode (mas_node mas) mas else mas).
Proof.
  intros Hs. unfold mas_is_span_wr, nonzero. rewrite Hs. simpl.
  destruct (mte_is_leaf (mas_node mas)); simpl;
    cases_on_comparisons; simpl; (split; [|reflexivity]);
    split; intros; try discriminate; try lia; intuition lia.
Qed.

(** The amended classification on the first of the two writes above with
    NULL in place of entry_A: the write is spanning and the cursor records
    the leaf. *)
Lemma mas_is_span_wr_spec_witness :
  fst (mas_is_span_wr (mas_writing 15 20 first_leaf 0 20) 20 0) = true
  /\ snd (mas_is_span_wr (mas_writing 15 20 first_leaf 0 20) 20 0)
       = set_span_enode first_leaf (mas_writing 15 20 first_leaf 0 20).
Proof.
  pose proof (mas_is_span_wr_spec (mas_writing 15 20 first_leaf 0 20) 20 0
                eq_refl) as [[_ H] E].
  assert (T : fst (mas_is_span_wr (mas_writing 15 20 first_leaf 0 20) 20 0)
              = true).
  { apply H. vm_compute. repeat split; try discriminate.
    - intros [C _]. discriminate C.
    - right. split; reflexivity. }
  split; [exact T|]. rewrite E, T. reflexivity.
Defined.

(** ** C4: insert over an occupied range *)

(** C4, evaluated on the code where it fails: after the insert of entry_A
    at index 0 of an empty tree, which leaves entry_A as the root, the
    insert of entry_B over [0, 5] returns 0 instead of -EEXIST and replaces
    the entry of index 0 (ma_root_ptr reports an existing entry only for
    last = 0). *)
Theorem mtree_insert_range_over_root_entry :
  exists w1 w2,
    mtree_insert 0 entry_A empty_tree = Some (0, w1)
    /\ mtree_load w1 0 = Some entry_A
    /\ mtree_insert_range 0 5 entry_B w1 = Some (0, w2)
    /\ mtree_load w2 0 = Some entry_B.
Proof.
  do 2 eexists. evaluate.
Qed.

(** ** C5: reserved entries *)

(** C5 fails as stated: the zero sentinel is a reserved entry of class
    (i), and not an advanced one; store_range and insert_range both store
    it, and the cursor finds it in the tree. *)
Lemma mtree_store_range_accepts_zero_entry :
  mt_is_reserved XA_ZERO_ENTRY = true
  /\ xa_is_advanced XA_ZERO_ENTRY = false
  /\ (exists w m,
        mtree_store_range 10 20 XA_ZERO_ENTRY empty_tree = Some (0, w)
        /\ mas_load w (MA_STATE 15 15) = Some (XA_ZERO_ENTRY, m))
  /\ (exists w m,
        mtree_insert_range 10 20 XA_ZERO_ENTRY empty_tree = Some (0, w)
        /\ mas_load w (MA_STATE 15 15) = Some (XA_ZERO_ENTRY, m)).
Proof.
  split; [reflexivity|]. split; [reflexivity|].
  split; do 2 eexists; evaluate.
Qed.

(** C5, amended: for every entry of class (ii), an advanced sentinel
    encoding, both store_range and insert_range return -EINVAL and leave
    the tree as it was, whatever the range and the tree. *)
Theorem mtree_store_insert_reject_advanced (w : world)
    (first last entry : Z) :
  xa_is_advanced entry = true ->
  mtree_store_range first last entry w = Some (- EINVAL, w)
  /\ mtree_insert_range first last entry w = Some (- EINVAL, w).
Proof.
  intros H. unfold mtree_store_range, mtree_insert_range.
  rewrite H. split; reflexivity.
Qed.

(** The retry entry is refused on a tree that holds a range. *)
Lemma mtree_store_insert_reject_advanced_witness :
  xa_is_advanced XA_RETRY_ENTRY = true
  /\ mtree_store_range 30 40 XA_RETRY_ENTRY
       (world_after (mtree_store_range 10 20 entry_A) empty_tree)
     = Some (- EINVAL,
             world_after (mtree_store_range 10 20 entry_A) empty_tree)
  /\ mtree_insert_range 30 40 XA_RETRY_ENTRY
       (world_after (mtree_store_range 10 20 entry_A) empty_tree)
     = Some (- EINVAL,
             world_after (mtree_store_range 10 20 entry_A) empty_tree).
Proof.
  split; [reflexivity|].
  apply (mtree_store_insert_reject_advanced
           (world_after (mtree_store_range 10 20 entry_A) empty_tree)
           30 40 XA_RETRY_ENTRY).
  reflexivity.
Defined.

(** ** C6: the gaps recorded in allocation mode *)

(** C6, evaluated on the code where it fails: in allocation mode, after
    the stores of gap_scenario, the root records for its slot 1 a gap of
    2^64 - 111 indices, the size of [111, ULONG_MAX], while the leaf in that
    slot, which covers [38, ULONG_MAX], holds NULL in the two adjacent
    ranges [68, 110] and [111, ULONG_MAX], an empty run of 2^64 - 68
    indices (mas_extend_null reads the pivot 0 of the last, implicit range
    as its end and does not widen the store; mas_leaf_max_gap measures
    each slot on its own); mas_validate_gaps of the source reports the
    leaf. *)
Theorem gap_of_adjacent_null_ranges :
  exists w root leaf,
    store_all gap_scenario empty_alloc_tree = Some (tt, w)
    /\ root = mte_safe_root (ma_root w)
    /\ mte_node_type root = type_code maple_arange_64
    /\ mte_get_pivot w root 0 = Some 37
    /\ mte_get_rcu_slot w root 1 = Some leaf
    /\ mte_get_gap w root 1 = Some (2 ^ 64 - 111)
    /\ subtree_ranges 2 w leaf 38 ULONG_MAX
         = Some [MkRange 38 44 0; MkRange 45 47 (entry_A + 32);
                 MkRange 48 54 0; MkRange 55 57 (entry_A + 40);
                 MkRange 58 64 0; MkRange 65 67 (entry_A + 48);
                 MkRange 68 110 0; MkRange 111 ULONG_MAX 0]
    /\ option_map (fun l => max_empty_run l 0 0)
         (subtree_ranges 2 w leaf 38 ULONG_MAX) = Some (2 ^ 64 - 68)
    /\ mas_validate_gaps w (mas_at leaf 38 ULONG_MAX) = Some false.
Proof.
  do 3 eexists. evaluate.
Qed.

(** ** C7: the minimum number of slots *)

(** The leaf that ends at the last index may hold fewer slots than the
    minimum: after the stores of the indices 1 to 16 in ascending order
    the right one of the two leaves under the root, which covers
    [13, ULONG_MAX], ends at slot 4: five slots, four of them occupied,
    less than the minimum 6 of leaf-64.  The minimum of arange-64 is 4,
    below its max_slots / 2 = 5. *)
Lemma mt_min_slots_not_as_specified :
  mt_min_slots maple_arange_64 = 4
  /\ mt_slots maple_arange_64 / 2 = 5
  /\ (exists w root lft rgt,
        store_all ascending_stores empty_tree = Some (tt, w)
        /\ root = mte_safe_root (ma_root w)
        /\ mte_get_rcu_slot w root 0 = Some lft
        /\ mte_get_pivot w root 0 = Some 12
        /\ mte_get_rcu_slot w root 1 = Some rgt
        /\ mte_is_root w rgt = Some false
        /\ mas_data_end w (mas_at lft 0 12) = Some 11
        /\ mas_data_end w (mas_at rgt 13 ULONG_MAX) = Some 4
        /\ subtree_ranges 2 w rgt 13 ULONG_MAX
             = Some [MkRange 13 13 (entry_A + 96);
                     MkRange 14 14 (entry_A + 104);
                     MkRange 15 15 (entry_A + 112);
                     MkRange 16 16 (entry_A + 120);
                     MkRange 17 ULONG_MAX 0]
        /\ mt_min_slots maple_leaf_64 = 6).
Proof.
  split; [reflexivity|]. split; [reflexivity|].
  do 4 eexists. evaluate.
Qed.

(** The table of the source: the minimum of every variant is
    max_slots / 2, lowered by 2 for leaf-64 and range-64 and by 1 for
    arange-64 (in the 256-byte node layout), and by nothing for every
    other variant; the size check of the source's own mt_validate asks a
    non-root node for an end of data at or after its minimum only when
    the node does not end at the last index, and it passes on both leaves
    after the ascending stores. *)
Theorem mt_min_slots_table :
  (forall t : maple_type,
     mt_min_slots t
     = mt_slots t / 2
       - match t with
         | maple_leaf_64 | maple_range_64 => 2
         | maple_arange_64 => 1
         | _ => 0
         end)
  /\ (forall (w : world) (mas : ma_state) (e : Z) (t : maple_type),
        mte_is_root w (mas_node mas) = Some false ->
        mas_data_end w mas = Some e ->
        node_type (mas_node mas) = Some t ->
        mt_validate_size w mas
        = Some ((mt_min_slots t <=? e) || (mas_max mas =? ULONG_MAX)))
  /\ (exists w lft rgt,
        store_all ascending_stores empty_tree = Some (tt, w)
        /\ mte_get_rcu_slot w (mte_safe_root (ma_root w)) 0 = Some lft
        /\ mte_get_rcu_slot w (mte_safe_root (ma_root w)) 1 = Some rgt
        /\ mt_validate_size w (mas_at lft 0 12) = Some true
        /\ mt_validate_size w (mas_at rgt 13 ULONG_MAX) = Some true).
Proof.
  split; [|split].
  - intros t. destruct t; reflexivity.
  - intros w mas e t Hr He Ht. unfold mt_validate_size.
    rewrite Hr, He, Ht. simpl. f_equal.
    rewrite negb_andb, negb_involutive, Z.ltb_antisym, negb_involutive.
    reflexivity.
  - do 3 eexists. evaluate.
Qed.

(** The first split of sparse_stores, at the store of index 32: the root
    leaf becomes the leaves [0, 20], with 10 slots, and [21, ULONG_MAX],
    with 7; the four stores that follow append to the right leaf. *)
Lemma sparse_stores_first_split :
  exists w root lft rgt,
    store_all (firstn 8 sparse_stores) empty_tree = Some (tt, w)
    /\ root = mte_safe_root (ma_root w)
    /\ mte_get_rcu_slot w root 0 = Some lft
    /\ mte_get_pivot w root 0 = Some 20
    /\ mte_get_rcu_slot w root 1 = Some rgt
    /\ mas_data_end w (mas_at lft 0 20) = Some 9
    /\ mas_data_end w (mas_at rgt 21 ULONG_MAX) = Some 6.
Proof.
  do 4 eexists. evaluate.
Qed.

(** The tree before the last store of sparse_stores: two leaves under the
    root, [0, 20] with all its 16 slots in use and [21, ULONG_MAX] with
    15; both pass the size check. *)
Lemma sparse_stores_before_split :
  exists w root lft rgt,
    store_all (firstn 15 sparse_stores) empty_tree = Some (tt, w)
    /\ root = mte_safe_root (ma_root w)
    /\ mte_get_rcu_slot w root 0 = Some lft
    /\ mte_get_pivot w root 0 = Some 20
    /\ mte_get_rcu_slot w root 1 = Some rgt
    /\ mas_data_end w (mas_at lft 0 20) = Some 15
    /\ mas_data_end w (mas_at rgt 21 ULONG_MAX) = Some 14
    /\ subtree_ranges 2 w lft 0 20
         = Some [MkRange 0 1 0; MkRange 2 2 (entry_A + 16);
                 MkRange 3 3 0; MkRange 4 4 (entry_A + 32);
                 MkRange 5 5 0; MkRange 6 6 (entry_A + 48);
                 MkRange 7 7 0; MkRange 8 8 (entry_A + 64);
                 MkRange 9 9 0; MkRange 10 10 (entry_A + 80);
                 MkRange 11 11 0; MkRange 12 12 (entry_A + 96);
                 MkRange 13 15 0; MkRange 16 16 (entry_A + 128);
                 MkRange 17 19 0; MkRange 20 20 (entry_A + 160)]
    /\ mt_validate_size w (mas_at lft 0 20) = Some true
    /\ mt_validate_size w (mas_at rgt 21 ULONG_MAX) = Some true.
Proof.
  do 4 eexists. evaluate.
Qed.

(** C7, evaluated on the code where it fails: after the stores of
    sparse_stores (the single indices 4, 8, ..., 48, then 2, 6, 10 and 13)
    the root has three leaves, [0, 12], [13, 20] and [21, ULONG_MAX].  The
    middle one is not the root and does not end at the last index, and it
    ends at slot 4: five slots, three of them with an entry, fewer than
    the minimum 6 of leaf-64; the size check of the source's own
    mt_validate fails on it.  The last store finds the leaf [0, 20] full
    and its right sibling with too much data to take some
    (mas_push_data); mab_calc_split then moves the split point to the
    right for as long as b_end - split > mt_min_slots - 1, up to slot 11,
    and the new right leaf gets the five slots 12 to 16 of the big node.
    The table lowers the minimum of a third variant as well: arange-64
    has 4, below its max_slots / 2 = 5. *)
Theorem min_slots_after_leaf_split :
  (exists w root lft mid rgt,
     store_all sparse_stores empty_tree = Some (tt, w)
     /\ root = mte_safe_root (ma_root w)
     /\ mte_get_rcu_slot w root 0 = Some lft
     /\ mte_get_pivot w root 0 = Some 12
     /\ mte_get_rcu_slot w root 1 = Some mid
     /\ mte_get_pivot w root 1 = Some 20
     /\ mte_get_rcu_slot w root 2 = Some rgt
     /\ mte_get_pivot w root 2 = Some ULONG_MAX
     /\ node_type mid = Some maple_leaf_64
     /\ mte_is_root w mid = Some false
     /\ mas_data_end w (mas_at lft 0 12) = Some 11
     /\ mas_data_end w (mas_at mid 13 20) = Some 4
     /\ mas_data_end w (mas_at rgt 21 ULONG_MAX) = Some 14
     /\ subtree_ranges 2 w mid 13 20
          = Some [MkRange 13 13 (entry_A + 104);
                  MkRange 14 15 0;
                  MkRange 16 16 (entry_A + 128);
                  MkRange 17 19 0;
                  MkRange 20 20 (entry_A + 160)]
     /\ mt_min_slots maple_leaf_64 = 6
     /\ mt_validate_size w (mas_at mid 13 20) = Some false)
  /\ mt_min_slots maple_arange_64 = 4
  /\ mt_slots maple_arange_64 / 2 = 5.
Proof.
  split; [|split; reflexivity].
  do 5 eexists. evaluate.
Qed.

(** ** C8: the flags word *)

(** C8, evaluated on the code where it fails: setting RCU mode on the
    flags word 0 gives 4: bit 1 stays clear and the height read back goes
    from 0 to 1; clearing RCU mode on the word 6 (RCU flag, height 1) gives
    2: bit 1 stays set and the height goes from 1 to 0; and mas_in_rcu is
    false on a word that has only bit 1, the RCU flag, set, while the
    allocation flag is bit 0 and the height is read from bits 2 to 5. *)
Theorem mt_set_in_rcu_changes_height :
  mt_set_in_rcu 0 = 4
  /\ Z.testbit (mt_set_in_rcu 0) 1 = false
  /\ mt_height 0 = 0
  /\ mt_height (mt_set_in_rcu 0) = 1
  /\ mt_clear_in_rcu 6 = 2
  /\ Z.testbit (mt_clear_in_rcu 6) 1 = true
  /\ mt_height 6 = 1
  /\ mt_height (mt_clear_in_rcu 6) = 0
  /\ mas_in_rcu MAPLE_USE_RCU = false
  /\ mas_in_rcu (mt_set_in_rcu 0) = true
  /\ mt_is_alloc 1 = true
  /\ mt_height 60 = 15.
Proof. repeat split; vm_compute; reflexivity. Qed.

(** ** C9: mas_pause *)

(** C9: for a cursor whose last is below ULONG_MAX, mas_pause sets the
    node to MAS_START, so that mas_start begins the next walk at the root
    node of the tree, and sets both index and last to the previous
    last + 1, leaving every other member; for a cursor whose last is
    ULONG_MAX it sets the node to MAS_NONE and leaves every other
    member. *)
Theorem mas_pause_spec (mas : ma_state) :
  0 <= mas_last mas <= ULONG_MAX ->
  (mas_last mas < ULONG_MAX ->
     mas_pause mas
     = set_index (mas_last mas + 1)
         (set_last (mas_last mas + 1) (set_node MAS_START mas))
     /\ mas_is_start (mas_pause mas) = true
     /\ mas_index (mas_pause mas) = mas_last mas + 1
     /\ mas_last (mas_pause mas) = mas_index (mas_pause mas)
     /\ (forall w : world,
           xa_is_node (ma_root w) = true ->
           mas_node (snd (mas_start w (mas_pause mas)))
           = mte_safe_root (ma_root w)))
  /\ (mas_last mas = ULONG_MAX ->
        mas_pause mas = set_node MAS_NONE mas
        /\ mas_is_none (mas_pause mas) = true).
Proof.
  intros Hl. unfold mas_pause. split.
  - intros Hlt. destruct (Z.eqb_spec (mas_last mas) ULONG_MAX) as [E|_];
      [lia|].
    unfold mas_reset. cbn [mas_last set_node set_last].
    rewrite u64_small by (unfold ULONG_MAX in *; lia).
    split; [reflexivity|]. split; [reflexivity|].
    split; [reflexivity|]. split; [reflexivity|].
    intros w Hn.
    unfold mas_start. cbn [mas_is_err mas_is_start mas_node set_index set_last
                           set_node].
    change (xa_is_err MAS_START) with false.
    change (MAS_START =? MAS_START) with true. cbn iota.
    assert (Hz : (ma_root w =? 0) = false).
    { destruct (Z.eqb_spec (ma_root w) 0) as [E|]; [|reflexivity].
      rewrite E in Hn. discriminate Hn. }
    rewrite Hz, Hn. reflexivity.
  - intros E. rewrite E, Z.eqb_refl. split; reflexivity.
Qed.

(** mas_pause on a cursor that ended at 20, and the node its next walk
    starts at in the tree that holds [10, 20]; mas_pause on a cursor that
    ended at the last index. *)
Lemma mas_pause_spec_witness :
  (mas_index (mas_pause (MA_STATE 10 20)) = 21
   /\ mas_last (mas_pause (MA_STATE 10 20)) = 21
   /\ mas_node
        (snd (mas_start
                (world_after (mtree_store_range 10 20 entry_A) empty_tree)
                (mas_pause (MA_STATE 10 20))))
      = first_leaf)
  /\ mas_pause (MA_STATE 10 ULONG_MAX)
     = set_node MAS_NONE (MA_STATE 10 ULONG_MAX).
Proof.
  split.
  - destruct (mas_pause_spec (MA_STATE 10 20)) as [H _].
    + vm_compute. split; discriminate.
    + destruct H as (_ & _ & Hi & Hl & Hw).
      * vm_compute. reflexivity.
      * split; [exact Hi|]. split; [rewrite Hl; exact Hi|].
        rewrite Hw; vm_compute; reflexivity.
  - destruct (mas_pause_spec (MA_STATE 10 ULONG_MAX)) as [_ H].
    + vm_compute. split; discriminate.
    + destruct H as [E _]; [reflexivity | exact E].
Defined.

(** ** C10: the zero sentinel at the public lookup *)

(** The public load never returns the zero sentinel, whatever the tree
    holds. *)
Lemma mtree_load_never_zero_entry (w : world) (index entry : Z) :
  mtree_load w index = Some entry -> xa_is_zero entry = false.
Proof.
  unfold mtree_load. destruct (mas_load w (MA_STATE index index)) as [r|];
    simpl; [|discriminate].
  destruct (xa_is_zero (fst r)) eqn:E; intros [= <-]; [reflexivity|exact E].
Qed.

(** * Further properties of the code *)

(** ** Words made of an aligned address and low bits *)

Lemma low_bits_above (c n : Z) : 0 <= c < 2 ^ 7 -> 7 <= n -> Z.testbit c n = false.
Proof.
  intros Hc Hn. destruct (Z.eq_dec c 0) as [->|Hz]; [apply Z.bits_0|].
  apply Z.bits_above_log2; [lia|].
  assert (Z.log2 c < 7) by (apply Z.log2_lt_pow2; lia). lia.
Qed.

Lemma aligned_bits_below (q n : Z) : 0 <= n < 7 -> Z.testbit (128 * q) n = false.
Proof.
  intros Hn. replace (128 * q) with (q * 2 ^ 7) by lia.
  apply Z.mul_pow2_bits_low. lia.
Qed.

Lemma aligned_land_low (q c : Z) : 0 <= c < 2 ^ 7 -> Z.land (128 * q) c = 0.
Proof.
  intros Hc. apply Z.bits_inj'. intros n Hn.
  rewrite Z.land_spec, Z.bits_0.
  destruct (Z.lt_ge_cases n 7).
  - rewrite aligned_bits_below by lia. reflexivity.
  - rewrite (low_bits_above c n) by lia. apply andb_false_r.
Qed.

Lemma aligned_lor (q c : Z) : 0 <= c < 2 ^ 7 -> Z.lor (128 * q) c = 128 * q + c.
Proof.
  intros Hc. rewrite <- Z.lxor_lor by (apply aligned_land_low; exact Hc).
  symmetry. apply Z.add_nocarry_lxor. apply aligned_land_low. exact Hc.
Qed.

Lemma aligned_testbit (q c n : Z) :
  0 <= c < 2 ^ 7 -> 0 <= n ->
  Z.testbit (128 * q + c) n
  = if n <? 7 then Z.testbit c n else Z.testbit q (n - 7).
Proof.
  intros Hc Hn. rewrite <- aligned_lor by exact Hc. rewrite Z.lor_spec.
  destruct (Z.ltb_spec n 7).
  - rewrite aligned_bits_below by lia. reflexivity.
  - rewrite (low_bits_above c n) by lia. rewrite orb_false_r.
    replace (128 * q) with (q * 2 ^ 7) by lia.
    apply Z.mul_pow2_bits; lia.
Qed.

Lemma aligned_land (q c m : Z) :
  0 <= c < 2 ^ 7 -> 0 <= m < 2 ^ 7 -> Z.land (128 * q + c) m = Z.land c m.
Proof.
  intros Hc Hm. apply Z.bits_inj'. intros n Hn.
  rewrite !Z.land_spec, aligned_testbit by assumption.
  destruct (Z.ltb_spec n 7); [reflexivity|].
  rewrite (low_bits_above m n), (low_bits_above c n) by lia.
  rewrite andb_false_r. reflexivity.
Qed.

Lemma aligned_clear (q c m : Z) :
  0 <= c < 2 ^ 7 -> 0 <= m < 2 ^ 7 ->
  clear_bits (128 * q + c) m = 128 * q + clear_bits c m.
Proof.
  intros Hc Hm. unfold clear_bits.
  assert (Hr : 0 <= Z.land c (Z.lnot m) < 2 ^ 7).
  { assert (E : c = Z.land c (Z.ones 7))
      by (rewrite Z.land_ones, Z.mod_small; lia).
    rewrite E, <- Z.land_assoc, (Z.land_comm (Z.ones 7)), Z.land_assoc.
    rewrite Z.land_ones by lia. apply Z.mod_pos_bound. lia. }
  apply Z.bits_inj'. intros n Hn.
  rewrite Z.land_spec, !aligned_testbit by assumption.
  rewrite Z.lnot_spec by lia.
  destruct (Z.ltb_spec n 7).
  - rewrite Z.land_spec, Z.lnot_spec by lia. reflexivity.
  - rewrite (low_bits_above m n) by lia. simpl. apply andb_true_r.
Qed.

Lemma aligned_lor_low (q c d : Z) :
  0 <= c < 2 ^ 7 -> 0 <= d < 2 ^ 7 ->
  Z.lor (128 * q + c) d = 128 * q + Z.lor c d.
Proof.
  intros Hc Hd.
  assert (Hr : 0 <= Z.lor c d < 2 ^ 7).
  { split; [apply Z.lor_nonneg; lia|].
    destruct (Z.eq_dec (Z.lor c d) 0) as [->|Hz]; [lia|].
    assert (0 <= Z.lor c d) by (apply Z.lor_nonneg; lia).
    apply Z.log2_lt_pow2; [lia|]. rewrite Z.log2_lor by lia.
    destruct (Z.eq_dec c 0) as [->|]; destruct (Z.eq_dec d 0) as [->|];
      simpl; try lia.
    - assert (Z.log2 d < 7) by (apply Z.log2_lt_pow2; lia). lia.
    - assert (Z.log2 c < 7) by (apply Z.log2_lt_pow2; lia). lia.
    - assert (Z.log2 c < 7) by (apply Z.log2_lt_pow2; lia).
      assert (Z.log2 d < 7) by (apply Z.log2_lt_pow2; lia). lia. }
  apply Z.bits_inj'. intros n Hn.
  rewrite Z.lor_spec, !aligned_testbit by assumption.
  destruct (Z.ltb_spec n 7).
  - rewrite Z.lor_spec. reflexivity.
  - rewrite (low_bits_above d n) by lia. apply orb_false_r.
Qed.

Lemma aligned_type_bits (q c : Z) :
  0 <= c < 2 ^ 7 ->
  Z.land (Z.shiftr (128 * q + c) 3) 15 = Z.land (Z.shiftr c 3) 15.
Proof.
  intros Hc. apply Z.bits_inj'. intros n Hn.
  rewrite !Z.land_spec, !Z.shiftr_spec by lia.
  destruct (Z.lt_ge_cases n 4).
  - rewrite aligned_testbit by lia.
    destruct (Z.ltb_spec (n + 3) 7); [reflexivity|lia].
  - replace (Z.testbit 15 n) with false; [rewrite !andb_false_r; reflexivity|].
    symmetry. apply Z.bits_above_log2; simpl; lia.
Qed.

(** An address with its low seven bits clear, as a multiple of 128. *)
Lemma aligned_multiple (node : Z) : node mod 128 = 0 -> node = 128 * (node / 128).
Proof. intros H. pose proof (Z.div_mod node 128). lia. Qed.

(** The encoded node made of an aligned address and a type. *)
Lemma mt_mk_node_sum (q : Z) (t : maple_type) :
  mt_mk_node (128 * q) (type_code t) = 128 * q + (8 * type_code t + 4).
Proof.
  unfold mt_mk_node.
  assert (Ht : 0 <= type_code t <= 13) by (destruct t; simpl; lia).
  rewrite Z.shiftl_mul_pow2 by lia. change (2 ^ 3) with 8.
  rewrite aligned_lor by lia.
  rewrite aligned_lor_low by lia. f_equal.
  destruct t; reflexivity.
Qed.

(** ** Encoded nodes *)

(** The type bits of an encoded node at an aligned address. *)
Lemma node_type_aligned (q c : Z) (t : maple_type) :
  0 <= c < 2 ^ 7 -> Z.land (Z.shiftr c 3) 15 = type_code t ->
  node_type (128 * q + c) = Some t.
Proof.
  intros Hc E. unfold node_type, mte_node_type.
  rewrite aligned_type_bits, E by exact Hc. destruct t; reflexivity.
Qed.

Lemma node_type_mk_node (node : Z) (t : maple_type) :
  node mod 128 = 0 -> node_type (mt_mk_node node (type_code t)) = Some t.
Proof.
  intros Ha. rewrite (aligned_multiple node Ha), mt_mk_node_sum.
  assert (Ht : 0 <= type_code t <= 13) by (destruct t; simpl; lia).
  apply node_type_aligned; [lia|]. destruct t; reflexivity.
Qed.

(** The address and the type put in an encoded node are read back from
    it, with and without the root mark. *)
Theorem mt_mk_node_round_trip (node : Z) (t : maple_type) :
  node mod 128 = 0 ->
  mte_to_node (mt_mk_node node (type_code t)) = node
  /\ node_type (mt_mk_node node (type_code t)) = Some t
  /\ mte_is_leaf (mt_mk_node node (type_code t)) = ma_is_leaf (type_code t)
  /\ mte_safe_root (mte_mk_root (mt_mk_node node (type_code t)))
     = mt_mk_node node (type_code t)
  /\ mte_to_node (mte_mk_root (mt_mk_node node (type_code t))) = node
  /\ node_type (mte_mk_root (mt_mk_node node (type_code t))) = Some t.
Proof.
  intros Ha.
  split; [|split; [apply node_type_mk_node; exact Ha|]].
  all: rewrite (aligned_multiple node Ha); set (q := node / 128);
    rewrite mt_mk_node_sum.
  all: assert (Ht : 0 <= type_code t <= 13) by (destruct t; simpl; lia).
  all: assert (Hroot : mte_mk_root (128 * q + (8 * type_code t + 4))
                       = 128 * q + (8 * type_code t + 6))
         by (unfold mte_mk_root; rewrite aligned_lor_low by lia; f_equal;
             destruct t; reflexivity).
  - unfold mte_to_node. rewrite aligned_clear by lia.
    replace (clear_bits _ 127) with 0 by (destruct t; reflexivity). lia.
  - split; [|split; [|split]].
    + unfold mte_is_leaf, mte_node_type. rewrite aligned_type_bits by lia.
      destruct t; reflexivity.
    + rewrite Hroot. unfold mte_safe_root. rewrite aligned_clear by lia.
      f_equal. destruct t; reflexivity.
    + rewrite Hroot. unfold mte_to_node. rewrite aligned_clear by lia.
      replace (clear_bits _ 127) with 0 by (destruct t; reflexivity). lia.
    + rewrite Hroot. apply node_type_aligned; [lia|]. destruct t; reflexivity.
Qed.

(** The leaf at address 4096 of the empty-tree scenarios. *)
Lemma mt_mk_node_round_trip_witness :
  mte_to_node (mt_mk_node 4096 (type_code maple_leaf_64)) = 4096
  /\ node_type (mt_mk_node 4096 (type_code maple_leaf_64)) = Some maple_leaf_64.
Proof.
  destruct (mt_mk_node_round_trip 4096 maple_leaf_64) as (H1 & H2 & _).
  - reflexivity.
  - split; [exact H1 | exact H2].
Defined.

(** ** The word shared by the node pool and the slot offset *)

Lemma clear_bits_low7 (a : Z) : clear_bits a 127 = 128 * (a / 128).
Proof.
  pose proof (Z.div_mod a 128 ltac:(lia)) as E.
  pose proof (Z.mod_pos_bound a 128 ltac:(lia)) as B.
  rewrite E at 1. rewrite aligned_clear by lia.
  replace (clear_bits (a mod 128) 127) with 0; [lia|].
  symmetry. unfold clear_bits. apply Z.bits_inj'. intros n Hn.
  rewrite Z.land_spec, Z.bits_0, Z.lnot_spec by lia.
  destruct (Z.lt_ge_cases n 7).
  - replace (Z.testbit 127 n) with true; [apply andb_false_r|].
    symmetry. change 127 with (Z.ones 7). apply Z.ones_spec_low. lia.
  - rewrite low_bits_above by lia. reflexivity.
Qed.

(** The two halves of the alloc word of a cursor. *)
Lemma mas_offset_set (mas : ma_state) (j : Z) :
  0 <= j <= 127 -> mas_offset (mas_set_offset j mas) = j.
Proof.
  intros Hs.
  unfold mas_offset, mas_get_alloc_req, mas_set_offset, mas_set_alloc_req.
  cbn [mas_alloc_word set_alloc].
  rewrite (u64_small j) by lia.
  rewrite clear_bits_low7, aligned_lor by lia.
  rewrite aligned_land by lia. change 127 with (Z.ones 7).
  rewrite Z.land_ones by lia. apply Z.mod_small. lia.
Qed.

Lemma mas_get_alloc_set_offset (mas : ma_state) (j : Z) :
  0 <= j <= 127 -> mas_get_alloc (mas_set_offset j mas) = mas_get_alloc mas.
Proof.
  intros Hs. unfold mas_get_alloc, mas_set_offset, mas_set_alloc_req.
  cbn [mas_alloc_word set_alloc].
  rewrite (u64_small j) by lia.
  rewrite !clear_bits_low7, aligned_lor by lia.
  replace ((128 * (mas_alloc_word mas / 128) + j) / 128)
    with (mas_alloc_word mas / 128); [reflexivity|].
  symmetry. rewrite Z.mul_comm, Z.div_add_l by lia.
  rewrite (Z.div_small j 128) by lia. lia.
Qed.

(** The slot offset of a cursor is kept in the low seven bits of the word
    that holds the address of its node pool: an offset up to 127 is read
    back as it was set, and setting it changes neither the pool nor any
    other member of the cursor. *)
Theorem mas_set_offset_round_trip (mas : ma_state) (slot : Z) :
  0 <= slot <= 127 ->
  mas_offset (mas_set_offset slot mas) = slot
  /\ mas_get_alloc (mas_set_offset slot mas) = mas_get_alloc mas
  /\ set_alloc (mas_alloc_word mas) (mas_set_offset slot mas) = mas.
Proof.
  intros Hs.
  split; [apply mas_offset_set; exact Hs|].
  split; [apply mas_get_alloc_set_offset; exact Hs|].
  unfold mas_set_offset, mas_set_alloc_req. destruct mas. reflexivity.
Qed.

(** The offset MAPLE_NODE_SLOTS, which the walks use for "no slot", on a
    cursor that holds a pool. *)
Lemma mas_set_offset_round_trip_witness :
  mas_offset (mas_set_offset MAPLE_NODE_SLOTS (set_alloc 4096 (MA_STATE 0 0)))
  = MAPLE_NODE_SLOTS
  /\ mas_get_alloc
       (mas_set_offset MAPLE_NODE_SLOTS (set_alloc 4096 (MA_STATE 0 0)))
     = 4096.
Proof.
  destruct (mas_set_offset_round_trip (set_alloc 4096 (MA_STATE 0 0))
              MAPLE_NODE_SLOTS) as (H1 & H2 & _).
  - vm_compute. split; discriminate.
  - split; [exact H1|]. rewrite H2. reflexivity.
Defined.

(** ** The height kept in the flags *)

Lemma testbit_60 (n : Z) :
  0 <= n -> Z.testbit 60 n = (2 <=? n) && (n <=? 5).
Proof.
  intros Hn.
  destruct (Z.eq_dec n 0) as [->|]; [reflexivity|].
  destruct (Z.eq_dec n 1) as [->|]; [reflexivity|].
  destruct (Z.eq_dec n 2) as [->|]; [reflexivity|].
  destruct (Z.eq_dec n 3) as [->|]; [reflexivity|].
  destruct (Z.eq_dec n 4) as [->|]; [reflexivity|].
  destruct (Z.eq_dec n 5) as [->|]; [reflexivity|].
  rewrite Z.bits_above_log2 by (simpl; lia).
  destruct (Z.leb_spec 2 n), (Z.leb_spec n 5); simpl; try reflexivity; lia.
Qed.

Lemma small_bits_above (d k n : Z) :
  0 <= d < 2 ^ k -> 0 <= k <= n -> Z.testbit d n = false.
Proof.
  intros Hd Hn. destruct (Z.eq_dec d 0) as [->|Hz]; [apply Z.bits_0|].
  apply Z.bits_above_log2; [lia|].
  assert (Z.log2 d < k) by (apply Z.log2_lt_pow2; lia). lia.
Qed.

(** Every bit of the flags after mas_set_height: the height bits hold the
    depth of the cursor, the other bits are as before. *)
Lemma mas_set_height_bits (f d n : Z) :
  0 <= f < 2 ^ 32 -> 0 <= d <= 15 -> 0 <= n ->
  Z.testbit
    (u32 (Z.lor (u32 (clear_bits f MAPLE_HEIGHT_MASK))
            (Z.shiftl d MAPLE_HEIGHT_OFFSET))) n
  = if (2 <=? n) && (n <=? 5) then Z.testbit d (n - 2) else Z.testbit f n.
Proof.
  intros Hf Hd Hn. unfold u32, clear_bits, MAPLE_HEIGHT_MASK,
    MAPLE_HEIGHT_OFFSET.
  destruct (Z.lt_ge_cases n 32) as [Hlt|Hge].
  - rewrite Z.mod_pow2_bits_low, Z.lor_spec, Z.mod_pow2_bits_low by lia.
    rewrite Z.land_spec, Z.lnot_spec, testbit_60, Z.shiftl_spec by lia.
    destruct (Z.leb_spec 2 n), (Z.leb_spec n 5); simpl.
    + rewrite andb_false_r. reflexivity.
    + rewrite andb_true_r.
      rewrite (small_bits_above d 4 (n - 2)) by lia. apply orb_false_r.
    + rewrite andb_true_r, (Z.testbit_neg_r d) by lia. apply orb_false_r.
    + lia.
  - rewrite Z.mod_pow2_bits_high by lia.
    destruct (Z.leb_spec 2 n), (Z.leb_spec n 5); simpl; try lia.
    all: symmetry; apply (small_bits_above f 32 n); lia.
Qed.

(** mas_set_height stores a depth of at most 15 in the height bits, where
    mt_height reads it back, and leaves the other bits of the flags, the
    root and the memory as they were. *)
Theorem mas_set_height_round_trip (w : world) (mas : ma_state) :
  0 <= ma_flags w < 2 ^ 32 ->
  0 <= mas_depth mas <= 15 ->
  exists f,
    mas_set_height mas w = Some (tt, set_ma_flags f w)
    /\ mt_height f = mas_depth mas
    /\ mt_is_alloc f = mt_is_alloc (ma_flags w)
    /\ Z.testbit f 1 = Z.testbit (ma_flags w) 1
    /\ 0 <= f < 2 ^ 32.
Proof.
  intros Hf Hd. eexists. split; [reflexivity|].
  set (f := u32 _).
  assert (B : forall n, 0 <= n ->
            Z.testbit f n = if (2 <=? n) && (n <=? 5)
                            then Z.testbit (mas_depth mas) (n - 2)
                            else Z.testbit (ma_flags w) n).
  { intros n Hn. apply mas_set_height_bits; assumption. }
  split; [|split; [|split]].
  - unfold mt_height, MAPLE_HEIGHT_MASK, MAPLE_HEIGHT_OFFSET.
    apply Z.bits_inj'. intros n Hn.
    rewrite Z.shiftr_spec, Z.land_spec, testbit_60, B by lia.
    destruct (Z.leb_spec 2 (n + 2)), (Z.leb_spec (n + 2) 5); simpl; try lia.
    + rewrite andb_true_r. f_equal. lia.
    + rewrite andb_false_r. symmetry.
      apply (small_bits_above (mas_depth mas) 4 n); lia.
  - unfold mt_is_alloc, nonzero, MAPLE_ALLOC_RANGE. f_equal. f_equal.
    apply Z.bits_inj'. intros n Hn. rewrite !Z.land_spec.
    destruct (Z.eq_dec n 0) as [->|]; [rewrite (B 0) by lia; reflexivity|].
    replace (Z.testbit 1 n) with false; [rewrite !andb_false_r; reflexivity|].
    symmetry. apply Z.bits_above_log2; simpl; lia.
  - apply (B 1). lia.
  - unfold f, u32. apply Z.mod_pos_bound. lia.
Qed.

(** A cursor of depth 2 on a tree in allocation mode whose flags hold the
    height 1. *)
Lemma mas_set_height_round_trip_witness :
  exists f,
    mas_set_height (set_depth 2 (MA_STATE 0 0))
      (set_ma_flags 5 empty_alloc_tree)
    = Some (tt, set_ma_flags f (set_ma_flags 5 empty_alloc_tree))
    /\ mt_height f = 2
    /\ mt_is_alloc f = true.
Proof.
  destruct (mas_set_height_round_trip (set_ma_flags 5 empty_alloc_tree)
              (set_depth 2 (MA_STATE 0 0))) as (f & H1 & H2 & H3 & _).
  - vm_compute. split; [discriminate | reflexivity].
  - vm_compute. split; discriminate.
  - exists f. split; [exact H1|]. split; [exact H2 | exact H3].
Defined.

(** ** Words of a live node *)

(** What a write of one word of a live node leaves behind. *)
Lemma wr_word_spec (w : world) (n i v : Z) (l : list Z) :
  heap w !! n = Some l -> 0 <= i < Z.of_nat NODE_WORDS ->
  exists w',
    wr_word n i v w = Some (tt, w')
    /\ heap w' !! n = Some (<[Z.to_nat i := v]> l)
    /\ (forall n', n' <> n -> heap w' !! n' = heap w !! n')
    /\ ma_root w' = ma_root w /\ ma_flags w' = ma_flags w
    /\ brk w' = brk w /\ avail w' = avail w /\ tree_addr w' = tree_addr w.
Proof.
  intros Hl Hi. unfold wr_word. rewrite Hl.
  destruct (Z.leb_spec 0 i); [|lia]. destruct (Z.ltb_spec i (Z.of_nat NODE_WORDS)); [|lia].
  simpl. eexists. split; [reflexivity|]. simpl.
  split; [apply lookup_insert_eq|].
  split; [intros n' Hn; apply lookup_insert_ne; congruence|].
  repeat split.
Qed.

Lemma rd_word_at (w : world) (n i : Z) (l : list Z) :
  heap w !! n = Some l -> 0 <= i < Z.of_nat NODE_WORDS ->
  rd_word w n i = l !! Z.to_nat i.
Proof.
  intros Hl Hi. unfold rd_word. rewrite Hl.
  destruct (Z.leb_spec 0 i); [|lia]. destruct (Z.ltb_spec i (Z.of_nat NODE_WORDS)); [|lia].
  reflexivity.
Qed.

Lemma rd_word_out (w : world) (n i : Z) :
  ~ (0 <= i < Z.of_nat NODE_WORDS) -> rd_word w n i = None.
Proof.
  intros Hi. unfold rd_word. destruct (heap w !! n); [|reflexivity].
  destruct (Z.leb_spec 0 i); destruct (Z.ltb_spec i (Z.of_nat NODE_WORDS));
    simpl; try reflexivity. lia.
Qed.

(** Reading any word after a write of word [i] of node [n]. *)
Lemma rd_word_after (w w' : world) (n i v : Z) (l : list Z) :
  heap w !! n = Some l -> length l = NODE_WORDS ->
  0 <= i < Z.of_nat NODE_WORDS ->
  heap w' !! n = Some (<[Z.to_nat i := v]> l) ->
  (forall n', n' <> n -> heap w' !! n' = heap w !! n') ->
  forall n' j,
    rd_word w' n' j
    = if decide (n' = n /\ j = i) then Some v else rd_word w n' j.
Proof.
  intros Hl Hlen Hi Hn Ho n' j.
  destruct (decide (0 <= j < Z.of_nat NODE_WORDS)) as [Hj|Hj].
  2:{ rewrite !rd_word_out by exact Hj.
      destruct (decide (n' = n /\ j = i)) as [[_ ->]|]; [lia|reflexivity]. }
  destruct (decide (n' = n)) as [->|Hne].
  - rewrite (rd_word_at w' n j _ Hn Hj), (rd_word_at w n j _ Hl Hj).
    destruct (decide (n = n /\ j = i)) as [[_ ->]|Hd].
    + apply list_lookup_insert_eq. rewrite Hlen. unfold NODE_WORDS in *. lia.
    + apply list_lookup_insert_ne. intros E. apply Hd. split; [reflexivity|].
      lia.
  - destruct (decide (n' = n /\ j = i)) as [[E _]|_]; [contradiction|].
    unfold rd_word. rewrite (Ho n' Hne). reflexivity.
Qed.

Lemma wr_word_written (w : world) (n i v : Z) :
  node_live w n -> 0 <= i < Z.of_nat NODE_WORDS ->
  exists w', wr_word n i v w = Some (tt, w') /\ word_written w w' n i v
             /\ (forall n', node_live w n' -> node_live w' n').
Proof.
  intros (l & Hl & Hlen) Hi.
  destruct (wr_word_spec w n i v l Hl Hi)
    as (w' & E & Hn & Ho & Hr & Hf & Hb & Ha & Ht).
  exists w'. split; [exact E|]. split.
  - split; [|repeat split; assumption].
    apply (rd_word_after w w' n i v l); assumption.
  - intros n' (l' & Hl' & Hlen').
    destruct (decide (n' = n)) as [->|Hne].
    + eexists. split; [exact Hn|]. rewrite length_insert. exact Hlen.
    + exists l'. split; [rewrite (Ho n' Hne); exact Hl' | exact Hlen'].
Qed.

(** Enumeration of a small integer. *)
Lemma below_16_cases (P : Z -> Prop) :
  P 0 -> P 1 -> P 2 -> P 3 -> P 4 -> P 5 -> P 6 -> P 7 -> P 8 -> P 9 ->
  P 10 -> P 11 -> P 12 -> P 13 -> P 14 -> P 15 ->
  forall x, 0 <= x <= 15 -> P x.
Proof.
  intros. assert (C : x = 0 \/ x = 1 \/ x = 2 \/ x = 3 \/ x = 4 \/ x = 5
                     \/ x = 6 \/ x = 7 \/ x = 8 \/ x = 9 \/ x = 10
                     \/ x = 11 \/ x = 12 \/ x = 13 \/ x = 14 \/ x = 15)
    by lia.
  repeat (destruct C as [-> | C]; [assumption|]). subst x. assumption.
Qed.

Ltac enum_small x H :=
  pattern x; apply below_16_cases; [.. | exact H]; cbv beta.

Ltac closed_bound := vm_compute; split; [discriminate | reflexivity].

(** ** The parent word *)

(** mte_set_parent on a live node, for a parent of type range_64 or
    arange_64 at an aligned address and a slot below 16: the slot and the
    parent are read back, the node is neither the root nor, unless it is its
    own parent, dead; mas_parent_enum answers arange_64 in a tree in
    allocation mode and range_64 otherwise; no other word of the memory
    changes. *)
Theorem mte_set_parent_round_trip (w : world) (e paddr slot : Z)
    (pt : maple_type) (mas : ma_state) :
  node_live w (mte_to_node e) ->
  paddr mod 128 = 0 ->
  pt = maple_range_64 \/ pt = maple_arange_64 ->
  0 <= slot <= 15 ->
  exists w' val,
    mte_set_parent e (mt_mk_node paddr (type_code pt)) slot w = Some (tt, w')
    /\ word_written w w' (mte_to_node e) 0 val
    /\ mte_parent_slot w' e = Some slot
    /\ mte_parent w' e = Some paddr
    /\ mte_is_root w' e = Some false
    /\ mte_dead_node w' e = Some (paddr =? mte_to_node e)
    /\ mas_parent_enum w' (set_node e mas) e
       = Some (if mt_is_alloc (ma_flags w) then maple_arange_64
               else maple_range_64).
Proof.
  intros Hlive Ha Hpt Hs.
  rewrite (aligned_multiple paddr Ha). set (q := paddr / 128).
  assert (Ht : node_type (mt_mk_node (128 * q) (type_code pt)) = Some pt).
  { apply node_type_mk_node. rewrite Z.mul_comm. apply Z.mod_mul. lia. }
  set (val := 128 * q + (8 * slot + 6)).
  assert (Hval : val = 128 * q + (8 * slot + 6)) by reflexivity.
  assert (Hset : mte_set_parent e (mt_mk_node (128 * q) (type_code pt)) slot
                 = wr_parent (mte_to_node e) val).
  { assert (V : forall c, c = 12 \/ c = 13 ->
                Z.lor (Z.lor (clear_bits (128 * q + (8 * c + 4)) 120)
                         (Z.shiftl slot 3)) 6 = val).
    { intros c Hc. unfold val.
      destruct Hc as [-> | ->]; enum_small slot Hs;
        (rewrite aligned_clear by closed_bound);
        (rewrite aligned_lor_low by closed_bound);
        (rewrite aligned_lor_low by closed_bound); reflexivity. }
    unfold mte_set_parent. rewrite Ht, mt_mk_node_sum.
    destruct Hpt as [-> | ->]; lazy beta iota zeta; rewrite V;
      try reflexivity; [left | right]; reflexivity. }
  rewrite Hset. unfold wr_parent.
  destruct (wr_word_written w (mte_to_node e) 0 val Hlive)
    as (w' & E & Hw & _); [unfold NODE_WORDS; lia|].
  exists w', val. split; [exact E|]. split; [exact Hw|].
  destruct Hw as (Hrd & _ & Hf & _).
  assert (Hp : rd_parent w' (mte_to_node e) = Some val).
  { unfold rd_parent. rewrite Hrd.
    destruct (decide (mte_to_node e = mte_to_node e /\ 0 = 0)) as [_|n];
      [reflexivity | exfalso; apply n; split; reflexivity]. }
  assert (H1 : Z.land val 1 = 0).
  { rewrite Hval, aligned_land by lia.
    enum_small slot Hs; reflexivity. }
  assert (H2 : mte_parent_shift val = 3).
  { unfold mte_parent_shift. rewrite Hval, aligned_land by lia.
    enum_small slot Hs; reflexivity. }
  split; [|split; [|split; [|split]]].
  - unfold mte_parent_slot. rewrite Hp, H1, H2. simpl. f_equal.
    rewrite Hval, aligned_land by lia. enum_small slot Hs; reflexivity.
  - unfold mte_parent. rewrite Hp. f_equal.
    rewrite Hval, aligned_clear by lia.
    replace (clear_bits (8 * slot + 6) 127) with 0; [lia|].
    enum_small slot Hs; reflexivity.
  - unfold mte_is_root, ma_is_root. rewrite Hp. unfold MA_ROOT_PARENT.
    rewrite H1. reflexivity.
  - unfold mte_dead_node, mte_parent. rewrite Hp. f_equal.
    rewrite Hval, aligned_clear by lia.
    replace (clear_bits (8 * slot + 6) 127) with 0
      by (enum_small slot Hs; reflexivity).
    rewrite Z.add_0_r. reflexivity.
  - unfold mas_parent_enum. cbn [mas_node set_node].
    unfold mte_is_root, ma_is_root. rewrite Hp. unfold MA_ROOT_PARENT.
    rewrite H1. cbn [nonzero Z.eqb negb]. rewrite H2, Hf.
    replace (Z.land val (Z.shiftl 1 3 - 1)) with 6.
    + destruct (mt_is_alloc (ma_flags w)); reflexivity.
    + rewrite Hval. change (Z.shiftl 1 3 - 1) with 7.
      rewrite aligned_land by lia. enum_small slot Hs; reflexivity.
Qed.

(** ** The arrays of a node *)

(** A write of an eight-byte field at a multiple of eight bytes. *)
Lemma wr_field8_written (w : world) (n k v : Z) :
  node_live w n -> 0 <= k < Z.of_nat NODE_WORDS ->
  exists w' x,
    wr_field n (8 * k) 8 v w = Some (tt, w')
    /\ word_written w w' n k x
    /\ Z.land x (Z.ones 64) = Z.land v (Z.ones 64).
Proof.
  intros Hlive Hk. unfold wr_field, mbind, mread.
  replace (8 * k / 8) with k by (rewrite Z.mul_comm, Z.div_mul; lia).
  replace ((8 * k) mod 8) with 0 by (rewrite Z.mul_comm, Z.mod_mul; lia).
  destruct Hlive as (l & Hl & Hlen).
  assert (Hx : exists x, rd_word w n k = Some x).
  { rewrite (rd_word_at w n k l Hl Hk).
    apply lookup_lt_is_Some. rewrite Hlen. unfold NODE_WORDS in *. lia. }
  destruct Hx as (x & Hx). rewrite Hx.
  set (x' := Z.lor _ _).
  destruct (wr_word_written w n k x') as (w' & E & Hw & _);
    [exists l; split; assumption | exact Hk |].
  exists w', x'. split; [exact E|]. split; [exact Hw|].
  unfold x', clear_bits. change (8 * 0) with 0. rewrite !Z.shiftl_0_r.
  rewrite Z.land_lor_distr_l, <- Z.land_assoc, (Z.land_comm (Z.lnot _)),
    Z.land_lnot_diag, Z.land_0_r, Z.lor_0_l, <- Z.land_assoc, Z.land_diag.
  reflexivity.
Qed.

Lemma rd_field8 (w : world) (n k : Z) :
  rd_field w n (8 * k) 8
  = match rd_word w n k with
    | Some x => Some (Z.land x (Z.ones 64))
    | None => None
    end.
Proof.
  unfold rd_field.
  replace (8 * k / 8) with k by (rewrite Z.mul_comm, Z.div_mul; lia).
  replace ((8 * k) mod 8) with 0 by (rewrite Z.mul_comm, Z.mod_mul; lia).
  destruct (rd_word w n k); [|reflexivity].
  change (8 * 0) with 0. rewrite Z.shiftr_0_r. reflexivity.
Qed.

(** The word a pivot of a 64-bit node is read from. *)
Lemma mte_get_pivot_word (w : world) (e j : Z) (t : maple_type) :
  node_type e = Some t -> type_is_64 t = true ->
  mte_get_pivot w e j
  = if (0 <=? j) && (j <? mt_pivots t)
    then match rd_word w (mte_to_node e) (1 + j) with
         | Some x => Some (Z.land x (Z.ones 64))
         | None => None
         end
    else None.
Proof.
  intros Ht H64. unfold mte_get_pivot, _mte_get_pivot. rewrite Ht.
  destruct t; try discriminate H64; unfold ma_get_pivot, pivot_layout;
    change (mt_pivots maple_leaf_64) with 15;
    change (mt_pivots maple_range_64) with 15;
    change (mt_pivots maple_arange_64) with 9;
    change (MAPLE_RANGE64_SLOTS - 1) with 15;
    change (MAPLE_ARANGE64_SLOTS - 1) with 9;
    (destruct ((0 <=? j) && (j <? _)); [|reflexivity]);
    replace (8 + 8 * j) with (8 * (1 + j)) by lia; apply rd_field8.
Qed.

(** The word a slot of a 64-bit node is read from. *)
Lemma mte_get_rcu_slot_word (w : world) (e j : Z) (t : maple_type) :
  node_type e = Some t -> type_is_64 t = true ->
  mte_get_rcu_slot w e j
  = if (0 <=? j) && (j <? mt_slots t)
    then rd_word w (mte_to_node e) (fst (slot_layout t) + j)
    else None.
Proof.
  intros Ht H64. unfold mte_get_rcu_slot, _mte_get_rcu_slot. rewrite Ht.
  destruct t; try discriminate H64; reflexivity.
Qed.

(** The word a gap is read from. *)
Lemma mte_get_gap_word (w : world) (e j : Z) (t : maple_type) :
  node_type e = Some t -> type_is_64 t = true ->
  mte_get_gap w e j
  = if negb (type_code t =? type_code maple_arange_64) then Some 0
    else if (0 <=? j) && (j <? MAPLE_ARANGE64_SLOTS)
    then rd_word w (mte_to_node e) (GAP_WORD + j)
    else None.
Proof.
  intros Ht H64. unfold mte_get_gap. rewrite Ht.
  destruct t; try discriminate H64; reflexivity.
Qed.

(** Reading a word other than the one written. *)
Lemma word_written_other (w w' : world) (n i v n' j : Z) :
  word_written w w' n i v -> n' <> n \/ j <> i ->
  rd_word w' n' j = rd_word w n' j.
Proof.
  intros (Hrd & _) Hne. rewrite Hrd.
  destruct (decide (n' = n /\ j = i)) as [[-> ->]|]; [|reflexivity].
  destruct Hne; contradiction.
Qed.

Lemma word_written_same (w w' : world) (n i v : Z) :
  word_written w w' n i v -> rd_word w' n i = Some v.
Proof.
  intros (Hrd & _). rewrite Hrd.
  destruct (decide (n = n /\ i = i)) as [_|H]; [reflexivity|].
  exfalso. apply H. split; reflexivity.
Qed.

Lemma andb_range (a b j : Z) :
  (a <=? j) && (j <? b) = true <-> a <= j < b.
Proof.
  destruct (Z.leb_spec a j), (Z.ltb_spec j b); simpl; split; intros;
    try discriminate; try lia; reflexivity.
Qed.

(** The sizes of the arrays, as numbers. *)
Ltac sizes :=
  cbv [mt_pivots mt_slots slot_layout fst GAP_WORD MAPLE_RANGE64_SLOTS
       MAPLE_ARANGE64_SLOTS MAPLE_NODE_SLOTS NODE_WORDS] in *.

(** A pivot written through mte_set_pivot in a live leaf_64, range_64 or
    arange_64 node is read back by mte_get_pivot; the other pivots, all
    slots, all gaps and the parent word of the node, and every word of
    every other node, are as before. *)
Theorem mte_set_pivot_round_trip (w : world) (e piv val : Z)
    (t : maple_type) :
  node_type e = Some t -> type_is_64 t = true ->
  node_live w (mte_to_node e) ->
  0 <= piv < mt_pivots t ->
  0 <= val < 2 ^ 64 ->
  exists w',
    mte_set_pivot e piv val w = Some (tt, w')
    /\ mte_get_pivot w' e piv = Some val
    /\ (forall j, j <> piv -> mte_get_pivot w' e j = mte_get_pivot w e j)
    /\ (forall j, mte_get_rcu_slot w' e j = mte_get_rcu_slot w e j)
    /\ (forall j, mte_get_gap w' e j = mte_get_gap w e j)
    /\ rd_parent w' (mte_to_node e) = rd_parent w (mte_to_node e)
    /\ (forall n j, n <> mte_to_node e -> rd_word w' n j = rd_word w n j)
    /\ ma_root w' = ma_root w /\ ma_flags w' = ma_flags w.
Proof.
  intros Ht H64 Hlive Hp Hv.
  assert (Hp32 : 0 <= 1 + piv < Z.of_nat NODE_WORDS)
    by (destruct t; try discriminate H64; sizes; lia).
  destruct (wr_field8_written w (mte_to_node e) (1 + piv) val Hlive Hp32)
    as (w' & x & E & Hw & Hx).
  exists w'. split.
  { unfold mte_set_pivot. rewrite Ht. unfold ma_set_pivot.
    destruct (Z.leb_spec (mt_pivots t) piv); [lia|].
    replace (8 * (1 + piv)) with (8 + 8 * piv) in E by lia.
    destruct t; try discriminate H64; unfold pivot_layout;
      (destruct (andb_range 0 (MAPLE_RANGE64_SLOTS - 1) piv) as [_ ->]
       || destruct (andb_range 0 (MAPLE_ARANGE64_SLOTS - 1) piv) as [_ ->]);
      try exact E; sizes; lia. }
  split.
  { rewrite (mte_get_pivot_word w' e piv t Ht H64).
    destruct (andb_range 0 (mt_pivots t) piv) as [_ ->]; [|lia].
    rewrite (word_written_same _ _ _ _ _ Hw), Hx.
    rewrite Z.land_ones by lia. f_equal. apply Z.mod_small. lia. }
  split.
  { intros j Hj. rewrite !(mte_get_pivot_word _ e j t Ht H64).
    rewrite (word_written_other _ _ _ _ _ _ (1 + j) Hw); [reflexivity|].
    right. lia. }
  split.
  { intros j. rewrite !(mte_get_rcu_slot_word _ e j t Ht H64).
    destruct ((0 <=? j) && (j <? mt_slots t)) eqn:R; [|reflexivity].
    apply andb_range in R.
    apply (word_written_other _ _ _ _ _ _ _ Hw). right.
    destruct t; try discriminate H64; sizes; lia. }
  split.
  { intros j. rewrite !(mte_get_gap_word _ e j t Ht H64).
    destruct (negb _); [reflexivity|].
    destruct ((0 <=? j) && (j <? MAPLE_ARANGE64_SLOTS)) eqn:R; [|reflexivity].
    apply andb_range in R.
    apply (word_written_other _ _ _ _ _ _ _ Hw). right.
    destruct t; try discriminate H64; sizes; lia. }
  split.
  { apply (word_written_other _ _ _ _ _ _ _ Hw). right. lia. }
  split.
  { intros n j Hn. apply (word_written_other _ _ _ _ _ _ _ Hw). left.
    exact Hn. }
  destruct Hw as (_ & Hr & Hf & _). split; assumption.
Qed.

(** A slot written through mte_set_rcu_slot in a live leaf_64, range_64
    or arange_64 node is read back by mte_get_rcu_slot; the other slots,
    all pivots, all gaps and the parent word of the node, and every word of
    every other node, are as before. *)
Theorem mte_set_rcu_slot_round_trip (w : world) (e slot val : Z)
    (t : maple_type) :
  node_type e = Some t -> type_is_64 t = true ->
  node_live w (mte_to_node e) ->
  0 <= slot < mt_slots t ->
  exists w',
    mte_set_rcu_slot e slot val w = Some (tt, w')
    /\ mte_get_rcu_slot w' e slot = Some val
    /\ (forall j, j <> slot ->
          mte_get_rcu_slot w' e j = mte_get_rcu_slot w e j)
    /\ (forall j, mte_get_pivot w' e j = mte_get_pivot w e j)
    /\ (forall j, mte_get_gap w' e j = mte_get_gap w e j)
    /\ rd_parent w' (mte_to_node e) = rd_parent w (mte_to_node e)
    /\ (forall n j, n <> mte_to_node e -> rd_word w' n j = rd_word w n j)
    /\ ma_root w' = ma_root w /\ ma_flags w' = ma_flags w.
Proof.
  intros Ht H64 Hlive Hs.
  assert (Hs32 : 0 <= fst (slot_layout t) + slot < Z.of_nat NODE_WORDS)
    by (destruct t; try discriminate H64; sizes; lia).
  destruct (wr_word_written w (mte_to_node e) (fst (slot_layout t) + slot)
              val Hlive Hs32) as (w' & E & Hw & _).
  exists w'. split.
  { unfold mte_set_rcu_slot. rewrite Ht. unfold ma_set_rcu_slot.
    destruct (Z.leb_spec (mt_slots t) slot); [lia|].
    destruct t; try discriminate H64; unfold slot_layout;
      (destruct (andb_range 0 MAPLE_RANGE64_SLOTS slot) as [_ ->]
       || destruct (andb_range 0 MAPLE_ARANGE64_SLOTS slot) as [_ ->]);
      try exact E; sizes; lia. }
  split.
  { rewrite (mte_get_rcu_slot_word w' e slot t Ht H64).
    destruct (andb_range 0 (mt_slots t) slot) as [_ ->]; [|lia].
    apply (word_written_same _ _ _ _ _ Hw). }
  split.
  { intros j Hj. rewrite !(mte_get_rcu_slot_word _ e j t Ht H64).
    rewrite (word_written_other _ _ _ _ _ _ (fst (slot_layout t) + j) Hw);
      [reflexivity|]. right. lia. }
  split.
  { intros j. rewrite !(mte_get_pivot_word _ e j t Ht H64).
    destruct ((0 <=? j) && (j <? mt_pivots t)) eqn:R; [|reflexivity].
    apply andb_range in R.
    rewrite (word_written_other _ _ _ _ _ _ (1 + j) Hw); [reflexivity|].
    right. destruct t; try discriminate H64; sizes; lia. }
  split.
  { intros j. rewrite !(mte_get_gap_word _ e j t Ht H64).
    destruct (negb _) eqn:N; [reflexivity|].
    destruct ((0 <=? j) && (j <? MAPLE_ARANGE64_SLOTS)) eqn:R; [|reflexivity].
    apply andb_range in R.
    apply (word_written_other _ _ _ _ _ _ _ Hw). right.
    destruct t; try discriminate H64; try discriminate N; sizes; lia. }
  split.
  { apply (word_written_other _ _ _ _ _ _ _ Hw). right.
    destruct t; try discriminate H64; sizes; lia. }
  split.
  { intros n j Hn. apply (word_written_other _ _ _ _ _ _ _ Hw). left.
    exact Hn. }
  destruct Hw as (_ & Hr & Hf & _). split; assumption.
Qed.

(** A gap written through mte_set_gap in a live arange_64 node is read
    back by mte_get_gap; the other gaps, all pivots, all slots and the
    parent word are as before.  In a leaf_64 or range_64 node, which has no
    gaps, mte_set_gap writes nothing and mte_get_gap reads 0. *)
Theorem mte_set_gap_round_trip (w : world) (e gap val : Z) (t : maple_type) :
  node_type e = Some t -> type_is_64 t = true ->
  node_live w (mte_to_node e) ->
  0 <= gap < MAPLE_ARANGE64_SLOTS ->
  exists w',
    mte_set_gap e gap val w = Some (tt, w')
    /\ mte_get_gap w' e gap
       = Some (if type_code t =? type_code maple_arange_64 then val else 0)
    /\ (forall j, j <> gap -> mte_get_gap w' e j = mte_get_gap w e j)
    /\ (forall j, mte_get_pivot w' e j = mte_get_pivot w e j)
    /\ (forall j, mte_get_rcu_slot w' e j = mte_get_rcu_slot w e j)
    /\ rd_parent w' (mte_to_node e) = rd_parent w (mte_to_node e)
    /\ (forall n j, n <> mte_to_node e -> rd_word w' n j = rd_word w n j)
    /\ ma_root w' = ma_root w /\ ma_flags w' = ma_flags w.
Proof.
  intros Ht H64 Hlive Hg.
  destruct (decide (t = maple_arange_64)) as [->|Hna].
  - assert (Hg32 : 0 <= GAP_WORD + gap < Z.of_nat NODE_WORDS) by (sizes; lia).
    destruct (wr_word_written w (mte_to_node e) (GAP_WORD + gap) val Hlive
                Hg32) as (w' & E & Hw & _).
    exists w'. split.
    { unfold mte_set_gap. rewrite Ht.
      destruct (andb_range 0 MAPLE_ARANGE64_SLOTS gap) as [_ ->];
        [exact E | lia]. }
    split.
    { rewrite (mte_get_gap_word w' e gap _ Ht H64). simpl negb. cbv iota.
      destruct (andb_range 0 MAPLE_ARANGE64_SLOTS gap) as [_ ->]; [|lia].
      apply (word_written_same _ _ _ _ _ Hw). }
    split.
    { intros j Hj. rewrite !(mte_get_gap_word _ e j _ Ht H64).
      simpl negb. cbv iota.
      rewrite (word_written_other _ _ _ _ _ _ (GAP_WORD + j) Hw);
        [reflexivity|]. right. lia. }
    split.
    { intros j. rewrite !(mte_get_pivot_word _ e j _ Ht H64).
      destruct ((0 <=? j) && (j <? mt_pivots maple_arange_64)) eqn:R;
        [|reflexivity].
      apply andb_range in R.
      rewrite (word_written_other _ _ _ _ _ _ (1 + j) Hw); [reflexivity|].
      right. sizes. lia. }
    split.
    { intros j. rewrite !(mte_get_rcu_slot_word _ e j _ Ht H64).
      destruct ((0 <=? j) && (j <? mt_slots maple_arange_64)) eqn:R;
        [|reflexivity].
      apply andb_range in R.
      apply (word_written_other _ _ _ _ _ _ _ Hw). right. sizes. lia. }
    split.
    { apply (word_written_other _ _ _ _ _ _ _ Hw). right. sizes. lia. }
    split.
    { intros n j Hn. apply (word_written_other _ _ _ _ _ _ _ Hw). left.
      exact Hn. }
    destruct Hw as (_ & Hr & Hf & _). split; assumption.
  - exists w. split.
    { unfold mte_set_gap. rewrite Ht.
      destruct t; try discriminate H64; try contradiction; reflexivity. }
    split.
    { rewrite (mte_get_gap_word w e gap t Ht H64).
      destruct t; try discriminate H64; try contradiction; reflexivity. }
    repeat split; reflexivity.
Qed.

(** The three accessors on the root leaf of the tree that holds
    [10, 20]: a pivot, a slot and (the node has none) a gap. *)
Lemma mte_set_pivot_round_trip_witness :
  exists w',
    mte_set_pivot first_leaf 2 30
      (world_after (mtree_store_range 10 20 entry_A) empty_tree)
    = Some (tt, w')
    /\ mte_get_pivot w' first_leaf 2 = Some 30
    /\ mte_get_pivot w' first_leaf 1 = Some 20
    /\ mte_get_rcu_slot w' first_leaf 1 = Some entry_A.
Proof.
  destruct (mte_set_pivot_round_trip
              (world_after (mtree_store_range 10 20 entry_A) empty_tree)
              first_leaf 2 30 maple_leaf_64)
    as (w' & E & H1 & H2 & H3 & _).
  - reflexivity.
  - reflexivity.
  - eexists. split; [vm_compute; reflexivity | reflexivity].
  - vm_compute. split; [discriminate | reflexivity].
  - vm_compute. split; [discriminate | reflexivity].
  - exists w'. split; [exact E|]. split; [exact H1|]. split.
    + rewrite H2 by discriminate. vm_compute. reflexivity.
    + rewrite H3. vm_compute. reflexivity.
Defined.

Lemma mte_set_rcu_slot_round_trip_witness :
  exists w',
    mte_set_rcu_slot first_leaf 2 entry_B
      (world_after (mtree_store_range 10 20 entry_A) empty_tree)
    = Some (tt, w')
    /\ mte_get_rcu_slot w' first_leaf 2 = Some entry_B
    /\ mte_get_rcu_slot w' first_leaf 1 = Some entry_A
    /\ mte_get_pivot w' first_leaf 1 = Some 20.
Proof.
  destruct (mte_set_rcu_slot_round_trip
              (world_after (mtree_store_range 10 20 entry_A) empty_tree)
              first_leaf 2 entry_B maple_leaf_64)
    as (w' & E & H1 & H2 & H3 & _).
  - reflexivity.
  - reflexivity.
  - eexists. split; [vm_compute; reflexivity | reflexivity].
  - vm_compute. split; [discriminate | reflexivity].
  - exists w'. split; [exact E|]. split; [exact H1|]. split.
    + rewrite H2 by discriminate. vm_compute. reflexivity.
    + rewrite H3. vm_compute. reflexivity.
Defined.

Lemma mte_set_gap_round_trip_witness :
  exists w',
    mte_set_gap first_leaf 2 7
      (world_after (mtree_store_range 10 20 entry_A) empty_tree)
    = Some (tt, w')
    /\ mte_get_gap w' first_leaf 2 = Some 0.
Proof.
  destruct (mte_set_gap_round_trip
              (world_after (mtree_store_range 10 20 entry_A) empty_tree)
              first_leaf 2 7 maple_leaf_64)
    as (w' & E & H1 & _).
  - reflexivity.
  - reflexivity.
  - eexists. split; [vm_compute; reflexivity | reflexivity].
  - vm_compute. split; [discriminate | reflexivity].
  - exists w'. split; [exact E | exact H1].
Defined.

Lemma mte_set_parent_round_trip_witness :
  exists w',
    mte_set_parent first_leaf (mt_mk_node 8192 (type_code maple_range_64)) 3
      (world_after (mtree_store_range 10 20 entry_A) empty_tree)
    = Some (tt, w')
    /\ mte_parent_slot w' first_leaf = Some 3
    /\ mte_parent w' first_leaf = Some 8192
    /\ mte_is_root w' first_leaf = Some false.
Proof.
  destruct (mte_set_parent_round_trip
              (world_after (mtree_store_range 10 20 entry_A) empty_tree)
              first_leaf 8192 3 maple_range_64 (MA_STATE 0 0))
    as (w' & val & E & _ & H1 & H2 & H3 & _).
  - eexists. split; [vm_compute; reflexivity | reflexivity].
  - reflexivity.
  - left. reflexivity.
  - lia.
  - exists w'. split; [exact E|]. split; [exact H1|].
    split; [exact H2 | exact H3].
Defined.

(** ** The read walk and the ranges of the tree *)

Lemma subtree_ranges_unfold (f : nat) (w : world) (e lo hi : Z) :
  subtree_ranges (S f) w e lo hi
  = (t <-? node_type e ;;
     rs <-? node_ranges (Z.to_nat (mt_slots t)) w e t 0 lo hi ;;
     if ma_is_leaf (type_code t) then Some rs else children_ranges f w rs).
Proof. reflexivity. Qed.

Lemma subtree_nodes_unfold (f : nat) (w : world) (e lo hi : Z) :
  subtree_nodes (S f) w e lo hi
  = (t <-? node_type e ;;
     rs <-? node_ranges (Z.to_nat (mt_slots t)) w e t 0 lo hi ;;
     if ma_is_leaf (type_code t) then Some [e]
     else sub <-? children_nodes f w rs ;; Some (e :: sub)).
Proof. reflexivity. Qed.

Lemma children_ranges_cons (f : nat) (w : world) (r : range_entry)
    (tl : list range_entry) :
  children_ranges f w (r :: tl)
  = (sub <-? (if re_entry r =? 0 then Some [r]
              else subtree_ranges f w (re_entry r) (re_first r) (re_last r)) ;;
     rest <-? children_ranges f w tl ;;
     Some (sub ++ rest)).
Proof. reflexivity. Qed.

Lemma children_nodes_cons (f : nat) (w : world) (r : range_entry)
    (tl : list range_entry) :
  children_nodes f w (r :: tl)
  = (sub <-? (if re_entry r =? 0 then Some []
              else subtree_nodes f w (re_entry r) (re_first r) (re_last r)) ;;
     rest <-? children_nodes f w tl ;;
     Some (sub ++ rest)).
Proof. reflexivity. Qed.

(** The ranges of a node, from slot [i] on, and the walk of the node from
    slot [i] on: the walk stops at the first range that ends at or after
    the index. *)
Lemma node_walk_ranges (n : nat) (w : world) (mas : ma_state)
    (t : maple_type) :
  type_is_64 t = true ->
  forall (i lo min0 piv0 : Z) (rs : list range_entry),
    node_ranges n w (mas_node mas) t i lo (mas_max mas) = Some rs ->
    lo <= mas_index mas <= mas_max mas ->
    0 <= i <= mt_pivots t ->
    mt_pivots t - i < Z.of_nat n ->
    exists pre r post j min,
      rs = pre ++ r :: post
      /\ Forall (fun x => re_last x < mas_index mas) pre
      /\ mas_index mas <= re_last r
      /\ re_first r <= mas_index mas
      /\ mas_node_walk_loop n w mas t i min0 piv0
         = Some (j, min, re_last r, true)
      /\ i <= j < mt_slots t
      /\ _mte_get_rcu_slot w (mas_node mas) j t = Some (re_entry r).
Proof.
  intros H64.
  assert (Hps : mt_pivots t < mt_slots t)
    by (destruct t; try discriminate H64; sizes; lia).
  induction n as [|n IH]; intros i lo min0 piv0 rs Hr Hidx Hi Hn; [lia|].
  cbn [node_ranges] in Hr. cbn [mas_node_walk_loop].
  destruct (Z.leb_spec (mt_slots t) i); [lia|].
  unfold _mas_get_safe_pivot.
  destruct (if mt_pivots t <=? i then Some (mas_max mas)
            else _mte_get_pivot w (mas_node mas) i t) as [p|] eqn:Hp;
    [|discriminate Hr].
  destruct (_mte_get_rcu_slot w (mas_node mas) i t) as [s|] eqn:Hsl;
    [|discriminate Hr].
  destruct ((p =? 0) && nonzero i) eqn:Hend.
  - (* the end marker: the range runs to the end of the node *)
    injection Hr as <-.
    destruct (Z.ltb_spec (mas_max mas) (mas_index mas)); [lia|].
    exists [], (MkRange lo (mas_max mas) s), [], i, min0. cbn.
    repeat split; try constructor; try lia; try assumption.
  - destruct (Z.leb_spec (mas_max mas) p) as [Hhi|Hhi].
    + (* the last range of the node *)
      injection Hr as <-.
      destruct (Z.leb_spec (mas_index mas) p); [|lia].
      exists [], (MkRange lo p s), [], i, min0. cbn.
      repeat split; try constructor; try lia; try assumption.
    + destruct (node_ranges n w (mas_node mas) t (i + 1) (p + 1) (mas_max mas))
        as [rest|] eqn:Hrest; [|discriminate Hr].
      injection Hr as <-.
      destruct (Z.leb_spec (mas_index mas) p) as [Hle|Hgt].
      * exists [], (MkRange lo p s), rest, i, min0. cbn.
        repeat split; try constructor; try lia; try assumption.
      * assert (Hip : i < mt_pivots t).
        { destruct (Z.leb_spec (mt_pivots t) i); [|lia].
          injection Hp as <-. lia. }
        destruct (IH (i + 1) (p + 1) (u64 (p + 1)) p rest Hrest
                    ltac:(lia) ltac:(lia) ltac:(lia))
          as (pre & r & post & j & min & E & Hpre & Hr' & Hfirst
              & Hw & Hj & Hs).
        exists (MkRange lo p s :: pre), r, post, j, min.
        split; [rewrite E; reflexivity|].
        split; [constructor; [cbn; lia | exact Hpre]|].
        split; [exact Hr'|]. split; [exact Hfirst|].
        split; [exact Hw|]. split; [lia | exact Hs].
Qed.

Lemma children_ranges_app (f : nat) (w : world) (a b : list range_entry) :
  children_ranges f w (a ++ b)
  = (x <-? children_ranges f w a ;;
     y <-? children_ranges f w b ;;
     Some (x ++ y)).
Proof.
  induction a as [|r a IH].
  - cbn [app]. change (children_ranges f w []) with (Some (@nil range_entry)).
    destruct (children_ranges f w b); reflexivity.
  - cbn [app]. rewrite !children_ranges_cons, IH.
    destruct (if re_entry r =? 0 then Some [r] else _) as [sub|];
      [|reflexivity].
    destruct (children_ranges f w a) as [x|]; [|reflexivity].
    destruct (children_ranges f w b) as [y|]; [|reflexivity].
    rewrite app_assoc. reflexivity.
Qed.

Lemma children_nodes_app (f : nat) (w : world) (a b : list range_entry) :
  children_nodes f w (a ++ b)
  = (x <-? children_nodes f w a ;;
     y <-? children_nodes f w b ;;
     Some (x ++ y)).
Proof.
  induction a as [|r a IH].
  - cbn [app]. change (children_nodes f w []) with (Some (@nil Z)).
    destruct (children_nodes f w b); reflexivity.
  - cbn [app]. rewrite !children_nodes_cons, IH.
    destruct (if re_entry r =? 0 then Some [] else _) as [sub|];
      [|reflexivity].
    destruct (children_nodes f w a) as [x|]; [|reflexivity].
    destruct (children_nodes f w b) as [y|]; [|reflexivity].
    rewrite app_assoc. reflexivity.
Qed.

Lemma ranges_ascending_cons (r : range_entry) (l : list range_entry) :
  ranges_ascending (r :: l) = true ->
  re_first r <= re_last r
  /\ (forall r' tl, l = r' :: tl -> re_last r < re_first r')
  /\ ranges_ascending l = true.
Proof.
  cbn [ranges_ascending]. intros H.
  apply andb_prop in H as [H H3]. apply andb_prop in H as [H1 H2].
  split; [lia|]. split; [|exact H3].
  intros r' tl ->. lia.
Qed.

Lemma ranges_ascending_app (a b : list range_entry) :
  ranges_ascending (a ++ b) = true ->
  ranges_ascending a = true /\ ranges_ascending b = true.
Proof.
  induction a as [|r a IH]; intros H; [split; [reflexivity | exact H]|].
  cbn [app] in H. apply ranges_ascending_cons in H as (H1 & H2 & H3).
  destruct (IH H3) as [Ha Hb]. split; [|exact Hb].
  cbn [ranges_ascending]. rewrite Ha.
  destruct a as [|r' a'].
  - destruct (Z.leb_spec (re_first r) (re_last r)); [reflexivity | lia].
  - specialize (H2 r' (a' ++ b) eq_refl).
    destruct (Z.leb_spec (re_first r) (re_last r)); [|lia].
    destruct (Z.ltb_spec (re_last r) (re_first r')); [reflexivity | lia].
Qed.

(** In an ascending list, every range before [y] ends before [y]
    starts. *)
Lemma ranges_ascending_before (a b : list range_entry) (y : range_entry) :
  ranges_ascending (a ++ y :: b) = true ->
  Forall (fun x => re_last x < re_first y) a.
Proof.
  induction a as [|x a IH]; intros H; [constructor|].
  cbn [app] in H. apply ranges_ascending_cons in H as (H1 & H2 & H3).
  specialize (IH H3). constructor; [|exact IH].
  destruct a as [|x' a'].
  - apply (H2 y b). reflexivity.
  - specialize (H2 x' (a' ++ y :: b) eq_refl).
    apply ranges_ascending_cons in H3 as (H4 & _ & _).
    inversion IH; subst. lia.
Qed.

(** The first range of the ranges of a node starts where the node
    starts. *)
Lemma node_ranges_head (w : world) (e lo hi : Z) (t : maple_type)
    (rs : list range_entry) :
  node_ranges (Z.to_nat (mt_slots t)) w e t 0 lo hi = Some rs ->
  exists r tl, rs = r :: tl /\ re_first r = lo.
Proof.
  assert (Hn : exists n, Z.to_nat (mt_slots t) = S n).
  { destruct t; vm_compute; eexists; reflexivity. }
  destruct Hn as (n & ->). cbn [node_ranges].
  assert (Hs : (mt_slots t <=? 0) = false) by (destruct t; reflexivity).
  rewrite Hs.
  destruct (if mt_pivots t <=? 0 then Some hi else _mte_get_pivot w e 0 t)
    as [p|]; [|discriminate].
  destruct (_mte_get_rcu_slot w e 0 t) as [s|]; [|discriminate].
  destruct ((p =? 0) && nonzero 0); [intros [= <-]; eauto|].
  destruct (hi <=? p); [intros [= <-]; eauto|].
  destruct (node_ranges n w e t (0 + 1) (p + 1) hi); [|discriminate].
  intros [= <-]. eauto.
Qed.

(** The first range of the ranges of a sub-tree starts where the sub-tree
    starts. *)
Lemma subtree_ranges_head (w : world) (f : nat) :
  forall (e lo hi : Z) (l : list range_entry),
    subtree_ranges f w e lo hi = Some l ->
    exists r tl, l = r :: tl /\ re_first r = lo.
Proof.
  induction f as [|f IH]; intros e lo hi l H; [discriminate H|].
  rewrite subtree_ranges_unfold in H.
  destruct (node_type e) as [t|]; [|discriminate H].
  destruct (node_ranges _ w e t 0 lo hi) as [rs|] eqn:Hrs; [|discriminate H].
  destruct (node_ranges_head w e lo hi t rs Hrs) as (r & tl & -> & Hf).
  destruct (ma_is_leaf (type_code t)); [injection H as <-; eauto|].
  rewrite children_ranges_cons in H.
  destruct (Z.eqb_spec (re_entry r) 0).
  - destruct (children_ranges f w tl); [|discriminate H].
    injection H as <-. cbn. eauto.
  - destruct (subtree_ranges f w (re_entry r) (re_first r) (re_last r))
      as [sub|] eqn:Hsub; [|discriminate H].
    destruct (children_ranges f w tl); [|discriminate H].
    injection H as <-.
    destruct (IH _ _ _ _ Hsub) as (r0 & tl0 & -> & Hf0).
    cbn. exists r0. eexists. split; [reflexivity | congruence].
Qed.

Lemma ranges_entry_split (pre post : list range_entry) (r : range_entry)
    (idx : Z) :
  Forall (fun x => re_last x < idx) pre -> idx <= re_last r ->
  ranges_entry (pre ++ r :: post) idx = Some (re_entry r).
Proof.
  intros Hpre Hr. induction Hpre as [|x pre Hx _ IH]; cbn [app ranges_entry].
  - destruct (Z.leb_spec idx (re_last r)); [reflexivity | lia].
  - destruct (Z.leb_spec idx (re_last x)); [lia | exact IH].
Qed.

Lemma __mas_walk_unfold (f : nat) (w : world) (mas : ma_state)
    (range_min range_max : Z) :
  __mas_walk (S f) w mas range_min range_max
  = (let mas := set_depth (u8 (mas_depth mas + 1)) mas in
     type <-? node_type (mas_node mas) ;;
     r <-? mas_node_walk w mas type range_min range_max ;;
     if negb (wk_ret r)
     then Some (MkWalk false (wk_mas r) (wk_min r) (wk_max r))
     else if ma_is_leaf (type_code type) then Some r
     else
       let mas := wk_mas r in
       next <-? mas_get_rcu_slot w mas (mas_offset mas) ;;
       if mt_is_empty next
       then Some (MkWalk false mas (wk_min r) (wk_max r))
       else
         let mas := set_min (wk_min r) (set_max (wk_max r) mas) in
         __mas_walk f w (mas_set_offset 0 (set_node next mas))
           (wk_min r) (wk_max r)).
Proof. reflexivity. Qed.

Lemma mas_node_walk_64 (w : world) (mas : ma_state) (t : maple_type)
    (range_min range_max : Z) :
  type_is_64 t = true ->
  mas_node_walk w mas t range_min range_max
  = (r <-? mas_node_walk_loop (Z.to_nat (mt_slots t - mas_offset mas)) w mas
             t (mas_offset mas) (mas_min mas) 0 ;;
     let '(i, min, pivot, ret) := r in
     Some (MkWalk ret (mas_set_offset i mas)
             (if ret then min else range_min)
             (if ret then pivot else range_max))).
Proof. intros H. destruct t; try discriminate H; reflexivity. Qed.

Lemma node_ok_type (w : world) (e : Z) :
  node_ok w e = true ->
  exists t, node_type e = Some t /\ type_is_64 t = true
            /\ mte_dead_node w e = Some false.
Proof.
  unfold node_ok. destruct (node_type e) as [t|]; [|discriminate].
  destruct (mte_dead_node w e) as [[|]|]; try discriminate.
  intros H. exists t. repeat split. exact H.
Qed.

(** The read walk from a node down and the ranges of the sub-tree of that
    node: the walk ends at the first range that ends at or after the
    index. *)
Lemma walk_subtree (w : world) (idx : Z) :
  forall (f fuel : nat) (e lo hi : Z) (l : list range_entry) (ns : list Z)
         (mas : ma_state) (rmin rmax : Z),
    (f <= fuel)%nat ->
    subtree_ranges f w e lo hi = Some l ->
    subtree_nodes f w e lo hi = Some ns ->
    forallb (node_ok w) ns = true ->
    ranges_ascending l = true ->
    mas_node mas = e -> mas_max mas = hi -> mas_index mas = idx ->
    mas_offset mas = 0 ->
    lo <= idx <= hi ->
    exists pre r post wr,
      l = pre ++ r :: post
      /\ Forall (fun x => re_last x < idx) pre
      /\ idx <= re_last r
      /\ __mas_walk fuel w mas rmin rmax = Some wr
      /\ mas_last (wk_mas wr) = mas_last mas
      /\ (if wk_ret wr
          then node_ok w (mas_node (wk_mas wr)) = true
               /\ 0 <= mas_offset (wk_mas wr) < MAPLE_NODE_SLOTS
               /\ mas_get_rcu_slot w (wk_mas wr) (mas_offset (wk_mas wr))
                  = Some (re_entry r)
          else re_entry r = 0).
Proof.
  induction f as [|f IH];
    intros fuel e lo hi l ns mas rmin rmax Hf Hl Hns Hok Hasc Hnode Hmax
           Hidx Hoff Hb; [discriminate Hl|].
  destruct fuel as [|fuel]; [lia|].
  rewrite subtree_ranges_unfold in Hl. rewrite subtree_nodes_unfold in Hns.
  destruct (node_type e) as [t|] eqn:Ht; [|discriminate Hl].
  destruct (node_ranges (Z.to_nat (mt_slots t)) w e t 0 lo hi) as [rs|] eqn:Hrs;
    [|discriminate Hl].
  (* the node itself is sound *)
  assert (Hoke : node_ok w e = true).
  { destruct (ma_is_leaf (type_code t)).
    - injection Hns as <-. cbn in Hok. apply andb_prop in Hok. tauto.
    - destruct (children_nodes f w rs); [|discriminate Hns].
      injection Hns as <-. cbn in Hok. apply andb_prop in Hok. tauto. }
  destruct (node_ok_type w e Hoke) as (t' & Ht' & H64 & Hdead).
  assert (t' = t) by congruence. subst t'.
  rewrite __mas_walk_unfold. cbv zeta.
  set (mas1 := set_depth (u8 (mas_depth mas + 1)) mas).
  assert (Hn1 : mas_node mas1 = e) by exact Hnode.
  assert (Hm1 : mas_max mas1 = hi) by exact Hmax.
  assert (Hi1 : mas_index mas1 = idx) by exact Hidx.
  assert (Ho1 : mas_offset mas1 = 0) by exact Hoff.
  rewrite Hn1, Ht. rewrite (mas_node_walk_64 _ _ _ _ _ H64), Ho1.
  rewrite Z.sub_0_r.
  assert (Hps : 0 <= mt_pivots t < mt_slots t /\ mt_slots t <= 16)
    by (destruct t; try discriminate H64; sizes; lia).
  destruct (node_walk_ranges (Z.to_nat (mt_slots t)) w mas1 t H64 0 lo
              (mas_min mas1) 0 rs)
    as (pre & r & post & j & min & E & Hpre & Hr & Hfr & Hw & Hj & Hs);
    rewrite ?Hn1, ?Hm1, ?Hi1; try assumption; try lia.
  rewrite Hi1 in Hpre, Hr, Hfr. rewrite Hn1 in Hs.
  rewrite Hw. cbv beta iota. cbn [negb wk_ret wk_mas wk_min wk_max].
  assert (Hoj : mas_offset (mas_set_offset j mas1) = j)
    by (apply mas_offset_set; lia).
  assert (Hslot : mas_get_rcu_slot w (mas_set_offset j mas1) j
                  = Some (re_entry r)).
  { unfold mas_get_rcu_slot, mte_get_rcu_slot.
    change (mas_node (mas_set_offset j mas1)) with (mas_node mas1).
    rewrite Hn1, Ht. exact Hs. }
  destruct (ma_is_leaf (type_code t)) eqn:Hleaf.
  - (* a leaf: the walk ends here *)
    injection Hl as <-. exists pre, r, post. eexists.
    split; [exact E|]. split; [exact Hpre|]. split; [exact Hr|].
    split; [reflexivity|]. cbn [wk_ret wk_mas].
    split; [reflexivity|].
    rewrite Hoj.
    change (mas_node (mas_set_offset j mas1)) with (mas_node mas1).
    rewrite Hn1. split; [exact Hoke|].
    split; [unfold MAPLE_NODE_SLOTS; lia | exact Hslot].
  - (* an internal node *)
    rewrite Hoj, Hslot. unfold mt_is_empty.
    destruct (children_nodes f w rs) as [cn|] eqn:Hcn; [|discriminate Hns].
    injection Hns as <-. cbn [forallb] in Hok.
    apply andb_prop in Hok as [_ Hokc].
    rewrite E in Hl, Hcn.
    rewrite children_ranges_app, children_ranges_cons in Hl.
    rewrite children_nodes_app, children_nodes_cons in Hcn.
    destruct (children_ranges f w pre) as [lpre|] eqn:Hlpre;
      [|discriminate Hl].
    destruct (children_nodes f w pre) as [npre|]; [|discriminate Hcn].
    destruct (Z.eqb_spec (re_entry r) 0) as [Hz|Hnz].
    + (* an empty slot in an internal node *)
      destruct (children_ranges f w post) as [lpost|]; [|discriminate Hl].
      injection Hl as <-.
      exists lpre, r, lpost. eexists.
      split; [reflexivity|].
      split.
      { apply ranges_ascending_before in Hasc.
        eapply Forall_impl; [exact Hasc|]. cbn. intros x Hx. lia. }
      split; [exact Hr|]. split; [reflexivity|].
      cbn [wk_ret wk_mas]. split; [reflexivity | exact Hz].
    + destruct (subtree_ranges f w (re_entry r) (re_first r) (re_last r))
        as [sub|] eqn:Hsub; [|discriminate Hl].
      destruct (subtree_nodes f w (re_entry r) (re_first r) (re_last r))
        as [nsub|] eqn:Hnsub; [|discriminate Hcn].
      destruct (children_ranges f w post) as [lpost|]; [|discriminate Hl].
      destruct (children_nodes f w post) as [npost|]; [|discriminate Hcn].
      injection Hl as <-. injection Hcn as <-.
      rewrite !forallb_app in Hokc.
      apply andb_prop in Hokc as [_ Hokc].
      apply andb_prop in Hokc as [Hoks _].
      assert (Hasc' := Hasc).
      apply ranges_ascending_app in Hasc' as [_ Hasc'].
      apply ranges_ascending_app in Hasc' as [Hascs _].
      set (mas2 := mas_set_offset 0
                     (set_node (re_entry r)
                        (set_min min
                           (set_max (re_last r) (mas_set_offset j mas1))))).
      destruct (IH fuel (re_entry r) (re_first r) (re_last r) sub nsub mas2
                  min (re_last r))
        as (pre' & r' & post' & wr & E' & Hpre' & Hr' & Hw' & Hlast' & Hres);
        try assumption; try lia; try reflexivity.
      { apply mas_offset_set. lia. }
      destruct (subtree_ranges_head w f _ _ _ _ Hsub) as (h & tl & Eh & Hh).
      exists (lpre ++ pre'), r', (post' ++ lpost), wr.
      split; [rewrite E', <- !app_assoc; reflexivity|].
      split.
      { apply Forall_app. split; [|exact Hpre'].
        rewrite Eh in Hasc. cbn [app] in Hasc.
        apply ranges_ascending_before in Hasc.
        eapply Forall_impl; [exact Hasc|]. cbn. intros x Hx. lia. }
      split; [exact Hr'|]. split; [exact Hw'|].
      split; [rewrite Hlast'; reflexivity | exact Hres].
Qed.

Lemma node_ok_not_special (w : world) (e : Z) :
  node_ok w e = true ->
  mas_is_none (set_node e (MA_STATE 0 0)) = false
  /\ mas_is_ptr (set_node e (MA_STATE 0 0)) = false.
Proof.
  intros H. unfold mas_is_none, mas_is_ptr. cbn [mas_node set_node].
  split.
  - destruct (Z.eqb_spec e MAS_NONE) as [->|]; [|reflexivity].
    unfold node_ok in H. change (node_type MAS_NONE) with (Some maple_sparse_6) in H.
    destruct (mte_dead_node w MAS_NONE) as [[|]|]; discriminate H.
  - destruct (Z.eqb_spec e MAS_ROOT) as [->|]; [|reflexivity].
    unfold node_ok in H. change (node_type MAS_ROOT) with (Some maple_dense) in H.
    destruct (mte_dead_node w MAS_ROOT) as [[|]|]; discriminate H.
Qed.

Lemma subtree_nodes_head (w : world) (f : nat) (e lo hi : Z) (ns : list Z) :
  subtree_nodes f w e lo hi = Some ns -> exists tl, ns = e :: tl.
Proof.
  destruct f as [|f]; [discriminate|]. rewrite subtree_nodes_unfold.
  destruct (node_type e) as [t|]; [|discriminate].
  destruct (node_ranges _ w e t 0 lo hi) as [rs|]; [|discriminate].
  destruct (ma_is_leaf (type_code t)); [intros [= <-]; eauto|].
  destruct (children_nodes f w rs); [|discriminate].
  intros [= <-]. eauto.
Qed.

(** mtree_load is mas_load with the zero sentinel turned into NULL. *)
Lemma mtree_load_of_mas_load (w : world) (i e : Z) (mas : ma_state) :
  mas_load w (MA_STATE i i) = Some (e, mas) ->
  mtree_load w i = Some (if xa_is_zero e then 0 else e).
Proof.
  intros H. unfold mtree_load. rewrite H. cbn [fst].
  destruct (xa_is_zero e); reflexivity.
Qed.

(** The read path in a tree of live 64-bit nodes: mas_load finds the entry
    of the first range that ends at or after the index. *)
Lemma mas_load_subtree_ranges (w : world) (i : Z)
    (l : list range_entry) (ns : list Z) :
  xa_is_node (ma_root w) = true ->
  subtree_ranges TREE_DEPTH w (mte_safe_root (ma_root w)) 0 ULONG_MAX
    = Some l ->
  subtree_nodes TREE_DEPTH w (mte_safe_root (ma_root w)) 0 ULONG_MAX
    = Some ns ->
  forallb (node_ok w) ns = true ->
  ranges_ascending l = true ->
  0 <= i <= ULONG_MAX ->
  exists e mas,
    ranges_entry l i = Some e
    /\ mas_load w (MA_STATE i i) = Some (e, mas).
Proof.
  intros Hnode Hl Hns Hok Hasc Hi.
  set (root := mte_safe_root (ma_root w)) in *.
  destruct (subtree_nodes_head w _ _ _ _ _ Hns) as (tl & Ens).
  assert (Hokr : node_ok w root = true).
  { rewrite Ens in Hok. cbn in Hok. apply andb_prop in Hok. tauto. }
  destruct (node_ok_not_special w root Hokr) as [Hnone Hptr].
  unfold mas_is_none, mas_is_ptr in Hnone, Hptr.
  cbn [mas_node set_node] in Hnone, Hptr.
  set (mas0 := mas_set_offset 0
                 (set_node root
                    (mas_set_offset 0
                       (set_max ULONG_MAX
                          (set_min 0 (set_node MAS_NONE (MA_STATE i i))))))).
  destruct (walk_subtree w i TREE_DEPTH TREE_DEPTH root 0 ULONG_MAX l ns mas0
              0 0)
    as (pre & r & post & wr & E & Hpre & Hr & Hw & Hlast & Hres);
    try assumption; try reflexivity; try lia.
  exists (re_entry r), (wk_mas wr).
  split; [rewrite E; apply ranges_entry_split; assumption|].
  assert (Hz : (ma_root w =? 0) = false).
  { destruct (Z.eqb_spec (ma_root w) 0) as [Ez|]; [|reflexivity].
    rewrite Ez in Hnode. discriminate Hnode. }
  assert (Hwalk : _mas_range_walk w (MA_STATE i i) 0 0 = Some wr).
  { unfold _mas_range_walk, mas_start.
    change (mas_is_err (MA_STATE i i)) with false.
    change (mas_is_start (MA_STATE i i)) with true. cbv iota.
    rewrite Hz, Hnode. cbn [negb]. cbv iota beta.
    change (nonzero 0) with false. cbv iota.
    unfold mas_is_none, mas_is_ptr. cbn [mas_node set_node].
    fold root. rewrite Hnone, Hptr. exact Hw. }
  unfold mas_load.
  change RETRIES with (S 3). cbn [mas_range_load]. rewrite Hwalk.
  destruct (wk_ret wr).
  - destruct Hres as (Hokl & Hoff & Hslot).
    destruct (node_ok_not_special w _ Hokl) as [Hn' Hp'].
    unfold mas_is_none, mas_is_ptr in Hn', Hp' |- *.
    cbn [mas_node set_node] in Hn', Hp'. rewrite Hp'. cbn [andb].
    destruct (Z.leb_spec MAPLE_NODE_SLOTS (mas_offset (wk_mas wr))); [lia|].
    rewrite Hslot.
    destruct (node_ok_type w _ Hokl) as (t & _ & _ & Hdead).
    rewrite Hdead, Hn'. reflexivity.
  - rewrite Hres. reflexivity.
Qed.

(** In a tree whose root is a node, whose nodes are live leaf_64, range_64
    or arange_64 nodes and whose ranges, as subtree_ranges lists them, are
    in ascending order, mtree_load of an index returns the entry of the
    first listed range that ends at or after the index, with the zero
    sentinel read as NULL. *)
Theorem mtree_load_subtree_ranges (w : world) (i : Z)
    (l : list range_entry) (ns : list Z) :
  xa_is_node (ma_root w) = true ->
  subtree_ranges TREE_DEPTH w (mte_safe_root (ma_root w)) 0 ULONG_MAX
    = Some l ->
  subtree_nodes TREE_DEPTH w (mte_safe_root (ma_root w)) 0 ULONG_MAX
    = Some ns ->
  forallb (node_ok w) ns = true ->
  ranges_ascending l = true ->
  0 <= i <= ULONG_MAX ->
  exists e,
    ranges_entry l i = Some e
    /\ mtree_load w i = Some (if xa_is_zero e then 0 else e).
Proof.
  intros Hnode Hl Hns Hok Hasc Hi.
  destruct (mas_load_subtree_ranges w i l ns Hnode Hl Hns Hok Hasc Hi)
    as (e & mas & He & Hload).
  exists e. split; [exact He|].
  exact (mtree_load_of_mas_load w i e mas Hload).
Qed.

(** The tree of gap_scenario, two leaves under an arange_64 root: the
    load of index 68 and the load of index 10. *)
Lemma mtree_load_subtree_ranges_witness :
  mtree_load (world_after (store_all gap_scenario) empty_alloc_tree) 68
  = Some 0
  /\ mtree_load (world_after (store_all gap_scenario) empty_alloc_tree) 10
     = Some entry_B.
Proof.
  set (w := world_after (store_all gap_scenario) empty_alloc_tree).
  assert (Hn : xa_is_node (ma_root w) = true) by (vm_compute; reflexivity).
  eassert (Hl : subtree_ranges TREE_DEPTH w (mte_safe_root (ma_root w)) 0
                  ULONG_MAX = Some _) by (vm_compute; reflexivity).
  eassert (Hs : subtree_nodes TREE_DEPTH w (mte_safe_root (ma_root w)) 0
                  ULONG_MAX = Some _) by (vm_compute; reflexivity).
  split.
  - destruct (mtree_load_subtree_ranges w 68 _ _ Hn Hl Hs)
      as (e & He & Hload).
    + vm_compute. reflexivity.
    + vm_compute. reflexivity.
    + vm_compute. split; discriminate.
    + vm_compute in He. injection He as <-. exact Hload.
  - destruct (mtree_load_subtree_ranges w 10 _ _ Hn Hl Hs)
      as (e & He & Hload).
    + vm_compute. reflexivity.
    + vm_compute. reflexivity.
    + vm_compute. split; discriminate.
    + vm_compute in He. injection He as <-. exact Hload.
Defined.

(** ** Trees without a node *)

Lemma safe_root_not_zero_entry (e : Z) : xa_is_zero (mte_safe_root e) = false.
Proof.
  unfold xa_is_zero, mte_safe_root, clear_bits.
  destruct (Z.eqb_spec (Z.land e (Z.lnot 2)) XA_ZERO_ENTRY) as [E|]; [|reflexivity].
  assert (B : Z.testbit (Z.land e (Z.lnot 2)) 1 = Z.testbit XA_ZERO_ENTRY 1)
    by (rewrite E; reflexivity).
  rewrite Z.land_spec, Z.lnot_spec in B by lia.
  change (Z.testbit 2 1) with true in B.
  change (Z.testbit XA_ZERO_ENTRY 1) with true in B.
  rewrite andb_false_r in B. discriminate B.
Qed.

(** The read path when the root is not a node: index 0. *)
Lemma mtree_load_root_index_0 (w : world) :
  xa_is_node (ma_root w) = false ->
  mtree_load w 0 = Some (mte_safe_root (ma_root w)).
Proof.
  intros Hn. unfold mtree_load, mas_load.
  change RETRIES with (S 3). cbn [mas_range_load].
  unfold _mas_range_walk, mas_start.
  change (mas_is_err (MA_STATE 0 0)) with false.
  change (mas_is_start (MA_STATE 0 0)) with true. cbv iota.
  destruct (Z.eqb_spec (ma_root w) 0) as [Hz|Hz].
  - cbv beta iota. change (nonzero 0) with false. cbv iota.
    cbn. rewrite Hz. reflexivity.
  - rewrite Hn. cbn [negb]. cbv iota.
    change (0 <? mas_index
                   (mas_set_offset 0
                      (set_max ULONG_MAX
                         (set_min 0 (set_node MAS_NONE (MA_STATE 0 0))))))
      with false.
    cbv beta iota. unfold nonzero.
    destruct (Z.eqb_spec (ma_root w) 0); [contradiction|]. cbn.
    rewrite safe_root_not_zero_entry. reflexivity.
Qed.

(** The read path when the root is not a node: the other indices. *)
Lemma mtree_load_above_root (w : world) (i : Z) :
  xa_is_node (ma_root w) = false -> 0 < i -> mtree_load w i = Some 0.
Proof.
  intros Hn Hi. unfold mtree_load, mas_load.
  change RETRIES with (S 3). cbn [mas_range_load].
  unfold _mas_range_walk, mas_start.
  change (mas_is_err (MA_STATE i i)) with false.
  change (mas_is_start (MA_STATE i i)) with true. cbv iota.
  destruct (Z.eqb_spec (ma_root w) 0) as [Hz|Hz].
  - cbv beta iota. change (nonzero 0) with false. cbv iota.
    cbn. reflexivity.
  - rewrite Hn. cbn [negb]. cbv iota.
    destruct (Z.ltb_spec 0 (mas_index
                 (mas_set_offset 0
                    (set_max ULONG_MAX
                       (set_min 0 (set_node MAS_NONE (MA_STATE i i)))))))
      as [Hlt|Hge].
    + cbv beta iota. change (nonzero 0) with false. cbv iota. cbn.
      reflexivity.
    + cbn in Hge. lia.
Qed.

(** In a tree whose root is not a node (an empty tree, or a tree that
    holds one entry for index 0 in its root pointer), mtree_load returns the
    root without its bit 1 for index 0 and NULL for every other index. *)
Theorem mtree_load_without_node (w : world) (i : Z) :
  xa_is_node (ma_root w) = false ->
  0 <= i ->
  mtree_load w i
  = Some (if i =? 0 then mte_safe_root (ma_root w) else 0).
Proof.
  intros Hn Hi. destruct (Z.eqb_spec i 0) as [-> | Hne].
  - apply mtree_load_root_index_0. exact Hn.
  - apply mtree_load_above_root; [exact Hn | lia].
Qed.

Lemma mtree_load_without_node_witness :
  mtree_load empty_tree 7 = Some 0
  /\ mtree_load (set_ma_root entry_A empty_tree) 0 = Some entry_A.
Proof.
  split.
  - apply (mtree_load_without_node empty_tree 7); [reflexivity | lia].
  - apply (mtree_load_without_node (set_ma_root entry_A empty_tree) 0);
      [reflexivity | lia].
Defined.

(** The bind of the monad, applied to a world. *)
Lemma mbind_eq {A B : Type} (c : M A) (k : A -> M B) (w : world) :
  mbind c k w = match c w with Some (a, w') => k a w' | None => None end.
Proof. reflexivity. Qed.

Lemma mread_eq {A : Type} (r : world -> option A) (w : world) :
  mread r w = match r w with Some a => Some (a, w) | None => None end.
Proof. reflexivity. Qed.

(** A cursor that is not in the out-of-memory state gives back its (empty)
    pool and asks for no retry. *)
Lemma mas_nomem_no_pool (mas : ma_state) (w : world) :
  mas_node mas <> MA_ERROR (- ENOMEM) ->
  mas_get_alloc mas = 0 ->
  mas_nomem mas w = Some ((false, mas), w).
Proof.
  intros Hn Ha. unfold mas_nomem.
  destruct (Z.eqb_spec (mas_node mas) (MA_ERROR (- ENOMEM))); [contradiction|].
  cbn [negb]. unfold mas_empty_alloc. cbn [mas_empty_alloc_loop].
  rewrite Ha. reflexivity.
Qed.

(** The cursor of a store, after mas_start, in a tree whose root is not a
    node: MAS_NONE, or MAS_ROOT for index 0 over a root entry. *)
Lemma mas_start_without_node (w : world) (index last : Z) :
  xa_is_node (ma_root w) = false -> 0 <= index ->
  exists e mas,
    mas_start w (MA_STATE index last) = (e, mas)
    /\ (nonzero e || (mas_is_none mas || (mas_node mas =? MAS_ROOT))) = true
    /\ (mas_node mas = MAS_NONE \/ mas_node mas = MAS_ROOT)
    /\ mas_index mas = index /\ mas_last mas = last
    /\ mas_get_alloc mas = 0.
Proof.
  intros Hn Hi. unfold mas_start.
  change (mas_is_err (MA_STATE index last)) with false.
  change (mas_is_start (MA_STATE index last)) with true. cbv iota.
  destruct (ma_root w =? 0).
  - eexists _, _. split; [reflexivity|]. cbn. repeat split. left. reflexivity.
  - rewrite Hn. cbn [negb]. cbv iota.
    destruct (0 <? _).
    + eexists _, _. split; [reflexivity|]. cbn. repeat split. left.
      reflexivity.
    + eexists _, _. split; [reflexivity|]. cbn.
      rewrite orb_true_r. repeat split. right. reflexivity.
Qed.

(** An entry that does not carry the internal tag, stored at index 0 of a
    tree whose root is not a node, becomes the root pointer: no node is
    allocated and nothing else changes; mtree_load of index 0 then returns
    the entry without its bit 1 and every other index loads NULL. *)
Theorem mtree_store_root_entry (w : world) (entry : Z) :
  xa_is_node (ma_root w) = false ->
  Z.land entry 3 <> 2 ->
  mtree_store_range 0 0 entry w = Some (0, set_ma_root entry w)
  /\ mtree_load (set_ma_root entry w) 0 = Some (mte_safe_root entry)
  /\ (forall i, 0 < i -> mtree_load (set_ma_root entry w) i = Some 0).
Proof.
  intros Hn He.
  assert (Hint : xa_is_internal entry = false).
  { unfold xa_is_internal. destruct (Z.eqb_spec (Z.land entry 3) 2);
      [contradiction | reflexivity]. }
  assert (Hn' : xa_is_node (ma_root (set_ma_root entry w)) = false).
  { cbn. unfold xa_is_node. rewrite Hint. reflexivity. }
  split; [|split].
  - unfold mtree_store_range, xa_is_advanced. rewrite Hint. cbn [andb].
    change (0 <? 0) with false. cbv iota.
    change RETRY_FUEL with (S 3). cbn [mas_store_retry].
    rewrite !mbind_eq.
    unfold _mas_store at 1. rewrite mbind_eq. unfold mget at 1.
    destruct (mas_start_without_node w 0 0 Hn ltac:(lia))
      as (e & mas & -> & Hc & Hnode & Hidx & Hlast & Hal).
    rewrite Hc, mbind_eq.
    unfold ma_root_ptr. rewrite mbind_eq. unfold mget at 1.
    rewrite Hn, Hlast.
    change (0 =? 0) with true. cbn [negb andb]. rewrite andb_false_r.
    cbv iota.
    destruct (Z.eqb_spec (Z.land entry 3) 2); [contradiction|].
    rewrite mbind_eq. unfold mret at 1.
    assert (Herr : mas_is_err mas = false)
      by (unfold mas_is_err; destruct Hnode as [-> | ->]; reflexivity).
    rewrite Herr. change (nonzero 1) with true. cbv iota. unfold mret at 1.
    cbn [snd]. rewrite mbind_eq.
    rewrite mas_nomem_no_pool;
      [| destruct Hnode as [-> | ->]; discriminate | exact Hal].
    cbn [fst snd]. unfold mret at 1.
    rewrite Herr. reflexivity.
  - apply (mtree_load_root_index_0 _ Hn').
  - intros i Hi. apply (mtree_load_above_root _ i Hn' Hi).
Qed.

Lemma mtree_store_root_entry_witness :
  mtree_store_range 0 0 entry_A empty_tree
  = Some (0, set_ma_root entry_A empty_tree)
  /\ mtree_load (set_ma_root entry_A empty_tree) 0 = Some entry_A.
Proof.
  destruct (mtree_store_root_entry empty_tree entry_A) as (H1 & H2 & _).
  - reflexivity.
  - vm_compute. discriminate.
  - split; [exact H1 | exact H2].
Defined.

(** ** C10: the entry a tree holds and the public lookup *)

(** C10: in a well-formed tree, when the entry the tree holds for an
    index is the zero sentinel, mtree_load of that index returns NULL, as
    it does when the tree holds nothing there.  In a tree of nodes the
    lookup of the cursor, mas_load (mas_range_load), does return the
    stored entry, the sentinel included: it is mtree_load that hides it.
    A root pointer without a node never holds the sentinel. *)
Theorem mtree_load_hides_zero_entry (w : world) (index entry : Z) :
  tree_ok w ->
  0 <= index <= ULONG_MAX ->
  stored_entry w index = Some entry ->
  entry = XA_ZERO_ENTRY \/ entry = 0 ->
  mtree_load w index = Some 0
  /\ (xa_is_node (ma_root w) = true ->
      exists mas, mas_load w (MA_STATE index index) = Some (entry, mas))
  /\ (xa_is_node (ma_root w) = false -> entry = 0).
Proof.
  unfold tree_ok, stored_entry. intros Hok Hi Hst He.
  destruct (xa_is_node (ma_root w)) eqn:Hnode.
  - destruct Hok as (l & ns & Hl & Hns & Hnok & Hasc).
    rewrite Hl in Hst.
    destruct (mas_load_subtree_ranges w index l ns Hnode Hl Hns Hnok Hasc Hi)
      as (e & mas & Hre & Hload).
    rewrite Hst in Hre. injection Hre as <-.
    split; [|split].
    + rewrite (mtree_load_of_mas_load w index entry mas Hload).
      destruct He as [-> | ->]; reflexivity.
    + intros _. exists mas. exact Hload.
    + intros H. discriminate H.
  - injection Hst as Hst.
    assert (E0 : entry = 0).
    { destruct He as [E | E]; [|exact E]. exfalso.
      destruct (Z.eqb_spec index 0).
      - apply Hok. rewrite Hst, E. reflexivity.
      - rewrite E in Hst. discriminate Hst. }
    split; [|split].
    + destruct (Z.eqb_spec index 0) as [-> | Hne].
      * rewrite (mtree_load_root_index_0 w Hnode), Hst, E0. reflexivity.
      * apply mtree_load_above_root; [exact Hnode | lia].
    + intros H. discriminate H.
    + intros _. exact E0.
Qed.

(** The zero sentinel stored over [10, 20] in an empty tree: the tree
    holds it for index 15 and nothing for index 25; both load as NULL. *)
Lemma mtree_load_hides_zero_entry_witness :
  stored_entry
    (world_after (mtree_store_range 10 20 XA_ZERO_ENTRY) empty_tree) 15
  = Some XA_ZERO_ENTRY
  /\ mtree_load
       (world_after (mtree_store_range 10 20 XA_ZERO_ENTRY) empty_tree) 15
     = Some 0
  /\ mtree_load
       (world_after (mtree_store_range 10 20 XA_ZERO_ENTRY) empty_tree) 25
     = Some 0.
Proof.
  set (w := world_after (mtree_store_range 10 20 XA_ZERO_ENTRY) empty_tree).
  assert (Hn : xa_is_node (ma_root w) = true) by (vm_compute; reflexivity).
  eassert (Hl : subtree_ranges TREE_DEPTH w (mte_safe_root (ma_root w)) 0
                  ULONG_MAX = Some _) by (vm_compute; reflexivity).
  eassert (Hs : subtree_nodes TREE_DEPTH w (mte_safe_root (ma_root w)) 0
                  ULONG_MAX = Some _) by (vm_compute; reflexivity).
  assert (Hok : tree_ok w).
  { unfold tree_ok. rewrite Hn. eexists _, _.
    split; [exact Hl|]. split; [exact Hs|].
    split; vm_compute; reflexivity. }
  assert (S15 : stored_entry w 15 = Some XA_ZERO_ENTRY)
    by (vm_compute; reflexivity).
  assert (S25 : stored_entry w 25 = Some 0) by (vm_compute; reflexivity).
  assert (R15 : 0 <= 15 <= ULONG_MAX) by (vm_compute; split; discriminate).
  assert (R25 : 0 <= 25 <= ULONG_MAX) by (vm_compute; split; discriminate).
  split; [exact S15|]. split.
  - exact (proj1 (mtree_load_hides_zero_entry w 15 XA_ZERO_ENTRY Hok R15 S15
                    (or_introl eq_refl))).
  - exact (proj1 (mtree_load_hides_zero_entry w 25 0 Hok R25 S25
                    (or_intror eq_refl))).
Defined.

(** ** A store into an empty tree *)

Lemma rd_word_mk (h : gmap Z (list Z)) (b : Z) (a : nat) (f r t n k : Z)
    (l : list Z) :
  0 <= k < Z.of_nat NODE_WORDS ->
  rd_word (MkWorld (<[n := l]> h) b a f r t) n k = l !! Z.to_nat k.
Proof.
  intros Hk. apply rd_word_at; [apply lookup_insert_eq | exact Hk].
Qed.

Lemma wr_word_mk (h : gmap Z (list Z)) (b : Z) (a : nat) (f r t n k v : Z)
    (l : list Z) :
  0 <= k < Z.of_nat NODE_WORDS ->
  wr_word n k v (MkWorld (<[n := l]> h) b a f r t)
  = Some (tt, MkWorld (<[n := <[Z.to_nat k := v]> l]> h) b a f r t).
Proof.
  intros Hk. unfold wr_word. cbn [heap]. rewrite lookup_insert_eq.
  destruct (andb_range 0 (Z.of_nat NODE_WORDS) k) as [_ ->]; [|exact Hk].
  unfold set_heap. cbn. rewrite insert_insert_eq. reflexivity.
Qed.

Lemma aligned_clear_127 (b : Z) : b mod 128 = 0 -> clear_bits b 127 = b.
Proof.
  intros Hb. rewrite clear_bits_low7. symmetry. apply aligned_multiple.
  exact Hb.
Qed.

Lemma mas_node_node_loop_done (n : nat) (head mn slot allocated : Z) :
  mas_node_node_loop (S n) head mn slot 0 allocated = mret 0.
Proof. reflexivity. Qed.

(** One node for a cursor that has none: the cache hands out the node at
    [brk], zeroed. *)
Lemma mas_node_cnt_one (h : gmap Z (list Z)) (b : Z) (n : nat) (f r t : Z)
    (mas : ma_state) :
  mas_alloc_word mas = 0 -> b mod 128 = 0 -> b <> 0 ->
  mas_node_cnt mas 1 (MkWorld h b (S n) f r t)
  = Some (set_alloc b mas,
          MkWorld (<[b := replicate NODE_WORDS 0]> h) (b + NODE_SIZE) n f r t).
Proof.
  intros Ha Hb Hz.
  unfold mas_node_cnt. rewrite mbind_eq, mread_eq.
  unfold mas_get_alloc_cnt at 1, mas_get_alloc. rewrite Ha.
  change (clear_bits 0 127 =? 0) with true. cbv iota.
  change (127 <? 1) with false. change (0 <? 1) with true. cbv iota.
  unfold mas_node_node. rewrite mbind_eq, mread_eq.
  unfold mas_get_alloc_req, mas_set_alloc_req, mas_get_alloc_cnt,
    mas_get_alloc.
  cbn [mas_alloc_word set_alloc]. rewrite Ha.
  change (Z.land (Z.lor (clear_bits 0 127) (u64 (1 - 0))) 127) with 1.
  change (clear_bits (Z.lor (clear_bits 0 127) (u64 (1 - 0))) 127) with 0.
  change (0 =? 0) with true. change (1 =? 0) with false. cbv iota.
  rewrite mbind_eq. unfold mt_alloc_one at 1. cbn [avail brk heap ma_flags
    ma_root tree_addr].
  destruct (Z.eqb_spec b 0); [contradiction|].
  rewrite mbind_eq. change (MAPLE_NODE_SLOTS <=? 0 + 1 - 1) with false.
  cbv iota. unfold mret at 1. rewrite mbind_eq.
  change (1 - 1) with 0. change 128%nat with (S 127).
  rewrite mas_node_node_loop_done. unfold mret at 1.
  change (0 <? 0) with false. cbv iota. unfold mret.
  f_equal. f_equal. cbn [mas_alloc_word set_alloc].
  rewrite aligned_clear_127 by exact Hb.
  change (u64 0) with 0. rewrite Z.lor_0_r.
  destruct mas. reflexivity.
Qed.

Lemma ma_get_node_alloc_cnt_single (f : nat) (w : world) (node : Z) :
  rd_word w node 1 = Some 0 -> ma_get_node_alloc_cnt (S f) w node = Some 1.
Proof.
  intros H. cbn [ma_get_node_alloc_cnt].
  remember (Z.to_nat MAPLE_NODE_SLOTS) as m eqn:E.
  destruct m as [|m]; [discriminate E|].
  cbv beta iota fix.
  change (1 + 0) with 1. rewrite H. reflexivity.
Qed.

(** The pool of one zeroed node is taken whole. *)
Lemma mas_next_alloc_one (h : gmap Z (list Z)) (b b' : Z) (n : nat)
    (f r t : Z) (mas : ma_state) :
  mas_alloc_word mas = b -> b mod 128 = 0 -> b <> 0 ->
  mas_next_alloc mas
    (MkWorld (<[b := replicate NODE_WORDS 0]> h) b' n f r t)
  = Some ((b, set_alloc 0 mas),
          MkWorld (<[b := replicate NODE_WORDS 0]> h) b' n f r t).
Proof.
  intros Ha Hb Hz. unfold mas_next_alloc. rewrite Ha.
  destruct (Z.eqb_spec b 0); [contradiction|].
  rewrite mbind_eq, mread_eq.
  unfold mas_get_alloc_cnt, mas_get_alloc. rewrite Ha.
  rewrite aligned_clear_127 by exact Hb.
  destruct (Z.eqb_spec b 0); [contradiction|].
  change ALLOC_DEPTH with (S 7).
  rewrite ma_get_node_alloc_cnt_single
    by (rewrite rd_word_mk by (unfold NODE_WORDS; lia); reflexivity).
  change (1 =? 1) with true. cbv iota. reflexivity.
Qed.

Lemma mt_mk_node_leaf (b : Z) :
  b mod 128 = 0 -> mt_mk_node b (type_code maple_leaf_64) = b + 76.
Proof.
  intros Hb. rewrite (aligned_multiple b Hb) at 1. rewrite mt_mk_node_sum.
  rewrite <- (aligned_multiple b Hb). reflexivity.
Qed.

Lemma leaf_enode_facts (b : Z) :
  b mod 128 = 0 ->
  mte_to_node (b + 76) = b
  /\ node_type (b + 76) = Some maple_leaf_64
  /\ mte_mk_root (b + 76) = b + 78
  /\ mte_safe_root (b + 78) = b + 76.
Proof.
  intros Hb.
  rewrite (aligned_multiple b Hb). set (q := b / 128).
  split; [|split; [|split]].
  - unfold mte_to_node. rewrite aligned_clear by lia.
    change (clear_bits 76 127) with 0. lia.
  - apply node_type_aligned; [lia | reflexivity].
  - unfold mte_mk_root. rewrite aligned_lor_low by lia. reflexivity.
  - unfold mte_safe_root. rewrite aligned_clear by lia. reflexivity.
Qed.

(** The value written in an eight-byte field that held 0. *)
Lemma field_value (v : Z) :
  0 <= v < 2 ^ 64 ->
  Z.lor (clear_bits 0 (Z.shiftl (Z.ones (8 * 8)) (8 * 0)))
    (Z.shiftl (Z.land v (Z.ones (8 * 8))) (8 * 0)) = v.
Proof.
  intros Hv. change (8 * 0) with 0. rewrite !Z.shiftl_0_r.
  unfold clear_bits. rewrite Z.land_0_l, Z.lor_0_l.
  change (8 * 8) with 64. rewrite Z.land_ones by lia.
  apply Z.mod_small. exact Hv.
Qed.

Lemma mte_set_pivot_leaf (b : Z) :
  b mod 128 = 0 ->
  forall slot val,
    0 <= slot < 15 ->
    mte_set_pivot (b + 76) slot val
    = wr_field b (8 + 8 * slot) 8 val.
Proof.
  intros Hb slot val Hs. destruct (leaf_enode_facts b Hb) as (H1 & H2 & _).
  unfold mte_set_pivot. rewrite H2, H1. unfold ma_set_pivot.
  change (mt_pivots maple_leaf_64) with 15.
  destruct (Z.leb_spec 15 slot); [lia|]. unfold pivot_layout.
  change (MAPLE_RANGE64_SLOTS - 1) with 15.
  destruct (andb_range 0 15 slot) as [_ ->]; [reflexivity | lia].
Qed.

Lemma mte_set_rcu_slot_leaf (b : Z) :
  b mod 128 = 0 ->
  forall slot val,
    0 <= slot < 16 ->
    mte_set_rcu_slot (b + 76) slot val = wr_word b (16 + slot) val.
Proof.
  intros Hb slot val Hs. destruct (leaf_enode_facts b Hb) as (H1 & H2 & _).
  unfold mte_set_rcu_slot. rewrite H2, H1. unfold ma_set_rcu_slot.
  change (mt_slots maple_leaf_64) with 16.
  destruct (Z.leb_spec 16 slot); [lia|]. unfold slot_layout.
  change MAPLE_RANGE64_SLOTS with 16.
  destruct (andb_range 0 16 slot) as [_ ->]; [reflexivity | lia].
Qed.

(** A write of an eight-byte pivot in a node whose word is 0. *)
Lemma wr_pivot_mk (h : gmap Z (list Z)) (b : Z) (a : nat) (f r t n k v : Z)
    (l : list Z) :
  0 <= k < 15 -> l !! Z.to_nat (1 + k) = Some 0 -> 0 <= v < 2 ^ 64 ->
  wr_field n (8 + 8 * k) 8 v (MkWorld (<[n := l]> h) b a f r t)
  = Some (tt, MkWorld (<[n := <[Z.to_nat (1 + k) := v]> l]> h) b a f r t).
Proof.
  intros Hk Hl Hv. unfold wr_field. rewrite mbind_eq, mread_eq.
  replace ((8 + 8 * k) / 8) with (1 + k)
    by (replace (8 + 8 * k) with ((1 + k) * 8) by lia;
        rewrite Z.div_mul; lia).
  replace ((8 + 8 * k) mod 8) with 0
    by (replace (8 + 8 * k) with ((1 + k) * 8) by lia;
        rewrite Z.mod_mul; lia).
  rewrite rd_word_mk by (unfold NODE_WORDS; lia). rewrite Hl.
  rewrite wr_word_mk by (unfold NODE_WORDS; lia).
  rewrite field_value by exact Hv. reflexivity.
Qed.

(** mas_root_expand in an empty tree: the cache hands out the node at
    [brk], which becomes the root leaf. *)
Lemma mas_root_expand_empty (w : world) (mas : ma_state) (entry : Z) :
  ma_root w = 0 -> avail w <> O ->
  brk w mod 128 = 0 -> brk w <> 0 ->
  mas_alloc_word mas = 0 -> mas_node mas = MAS_NONE ->
  0 <= mas_index mas -> 0 <= mas_last mas < 2 ^ 64 ->
  mas_index mas - 1 < 2 ^ 64 ->
  mas_root_expand mas entry w
  = Some ((if 1 <? mas_index mas then 2 else 1,
           set_depth 1 (set_node (brk w + 76) mas)),
          root_leaf_world w (mas_index mas) (mas_last mas) entry).
Proof.
  destruct w as [h b a f r t]. cbn [ma_root avail brk].
  intros -> Ha Hb Hz Hal Hnode Hidx Hlast Hidx'.
  destruct a as [|n]; [contradiction|].
  destruct (leaf_enode_facts b Hb) as (Hto & Hty & Hmk & _).
  unfold mas_root_expand. rewrite mbind_eq. unfold mget at 1.
  cbn [ma_root tree_addr].
  rewrite mbind_eq, mas_node_cnt_one by assumption.
  assert (Herr : mas_is_err (set_alloc b mas) = false)
    by (unfold mas_is_err; cbn [mas_node set_alloc]; rewrite Hnode;
        reflexivity).
  rewrite Herr. rewrite mbind_eq.
  rewrite (mas_next_alloc_one h b _ n f 0 t (set_alloc b mas))
    by (try reflexivity; assumption).
  cbn [fst snd]. rewrite mt_mk_node_leaf by exact Hb.
  rewrite mbind_eq. unfold wr_parent, mas_mn. cbn [mas_node set_node].
  rewrite Hto. rewrite wr_word_mk by (unfold NODE_WORDS; lia).
  change (nonzero 0) with false. cbv iota.
  rewrite mbind_eq. unfold mret at 1. rewrite mbind_eq.
  cbn [mas_index mas_last set_node set_alloc].
  rewrite andb_false_r.
  unfold root_leaf_world, root_leaf_words.
  cbn [brk avail heap ma_flags tree_addr Nat.pred].
  rewrite mt_mk_node_leaf, Hmk by exact Hb.
  destruct (Z.ltb_spec 1 (mas_index mas)) as [H1|H1].
  - rewrite mbind_eq. rewrite (mte_set_pivot_leaf b Hb) by lia.
    rewrite wr_pivot_mk by (try reflexivity; lia).
    unfold mret at 1. rewrite mbind_eq.
    rewrite (mte_set_rcu_slot_leaf b Hb) by lia.
    rewrite wr_word_mk by (unfold NODE_WORDS; lia).
    rewrite mbind_eq. rewrite (mte_set_pivot_leaf b Hb) by lia.
    rewrite wr_pivot_mk by (try reflexivity; lia).
    rewrite mbind_eq. cbn [set_ma_root heap brk avail ma_flags tree_addr].
    rewrite mbind_eq. unfold mas_set_height at 1.
    cbn [ma_flags mas_depth set_depth]. unfold mret, set_ma_flags.
    cbn [heap brk avail ma_root tree_addr].
    destruct mas. cbn in Hal. subst. reflexivity.
  - unfold mret at 1. rewrite mbind_eq.
    rewrite (mte_set_rcu_slot_leaf b Hb) by lia.
    rewrite wr_word_mk by (unfold NODE_WORDS; lia).
    rewrite mbind_eq. rewrite (mte_set_pivot_leaf b Hb) by lia.
    rewrite wr_pivot_mk by (try reflexivity; lia).
    rewrite mbind_eq. cbn [set_ma_root heap brk avail ma_flags tree_addr].
    rewrite mbind_eq. unfold mas_set_height at 1.
    cbn [ma_flags mas_depth set_depth]. unfold mret, set_ma_flags.
    cbn [heap brk avail ma_root tree_addr].
    destruct mas. cbn in Hal. subst. reflexivity.
Qed.

Lemma leaf_enode_not_error (b : Z) :
  b mod 128 = 0 ->
  xa_is_internal (b + 76) = false
  /\ b + 76 <> MA_ERROR (- ENOMEM).
Proof.
  intros Hb.
  assert (H : Z.land (b + 76) 3 = 0).
  { rewrite (aligned_multiple b Hb), aligned_land by lia. reflexivity. }
  split.
  - unfold xa_is_internal. rewrite H. reflexivity.
  - intros E. rewrite E in H. vm_compute in H. discriminate H.
Qed.

(** The retry loop of a store or an insert over [index, last], last > 0,
    in an empty tree whose cache has a node left. *)
Lemma mas_store_retry_empty (w : world) (index last entry : Z)
    (overwrite : bool) :
  ma_root w = 0 -> avail w <> O ->
  brk w mod 128 = 0 -> brk w <> 0 ->
  0 <= index <= last -> 0 < last < 2 ^ 64 ->
  exists mas,
    mas_store_retry RETRY_FUEL (MA_STATE index last) entry overwrite w
    = Some (mas, root_leaf_world w index last entry)
    /\ mas_is_err mas = false.
Proof.
  intros Hr Ha Hb Hz Hi Hl.
  destruct (leaf_enode_not_error (brk w) Hb) as [Hint Hne].
  change RETRY_FUEL with (S 3). cbn [mas_store_retry].
  rewrite mbind_eq. unfold _mas_store. rewrite mbind_eq. unfold mget at 1.
  unfold mas_start.
  change (mas_is_err (MA_STATE index last)) with false.
  change (mas_is_start (MA_STATE index last)) with true. cbv iota.
  rewrite Hr. change (0 =? 0) with true. cbv iota beta.
  set (mas1 := mas_set_offset 0 _).
  change (nonzero 0 || (mas_is_none mas1 || (mas_node mas1 =? MAS_ROOT)))
    with true. cbv iota.
  rewrite mbind_eq. unfold ma_root_ptr. rewrite mbind_eq. unfold mget at 1.
  rewrite Hr. change (xa_is_node 0) with false. cbv iota.
  change (nonzero 0) with false. cbn [andb]. cbv iota.
  change (mas_last mas1) with last.
  destruct (Z.eqb_spec last 0) as [E|_]; [lia|]. cbn [negb]. cbv iota.
  rewrite (mas_root_expand_empty w mas1 entry);
    try assumption; try reflexivity;
    try (change (mas_index mas1) with index; lia);
    try (change (mas_last mas1) with last; lia).
  change (mas_index mas1) with index. change (mas_last mas1) with last.
  set (mas2 := set_depth 1 (set_node (brk w + 76) mas1)).
  assert (Herr : mas_is_err mas2 = false).
  { unfold mas_is_err, xa_is_err. change (mas_node mas2) with (brk w + 76).
    rewrite Hint. reflexivity. }
  rewrite Herr.
  assert (Hret : nonzero (if 1 <? index then 2 else 1) = true)
    by (destruct (1 <? index); reflexivity).
  rewrite Hret. unfold mret at 1. cbn [snd]. rewrite mbind_eq.
  rewrite mas_nomem_no_pool; [| exact Hne | reflexivity].
  cbn [fst snd]. unfold mret. exists mas2. split; [reflexivity | exact Herr].
Qed.

Lemma node_ranges_unfold (n : nat) (w : world) (enode : Z) (t : maple_type)
    (i lo hi : Z) :
  node_ranges (S n) w enode t i lo hi
  = (if mt_slots t <=? i then Some []
     else
       p <-? (if mt_pivots t <=? i then Some hi
              else _mte_get_pivot w enode i t) ;;
       s <-? _mte_get_rcu_slot w enode i t ;;
       if (p =? 0) && nonzero i then Some [MkRange lo hi s]
       else if hi <=? p then Some [MkRange lo p s]
       else
         r <-? node_ranges n w enode t (i + 1) (p + 1) hi ;;
         Some (MkRange lo p s :: r)).
Proof. reflexivity. Qed.

(** Reading a pivot and a slot of the leaf at [b] from its words. *)
Lemma leaf_pivot_mk (h : gmap Z (list Z)) (b b' : Z) (a : nat) (f r t i v : Z)
    (l : list Z) :
  b mod 128 = 0 -> 0 <= i < 15 ->
  l !! Z.to_nat (1 + i) = Some v -> 0 <= v < 2 ^ 64 ->
  _mte_get_pivot (MkWorld (<[b := l]> h) b' a f r t) (b + 76) i maple_leaf_64
  = Some v.
Proof.
  intros Hb Hi Hl Hv. destruct (leaf_enode_facts b Hb) as (H1 & H2 & _).
  pose proof (mte_get_pivot_word (MkWorld (<[b := l]> h) b' a f r t)
                (b + 76) i maple_leaf_64 H2 eq_refl) as E.
  unfold mte_get_pivot in E. rewrite H2 in E. rewrite E.
  change (mt_pivots maple_leaf_64) with 15.
  destruct (andb_range 0 15 i) as [_ ->]; [|lia].
  rewrite H1, rd_word_mk by (unfold NODE_WORDS; lia). rewrite Hl.
  rewrite Z.land_ones by lia. f_equal. apply Z.mod_small. exact Hv.
Qed.

Lemma leaf_slot_mk (h : gmap Z (list Z)) (b b' : Z) (a : nat) (f r t i : Z)
    (l : list Z) :
  b mod 128 = 0 -> 0 <= i < 16 ->
  _mte_get_rcu_slot (MkWorld (<[b := l]> h) b' a f r t) (b + 76) i
    maple_leaf_64
  = l !! Z.to_nat (16 + i).
Proof.
  intros Hb Hi. destruct (leaf_enode_facts b Hb) as (H1 & H2 & _).
  unfold _mte_get_rcu_slot, ma_get_rcu_slot, slot_layout. rewrite H1.
  change MAPLE_RANGE64_SLOTS with 16.
  destruct (andb_range 0 16 i) as [_ ->]; [|lia].
  apply rd_word_mk. unfold NODE_WORDS. lia.
Qed.

(** The ranges that subtree_ranges reads off the leaf built by
    mas_root_expand. *)
Lemma root_leaf_world_ranges (w : world) (index last entry : Z) :
  brk w mod 128 = 0 ->
  0 <= index <= last -> 0 < last < 2 ^ 64 ->
  subtree_ranges TREE_DEPTH (root_leaf_world w index last entry)
    (brk w + 76) 0 ULONG_MAX
  = Some (root_leaf_ranges index last entry)
  /\ subtree_nodes TREE_DEPTH (root_leaf_world w index last entry)
       (brk w + 76) 0 ULONG_MAX
     = Some [brk w + 76].
Proof.
  intros Hb Hi Hl. destruct (leaf_enode_facts (brk w) Hb) as (H1 & H2 & _).
  change TREE_DEPTH with (S 31).
  rewrite subtree_ranges_unfold, subtree_nodes_unfold, H2.
  change (ma_is_leaf (type_code maple_leaf_64)) with true. cbv iota.
  change (Z.to_nat (mt_slots maple_leaf_64)) with (S (S (S 13))).
  assert (R : node_ranges (S (S (S 13))) (root_leaf_world w index last entry)
                (brk w + 76) maple_leaf_64 0 0 ULONG_MAX
              = Some (root_leaf_ranges index last entry)).
  2:{ rewrite R. split; reflexivity. }
  unfold root_leaf_world, root_leaf_words, root_leaf_ranges.
  assert (S16 : forall i, i < 16 -> (mt_slots maple_leaf_64 <=? i) = false).
  { intros i Hi'. change (mt_slots maple_leaf_64) with 16.
    destruct (Z.leb_spec 16 i); [lia | reflexivity]. }
  assert (P15 : forall i, i < 15 -> (mt_pivots maple_leaf_64 <=? i) = false).
  { intros i Hi'. change (mt_pivots maple_leaf_64) with 15.
    destruct (Z.leb_spec 15 i); [lia | reflexivity]. }
  rewrite node_ranges_unfold, S16, P15 by lia.
  destruct (Z.ltb_spec 1 index) as [H|H].
  - rewrite (leaf_pivot_mk _ _ _ _ _ _ _ 0 (index - 1))
      by (try reflexivity; unfold ULONG_MAX in *; lia).
    rewrite leaf_slot_mk by (try assumption; lia).
    change (_ !! Z.to_nat (16 + 0)) with (Some 0).
    change (nonzero 0) with false. rewrite andb_false_r.
    destruct (Z.leb_spec ULONG_MAX (index - 1));
      [unfold ULONG_MAX in *; lia|].
    rewrite node_ranges_unfold, S16, P15 by lia.
    rewrite (leaf_pivot_mk _ _ _ _ _ _ _ (0 + 1) last)
      by (try reflexivity; unfold ULONG_MAX in *; lia).
    rewrite leaf_slot_mk by (try assumption; lia).
    change (_ !! Z.to_nat (16 + (0 + 1))) with (Some entry).
    destruct (Z.eqb_spec last 0); [lia|]. cbn [andb].
    destruct (Z.leb_spec ULONG_MAX last); [reflexivity|].
    rewrite node_ranges_unfold, S16, P15 by lia.
    rewrite (leaf_pivot_mk _ _ _ _ _ _ _ (0 + 1 + 1) 0)
      by (try reflexivity; unfold ULONG_MAX in *; lia).
    rewrite leaf_slot_mk by (try assumption; lia).
    change (_ !! Z.to_nat (16 + (0 + 1 + 1))) with (Some 0).
    reflexivity.
  - rewrite (leaf_pivot_mk _ _ _ _ _ _ _ 0 last)
      by (try reflexivity; unfold ULONG_MAX in *; lia).
    rewrite leaf_slot_mk by (try assumption; lia).
    change (_ !! Z.to_nat (16 + 0)) with (Some entry).
    change (nonzero 0) with false. rewrite andb_false_r.
    destruct (Z.leb_spec ULONG_MAX last); [reflexivity|].
    rewrite node_ranges_unfold, S16, P15 by lia.
    rewrite (leaf_pivot_mk _ _ _ _ _ _ _ (0 + 1) 0)
      by (try reflexivity; unfold ULONG_MAX in *; lia).
    rewrite leaf_slot_mk by (try assumption; lia).
    change (_ !! Z.to_nat (16 + (0 + 1))) with (Some 0).
    reflexivity.
Qed.

Lemma clear_root_parent (ta : Z) :
  clear_bits (Z.lor ta MA_ROOT_PARENT) 127 = clear_bits ta 127.
Proof.
  unfold clear_bits, MA_ROOT_PARENT. apply Z.bits_inj'. intros n Hn.
  rewrite !Z.land_spec, Z.lor_spec, Z.lnot_spec by lia.
  destruct (Z.eq_dec n 0) as [->|].
  - change (Z.testbit 127 0) with true. rewrite !andb_false_r. reflexivity.
  - replace (Z.testbit 1 n) with false; [rewrite orb_false_r; reflexivity|].
    symmetry. apply Z.bits_above_log2; simpl; lia.
Qed.

Lemma root_leaf_ranges_ascending (index last entry : Z) :
  0 <= index <= last -> 0 < last <= ULONG_MAX ->
  ranges_ascending (root_leaf_ranges index last entry) = true.
Proof.
  intros Hi Hl. unfold root_leaf_ranges.
  destruct (Z.ltb_spec 1 index), (Z.leb_spec ULONG_MAX last);
    cbn [app ranges_ascending re_first re_last];
    repeat match goal with
    | |- context [?a <=? ?b] => destruct (Z.leb_spec a b); try lia
    | |- context [?a <? ?b] => destruct (Z.ltb_spec a b); try lia
    end; reflexivity.
Qed.

Lemma root_leaf_ranges_entry (index last entry i : Z) :
  0 <= index <= last -> 0 < last <= ULONG_MAX -> 0 <= i <= ULONG_MAX ->
  ranges_entry (root_leaf_ranges index last entry) i
  = Some (if ((if index =? 1 then 0 else index) <=? i) && (i <=? last)
          then entry else 0).
Proof.
  intros Hi Hl Hr. unfold root_leaf_ranges.
  destruct (Z.ltb_spec 1 index), (Z.leb_spec ULONG_MAX last),
    (Z.eqb_spec index 1); try lia;
    cbn [app ranges_entry re_first re_last re_entry];
    repeat match goal with
    | |- context [?a <=? ?b] => destruct (Z.leb_spec a b); try lia
    end; reflexivity.
Qed.

(** The loads of the tree that holds the one leaf built by
    mas_root_expand. *)
Lemma root_leaf_world_loads (w : world) (index last entry i : Z) :
  brk w mod 128 = 0 -> 4096 <= brk w ->
  mte_to_node (tree_addr w) <> brk w ->
  0 <= index <= last -> 0 < last <= ULONG_MAX ->
  0 <= i <= ULONG_MAX ->
  mtree_load (root_leaf_world w index last entry) i
  = Some (if ((if index =? 1 then 0 else index) <=? i) && (i <=? last)
          then if xa_is_zero entry then 0 else entry
          else 0).
Proof.
  intros Hb Hb4 Hta Hi Hl Hir.
  assert (Hl' : 0 < last < 2 ^ 64) by (unfold ULONG_MAX in Hl; lia).
  destruct (leaf_enode_facts (brk w) Hb) as (Hto & Hty & Hmk & Hsafe).
  destruct (root_leaf_world_ranges w index last entry Hb Hi Hl')
    as [Hrs Hns].
  set (W := root_leaf_world w index last entry) in *.
  assert (Hroot : ma_root W = brk w + 78).
  { unfold W, root_leaf_world. cbn [ma_root].
    rewrite mt_mk_node_leaf by exact Hb. exact Hmk. }
  assert (Hsr : mte_safe_root (ma_root W) = brk w + 76)
    by (rewrite Hroot; exact Hsafe).
  destruct (mas_load_subtree_ranges W i (root_leaf_ranges index last entry)
              [brk w + 76]) as (e & mas & He & Hload).
  - rewrite Hroot. unfold xa_is_node, xa_is_internal.
    rewrite (aligned_multiple (brk w) Hb), aligned_land by lia.
    rewrite <- (aligned_multiple (brk w) Hb).
    change (Z.land 78 3 =? 2) with true.
    destruct (Z.ltb_spec 4096 (brk w + 78)); [reflexivity | lia].
  - rewrite Hsr. exact Hrs.
  - rewrite Hsr. exact Hns.
  - cbn [forallb]. rewrite andb_true_r. unfold node_ok. rewrite Hty.
    unfold mte_dead_node, mte_parent, rd_parent. rewrite Hto.
    unfold W, root_leaf_world.
    rewrite rd_word_mk by (unfold NODE_WORDS; lia).
    assert (E0 : root_leaf_words (tree_addr w) index last entry
                   !! Z.to_nat 0
                 = Some (Z.lor (tree_addr w) MA_ROOT_PARENT))
      by (unfold root_leaf_words; destruct (1 <? index); reflexivity).
    rewrite E0, clear_root_parent.
    unfold mte_to_node in Hta.
    destruct (Z.eqb_spec (clear_bits (tree_addr w) 127) (brk w));
      [contradiction | reflexivity].
  - apply root_leaf_ranges_ascending; assumption.
  - exact Hir.
  - rewrite (mtree_load_of_mas_load _ _ _ _ Hload).
    rewrite root_leaf_ranges_entry in He by assumption.
    injection He as <-.
    destruct (((if index =? 1 then 0 else index) <=? i) && (i <=? last));
      reflexivity.
Qed.

(** A store, or an insert, of an entry over [index, last] with last > 0
    in an empty tree builds one leaf at the address the cache hands out
    and makes it the root.  Afterwards mtree_load returns the entry (NULL
    for the zero sentinel) for the indices from [index] to [last], and from
    0 when [index] is 1, and NULL for every other index. *)
Theorem mtree_store_range_empty (w : world) (index last entry : Z) :
  ma_root w = 0 -> avail w <> O ->
  brk w mod 128 = 0 -> 4096 <= brk w ->
  mte_to_node (tree_addr w) <> brk w ->
  xa_is_advanced entry = false ->
  0 <= index <= last -> 0 < last <= ULONG_MAX ->
  mtree_store_range index last entry w
  = Some (0, root_leaf_world w index last entry)
  /\ mtree_insert_range index last entry w
     = Some (0, root_leaf_world w index last entry)
  /\ (forall i, 0 <= i <= ULONG_MAX ->
        mtree_load (root_leaf_world w index last entry) i
        = Some (if ((if index =? 1 then 0 else index) <=? i) && (i <=? last)
                then if xa_is_zero entry then 0 else entry
                else 0)).
Proof.
  intros Hr Ha Hb Hb4 Hta Hadv Hi Hl.
  assert (Hz : brk w <> 0) by lia.
  assert (Hl' : 0 < last < 2 ^ 64) by (unfold ULONG_MAX in Hl; lia).
  split; [|split].
  - unfold mtree_store_range. rewrite Hadv.
    destruct (Z.ltb_spec last index); [lia|]. rewrite mbind_eq.
    destruct (mas_store_retry_empty w index last entry true Hr Ha Hb Hz Hi
                Hl') as (mas & -> & ->). reflexivity.
  - unfold mtree_insert_range. rewrite Hadv.
    destruct (Z.ltb_spec last index); [lia|]. rewrite mbind_eq.
    destruct (mas_store_retry_empty w index last entry false Hr Ha Hb Hz Hi
                Hl') as (mas & -> & ->). reflexivity.
  - intros i Hir. apply root_leaf_world_loads; assumption.
Qed.

(** The first scenario of the specification, and the store over [1, 5]:
    index 0 then loads the entry. *)
Lemma mtree_store_range_empty_witness :
  mtree_store_range 10 20 entry_A empty_tree
  = Some (0, root_leaf_world empty_tree 10 20 entry_A)
  /\ mtree_load (root_leaf_world empty_tree 10 20 entry_A) 15 = Some entry_A
  /\ mtree_load (root_leaf_world empty_tree 1 5 entry_B) 0 = Some entry_B.
Proof.
  assert (P1 : ma_root empty_tree = 0) by (vm_compute; reflexivity).
  assert (P2 : avail empty_tree <> O) by (vm_compute; discriminate).
  assert (P3 : brk empty_tree mod 128 = 0) by (vm_compute; reflexivity).
  assert (P4 : 4096 <= brk empty_tree) by (vm_compute; discriminate).
  assert (P5 : mte_to_node (tree_addr empty_tree) <> brk empty_tree)
    by (vm_compute; discriminate).
  assert (A1 : xa_is_advanced entry_A = false) by (vm_compute; reflexivity).
  assert (A2 : xa_is_advanced entry_B = false) by (vm_compute; reflexivity).
  assert (U : 20 <= ULONG_MAX) by (vm_compute; discriminate).
  assert (U' : 5 <= ULONG_MAX) by (vm_compute; discriminate).
  pose proof (mtree_store_range_empty empty_tree 10 20 entry_A P1 P2 P3 P4 P5
                A1 ltac:(lia) ltac:(lia)) as (HA & _ & LA).
  pose proof (mtree_store_range_empty empty_tree 1 5 entry_B P1 P2 P3 P4 P5
                A2 ltac:(lia) ltac:(lia)) as (_ & _ & LB).
  split; [exact HA | split].
  - rewrite (LA 15) by lia. vm_compute. reflexivity.
  - rewrite (LB 0) by lia. vm_compute. reflexivity.
Defined.

(** ** Running out of nodes *)

(** A request for one node with an empty pool and an exhausted cache. *)
Lemma mas_node_cnt_nomem (w : world) (mas : ma_state) :
  mas_alloc_word mas = 0 -> avail w = O ->
  mas_node_cnt mas 1 w
  = Some (mas_set_err (- ENOMEM) (set_alloc 1 mas), w).
Proof.
  intros Ha Hav.
  unfold mas_node_cnt. rewrite mbind_eq, mread_eq.
  unfold mas_get_alloc_cnt at 1, mas_get_alloc. rewrite Ha.
  change (clear_bits 0 127 =? 0) with true. cbv iota.
  change (127 <? 1) with false. change (0 <? 1) with true. cbv iota.
  unfold mas_node_node. rewrite mbind_eq, mread_eq.
  unfold mas_get_alloc_req, mas_set_alloc_req, mas_get_alloc_cnt,
    mas_get_alloc.
  cbn [mas_alloc_word set_alloc]. rewrite Ha.
  change (Z.land (Z.lor (clear_bits 0 127) (u64 (1 - 0))) 127) with 1.
  change (clear_bits (Z.lor (clear_bits 0 127) (u64 (1 - 0))) 127) with 0.
  change (0 =? 0) with true. change (1 =? 0) with false. cbv iota.
  rewrite mbind_eq. unfold mt_alloc_one at 1. rewrite Hav.
  change (0 =? 0) with true. cbv iota. change (0 <? 1) with true. cbv iota.
  reflexivity.
Qed.

(** The retry after a failed allocation fails again when the cache is
    still exhausted, and the caller gives up. *)
Lemma mas_nomem_exhausted (w : world) (mas : ma_state) :
  mas_alloc_word mas = 1 -> mas_node mas = MA_ERROR (- ENOMEM) ->
  avail w = O ->
  mas_nomem mas w = Some ((false, mas), w).
Proof.
  intros Ha Hn Hav. unfold mas_nomem. rewrite Hn.
  change (negb (MA_ERROR (- ENOMEM) =? MA_ERROR (- ENOMEM))) with false.
  cbv iota. rewrite mbind_eq.
  unfold mas_node_node. rewrite mbind_eq, mread_eq.
  unfold mas_get_alloc_req, mas_get_alloc_cnt, mas_get_alloc. rewrite Ha.
  change (clear_bits 1 127 =? 0) with true. cbv iota.
  change (Z.land 1 127 =? 0) with false. cbv iota.
  rewrite mbind_eq. unfold mt_alloc_one at 1. rewrite Hav.
  change (0 =? 0) with true. cbv iota.
  change (0 <? Z.land 1 127) with true. cbv iota.
  unfold mret at 1. unfold mas_set_err. cbn [mas_alloc_word set_node].
  rewrite Ha. change (clear_bits 1 127 =? 0) with true. cbv iota.
  unfold mret. destruct mas. cbn in Hn. subst. reflexivity.
Qed.

Lemma mas_store_retry_nomem (w : world) (index last entry : Z)
    (overwrite : bool) :
  ma_root w = 0 -> avail w = O -> 0 < last ->
  exists mas,
    mas_store_retry RETRY_FUEL (MA_STATE index last) entry overwrite w
    = Some (mas, w)
    /\ mas_node mas = MA_ERROR (- ENOMEM).
Proof.
  intros Hr Hav Hl.
  change RETRY_FUEL with (S 3). cbn [mas_store_retry].
  rewrite mbind_eq. unfold _mas_store. rewrite mbind_eq. unfold mget at 1.
  unfold mas_start.
  change (mas_is_err (MA_STATE index last)) with false.
  change (mas_is_start (MA_STATE index last)) with true. cbv iota.
  rewrite Hr. change (0 =? 0) with true. cbv iota beta.
  set (mas1 := mas_set_offset 0 _).
  change (nonzero 0 || (mas_is_none mas1 || (mas_node mas1 =? MAS_ROOT)))
    with true. cbv iota.
  rewrite mbind_eq. unfold ma_root_ptr. rewrite mbind_eq. unfold mget at 1.
  rewrite Hr. change (xa_is_node 0) with false. cbv iota.
  change (nonzero 0) with false. cbn [andb]. cbv iota.
  change (mas_last mas1) with last.
  destruct (Z.eqb_spec last 0) as [E|_]; [lia|]. cbn [negb]. cbv iota.
  unfold mas_root_expand. rewrite mbind_eq. unfold mget at 1.
  rewrite mbind_eq, (mas_node_cnt_nomem w mas1) by (try reflexivity; exact Hav).
  set (mas2 := mas_set_err (- ENOMEM) (set_alloc 1 mas1)).
  change (mas_is_err mas2) with true. cbv iota.
  unfold mret at 1. cbv iota beta. change (mas_is_err mas2) with true.
  cbv iota. unfold mret at 1. cbn [snd]. rewrite mbind_eq.
  rewrite (mas_nomem_exhausted w mas2) by (try reflexivity; exact Hav).
  cbn [fst snd]. exists mas2. split; reflexivity.
Qed.

(** With no node left in the cache, a store or an insert over [index, last]
    with last > 0 in an empty tree returns -ENOMEM and changes nothing. *)
Theorem mtree_store_range_nomem (w : world) (index last entry : Z) :
  ma_root w = 0 -> avail w = O ->
  xa_is_advanced entry = false ->
  0 <= index <= last -> 0 < last ->
  mtree_store_range index last entry w = Some (- ENOMEM, w)
  /\ mtree_insert_range index last entry w = Some (- ENOMEM, w).
Proof.
  intros Hr Hav Hadv Hi Hl.
  split.
  - unfold mtree_store_range. rewrite Hadv.
    destruct (Z.ltb_spec last index); [lia|]. rewrite mbind_eq.
    destruct (mas_store_retry_nomem w index last entry true Hr Hav Hl)
      as (mas & -> & Hn).
    unfold mas_is_err. rewrite Hn. reflexivity.
  - unfold mtree_insert_range. rewrite Hadv.
    destruct (Z.ltb_spec last index); [lia|]. rewrite mbind_eq.
    destruct (mas_store_retry_nomem w index last entry false Hr Hav Hl)
      as (mas & -> & Hn).
    unfold mas_is_err. rewrite Hn. reflexivity.
Qed.

Lemma mtree_store_range_nomem_witness :
  mtree_store_range 10 20 entry_A (mtree_init 128 4096 0 0)
  = Some (- ENOMEM, mtree_init 128 4096 0 0).
Proof.
  assert (A : xa_is_advanced entry_A = false) by (vm_compute; reflexivity).
  pose proof (mtree_store_range_nomem (mtree_init 128 4096 0 0) 10 20 entry_A
                eq_refl eq_refl A ltac:(lia) ltac:(lia)) as [H _].
  exact H.
Defined.

(** ** An insert at index 0 over a root entry *)

Lemma mas_store_retry_root_exists (w : world) (entry : Z) :
  xa_is_node (ma_root w) = false -> nonzero (ma_root w) = true ->
  exists mas,
    mas_store_retry RETRY_FUEL (MA_STATE 0 0) entry false w = Some (mas, w)
    /\ mas_node mas = MA_ERROR (- EEXIST).
Proof.
  intros Hn Hz.
  change RETRY_FUEL with (S 3). cbn [mas_store_retry].
  rewrite mbind_eq. unfold _mas_store. rewrite mbind_eq. unfold mget at 1.
  destruct (mas_start_without_node w 0 0 Hn ltac:(lia))
    as (e & mas & -> & Hc & Hnode & Hidx & Hlast & Hal).
  rewrite Hc, mbind_eq.
  unfold ma_root_ptr. rewrite mbind_eq. unfold mget at 1.
  rewrite Hn, Hz, Hlast. change (0 =? 0) with true. cbn [negb andb].
  cbv iota. unfold mret at 1.
  change (mas_is_err (mas_set_err (- EEXIST) mas)) with true. cbv iota.
  unfold mret at 1. cbn [snd]. rewrite mbind_eq.
  rewrite mas_nomem_no_pool; [| discriminate | exact Hal].
  cbn [fst snd]. eexists. split; reflexivity.
Qed.

(** An insert at index 0 in a tree that holds an entry in its root pointer
    returns -EEXIST and changes nothing. *)
Theorem mtree_insert_root_entry_exists (w : world) (entry : Z) :
  xa_is_node (ma_root w) = false -> nonzero (ma_root w) = true ->
  xa_is_advanced entry = false ->
  mtree_insert 0 entry w = Some (- EEXIST, w).
Proof.
  intros Hn Hz Hadv. unfold mtree_insert, mtree_insert_range.
  rewrite Hadv. change (0 <? 0) with false. cbv iota. rewrite mbind_eq.
  destruct (mas_store_retry_root_exists w entry Hn Hz) as (mas & -> & Hm).
  unfold mas_is_err. rewrite Hm. reflexivity.
Qed.

Lemma mtree_insert_root_entry_exists_witness :
  mtree_insert 0 entry_B (set_ma_root entry_A empty_tree)
  = Some (- EEXIST, set_ma_root entry_A empty_tree).
Proof.
  assert (A : xa_is_advanced entry_B = false) by (vm_compute; reflexivity).
  exact (mtree_insert_root_entry_exists (set_ma_root entry_A empty_tree)
           entry_B eq_refl eq_refl A).
Defined.

(** ** Destroying a tree *)

Lemma rd_word_live (w : world) (n i : Z) :
  node_live w n -> 0 <= i < Z.of_nat NODE_WORDS ->
  exists x, rd_word w n i = Some x.
Proof.
  intros (l & Hl & Hlen) Hi. rewrite (rd_word_at w n i l Hl Hi).
  apply lookup_lt_is_Some. rewrite Hlen. unfold NODE_WORDS in *. lia.
Qed.

(** A write of a field of a live node changes one word of that node. *)
Lemma wr_field_live (w : world) (n off size v : Z) :
  node_live w n -> 0 <= off / 8 < Z.of_nat NODE_WORDS ->
  exists w' x,
    wr_field n off size v w = Some (tt, w')
    /\ word_written w w' n (off / 8) x
    /\ (forall n', node_live w n' -> node_live w' n').
Proof.
  intros Hlive Hk. unfold wr_field. rewrite mbind_eq, mread_eq.
  destruct (rd_word_live w n (off / 8) Hlive Hk) as (x & ->).
  destruct (wr_word_written w n (off / 8)
              (Z.lor (clear_bits x (Z.shiftl (Z.ones (8 * size))
                                      (8 * (off mod 8))))
                 (Z.shiftl (Z.land v (Z.ones (8 * size)))
                    (8 * (off mod 8)))) Hlive Hk)
    as (w' & E & Hw & Hl).
  eexists w', _. split; [exact E|]. split; [exact Hw | exact Hl].
Qed.

Lemma mte_to_node_idem (e : Z) : clear_bits (mte_to_node e) 127 = mte_to_node e.
Proof.
  unfold mte_to_node, clear_bits.
  rewrite <- Z.land_assoc, Z.land_diag. reflexivity.
Qed.

(** mte_destroy_walk on a live node: the node ends up marked dead, the
    handle is not touched. *)
Lemma mte_destroy_walk_live (w : world) (enode : Z) :
  node_live w (mte_to_node enode) ->
  exists w',
    mte_destroy_walk enode w = Some (tt, w')
    /\ rd_word w' (mte_to_node enode) 0 = Some (mte_to_node enode)
    /\ ma_root w' = ma_root w /\ ma_flags w' = ma_flags w.
Proof.
  intros Hlive. unfold mte_destroy_walk. cbv zeta. rewrite mbind_eq.
  unfold mget at 1. cbv beta iota. rewrite mbind_eq.
  destruct (wr_field_live w (mte_to_node enode) 24 4 (mte_node_type enode)
              Hlive ltac:(split; [vm_compute; discriminate | vm_compute; reflexivity]))
    as (w1 & x1 & -> & H1 & L1).
  rewrite mbind_eq.
  destruct (wr_field_live w1 (mte_to_node enode) 36 4 (ma_flags w)
              (L1 _ Hlive) ltac:(split; [vm_compute; discriminate | vm_compute; reflexivity]))
    as (w2 & x2 & -> & H2 & L2).
  unfold mte_set_node_dead, wr_parent.
  destruct (wr_word_written w2 (mte_to_node enode) 0 (mte_to_node enode)
              (L2 _ (L1 _ Hlive)) ltac:(split; [vm_compute; discriminate | vm_compute; reflexivity]))
    as (w3 & -> & H3 & _).
  exists w3. split; [reflexivity|].
  split; [exact (word_written_same _ _ _ _ _ H3)|].
  destruct H1 as (_ & R1 & F1 & _), H2 as (_ & R2 & F2 & _),
    H3 as (_ & R3 & F3 & _).
  split; congruence.
Qed.

(** mtree_destroy leaves an empty tree with all flags cleared, the
    allocation mode included: every index then loads NULL and
    mtree_alloc_range answers -EINVAL.  The node that was the root, if
    there was one, is marked dead. *)
Theorem mtree_destroy_spec (w : world) :
  (xa_is_node (ma_root w) = true -> node_live w (mte_to_node (ma_root w))) ->
  exists w',
    mtree_destroy w = Some (tt, w')
    /\ ma_root w' = 0 /\ ma_flags w' = 0
    /\ (forall i, 0 <= i -> mtree_load w' i = Some 0)
    /\ (forall entry size min max,
          mtree_alloc_range entry size min max w'
          = Some ((- EINVAL, None), w'))
    /\ (xa_is_node (ma_root w) = true ->
        mte_dead_node w' (ma_root w) = Some true).
Proof.
  intros Hlive. unfold mtree_destroy. rewrite mbind_eq. unfold mget at 1.
  rewrite mbind_eq.
  assert (Hload : forall w0 i, 0 <= i ->
            mtree_load (set_ma_root 0 (set_ma_flags 0 w0)) i = Some 0).
  { intros w0 i Hi. destruct (Z.eqb_spec i 0) as [-> | Hne].
    - apply (mtree_load_root_index_0 (set_ma_root 0 (set_ma_flags 0 w0))).
      reflexivity.
    - apply mtree_load_above_root; [reflexivity | lia]. }
  destruct (xa_is_node (ma_root w)) eqn:Hn.
  - destruct (mte_destroy_walk_live w (ma_root w) (Hlive eq_refl))
      as (w1 & -> & Hd & _).
    eexists. split; [reflexivity|]. split; [reflexivity|].
    split; [reflexivity|]. split; [apply Hload|].
    split; [reflexivity|].
    intros _. unfold mte_dead_node, mte_parent, rd_parent.
    change (rd_word (set_ma_root 0 (set_ma_flags 0 w1))
              (mte_to_node (ma_root w)) 0)
      with (rd_word w1 (mte_to_node (ma_root w)) 0).
    rewrite Hd, mte_to_node_idem, Z.eqb_refl. reflexivity.
  - unfold mret at 1. eexists. split; [reflexivity|].
    split; [reflexivity|]. split; [reflexivity|]. split; [apply Hload|].
    split; [reflexivity|].
    intros H. discriminate H.
Qed.

Lemma mtree_destroy_spec_witness :
  exists w',
    mtree_destroy (world_after (mtree_store_range 10 20 entry_A) empty_tree)
    = Some (tt, w')
    /\ ma_root w' = 0 /\ ma_flags w' = 0
    /\ (forall i, 0 <= i -> mtree_load w' i = Some 0)
    /\ (forall entry size min max,
          mtree_alloc_range entry size min max w'
          = Some ((- EINVAL, None), w'))
    /\ (xa_is_node
          (ma_root (world_after (mtree_store_range 10 20 entry_A) empty_tree))
        = true ->
        mte_dead_node w'
          (ma_root (world_after (mtree_store_range 10 20 entry_A) empty_tree))
        = Some true).
Proof.
  apply (mtree_destroy_spec
           (world_after (mtree_store_range 10 20 entry_A) empty_tree)).
  intros _. eexists. split.
  - vm_compute. reflexivity.
  - vm_compute. reflexivity.
Defined.

(** ** The pool of a cursor *)

(** A cursor with an empty pool that asks for one node gets the node at
    the next address of the cache, zeroed; taking the node out of the pool
    returns that address and leaves the cursor as it was, with an empty
    pool again. *)
Theorem mas_node_cnt_next_alloc (w : world) (mas : ma_state) :
  mas_alloc_word mas = 0 -> avail w <> O ->
  brk w mod 128 = 0 -> brk w <> 0 ->
  exists w',
    mas_node_cnt mas 1 w = Some (set_alloc (brk w) mas, w')
    /\ mas_next_alloc (set_alloc (brk w) mas) w' = Some ((brk w, mas), w')
    /\ heap w' !! brk w = Some (replicate NODE_WORDS 0)
    /\ (forall n, n <> brk w -> heap w' !! n = heap w !! n)
    /\ brk w' = brk w + NODE_SIZE /\ S (avail w') = avail w
    /\ ma_root w' = ma_root w /\ ma_flags w' = ma_flags w.
Proof.
  destruct w as [h b a f r t]. cbn [avail brk heap ma_root ma_flags].
  intros Ha Hav Hb Hz. destruct a as [|n]; [contradiction|].
  eexists. split; [apply mas_node_cnt_one; assumption|].
  split.
  - rewrite (mas_next_alloc_one h b _ n f r t (set_alloc b mas))
      by (try reflexivity; assumption).
    destruct mas. cbn in Ha. subst. reflexivity.
  - cbn [heap brk avail ma_root ma_flags].
    split; [apply lookup_insert_eq|].
    split; [intros m Hm; apply lookup_insert_ne; congruence|].
    repeat split.
Qed.

Lemma mas_node_cnt_next_alloc_witness :
  exists w',
    mas_node_cnt (MA_STATE 10 20) 1 empty_tree
    = Some (set_alloc 4096 (MA_STATE 10 20), w')
    /\ mas_next_alloc (set_alloc 4096 (MA_STATE 10 20)) w'
       = Some ((4096, MA_STATE 10 20), w').
Proof.
  destruct (mas_node_cnt_next_alloc empty_tree (MA_STATE 10 20))
    as (w' & H1 & H2 & _).
  - reflexivity.
  - discriminate.
  - reflexivity.
  - discriminate.
  - exists w'. split; [exact H1 | exact H2].
Defined.

(** ** The gap of a leaf *)

Lemma rd_field_nonneg (w : world) (n off size p : Z) :
  rd_field w n off size = Some p -> 0 <= size -> 0 <= p.
Proof.
  unfold rd_field. destruct (rd_word w n (off / 8)); [|discriminate].
  intros [= <-] Hs. apply Z.land_nonneg. right.
  rewrite Z.ones_equiv. apply Z.lt_le_pred, Z.pow_pos_nonneg; lia.
Qed.

Lemma pivot_64_nonneg (w : world) (e i p : Z) (t : maple_type) :
  type_is_64 t = true -> _mte_get_pivot w e i t = Some p -> 0 <= p.
Proof.
  intros H64. unfold _mte_get_pivot, ma_get_pivot.
  destruct t; try discriminate H64; cbn [pivot_layout];
    (destruct (_ && _); [|discriminate]);
    intros H; apply (rd_field_nonneg _ _ _ _ _ H); lia.
Qed.

(** The loop of mas_leaf_max_gap over the slots from [i] on, against the
    ranges of these slots. *)
Lemma leaf_gap_loop_ranges (w : world) (mas : ma_state) (t : maple_type) :
  node_type (mas_node mas) = Some t -> type_is_64 t = true ->
  mas_max mas <= ULONG_MAX ->
  forall (n : nat) (i lo best : Z) (rs : list range_entry),
    Z.of_nat n + i = mt_slots t -> 0 <= i ->
    node_ranges n w (mas_node mas) t i lo (mas_max mas) = Some rs ->
    mas_leaf_max_gap_loop n w mas i lo best = Some (ranges_max_gap rs best).
Proof.
  intros Ht H64 Hmax. induction n as [|n IH]; intros i lo best rs Hn Hi Hrs.
  - cbn in Hrs. injection Hrs as <-. reflexivity.
  - cbn [node_ranges] in Hrs. cbn [mas_leaf_max_gap_loop].
    destruct (Z.leb_spec (mt_slots t) i) as [Hs|Hs]; [lia|].
    unfold mas_get_safe_pivot, _mas_get_safe_pivot, mas_get_rcu_slot,
      mte_get_rcu_slot. rewrite Ht.
    assert (Hp : forall p,
              (if mt_pivots t <=? i then Some (mas_max mas)
               else _mte_get_pivot w (mas_node mas) i t) = Some p ->
              mas_max mas <= p \/ 0 <= p).
    { intros p. destruct (mt_pivots t <=? i).
      - intros [= <-]. left. lia.
      - intros H. right. exact (pivot_64_nonneg _ _ _ _ _ H64 H). }
    destruct (if mt_pivots t <=? i then Some (mas_max mas)
              else _mte_get_pivot w (mas_node mas) i t) as [p|];
      [|discriminate Hrs].
    specialize (Hp p eq_refl).
    destruct (_mte_get_rcu_slot w (mas_node mas) i t) as [s|];
      [|discriminate Hrs].
    destruct ((p =? 0) && nonzero i).
    + injection Hrs as <-. rewrite Z.leb_refl.
      cbn [ranges_max_gap re_entry re_first re_last].
      destruct (mt_is_empty s); reflexivity.
    + destruct (Z.leb_spec (mas_max mas) p) as [Hle|Hlt].
      * injection Hrs as <-.
        cbn [ranges_max_gap re_entry re_first re_last].
        destruct (mt_is_empty s); reflexivity.
      * destruct (node_ranges n w (mas_node mas) t (i + 1) (p + 1)
                    (mas_max mas)) as [r|] eqn:Hr; [|discriminate Hrs].
        injection Hrs as <-.
        cbn [ranges_max_gap re_entry re_first re_last].
        rewrite (u64_small (p + 1)) by (unfold ULONG_MAX in Hmax; lia).
        rewrite (IH (i + 1) (p + 1) _ r) by (try exact Hr; lia).
        destruct (mt_is_empty s); reflexivity.
Qed.

(** The gap that mas_leaf_max_gap reports for a node of one of the 64-bit
    types is the largest length, as an unsigned long, of a range of the node
    that holds no entry; adjacent ranges without an entry count one by
    one, and an empty range over all 2^64 indices has length 0. *)
Theorem mas_leaf_max_gap_ranges (w : world) (mas : ma_state)
    (t : maple_type) (rs : list range_entry) :
  node_type (mas_node mas) = Some t -> type_is_64 t = true ->
  mas_max mas <= ULONG_MAX ->
  node_ranges (Z.to_nat (mt_slots t)) w (mas_node mas) t 0 (mas_min mas)
    (mas_max mas) = Some rs ->
  mas_leaf_max_gap w mas = Some (ranges_max_gap rs 0).
Proof.
  intros Ht H64 Hmax Hrs. unfold mas_leaf_max_gap. rewrite Ht.
  replace (ma_is_dense (type_code t)) with false
    by (destruct t; try discriminate H64; reflexivity).
  apply (leaf_gap_loop_ranges w mas t Ht H64 Hmax); [| lia | exact Hrs].
  destruct t; try discriminate H64; reflexivity.
Qed.

Lemma mas_leaf_max_gap_ranges_witness :
  mas_leaf_max_gap (root_leaf_world empty_tree 10 20 entry_A)
    (mas_at first_leaf 0 ULONG_MAX)
  = Some (ranges_max_gap (root_leaf_ranges 10 20 entry_A) 0)
  /\ ranges_max_gap (root_leaf_ranges 10 20 entry_A) 0 = ULONG_MAX - 20
  /\ ranges_max_gap [MkRange 0 ULONG_MAX 0] 0 = 0.
Proof.
  split; [|split; vm_compute; reflexivity].
  apply (mas_leaf_max_gap_ranges (root_leaf_world empty_tree 10 20 entry_A)
           (mas_at first_leaf 0 ULONG_MAX) maple_leaf_64).
  - vm_compute. reflexivity.
  - reflexivity.
  - vm_compute. discriminate.
  - vm_compute. reflexivity.
Defined.

(** ** An insert over an index that holds an entry *)

(** The loop of _mas_data_end reads the pivots that node_ranges reads. *)
Lemma data_end_loop_some (w : world) (mas : ma_state) (t : maple_type) :
  forall (n : nat) (i lo piv prev : Z) (rs : list range_entry),
    Z.of_nat n + i = mt_slots t -> 0 <= i ->
    node_ranges n w (mas_node mas) t i lo (mas_max mas) = Some rs ->
    exists r, _mas_data_end_loop n w mas t i piv prev = Some r.
Proof.
  induction n as [|n IH]; intros i lo piv prev rs Hn Hi Hrs.
  - eexists. reflexivity.
  - cbn [node_ranges] in Hrs. cbn [_mas_data_end_loop].
    destruct (Z.leb_spec (mt_slots t) i) as [Hs|Hs]; [lia|].
    unfold _mas_get_safe_pivot.
    destruct (if mt_pivots t <=? i then Some (mas_max mas)
              else _mte_get_pivot w (mas_node mas) i t) as [p|];
      [|discriminate Hrs].
    destruct (_mte_get_rcu_slot w (mas_node mas) i t) as [s|];
      [|discriminate Hrs].
    destruct (mas_max mas <=? p) eqn:Hle; [eexists; reflexivity|].
    destruct ((p =? 0) && nonzero i); [eexists; reflexivity|].
    destruct (node_ranges n w (mas_node mas) t (i + 1) (p + 1) (mas_max mas))
      as [r|] eqn:Hr; [|discriminate Hrs].
    apply (IH (i + 1) (p + 1) p p r); [lia | lia | exact Hr].
Qed.

Lemma mas_data_end_some (w : world) (mas : ma_state) (t : maple_type)
    (lo : Z) (rs : list range_entry) :
  node_type (mas_node mas) = Some t ->
  node_ranges (Z.to_nat (mt_slots t)) w (mas_node mas) t 0 lo (mas_max mas)
    = Some rs ->
  exists e, mas_data_end w mas = Some e.
Proof.
  intros Ht Hrs. unfold mas_data_end, _mas_data_end. rewrite Ht.
  destruct (data_end_loop_some w mas t (Z.to_nat (mt_slots t)) 0 lo
              (mas_min mas) (mas_min mas) rs) as (r & ->);
    [destruct t; reflexivity | lia | exact Hrs |].
  eexists. reflexivity.
Qed.

(** mas_is_span_wr on a cursor that has no span node yet. *)
Lemma mas_is_span_wr_cases (mas : ma_state) (piv entry : Z) :
  mas_span_enode mas = 0 ->
  mas_is_span_wr mas piv entry = (false, mas)
  \/ mas_is_span_wr mas piv entry
     = (true, set_span_enode (mas_node mas) mas).
Proof.
  intros H. unfold mas_is_span_wr. rewrite H. change (nonzero 0) with false.
  cbv iota.
  repeat match goal with
  | |- context [if ?c then _ else _] => destruct c
  end; auto.
Qed.

(** The three ways the write walk counts a node leave the rest of the
    cursor alone. *)
Lemma mas_cnt_update (m : ma_state) (a b : bool) :
  exists c,
    (if a then mas_cnt_empty m
     else if b then mas_cnt_full m else set_full_cnt 0 m)
    = set_full_cnt c m.
Proof.
  unfold mas_cnt_empty, mas_cnt_full.
  destruct a; [destruct (0 <? mas_full_cnt m); eexists; reflexivity|].
  destruct b; [destruct (mas_full_cnt m <? 0); eexists; reflexivity|].
  eexists. reflexivity.
Qed.

Lemma mas_wr_walk_loop_unfold (f : nat) (w : world) (mas : ma_state)
    (range_min range_max entry : Z) :
  mas_wr_walk_loop (S f) w mas range_min range_max entry
  = (type <-? node_type (mas_node mas) ;;
     let mas := set_depth (u8 (mas_depth mas + 1)) mas in
     end_ <-? mas_data_end w mas ;;
     r <-? mas_node_walk w mas type range_min range_max ;;
     if negb (wk_ret r)
     then Some (MkWalk false (wk_mas r) (wk_min r) (wk_max r))
     else
       let '(span, mas) := mas_is_span_wr (wk_mas r) (wk_max r) entry in
       if span
       then Some (MkWalk (ma_is_leaf (type_code type)) mas (wk_min r)
                    (wk_max r))
       else if ma_is_leaf (type_code type)
       then Some (MkWalk true mas (wk_min r) (wk_max r))
       else
         let mas :=
           if end_ <=? mt_min_slots type then mas_cnt_empty mas
           else if mt_slots type - 1 <=? end_ then mas_cnt_full mas
           else set_full_cnt 0 mas in
         next <-? mas_get_rcu_slot w mas (mas_offset mas) ;;
         let mas := set_min (wk_min r) (set_max (wk_max r) mas) in
         if mt_is_empty next
         then Some (MkWalk false mas (wk_min r) (wk_max r))
         else mas_wr_walk_loop f w (mas_set_offset 0 (set_node next mas))
                (wk_min r) (wk_max r) entry).
Proof. reflexivity. Qed.

Lemma node_ok_nonzero (w : world) (e : Z) :
  node_ok w e = true -> nonzero e = true.
Proof.
  intros H. unfold nonzero. destruct (Z.eqb_spec e 0) as [->|]; [|reflexivity].
  unfold node_ok in H. change (node_type 0) with (Some maple_dense) in H.
  destruct (mte_dead_node w 0) as [[|]|]; discriminate H.
Qed.

(** The write walk from a node down, without a store in sight: it ends
    with a span node set, or at the first range that ends at or after the
    index. *)
Lemma wr_walk_subtree (w : world) (idx entry : Z) :
  forall (f fuel : nat) (e lo hi : Z) (l : list range_entry) (ns : list Z)
         (mas : ma_state) (rmin rmax : Z),
    (f <= fuel)%nat ->
    subtree_ranges f w e lo hi = Some l ->
    subtree_nodes f w e lo hi = Some ns ->
    forallb (node_ok w) ns = true ->
    ranges_ascending l = true ->
    mas_node mas = e -> mas_max mas = hi -> mas_index mas = idx ->
    mas_offset mas = 0 -> mas_span_enode mas = 0 ->
    lo <= idx <= hi ->
    exists wr,
      mas_wr_walk_loop fuel w mas rmin rmax entry = Some wr
      /\ mas_get_alloc (wk_mas wr) = mas_get_alloc mas
      /\ mas_last (wk_mas wr) = mas_last mas
      /\ (nonzero (mas_span_enode (wk_mas wr)) = true
          \/ (mas_span_enode (wk_mas wr) = 0
              /\ exists pre r post,
                   l = pre ++ r :: post
                   /\ Forall (fun x => re_last x < idx) pre
                   /\ idx <= re_last r
                   /\ if wk_ret wr
                      then (exists t, node_type (mas_node (wk_mas wr))
                                      = Some t)
                           /\ mas_get_rcu_slot w (wk_mas wr)
                                (mas_offset (wk_mas wr))
                              = Some (re_entry r)
                      else re_entry r = 0)).
Proof.
  induction f as [|f IH];
    intros fuel e lo hi l ns mas rmin rmax Hf Hl Hns Hok Hasc Hnode Hmax
           Hidx Hoff Hspan Hb; [discriminate Hl|].
  destruct fuel as [|fuel]; [lia|].
  rewrite subtree_ranges_unfold in Hl. rewrite subtree_nodes_unfold in Hns.
  destruct (node_type e) as [t|] eqn:Ht; [|discriminate Hl].
  destruct (node_ranges (Z.to_nat (mt_slots t)) w e t 0 lo hi) as [rs|] eqn:Hrs;
    [|discriminate Hl].
  assert (Hoke : node_ok w e = true).
  { destruct (ma_is_leaf (type_code t)).
    - injection Hns as <-. cbn in Hok. apply andb_prop in Hok. tauto.
    - destruct (children_nodes f w rs); [|discriminate Hns].
      injection Hns as <-. cbn in Hok. apply andb_prop in Hok. tauto. }
  destruct (node_ok_type w e Hoke) as (t' & Ht' & H64 & Hdead).
  assert (t' = t) by congruence. subst t'.
  rewrite mas_wr_walk_loop_unfold. rewrite Hnode, Ht. cbv zeta.
  set (mas1 := set_depth (u8 (mas_depth mas + 1)) mas).
  assert (Hn1 : mas_node mas1 = e) by exact Hnode.
  assert (Hm1 : mas_max mas1 = hi) by exact Hmax.
  assert (Hi1 : mas_index mas1 = idx) by exact Hidx.
  assert (Ho1 : mas_offset mas1 = 0) by exact Hoff.
  destruct (mas_data_end_some w mas1 t lo rs) as (end_ & ->);
    [rewrite Hn1; exact Ht | rewrite Hn1, Hm1; exact Hrs |].
  rewrite (mas_node_walk_64 _ _ _ _ _ H64), Ho1.
  rewrite Z.sub_0_r.
  assert (Hps : 0 <= mt_pivots t < mt_slots t /\ mt_slots t <= 16)
    by (destruct t; try discriminate H64; sizes; lia).
  destruct (node_walk_ranges (Z.to_nat (mt_slots t)) w mas1 t H64 0 lo
              (mas_min mas1) 0 rs)
    as (pre & r & post & j & min & E & Hpre & Hr & Hfr & Hw & Hj & Hs);
    rewrite ?Hn1, ?Hm1, ?Hi1; try assumption; try lia.
  rewrite Hi1 in Hpre, Hr, Hfr. rewrite Hn1 in Hs.
  rewrite Hw. cbv beta iota. cbn [negb wk_ret wk_mas wk_min wk_max].
  set (masj := mas_set_offset j mas1).
  assert (Hoj : mas_offset masj = j) by (apply mas_offset_set; lia).
  assert (Haj : mas_get_alloc masj = mas_get_alloc mas)
    by (unfold masj; rewrite mas_get_alloc_set_offset by lia; reflexivity).
  assert (Hslot : mas_get_rcu_slot w masj j = Some (re_entry r)).
  { unfold mas_get_rcu_slot, mte_get_rcu_slot.
    change (mas_node masj) with (mas_node mas1).
    rewrite Hn1, Ht. exact Hs. }
  destruct (mas_is_span_wr_cases masj (re_last r) entry Hspan)
    as [-> | ->].
  2:{ (* a spanning write: the walk stops with the span node set *)
      eexists. split; [reflexivity|]. cbn [wk_mas].
      split; [exact Haj|]. split; [reflexivity|]. left.
      change (mas_span_enode (set_span_enode (mas_node masj) masj))
        with (mas_node mas1).
      rewrite Hn1. exact (node_ok_nonzero w e Hoke). }
  destruct (ma_is_leaf (type_code t)) eqn:Hleaf.
  - (* a leaf: the walk ends here *)
    injection Hl as <-. eexists. split; [reflexivity|]. cbn [wk_mas wk_ret].
    split; [exact Haj|]. split; [reflexivity|]. right.
    split; [exact Hspan|]. exists pre, r, post.
    split; [exact E|]. split; [exact Hpre|]. split; [exact Hr|].
    split.
    + exists t. change (mas_node masj) with (mas_node mas1).
      rewrite Hn1. exact Ht.
    + rewrite Hoj. exact Hslot.
  - (* an internal node *)
    destruct (mas_cnt_update masj (end_ <=? mt_min_slots t)
                (mt_slots t - 1 <=? end_)) as (c & ->).
    change (mas_offset (set_full_cnt c masj)) with (mas_offset masj).
    change (mas_get_rcu_slot w (set_full_cnt c masj) (mas_offset masj))
      with (mas_get_rcu_slot w masj (mas_offset masj)).
    rewrite Hoj, Hslot. unfold mt_is_empty.
    destruct (children_nodes f w rs) as [cn|] eqn:Hcn; [|discriminate Hns].
    injection Hns as <-. cbn [forallb] in Hok.
    apply andb_prop in Hok as [_ Hokc].
    rewrite E in Hl, Hcn.
    rewrite children_ranges_app, children_ranges_cons in Hl.
    rewrite children_nodes_app, children_nodes_cons in Hcn.
    destruct (children_ranges f w pre) as [lpre|] eqn:Hlpre;
      [|discriminate Hl].
    destruct (children_nodes f w pre) as [npre|]; [|discriminate Hcn].
    destruct (Z.eqb_spec (re_entry r) 0) as [Hz|Hnz].
    + (* an empty slot in an internal node *)
      destruct (children_ranges f w post) as [lpost|]; [|discriminate Hl].
      injection Hl as <-.
      eexists. split; [reflexivity|]. cbn [wk_mas wk_ret].
      split; [exact Haj|]. split; [reflexivity|]. right.
      split; [exact Hspan|].
      exists lpre, r, lpost.
      split; [reflexivity|].
      split.
      { apply ranges_ascending_before in Hasc.
        eapply Forall_impl; [exact Hasc|]. cbn. intros x Hx. lia. }
      split; [exact Hr | exact Hz].
    + destruct (subtree_ranges f w (re_entry r) (re_first r) (re_last r))
        as [sub|] eqn:Hsub; [|discriminate Hl].
      destruct (subtree_nodes f w (re_entry r) (re_first r) (re_last r))
        as [nsub|] eqn:Hnsub; [|discriminate Hcn].
      destruct (children_ranges f w post) as [lpost|]; [|discriminate Hl].
      destruct (children_nodes f w post) as [npost|]; [|discriminate Hcn].
      injection Hl as <-. injection Hcn as <-.
      rewrite !forallb_app in Hokc.
      apply andb_prop in Hokc as [_ Hokc].
      apply andb_prop in Hokc as [Hoks _].
      assert (Hasc' := Hasc).
      apply ranges_ascending_app in Hasc' as [_ Hasc'].
      apply ranges_ascending_app in Hasc' as [Hascs _].
      set (mas2 := mas_set_offset 0
                     (set_node (re_entry r)
                        (set_min min
                           (set_max (re_last r) (set_full_cnt c masj))))).
      destruct (IH fuel (re_entry r) (re_first r) (re_last r) sub nsub mas2
                  min (re_last r))
        as (wr & Hw' & Hal' & Hlast' & Hres);
        try assumption; try lia; try reflexivity.
      { apply mas_offset_set. lia. }
      exists wr. split; [exact Hw'|].
      split.
      { rewrite Hal'. unfold mas2.
        rewrite mas_get_alloc_set_offset by lia. exact Haj. }
      split; [rewrite Hlast'; reflexivity|].
      destruct Hres as [Hsp | (Hsp & pre' & r' & post' & E' & Hpre' & Hr' & Hres)];
        [left; exact Hsp|].
      right. split; [exact Hsp|].
      destruct (subtree_ranges_head w f _ _ _ _ Hsub) as (h & tl & Eh & Hh).
      exists (lpre ++ pre'), r', (post' ++ lpost).
      split; [rewrite E', <- !app_assoc; reflexivity|].
      split.
      { apply Forall_app. split; [|exact Hpre'].
        rewrite Eh in Hasc. cbn [app] in Hasc.
        apply ranges_ascending_before in Hasc.
        eapply Forall_impl; [exact Hasc|]. cbn. intros x Hx. lia. }
      split; [exact Hr' | exact Hres].
Qed.

(** In a tree of live 64-bit nodes whose ranges are in ascending order, an
    insert over [first, last] whose first index holds an entry, or a
    reservation, returns -EEXIST and changes nothing. *)
Theorem mtree_insert_range_exists (w : world) (first last entry e : Z)
    (l : list range_entry) (ns : list Z) :
  xa_is_node (ma_root w) = true ->
  subtree_ranges TREE_DEPTH w (mte_safe_root (ma_root w)) 0 ULONG_MAX
    = Some l ->
  subtree_nodes TREE_DEPTH w (mte_safe_root (ma_root w)) 0 ULONG_MAX
    = Some ns ->
  forallb (node_ok w) ns = true ->
  ranges_ascending l = true ->
  xa_is_advanced entry = false ->
  0 <= first <= last -> last <= ULONG_MAX ->
  ranges_entry l first = Some e -> nonzero e = true ->
  mtree_insert_range first last entry w = Some (- EEXIST, w).
Proof.
  intros Hnode Hl Hns Hok Hasc Hadv Hfl Hlast He Hnz.
  set (root := mte_safe_root (ma_root w)) in *.
  destruct (subtree_nodes_head w _ _ _ _ _ Hns) as (tl & Ens).
  assert (Hokr : node_ok w root = true).
  { rewrite Ens in Hok. cbn in Hok. apply andb_prop in Hok. tauto. }
  destruct (node_ok_not_special w root Hokr) as [Hnone Hptr].
  unfold mas_is_none, mas_is_ptr in Hnone, Hptr.
  cbn [mas_node set_node] in Hnone, Hptr.
  assert (Hz : (ma_root w =? 0) = false).
  { destruct (Z.eqb_spec (ma_root w) 0) as [Ez|]; [|reflexivity].
    rewrite Ez in Hnode. discriminate Hnode. }
  set (mas0 := set_node root
                 (mas_set_offset 0
                    (set_max ULONG_MAX
                       (set_min 0 (set_node MAS_NONE (MA_STATE first last)))))).
  set (mas1 := set_depth 0 (set_full_cnt 0 (set_span_enode 0 mas0))).
  destruct (wr_walk_subtree w first entry TREE_DEPTH TREE_DEPTH root 0
              ULONG_MAX l ns mas1 0 0)
    as (wr & Hw & Hal & Hla & Hres);
    try assumption; try reflexivity; try lia.
  assert (Hstore : exists c,
            _mas_store (MA_STATE first last) entry false w
            = Some ((c, mas_set_err (- EEXIST) (wk_mas wr)), w)).
  { unfold _mas_store. rewrite mbind_eq. unfold mget at 1. unfold mas_start.
    change (mas_is_err (MA_STATE first last)) with false.
    change (mas_is_start (MA_STATE first last)) with true. cbv iota.
    rewrite Hz, Hnode. cbn [negb]. cbv iota beta. fold root. fold mas0.
    change (nonzero 0) with false. unfold mas_is_none.
    change (mas_node mas0) with root. rewrite Hnone, Hptr. cbn [orb].
    cbv iota.
    unfold _mas_store_walk. rewrite mbind_eq, mread_eq.
    unfold mas_wr_walk. fold mas1. rewrite Hw. cbv zeta beta iota.
    destruct Hres as [Hsp | (Hsp & pre & r & post & E & Hpre & Hr & Hres)].
    - (* a spanning write *)
      rewrite Hsp. unfold nonzero in Hsp.
      destruct (mas_span_enode (wk_mas wr) =? 0); [discriminate Hsp|].
      rewrite andb_false_r. cbn [negb]. cbv iota.
      eexists. reflexivity.
    - rewrite E, (ranges_entry_split pre post r first Hpre Hr) in He.
      injection He as He.
      destruct (wk_ret wr).
      + destruct Hres as ((t & Ht) & Hslot).
        rewrite Hsp. cbn [negb andb]. change (nonzero 0) with false.
        cbv iota. rewrite Ht. rewrite mbind_eq, mread_eq, Hslot.
        rewrite He, Hnz, orb_true_r. cbn [negb andb]. cbv iota.
        eexists. reflexivity.
      + rewrite Hres in He. subst e. discriminate Hnz. }
  destruct Hstore as (c & Hstore).
  unfold mtree_insert_range. rewrite Hadv.
  destruct (Z.ltb_spec last first); [lia|]. rewrite mbind_eq.
  change RETRY_FUEL with (S 3). cbn [mas_store_retry].
  rewrite mbind_eq, Hstore. cbn [snd]. rewrite mbind_eq.
  rewrite mas_nomem_no_pool; [| discriminate |].
  - cbn [fst snd]. unfold mret. reflexivity.
  - change (mas_get_alloc (mas_set_err (- EEXIST) (wk_mas wr)))
      with (mas_get_alloc (wk_mas wr)).
    rewrite Hal. reflexivity.
Qed.

(** The tree of gap_scenario holds entry_B over [10, 11]. *)
Lemma mtree_insert_range_exists_witness :
  mtree_insert_range 11 30 entry_A
    (world_after (store_all gap_scenario) empty_alloc_tree)
  = Some (- EEXIST, world_after (store_all gap_scenario) empty_alloc_tree).
Proof.
  set (w := world_after (store_all gap_scenario) empty_alloc_tree).
  assert (Hn : xa_is_node (ma_root w) = true) by (vm_compute; reflexivity).
  eassert (Hl : subtree_ranges TREE_DEPTH w (mte_safe_root (ma_root w)) 0
                  ULONG_MAX = Some _) by (vm_compute; reflexivity).
  eassert (Hs : subtree_nodes TREE_DEPTH w (mte_safe_root (ma_root w)) 0
                  ULONG_MAX = Some _) by (vm_compute; reflexivity).
  assert (A : xa_is_advanced entry_A = false) by (vm_compute; reflexivity).
  apply (mtree_insert_range_exists w 11 30 entry_A entry_B _ _ Hn Hl Hs).
  - vm_compute. reflexivity.
  - vm_compute. reflexivity.
  - exact A.
  - lia.
  - vm_compute. discriminate.
  - vm_compute. reflexivity.
  - reflexivity.
Defined.

(** ** Copying a cursor *)

Lemma land_127_range (x : Z) : 0 <= Z.land x 127 <= 127.
Proof.
  assert (E : Z.land x 127 = x mod 128)
    by (change 127 with (Z.ones 7); apply Z.land_ones; lia).
  rewrite E. pose proof (Z.mod_pos_bound x 128 ltac:(lia)). lia.
Qed.

(** mas_dup_state copies the position of a cursor (index, last, node,
    bounds and slot offset) and leaves the destination its own node pool,
    span node, full count and depth. *)
Theorem mas_dup_state_spec (dst src : ma_state) :
  mas_index (mas_dup_state dst src) = mas_index src
  /\ mas_last (mas_dup_state dst src) = mas_last src
  /\ mas_node (mas_dup_state dst src) = mas_node src
  /\ mas_min (mas_dup_state dst src) = mas_min src
  /\ mas_max (mas_dup_state dst src) = mas_max src
  /\ mas_offset (mas_dup_state dst src) = mas_offset src
  /\ mas_get_alloc (mas_dup_state dst src) = mas_get_alloc dst
  /\ mas_span_enode (mas_dup_state dst src) = mas_span_enode dst
  /\ mas_full_cnt (mas_dup_state dst src) = mas_full_cnt dst
  /\ mas_depth (mas_dup_state dst src) = mas_depth dst.
Proof.
  unfold mas_dup_state.
  pose proof (land_127_range (mas_alloc_word src)) as Hr.
  fold (mas_get_alloc_req src) in Hr. fold (mas_offset src) in Hr.
  repeat split; try reflexivity.
  - apply mas_offset_set. exact Hr.
  - rewrite mas_get_alloc_set_offset by exact Hr. reflexivity.
Qed.

(** ** Allocation in an empty tree *)

Lemma u64_range (x : Z) : 0 <= u64 x < 2 ^ 64.
Proof. unfold u64. apply Z.mod_pos_bound. lia. Qed.

(** The pivot that mas_alloc returns after mas_root_expand. *)
Lemma root_leaf_world_pivot (w : world) (index last entry : Z) :
  brk w mod 128 = 0 -> 0 <= index -> 0 <= last < 2 ^ 64 ->
  mte_get_pivot (root_leaf_world w index last entry) (brk w + 76)
    (if index =? 0 then 0 else 1)
  = Some (if index =? 1 then 0 else last).
Proof.
  intros Hb Hi Hl. destruct (leaf_enode_facts (brk w) Hb) as (_ & Hty & _).
  unfold mte_get_pivot. rewrite Hty. unfold root_leaf_world, root_leaf_words.
  destruct (Z.eqb_spec index 0) as [->|H0].
  - change (1 <? 0) with false. change (0 =? 1) with false. cbv iota.
    apply leaf_pivot_mk; [exact Hb | lia | reflexivity | exact Hl].
  - destruct (Z.eqb_spec index 1) as [->|H1].
    + change (1 <? 1) with false. cbv iota.
      apply leaf_pivot_mk; [exact Hb | lia | reflexivity | lia].
    + destruct (Z.ltb_spec 1 index); [|lia].
      apply leaf_pivot_mk; [exact Hb | lia | reflexivity | exact Hl].
Qed.

(** mtree_alloc_range in an empty allocation tree, for arguments that pass
    its checks: the entry is stored over [min, max - size], the window of
    the possible starts and not a range of [size] indices; the value
    returned is max - size as an int (0 when min is 1), not 0; *startp is
    never written. *)
Theorem mtree_alloc_range_empty (w : world) (entry size min max : Z) :
  ma_root w = 0 -> avail w <> O ->
  brk w mod 128 = 0 -> 4096 <= brk w ->
  mte_to_node (tree_addr w) <> brk w ->
  mt_is_alloc (ma_flags w) = true ->
  mt_is_reserved entry = false ->
  0 <= min -> 0 < size -> min <= max - size -> 0 < max - size ->
  max <= ULONG_MAX ->
  mtree_alloc_range entry size min max w
  = Some ((to_int (if min =? 1 then 0 else max - size), None),
          root_leaf_world w min (max - size) entry)
  /\ (forall i, 0 <= i <= ULONG_MAX ->
        mtree_load (root_leaf_world w min (max - size) entry) i
        = Some (if ((if min =? 1 then 0 else min) <=? i) && (i <=? max - size)
                then if xa_is_zero entry then 0 else entry
                else 0)).
Proof.
  intros Hr Ha Hb Hb4 Hta Hal Hres Hmin Hsize Hfit Hpos Hmax.
  assert (Hz : brk w <> 0) by lia.
  assert (Hu : u64 (max - size) = max - size)
    by (apply u64_small; unfold ULONG_MAX in Hmax; lia).
  split.
  2:{ intros i Hi. apply root_leaf_world_loads; try assumption; lia. }
  destruct (leaf_enode_not_error (brk w) Hb) as [Hint Hne].
  unfold mtree_alloc_range. rewrite mbind_eq. unfold mget at 1.
  rewrite Hal, Hres. cbn [negb]. cbv iota.
  destruct (Z.ltb_spec max min); [lia|].
  destruct (Z.ltb_spec max size); [lia|].
  destruct (Z.eqb_spec size 0); [lia|].
  rewrite Hu.
  change RETRY_FUEL with (S 3). cbn [mtree_alloc_range_retry].
  rewrite Hu. rewrite mbind_eq.
  unfold mas_alloc. rewrite mbind_eq. unfold mget at 1. unfold mas_start.
  set (mas0 := set_last (max - size) _).
  change (mas_is_err mas0) with false.
  change (mas_is_start mas0) with true. cbv iota.
  rewrite Hr. change (0 =? 0) with true. cbv iota beta.
  set (mas1 := mas_set_offset 0 _).
  change (mas_is_none mas1 || mas_is_ptr mas1) with true. cbv iota.
  rewrite mbind_eq.
  rewrite (mas_root_expand_empty w mas1 entry);
    try assumption; try reflexivity;
    try (change (mas_index mas1) with min; unfold ULONG_MAX in Hmax; lia);
    try (change (mas_last mas1) with (max - size);
         unfold ULONG_MAX in Hmax; lia).
  change (mas_index mas1) with min. change (mas_last mas1) with (max - size).
  cbn [snd].
  set (mas2 := set_depth 1 (set_node (brk w + 76) mas1)).
  assert (Herr : mas_is_err mas2 = false).
  { unfold mas_is_err, xa_is_err. change (mas_node mas2) with (brk w + 76).
    rewrite Hint. reflexivity. }
  rewrite Herr. rewrite mbind_eq, mread_eq.
  change (mas_node mas2) with (brk w + 76).
  change (mas_index mas2) with min.
  rewrite root_leaf_world_pivot
    by (try assumption; unfold ULONG_MAX in Hmax; lia).
  unfold mret at 1. cbn [al_index al_mas al_ret]. rewrite mbind_eq.
  rewrite mas_nomem_no_pool; [| exact Hne | reflexivity].
  cbn [fst snd]. reflexivity.
Qed.

Lemma mtree_alloc_range_empty_witness :
  mtree_alloc_range entry_A 4 10 50 empty_alloc_tree
  = Some ((46, None), root_leaf_world empty_alloc_tree 10 46 entry_A)
  /\ mtree_load (root_leaf_world empty_alloc_tree 10 46 entry_A) 40
     = Some entry_A.
Proof.
  assert (P1 : ma_root empty_alloc_tree = 0) by (vm_compute; reflexivity).
  assert (P2 : avail empty_alloc_tree <> O) by (vm_compute; discriminate).
  assert (P3 : brk empty_alloc_tree mod 128 = 0) by (vm_compute; reflexivity).
  assert (P4 : 4096 <= brk empty_alloc_tree) by (vm_compute; discriminate).
  assert (P5 : mte_to_node (tree_addr empty_alloc_tree)
               <> brk empty_alloc_tree) by (vm_compute; discriminate).
  assert (P6 : mt_is_alloc (ma_flags empty_alloc_tree) = true)
    by (vm_compute; reflexivity).
  assert (P7 : mt_is_reserved entry_A = false) by (vm_compute; reflexivity).
  assert (U : 50 <= ULONG_MAX) by (vm_compute; discriminate).
  pose proof (mtree_alloc_range_empty empty_alloc_tree entry_A 4 10 50
                P1 P2 P3 P4 P5 P6 P7 ltac:(lia) ltac:(lia) ltac:(lia)
                ltac:(lia) U) as (H & L).
  split; [exact H|].
  change 46 with (50 - 4). rewrite (L 40) by lia. vm_compute. reflexivity.
Defined.

(** mtree_alloc_rrange in an empty allocation tree, for arguments that
    pass its checks: the cursor is left at MAS_NONE with offset 0, and
    mas_fill_gap reads the parent word of the node that MAS_NONE decodes
    to, the node at address 0.  No node lives there: the call has no
    defined result. *)
Theorem mtree_alloc_rrange_empty (w : world) (entry size min max : Z) :
  ma_root w = 0 ->
  heap w !! 0 = None ->
  mt_is_alloc (ma_flags w) = true ->
  mt_is_reserved entry = false ->
  min < max -> u64 (size - 1) <= max -> 0 < size ->
  mtree_alloc_rrange entry size min max w = None.
Proof.
  intros Hr Hh Hal Hres Hmm Hsz Hs. unfold mtree_alloc_rrange.
  rewrite mbind_eq. unfold mget at 1. rewrite Hal, Hres. cbn [negb].
  cbv iota.
  destruct (Z.leb_spec max min); [lia|].
  destruct (Z.ltb_spec max (u64 (size - 1))); [lia|].
  destruct (Z.eqb_spec size 0); [lia|].
  change RETRY_FUEL with (S 3). cbn [mtree_alloc_rrange_retry].
  rewrite mbind_eq. unfold mas_rev_alloc. rewrite mbind_eq, mread_eq.
  unfold _mas_get_empty_area, mas_start.
  change (mas_is_err (MA_STATE min (u64 (max - size)))) with false.
  change (mas_is_start (MA_STATE min (u64 (max - size)))) with true.
  cbv iota. rewrite Hr. change (0 =? 0) with true. cbv iota beta.
  set (mas1 := mas_set_offset 0 _).
  change (mas_is_none mas1 || mas_is_ptr mas1) with true. cbv iota.
  change (nonzero 0) with false. cbv iota.
  unfold _mas_empty_or_single_empty_area.
  change (negb (mas_is_none mas1)) with false. cbv iota zeta.
  set (mas2 := set_index _ mas1).
  change (mas_is_err mas2) with false. cbv iota.
  change (mas_offset mas2 =? MAPLE_NODE_SLOTS) with false. cbv iota.
  rewrite mbind_eq. unfold mas_fill_gap. rewrite mbind_eq, mread_eq.
  unfold mte_parent_slot, rd_parent.
  change (mte_to_node (mas_node mas2)) with 0.
  unfold rd_word. rewrite Hh. reflexivity.
Qed.

Lemma mtree_alloc_rrange_empty_witness :
  mtree_alloc_rrange entry_A 4 10 50 empty_alloc_tree = None.
Proof.
  assert (P6 : mt_is_alloc (ma_flags empty_alloc_tree) = true)
    by (vm_compute; reflexivity).
  assert (P7 : mt_is_reserved entry_A = false) by (vm_compute; reflexivity).
  assert (U : u64 (4 - 1) <= 50) by (vm_compute; discriminate).
  exact (mtree_alloc_rrange_empty empty_alloc_tree entry_A 4 10 50
           eq_refl eq_refl P6 P7 ltac:(lia) U ltac:(lia)).
Defined.

(** ** Erasing in a tree of one leaf *)

Lemma u8_small (x : Z) : 0 <= x < 2 ^ 8 -> u8 x = x.
Proof. intros H. unfold u8. apply Z.mod_small. exact H. Qed.

(** Comparisons that linear arithmetic decides. *)
Ltac zbool :=
  repeat match goal with
  | |- context [?a <? ?b] =>
    first [ replace (a <? b) with true by (symmetry; apply Z.ltb_lt; lia)
          | replace (a <? b) with false by (symmetry; apply Z.ltb_ge; lia) ]
  | |- context [?a <=? ?b] =>
    first [ replace (a <=? b) with true by (symmetry; apply Z.leb_le; lia)
          | replace (a <=? b) with false by (symmetry; apply Z.leb_gt; lia) ]
  | |- context [?a =? ?b] =>
    first [ replace (a =? b) with true by (symmetry; apply Z.eqb_eq; lia)
          | replace (a =? b) with false by (symmetry; apply Z.eqb_neq; lia) ]
  end.

(** Boolean conditions on integers, decided where they can be. *)
Ltac bsimpl :=
  unfold nonzero; zbool;
  rewrite ?andb_false_r, ?andb_true_r, ?orb_false_r, ?orb_true_r;
  cbn [andb orb negb]; cbv iota.

(** The members of a cursor written out. *)
Ltac cursor :=
  cbv beta iota delta [mas_index mas_last mas_node mas_min mas_max mas_alloc_word
       mas_span_enode mas_full_cnt mas_depth
       set_index set_last set_node set_min set_max set_alloc set_span_enode
       set_full_cnt set_depth wk_ret wk_mas wk_min wk_max fst snd].

Lemma mas_set_offset_mk (i l n mn mx a sp fc d j : Z) :
  0 <= a <= 127 -> 0 <= j <= 127 ->
  mas_set_offset j (MkMas i l n mn mx a sp fc d) = MkMas i l n mn mx j sp fc d.
Proof.
  intros Ha Hj. unfold mas_set_offset, mas_set_alloc_req, set_alloc.
  cbn [mas_index mas_last mas_node mas_min mas_max mas_alloc_word
       mas_span_enode mas_full_cnt mas_depth].
  f_equal. rewrite (u64_small j) by lia. rewrite clear_bits_low7.
  rewrite (Z.div_small a 128) by lia. reflexivity.
Qed.

Lemma mas_offset_mk (i l n mn mx a sp fc d : Z) :
  0 <= a <= 127 -> mas_offset (MkMas i l n mn mx a sp fc d) = a.
Proof.
  intros Ha. unfold mas_offset, mas_get_alloc_req. cbn [mas_alloc_word].
  change 127 with (Z.ones 7). rewrite Z.land_ones by lia.
  apply Z.mod_small. lia.
Qed.

(** Reads of a leaf_64 node at [b] whose words are [l]. *)
Lemma leaf_pivot (w : world) (b k v : Z) (l : list Z) :
  b mod 128 = 0 -> heap w !! b = Some l ->
  0 <= k < 15 -> l !! Z.to_nat (1 + k) = Some v -> 0 <= v < 2 ^ 64 ->
  _mte_get_pivot w (b + 76) k maple_leaf_64 = Some v.
Proof.
  intros Hb Hh Hk Hl Hv. destruct (leaf_enode_facts b Hb) as (H1 & H2 & _).
  pose proof (mte_get_pivot_word w (b + 76) k maple_leaf_64 H2 eq_refl) as E.
  unfold mte_get_pivot in E. rewrite H2 in E. rewrite E.
  change (mt_pivots maple_leaf_64) with 15.
  destruct (andb_range 0 15 k) as [_ ->]; [|lia].
  rewrite H1, (rd_word_at w b (1 + k) l Hh) by (unfold NODE_WORDS; lia).
  rewrite Hl. rewrite Z.land_ones by lia. f_equal. apply Z.mod_small.
  exact Hv.
Qed.

Lemma leaf_slot (w : world) (b k : Z) (l : list Z) :
  b mod 128 = 0 -> heap w !! b = Some l -> 0 <= k < 16 ->
  _mte_get_rcu_slot w (b + 76) k maple_leaf_64 = l !! Z.to_nat (16 + k).
Proof.
  intros Hb Hh Hk. destruct (leaf_enode_facts b Hb) as (H1 & H2 & _).
  unfold _mte_get_rcu_slot, ma_get_rcu_slot, slot_layout. rewrite H1.
  change MAPLE_RANGE64_SLOTS with 16.
  destruct (andb_range 0 16 k) as [_ ->]; [|lia].
  apply (rd_word_at w b (16 + k) l Hh). unfold NODE_WORDS. lia.
Qed.

Lemma leaf_safe_pivot (w : world) (b k v : Z) (l : list Z) (mas : ma_state) :
  b mod 128 = 0 -> heap w !! b = Some l -> mas_node mas = b + 76 ->
  0 <= k < 15 -> l !! Z.to_nat (1 + k) = Some v -> 0 <= v < 2 ^ 64 ->
  mas_get_safe_pivot w mas k = Some v
  /\ _mas_get_safe_pivot w mas k maple_leaf_64 = Some v.
Proof.
  intros Hb Hh Hn Hk Hl Hv. destruct (leaf_enode_facts b Hb) as (H1 & H2 & _).
  unfold mas_get_safe_pivot, _mas_get_safe_pivot. rewrite Hn, H2.
  change (mt_pivots maple_leaf_64) with 15.
  destruct (Z.leb_spec 15 k); [lia|].
  rewrite (leaf_pivot w b k v l) by assumption. split; reflexivity.
Qed.

Lemma leaf_rcu_slot (w : world) (b k : Z) (l : list Z) (mas : ma_state) :
  b mod 128 = 0 -> heap w !! b = Some l -> mas_node mas = b + 76 ->
  0 <= k < 16 ->
  mas_get_rcu_slot w mas k = l !! Z.to_nat (16 + k).
Proof.
  intros Hb Hh Hn Hk. destruct (leaf_enode_facts b Hb) as (H1 & H2 & _).
  unfold mas_get_rcu_slot, mte_get_rcu_slot. rewrite Hn, H2.
  apply leaf_slot; assumption.
Qed.

Lemma _mas_data_end_loop_unfold (n : nat) (w : world) (mas : ma_state)
    (type : maple_type) (slot piv prev_piv : Z) :
  _mas_data_end_loop (S n) w mas type slot piv prev_piv
  = (piv <-? _mas_get_safe_pivot w mas slot type ;;
     if mas_max mas <=? piv then Some (slot, piv)
     else if (piv =? 0) && nonzero slot then Some (slot - 1, prev_piv)
     else _mas_data_end_loop n w mas type (slot + 1) piv piv).
Proof. reflexivity. Qed.

Lemma mas_node_walk_loop_unfold (n : nat) (w : world) (mas : ma_state)
    (type : maple_type) (i min pivot : Z) :
  mas_node_walk_loop (S n) w mas type i min pivot
  = (pivot <-? _mas_get_safe_pivot w mas i type ;;
     if (pivot =? 0) && nonzero i then
       if mas_max mas <? mas_index mas
       then Some (MAPLE_NODE_SLOTS, min, mas_max mas, false)
       else Some (i, min, mas_max mas, true)
     else if mas_index mas <=? pivot then Some (i, min, pivot, true)
     else mas_node_walk_loop n w mas type (i + 1) (u64 (pivot + 1)) pivot).
Proof. reflexivity. Qed.

(** The end of the data of a leaf with two ranges in use before the
    zero pivots: slot 1. *)
Lemma mas_data_end_two (w : world) (b p0 p1 : Z) (l : list Z)
    (mas : ma_state) :
  b mod 128 = 0 -> heap w !! b = Some l -> mas_node mas = b + 76 ->
  l !! 1%nat = Some p0 -> l !! 2%nat = Some p1 -> l !! 3%nat = Some 0 ->
  0 <= p0 < mas_max mas -> 0 < p1 < mas_max mas -> mas_max mas < 2 ^ 64 ->
  mas_data_end w mas = Some 1.
Proof.
  intros Hb Hh Hn L1 L2 L3 H0 H1 Hm.
  destruct (leaf_enode_facts b Hb) as (_ & Hty & _).
  unfold mas_data_end, _mas_data_end. rewrite Hn, Hty.
  change (Z.to_nat (mt_slots maple_leaf_64)) with (S (S (S 13))).
  rewrite _mas_data_end_loop_unfold.
  rewrite (proj2 (leaf_safe_pivot w b 0 p0 l mas Hb Hh Hn ltac:(lia) L1
                    ltac:(lia))).
  bsimpl.
  rewrite _mas_data_end_loop_unfold.
  rewrite (proj2 (leaf_safe_pivot w b (0 + 1) p1 l mas Hb Hh Hn ltac:(lia) L2
                    ltac:(lia))).
  bsimpl.
  rewrite _mas_data_end_loop_unfold.
  rewrite (proj2 (leaf_safe_pivot w b (0 + 1 + 1) 0 l mas Hb Hh Hn ltac:(lia)
                    L3 ltac:(lia))).
  bsimpl. reflexivity.
Qed.

Lemma mas_range_load_unfold (f : nat) (w : world) (mas : ma_state)
    (range_min range_max : Z) :
  mas_range_load (S f) w mas range_min range_max
  = (r <-? _mas_range_walk w mas range_min range_max ;;
     let mas := wk_mas r in
     if wk_ret r then
       if mas_is_ptr mas && (mas_last mas =? 0)
       then Some (mte_safe_root (ma_root w), r)
       else
         let slot := mas_offset mas in
         if MAPLE_NODE_SLOTS <=? slot then Some (0, r)
         else
           entry <-? mas_get_rcu_slot w mas slot ;;
           dead <-? mte_dead_node w (mas_node mas) ;;
           if (dead : bool) then mas_range_load f w mas (wk_min r) (wk_max r)
           else if mas_is_none mas then Some (0, r)
           else Some (entry, r)
     else Some (0, r)).
Proof. reflexivity. Qed.

(** The cursor that mas_start leaves at the root node. *)
Lemma mas_start_at_root (w : world) (b i l a sp fc d : Z) :
  b mod 128 = 0 -> 4096 <= b -> ma_root w = b + 78 -> 0 <= a <= 127 ->
  mas_start w (MkMas i l MAS_START 0 ULONG_MAX a sp fc d)
  = (0, MkMas i l (b + 76) 0 ULONG_MAX 0 sp fc d).
Proof.
  intros Hb Hb4 Hr Ha. destruct (leaf_enode_facts b Hb) as (_ & _ & _ & Hs).
  unfold mas_start.
  change (mas_is_err (MkMas i l MAS_START 0 ULONG_MAX a sp fc d)) with false.
  change (mas_is_start (MkMas i l MAS_START 0 ULONG_MAX a sp fc d)) with true.
  cbv iota zeta. cursor. rewrite mas_set_offset_mk by lia. rewrite Hr, Hs.
  assert (Hn : xa_is_node (b + 78) = true).
  { unfold xa_is_node, xa_is_internal.
    rewrite (aligned_multiple b Hb), aligned_land by lia.
    rewrite <- (aligned_multiple b Hb).
    change (Z.land 78 3 =? 2) with true.
    destruct (Z.ltb_spec 4096 (b + 78)); [reflexivity | lia]. }
  rewrite Hn. bsimpl. cursor. reflexivity.
Qed.

Lemma leaf_not_special (b : Z) :
  b mod 128 = 0 ->
  (b + 76 =? MAS_NONE) = false /\ (b + 76 =? MAS_ROOT) = false
  /\ (b + 76 =? MA_ERROR (- ENOMEM)) = false
  /\ xa_is_err (b + 76) = false.
Proof.
  intros Hb. destruct (leaf_enode_not_error b Hb) as [Hint Hne].
  assert (H : Z.land (b + 76) 3 = 0).
  { rewrite (aligned_multiple b Hb), aligned_land by lia. reflexivity. }
  repeat split.
  - destruct (Z.eqb_spec (b + 76) MAS_NONE) as [E|]; [|reflexivity].
    rewrite E in H. discriminate H.
  - destruct (Z.eqb_spec (b + 76) MAS_ROOT) as [E|]; [|reflexivity].
    rewrite E in H. discriminate H.
  - destruct (Z.eqb_spec (b + 76) (MA_ERROR (- ENOMEM))); [contradiction|].
    reflexivity.
  - unfold xa_is_err. rewrite Hint. reflexivity.
Qed.

(** Words of a node under a later insertion at another address. *)
Lemma rd_word_mk_ne (h : gmap Z (list Z)) (bk : Z) (a : nat)
    (f r t n n' k : Z) (l l' : list Z) :
  n <> n' -> h !! n = Some l -> 0 <= k < Z.of_nat NODE_WORDS ->
  rd_word (MkWorld (<[n' := l']> h) bk a f r t) n k = l !! Z.to_nat k.
Proof.
  intros Hne Hl Hk. apply rd_word_at; [|exact Hk].
  cbn [heap]. rewrite lookup_insert_ne by congruence. exact Hl.
Qed.

Lemma wr_word_mk_ne (h : gmap Z (list Z)) (bk : Z) (a : nat)
    (f r t n n' k v : Z) (l l' : list Z) :
  n <> n' -> h !! n = Some l -> 0 <= k < Z.of_nat NODE_WORDS ->
  wr_word n k v (MkWorld (<[n' := l']> h) bk a f r t)
  = Some (tt, MkWorld (<[n := <[Z.to_nat k := v]> l]> (<[n' := l']> h))
                bk a f r t).
Proof.
  intros Hne Hl Hk. unfold wr_word. cbn [heap].
  rewrite lookup_insert_ne by congruence. rewrite Hl.
  destruct (andb_range 0 (Z.of_nat NODE_WORDS) k) as [_ ->]; [|exact Hk].
  reflexivity.
Qed.

Lemma rd_word_mk_under (h : gmap Z (list Z)) (bk : Z) (a : nat)
    (f r t n n' k : Z) (l l' : list Z) :
  n <> n' -> 0 <= k < Z.of_nat NODE_WORDS ->
  rd_word (MkWorld (<[n := l]> (<[n' := l']> h)) bk a f r t) n' k
  = l' !! Z.to_nat k.
Proof.
  intros Hne Hk. apply rd_word_at; [|exact Hk].
  cbn [heap]. rewrite lookup_insert_ne by congruence.
  apply lookup_insert_eq.
Qed.

Lemma leaf_type_code (b : Z) :
  b mod 128 = 0 ->
  mte_node_type (b + 76) = type_code maple_leaf_64
  /\ mte_is_leaf (b + 76) = true.
Proof.
  intros Hb. assert (E : mte_node_type (b + 76) = 9).
  { unfold mte_node_type. rewrite (aligned_multiple b Hb).
    rewrite aligned_type_bits by lia. reflexivity. }
  split; [exact E|]. unfold mte_is_leaf. rewrite E. reflexivity.
Qed.

Lemma root_parent_bit (t : Z) :
  nonzero (Z.land (Z.lor t MA_ROOT_PARENT) MA_ROOT_PARENT) = true.
Proof.
  unfold MA_ROOT_PARENT. rewrite Z.land_lor_distr_l.
  change (Z.land 1 1) with 1.
  assert (E : Z.lor (Z.land t 1) 1 = 1).
  { apply Z.bits_inj'. intros n Hn.
    rewrite Z.lor_spec, Z.land_spec.
    destruct (Z.eq_dec n 0) as [->|].
    - apply orb_true_r.
    - replace (Z.testbit 1 n) with false
        by (symmetry; apply Z.bits_above_log2; simpl; lia).
      rewrite andb_false_r. reflexivity. }
  rewrite E. reflexivity.
Qed.

(** The flags after mas_set_height at depth [d]. *)
Lemma mas_set_height_mk (h : gmap Z (list Z)) (bk : Z) (a : nat)
    (f r t : Z) (mas : ma_state) :
  mas_set_height mas (MkWorld h bk a f r t)
  = Some (tt, MkWorld h bk a
                (u32 (Z.lor (u32 (clear_bits f MAPLE_HEIGHT_MASK))
                        (Z.shiftl (mas_depth mas) MAPLE_HEIGHT_OFFSET)))
                r t).
Proof. reflexivity. Qed.

(** mas_commit_b_node at a root leaf of a tree in RCU mode, for a big
    node that fits in one node: a new leaf is allocated, filled by
    mab_mas_cp and made the root; the old leaf is marked dead. *)
Lemma mas_commit_b_node_root_leaf (h : gmap Z (list Z)) (bk : Z) (n : nat)
    (f t b : Z) (l l2 : list Z) (bn : maple_big_node) (end_ : Z)
    (i la mn mx sp fc d : Z) (mas2 : ma_state) :
  b mod 128 = 0 -> bk mod 128 = 0 -> bk <> 0 -> b <> bk ->
  h !! b = Some l ->
  l !! 0%nat = Some (Z.lor t MA_ROOT_PARENT) ->
  mas_in_rcu f = true ->
  0 <= b_end bn < 16 ->
  mab_mas_cp bn 0 (b_end bn) (MkMas i la (bk + 76) mn mx 0 sp fc d)
    (MkWorld (<[bk := <[0%nat := Z.lor t MA_ROOT_PARENT]>
                         (replicate NODE_WORDS 0)]> h)
       (bk + NODE_SIZE) n f (b + 78) t)
  = Some (mas2, MkWorld (<[bk := l2]> h) (bk + NODE_SIZE) n f (b + 78) t) ->
  mas_node mas2 = bk + 76 ->
  l2 !! 0%nat = Some (Z.lor t MA_ROOT_PARENT) ->
  mas_commit_b_node (MkMas i la (b + 76) mn mx 0 sp fc d) bn end_
    (MkWorld h bk (S n) f (b + 78) t)
  = Some ((2, mas2),
          MkWorld (<[b := <[0%nat := b]> l]> (<[bk := l2]> h))
            (bk + NODE_SIZE) n
            (u32 (Z.lor (u32 (clear_bits f MAPLE_HEIGHT_MASK))
                    (Z.shiftl (mas_depth mas2) MAPLE_HEIGHT_OFFSET)))
            (bk + 78) t).
Proof.
  intros Hb Hbk Hbk0 Hne Hh L0 Hrcu Hend Hcp Hn2 L20.
  remember (mas_depth mas2) as d2 eqn:Hd2.
  destruct (leaf_enode_facts b Hb) as (Hto & Hty & Hmk & Hsr).
  destruct (leaf_enode_facts bk Hbk) as (Hto2 & Hty2 & Hmk2 & Hsr2).
  destruct (leaf_type_code b Hb) as (Htc & Hleaf).
  destruct (leaf_type_code bk Hbk) as (Htc2 & Hleaf2).
  destruct (leaf_not_special b Hb) as (_ & _ & _ & Herr).
  unfold mas_commit_b_node. rewrite mbind_eq. unfold mget at 1.
  cbv beta iota. rewrite mbind_eq, mread_eq.
  (* the node is the root *)
  assert (R0 : mte_is_root (MkWorld h bk (S n) f (b + 78) t) (b + 76)
               = Some true).
  { unfold mte_is_root, ma_is_root, rd_parent. rewrite Hto.
    rewrite (rd_word_at (MkWorld h bk (S n) f (b + 78) t) b 0 l Hh)
      by (unfold NODE_WORDS; lia).
    change (l !! Z.to_nat 0) with (l !! 0%nat). rewrite L0.
    rewrite root_parent_bit. reflexivity. }
  cursor. rewrite R0, Hty. cbv beta iota.
  rewrite andb_false_r. cbn [negb andb]. cbv iota.
  change (mt_slots maple_leaf_64) with 16.
  destruct (Z.leb_spec 16 (b_end bn)); [lia|].
  rewrite mbind_eq. unfold mas_reuse_node. rewrite mbind_eq.
  unfold mget at 1. cbv beta iota. cbn [ma_flags]. rewrite Hrcu.
  unfold mret at 1. cbv beta iota. cursor.
  (* one node from the cache *)
  rewrite mbind_eq, mas_node_cnt_one by (try reflexivity; assumption).
  cursor. unfold mas_is_err. cursor. rewrite Herr.
  rewrite mbind_eq.
  rewrite (mas_next_alloc_one h bk _ n f (b + 78) t)
    by (try reflexivity; assumption).
  cbv beta iota. cursor. rewrite Htc.
  rewrite mt_mk_node_leaf by exact Hbk.
  rewrite mbind_eq, mread_eq. unfold mas_mn. cursor. rewrite Hto.
  unfold rd_parent.
  rewrite (rd_word_mk_ne h _ n f (b + 78) t b bk 0 l)
    by (try assumption; unfold NODE_WORDS; lia).
  change (l !! Z.to_nat 0) with (l !! 0%nat). rewrite L0.
  cbv beta iota. rewrite mbind_eq. unfold wr_parent. rewrite Hto2.
  rewrite wr_word_mk by (unfold NODE_WORDS; lia).
  change (Z.to_nat 0) with 0%nat.
  rewrite mbind_eq, Hcp.
  (* the new node replaces the old one *)
  rewrite mbind_eq. unfold mas_replace. cbv zeta. unfold mas_mn.
  rewrite Hn2, Hto2.
  assert (R2 : forall a' f' r', mte_is_root
                 (MkWorld (<[bk := l2]> h) (bk + NODE_SIZE) a' f' r' t)
                 (bk + 76) = Some true).
  { intros a' f' r'. unfold mte_is_root, ma_is_root, rd_parent.
    rewrite Hto2. rewrite rd_word_mk by (unfold NODE_WORDS; lia).
    change (l2 !! Z.to_nat 0) with (l2 !! 0%nat). rewrite L20.
    rewrite root_parent_bit. reflexivity. }
  rewrite mbind_eq, mread_eq, R2. cbv beta iota.
  rewrite mbind_eq, mread_eq. cbn [ma_root]. cbv beta iota.
  assert (Hto78 : mte_to_node (b + 78) = b).
  { unfold mte_to_node. rewrite (aligned_multiple b Hb) at 1.
    rewrite aligned_clear by lia. change (clear_bits 78 127) with 0.
    rewrite <- (aligned_multiple b Hb). lia. }
  rewrite Hto78.
  replace (b =? bk) with false by (symmetry; apply Z.eqb_neq; exact Hne).
  rewrite Hleaf2. cbn [negb andb]. cbv iota.
  rewrite mbind_eq. unfold mret at 1. cbv beta iota.
  rewrite mbind_eq, mread_eq, R2. cbv beta iota.
  rewrite mbind_eq. rewrite mbind_eq. unfold mget at 1. cbv beta iota.
  cbn [tree_addr]. rewrite mbind_eq. unfold wr_parent.
  rewrite wr_word_mk by (unfold NODE_WORDS; lia).
  change (Z.to_nat 0) with 0%nat.
  rewrite (list_insert_id l2 0 _ L20).
  cbv beta iota. rewrite mbind_eq. cbv beta iota.
  unfold set_ma_root. cbn [heap brk avail ma_flags tree_addr].
  rewrite Hmk2. rewrite mas_set_height_mk. rewrite <- Hd2. cbv beta iota.
  unfold mte_free, ma_free_rcu, wr_parent.
  rewrite Hto78.
  rewrite (wr_word_mk_ne h _ n _ _ t b bk 0 b l l2)
    by (try assumption; unfold NODE_WORDS; lia).
  change (Z.to_nat 0) with 0%nat. cbv beta iota.
  (* the gap of a root is not recorded *)
  rewrite mbind_eq. unfold mas_update_gap. rewrite mbind_eq.
  unfold mget at 1. cbv beta iota. cbn [ma_flags].
  destruct (mt_is_alloc _); cbn [negb]; cbv iota.
  - rewrite mbind_eq, mread_eq.
    assert (R3 : forall a' f' r' x, mte_is_root
                   (MkWorld (<[b := x]> (<[bk := l2]> h)) (bk + NODE_SIZE)
                      a' f' r' t) (bk + 76) = Some true).
    { intros a' f' r' x. unfold mte_is_root, ma_is_root, rd_parent.
      rewrite Hto2.
      rewrite rd_word_mk_under by (try assumption; unfold NODE_WORDS; lia).
      change (l2 !! Z.to_nat 0) with (l2 !! 0%nat). rewrite L20.
      rewrite root_parent_bit. reflexivity. }
    rewrite Hn2, R3. cbv beta iota. reflexivity.
  - reflexivity.
Qed.

Lemma mab_mas_cp_loop_unfold (n : nat) (b : maple_big_node) (t : maple_type)
    (i j : Z) (mas : ma_state) :
  mab_mas_cp_loop (S n) b t i j mas
  = match bn_get_pivot b i, bn_get_slot b i with
    | Some p, Some s =>
      if nonzero j && (p =? 0) then mret mas
      else
        let mas := set_max p mas in
        mte_set_rcu_slot (mas_node mas) j s ;;;
        (if j <? mt_pivots t then mte_set_pivot (mas_node mas) j p
         else mret tt) ;;;
        w <- mget ;;
        (if negb (mte_is_leaf (mas_node mas)) && mt_is_alloc (ma_flags w)
         then match bn_get_gap b i with
              | Some g => mte_set_gap (mas_node mas) j g
              | None => mfail
              end
         else mret tt) ;;;
        mab_mas_cp_loop n b t (i + 1) (j + 1) mas
    | _, _ => mfail
    end.
Proof. reflexivity. Qed.

(** One step of mab_mas_cp into a leaf at [bk]: the slot and, where the
    pivot word still holds 0, the pivot are written. *)
Lemma mab_mas_cp_step (h : gmap Z (list Z)) (bk b' : Z) (a : nat)
    (f r t : Z) (l : list Z) (k p s : Z) (g : option Z) (mas : ma_state)
    (c : ma_state -> M ma_state) :
  bk mod 128 = 0 -> mas_node mas = bk + 76 ->
  0 <= k < 15 -> 0 <= p < 2 ^ 64 ->
  (<[Z.to_nat (16 + k) := s]> l) !! Z.to_nat (1 + k) = Some 0 ->
  (mte_set_rcu_slot (mas_node (set_max p mas)) k s ;;;
   (if k <? mt_pivots maple_leaf_64
    then mte_set_pivot (mas_node (set_max p mas)) k p else mret tt) ;;;
   w <- mget ;;
   (if negb (mte_is_leaf (mas_node (set_max p mas)))
       && mt_is_alloc (ma_flags w)
    then match g with
         | Some g => mte_set_gap (mas_node (set_max p mas)) k g
         | None => mfail
         end
    else mret tt) ;;;
   c (set_max p mas))
    (MkWorld (<[bk := l]> h) b' a f r t)
  = c (set_max p mas)
      (MkWorld (<[bk := <[Z.to_nat (1 + k) := p]>
                           (<[Z.to_nat (16 + k) := s]> l)]> h) b' a f r t).
Proof.
  intros Hbk Hn Hk Hp Hl.
  destruct (leaf_type_code bk Hbk) as (_ & Hleaf).
  change (mas_node (set_max p mas)) with (mas_node mas). rewrite Hn.
  rewrite mbind_eq, (mte_set_rcu_slot_leaf bk Hbk) by lia.
  rewrite wr_word_mk by (unfold NODE_WORDS; lia).
  change (mt_pivots maple_leaf_64) with 15.
  destruct (Z.ltb_spec k 15); [|lia].
  rewrite mbind_eq, (mte_set_pivot_leaf bk Hbk) by lia.
  rewrite wr_pivot_mk by (try assumption; lia).
  rewrite mbind_eq. unfold mget at 1. cbv beta iota.
  rewrite Hleaf. cbn [negb andb]. cbv iota.
  rewrite mbind_eq. unfold mret at 1. reflexivity.
Qed.

Lemma mas_erase_retry_unfold (fu : nat) (mas : ma_state) (r_min r_max : Z) :
  mas_erase_retry (S fu) mas r_min r_max
  = (let mas := set_node MAS_START mas in
     let mas := set_index r_min mas in
     let mas := set_last r_max mas in
     r <- _mas_store mas 0 true ;;
     n <- mas_nomem (snd r) ;;
     if fst n then mas_erase_retry fu (snd n) r_min r_max
     else mret (snd n)).
Proof. reflexivity. Qed.
Section one_leaf_two_ranges.

(** A tree of one leaf at [b]: nothing below [index], the entry from
    [index] to [last], nothing above. *)
Variables (h : gmap Z (list Z)) (bk : Z) (av : nat) (f t b : Z).
Variables (l : list Z) (index last entry : Z).

Hypothesis Hb : b mod 128 = 0.
Hypothesis Hb4 : 4096 <= b.
Hypothesis Hh : h !! b = Some l.
Hypothesis Hta : mte_to_node t <> b.
Hypothesis L0 : l !! 0%nat = Some (Z.lor t MA_ROOT_PARENT).
Hypothesis L1 : l !! 1%nat = Some (index - 1).
Hypothesis L2 : l !! 2%nat = Some last.
Hypothesis L3 : l !! 3%nat = Some 0.
Hypothesis L16 : l !! 16%nat = Some 0.
Hypothesis L17 : l !! 17%nat = Some entry.
Hypothesis L18 : l !! 18%nat = Some 0.
Hypothesis Hidx : 1 < index <= last.
Hypothesis Hlast : last < ULONG_MAX.
Hypothesis Hent : entry <> 0.

Lemma two_ranges_dead :
  mte_dead_node (MkWorld h bk av f (b + 78) t) (b + 76) = Some false.
Proof.
  destruct (leaf_enode_facts b Hb) as (Hto & _).
  unfold mte_dead_node, mte_parent, rd_parent. rewrite Hto.
  rewrite (rd_word_at (MkWorld h bk av f (b + 78) t) b 0 l Hh) by (unfold NODE_WORDS; lia).
  change (l !! Z.to_nat 0) with (l !! 0%nat). rewrite L0.
  rewrite clear_root_parent. unfold mte_to_node in Hta.
  destruct (Z.eqb_spec (clear_bits t 127) b); [contradiction|reflexivity].
Qed.

(** The walk of the leaf for an index of the stored range. *)
Lemma two_ranges_node_walk (mas : ma_state) (i rmin rmax : Z) :
  mas_node mas = b + 76 -> mas_max mas = ULONG_MAX ->
  mas_index mas = i -> mas_offset mas = 0 ->
  index <= i <= last ->
  mas_node_walk (MkWorld h bk av f (b + 78) t) mas maple_leaf_64 rmin rmax
  = Some (MkWalk true (mas_set_offset 1 mas) index last).
Proof.
  intros Hn Hm Hi Ho Hr.
  rewrite mas_node_walk_64 by reflexivity. rewrite Ho.
  change (Z.to_nat (mt_slots maple_leaf_64 - 0)) with (S (S 14)).
  rewrite mas_node_walk_loop_unfold.
  rewrite (proj2 (leaf_safe_pivot (MkWorld h bk av f (b + 78) t) b 0 (index - 1) l mas Hb Hh Hn
                    ltac:(lia) L1 ltac:(unfold ULONG_MAX in *; lia))).
  rewrite Hi. bsimpl.
  rewrite mas_node_walk_loop_unfold.
  rewrite (proj2 (leaf_safe_pivot (MkWorld h bk av f (b + 78) t) b (0 + 1) last l mas Hb Hh Hn
                    ltac:(lia) L2 ltac:(unfold ULONG_MAX in *; lia))).
  rewrite Hi. bsimpl.
  rewrite (u64_small (index - 1 + 1)) by (unfold ULONG_MAX in *; lia).
  replace (index - 1 + 1) with index by lia. reflexivity.
Qed.

Lemma two_ranges_range_load (i : Z) :
  index <= i <= last ->
  mas_range_load RETRIES (MkWorld h bk av f (b + 78) t) (MA_STATE i i) 0 0
  = Some (entry,
          MkWalk true (MkMas i i (b + 76) 0 ULONG_MAX 1 0 0 1) index last).
Proof.
  intros Hr. destruct (leaf_enode_facts b Hb) as (Hto & Hty & _).
  destruct (leaf_not_special b Hb) as (Hnn & Hnr & _).
  change RETRIES with (S 3). rewrite mas_range_load_unfold.
  unfold _mas_range_walk, MA_STATE.
  rewrite (mas_start_at_root (MkWorld h bk av f (b + 78) t) b) by (try assumption; try reflexivity; lia).
  bsimpl. unfold mas_is_none, mas_is_ptr. cursor. rewrite Hnn, Hnr.
  cbv iota. rewrite mas_set_offset_mk by lia.
  change TREE_DEPTH with (S 31). rewrite __mas_walk_unfold. cbv zeta.
  cursor. rewrite Hty. change (u8 (0 + 1)) with 1.
  rewrite (two_ranges_node_walk _ i)
    by (try reflexivity; try assumption; apply mas_offset_mk; lia).
  cursor. cbn [negb]. cbv iota.
  change (ma_is_leaf (type_code maple_leaf_64)) with true. cbv iota.
  cbv beta zeta. cursor. rewrite mas_set_offset_mk by lia. cursor.
  rewrite Hnr. cbn [andb]. cbv iota.
  rewrite mas_offset_mk by lia.
  change (MAPLE_NODE_SLOTS <=? 1) with false. cbv iota.
  rewrite (leaf_rcu_slot (MkWorld h bk av f (b + 78) t) b 1 l) by (try assumption; try reflexivity; lia).
  change (l !! Z.to_nat (16 + 1)) with (l !! 17%nat). rewrite L17.
  rewrite two_ranges_dead. cbv iota. unfold mas_is_none. cursor.
  rewrite Hnn. reflexivity.
Qed.

Lemma two_ranges_is_root :
  mte_is_root (MkWorld h bk av f (b + 78) t) (b + 76) = Some true.
Proof.
  destruct (leaf_enode_facts b Hb) as (Hto & _).
  unfold mte_is_root, ma_is_root, rd_parent. rewrite Hto.
  rewrite (rd_word_at (MkWorld h bk av f (b + 78) t) b 0 l Hh)
    by (unfold NODE_WORDS; lia).
  change (l !! Z.to_nat 0) with (l !! 0%nat). rewrite L0.
  rewrite root_parent_bit. reflexivity.
Qed.

(** The write walk for the stored range: it ends at slot 1. *)
Lemma two_ranges_wr_walk (d : Z) :
  mas_wr_walk (MkWorld h bk av f (b + 78) t)
    (MkMas index last (b + 76) 0 ULONG_MAX 0 0 0 d) 0 0 0
  = Some (MkWalk true (MkMas index last (b + 76) 0 ULONG_MAX 1 0 0 1)
            index last).
Proof.
  destruct (leaf_enode_facts b Hb) as (Hto & Hty & _).
  destruct (leaf_type_code b Hb) as (Htc & Hleaf).
  unfold mas_wr_walk. cursor. change TREE_DEPTH with (S 31).
  rewrite mas_wr_walk_loop_unfold. cursor. rewrite Hty. cbv zeta.
  change (u8 (0 + 1)) with 1.
  rewrite (mas_data_end_two _ b (index - 1) last l)
    by (try assumption; try reflexivity; cursor; unfold ULONG_MAX in *;
        lia).
  rewrite (two_ranges_node_walk _ index)
    by (try reflexivity; try lia; apply mas_offset_mk; lia).
  cursor. cbn [negb]. cbv iota.
  rewrite mas_set_offset_mk by lia.
  unfold mas_is_span_wr. cursor. rewrite Hleaf.
  unfold ULONG_MAX in *. bsimpl.
  change (ma_is_leaf (type_code maple_leaf_64)) with true. cbv iota.
  reflexivity.
Qed.

(** mas_extend_null for a store of NULL over the stored range: the
    range grows over the empty ranges on both sides. *)
Lemma two_ranges_extend_null :
  mas_extend_null (MkWorld h bk av f (b + 78) t) true
    (MkMas index last (b + 76) 0 ULONG_MAX 1 0 0 1)
    (MkMas index last (b + 76) 0 ULONG_MAX 1 0 0 1)
  = Some (MkMas 0 ULONG_MAX (b + 76) 0 ULONG_MAX 0 0 0 1,
          MkMas 0 ULONG_MAX (b + 76) 0 ULONG_MAX 0 0 0 1).
Proof.
  set (w := MkWorld h bk av f (b + 78) t).
  assert (P : forall mas k v, mas_node mas = b + 76 -> 0 <= k < 15 ->
                l !! Z.to_nat (1 + k) = Some v -> 0 <= v < 2 ^ 64 ->
                mas_get_safe_pivot w mas k = Some v).
  { intros mas k v Hn Hk Hl Hv.
    apply (leaf_safe_pivot w b k v l mas Hb Hh Hn Hk Hl Hv). }
  assert (S : forall mas k, mas_node mas = b + 76 -> 0 <= k < 16 ->
                mas_get_rcu_slot w mas k = l !! Z.to_nat (16 + k)).
  { intros mas k Hn Hk. apply (leaf_rcu_slot w b k l mas Hb Hh Hn Hk). }
  unfold mas_extend_null. cbv zeta.
  rewrite !mas_offset_mk by lia.
  rewrite S by (try reflexivity; lia).
  change (l !! Z.to_nat (16 + 1)) with (l !! 17%nat). rewrite L17.
  rewrite (P _ 1 last) by (try reflexivity; try assumption;
                           unfold ULONG_MAX in *; lia).
  bsimpl.
  rewrite (P _ (1 - 1) (index - 1))
    by (try reflexivity; try assumption; unfold ULONG_MAX in *; lia).
  rewrite (u64_small (index - 1 + 1)) by (unfold ULONG_MAX in *; lia).
  replace (index - 1 + 1) with index by lia.
  bsimpl. cursor. bsimpl.
  rewrite S by (try reflexivity; lia).
  change (l !! Z.to_nat (16 + (1 - 1))) with (l !! 16%nat). rewrite L16.
  bsimpl. cursor.
  rewrite mas_set_offset_mk by lia.
  rewrite S by (try reflexivity; lia).
  change (l !! Z.to_nat (16 + 1)) with (l !! 17%nat). rewrite L17.
  bsimpl. cursor. unfold ULONG_MAX in *. bsimpl.
  rewrite S by (try reflexivity; lia).
  change (l !! Z.to_nat (16 + (1 + 1))) with (l !! 18%nat). rewrite L18.
  bsimpl.
  rewrite (P _ (1 + 1) 0) by (try reflexivity; try assumption; lia).
  cursor. bsimpl. cursor. reflexivity.
Qed.

(** The big node for the store of NULL over everything: one empty
    range. *)
Lemma two_ranges_store_b_node :
  mas_store_b_node (MkWorld h bk av f (b + 78) t)
    (MkMas 0 ULONG_MAX (b + 76) 0 ULONG_MAX 0 0 0 1) big_node_zero 0
  = Some (0, MkBig (replicate 34 0) (ULONG_MAX :: replicate 32 0)
               (replicate 34 0) 0 0 0).
Proof.
  set (w := MkWorld h bk av f (b + 78) t).
  unfold mas_store_b_node. cbv zeta.
  rewrite mas_offset_mk by lia.
  rewrite (mas_data_end_two w b (index - 1) last l)
    by (try assumption; try reflexivity; cursor; unfold ULONG_MAX in *;
        lia).
  rewrite (leaf_rcu_slot w b 0 l) by (try assumption; try reflexivity; lia).
  change (l !! Z.to_nat (16 + 0)) with (l !! 16%nat). rewrite L16.
  cursor. change (nonzero 0) with false. cbv iota beta.
  change (u64 (u64 (0 - 1) + 1) <? 0) with false. cbv iota beta.
  change (bn_set_slot 0 0 big_node_zero) with (Some big_node_zero).
  cbv iota beta.
  change (bn_set_pivot 0 ULONG_MAX big_node_zero)
    with (Some (MkBig (replicate 34 0) (ULONG_MAX :: replicate 32 0)
                  (replicate 34 0) 0 0 0)).
  cbv iota beta.
  assert (P : forall mas k v, mas_node mas = b + 76 -> 0 <= k < 15 ->
                l !! Z.to_nat (1 + k) = Some v -> 0 <= v < 2 ^ 64 ->
                mas_get_safe_pivot w mas k = Some v).
  { intros mas k v Hn Hk Hl Hv.
    apply (leaf_safe_pivot w b k v l mas Hb Hh Hn Hk Hl Hv). }
  rewrite (P _ 0 (index - 1))
    by (try reflexivity; try assumption; unfold ULONG_MAX in *; lia).
  unfold ULONG_MAX in *. bsimpl. reflexivity.
Qed.

Hypothesis Hbk : bk mod 128 = 0.
Hypothesis Hbk4 : 4096 <= bk.
Hypothesis Hne : b <> bk.
Hypothesis Hrcu : mas_in_rcu f = true.

(** The leaf that replaces the old one: one empty range. *)
Lemma two_ranges_mab_mas_cp (n : nat) (i la mn mx sp fc d : Z) :
  mab_mas_cp
    (MkBig (replicate 34 0) (ULONG_MAX :: replicate 32 0)
       (replicate 34 0) 0 0 (type_code maple_leaf_64))
    0 0 (MkMas i la (bk + 76) mn mx 0 sp fc d)
    (MkWorld (<[bk := <[0%nat := Z.lor t MA_ROOT_PARENT]>
                         (replicate NODE_WORDS 0)]> h)
       (bk + NODE_SIZE) n f (b + 78) t)
  = Some (MkMas i la (bk + 76) mn ULONG_MAX 0 sp fc d,
          MkWorld (<[bk := <[1%nat := ULONG_MAX]>
                             (<[0%nat := Z.lor t MA_ROOT_PARENT]>
                                (replicate NODE_WORDS 0))]> h)
            (bk + NODE_SIZE) n f (b + 78) t).
Proof.
  destruct (leaf_enode_facts bk Hbk) as (_ & Hty2 & _).
  unfold mab_mas_cp. cursor. rewrite Hty2.
  change (Z.to_nat (0 - 0 + 1)) with 1%nat.
  rewrite mab_mas_cp_loop_unfold.
  change (bn_get_pivot _ 0) with (Some ULONG_MAX).
  change (bn_get_slot _ 0) with (Some 0). cbv beta iota.
  change (nonzero 0) with false. cbn [andb]. cbv iota zeta.
  rewrite (mab_mas_cp_step h bk _ n f (b + 78) t _ 0 ULONG_MAX 0)
    by (try assumption; try reflexivity; unfold ULONG_MAX; lia).
  cbn [mab_mas_cp_loop]. unfold mret. cursor.
  do 4 f_equal.
Qed.

(** The store of NULL that mas_erase issues for the stored range. *)
Lemma two_ranges_store_null (n : nat) :
  av = S n ->
  _mas_store (MkMas index last MAS_START 0 ULONG_MAX 1 0 0 1) 0 true
    (MkWorld h bk av f (b + 78) t)
  = Some ((entry, MkMas 0 ULONG_MAX (bk + 76) 0 ULONG_MAX 0 0 (-1) 1),
          MkWorld (<[b := <[0%nat := b]> l]>
                     (<[bk := <[1%nat := ULONG_MAX]>
                                (<[0%nat := Z.lor t MA_ROOT_PARENT]>
                                   (replicate NODE_WORDS 0))]> h))
            (bk + NODE_SIZE) n
            (u32 (Z.lor (u32 (clear_bits f MAPLE_HEIGHT_MASK))
                    (Z.shiftl 1 MAPLE_HEIGHT_OFFSET)))
            (bk + 78) t).
Proof.
  intros Hav.
  destruct (leaf_enode_facts b Hb) as (Hto & Hty & _).
  destruct (leaf_type_code b Hb) as (Htc & Hleaf).
  destruct (leaf_not_special b Hb) as (Hnn & Hnr & _ & Herr).
  unfold _mas_store. rewrite mbind_eq. unfold mget at 1. cbv beta iota.
  rewrite (mas_start_at_root _ b) by (try assumption; try reflexivity; lia).
  cbv beta iota. unfold mas_is_none. cursor. rewrite Hnn, Hnr.
  change (nonzero 0) with false. cbn [orb]. cbv iota.
  unfold _mas_store_walk. rewrite mbind_eq, mread_eq.
  rewrite two_ranges_wr_walk. cbv beta iota zeta. cursor.
  cbn [negb andb]. cbv iota. change (nonzero 0) with false. cbv iota.
  rewrite Hty. rewrite mas_offset_mk by lia.
  rewrite mbind_eq, mread_eq.
  rewrite (leaf_rcu_slot _ b 1 l) by (try assumption; try reflexivity; lia).
  change (l !! Z.to_nat (16 + 1)) with (l !! 17%nat). rewrite L17.
  cbv beta iota. cbn [negb andb]. cbv iota.
  change (0 =? 0) with true. cbv iota.
  rewrite mbind_eq, mbind_eq, mread_eq.
  rewrite two_ranges_extend_null. cbv beta iota. unfold mret at 1.
  cbv beta iota. cursor.
  rewrite mas_offset_mk by lia. rewrite mas_set_offset_mk by lia.
  rewrite mbind_eq, mread_eq, two_ranges_store_b_node.
  cbv beta iota. cursor.
  rewrite mbind_eq, mread_eq.
  rewrite (mas_data_end_two _ b (index - 1) last l)
    by (try assumption; try reflexivity; cursor; unfold ULONG_MAX in *;
        lia).
  cbv beta iota. rewrite mbind_eq, mread_eq.
  rewrite Htc.
  cbv beta iota delta [bn_set_end bn_set_min bn_set_type bn_slot bn_pivot
                       bn_gap bn_min b_end bn_type].
  unfold mas_can_append. cbv beta iota delta [b_end].
  change (mt_slots maple_leaf_64) with 16.
  change (16 <=? 0) with false. change (0 <=? 1) with true.
  cbv beta iota. cbn [andb]. cbv iota.
  change (0 <? mt_min_slots maple_leaf_64) with true. cbv iota.
  unfold mas_cnt_empty. cursor. change (0 <? 0) with false. cbv iota.
  cursor. change (0 - 1) with (-1).
  rewrite mbind_eq. rewrite Hav.
  rewrite (mas_commit_b_node_root_leaf h bk n f t b l
             (<[1%nat := ULONG_MAX]>
                (<[0%nat := Z.lor t MA_ROOT_PARENT]>
                   (replicate NODE_WORDS 0)))
             _ 1 0 ULONG_MAX 0 ULONG_MAX 0 (-1) 1
             (MkMas 0 ULONG_MAX (bk + 76) 0 ULONG_MAX 0 0 (-1) 1));
    try assumption; try lia.
  - cbv beta iota. cursor. change (2 =? 0) with false. cbv iota.
    reflexivity.
  - cbn [b_end]. lia.
  - cbn [b_end]. apply two_ranges_mab_mas_cp.
  - reflexivity.
  - reflexivity.
Qed.

(** mtree_erase of an index of the stored range. *)
Lemma two_ranges_erase (n : nat) (i : Z) :
  av = S n -> index <= i <= last ->
  mtree_erase i (MkWorld h bk av f (b + 78) t)
  = Some (entry,
          MkWorld (<[b := <[0%nat := b]> l]>
                     (<[bk := <[1%nat := ULONG_MAX]>
                                (<[0%nat := Z.lor t MA_ROOT_PARENT]>
                                   (replicate NODE_WORDS 0))]> h))
            (bk + NODE_SIZE) n
            (u32 (Z.lor (u32 (clear_bits f MAPLE_HEIGHT_MASK))
                    (Z.shiftl 1 MAPLE_HEIGHT_OFFSET)))
            (bk + 78) t).
Proof.
  intros Hav Hi.
  destruct (leaf_not_special bk Hbk) as (_ & _ & Hne2 & _).
  unfold mtree_erase, mas_erase. rewrite mbind_eq, mbind_eq, mread_eq.
  rewrite (two_ranges_range_load i Hi). cbv beta iota. cursor.
  rewrite mbind_eq. change RETRY_FUEL with (S 3).
  rewrite mas_erase_retry_unfold. cbv zeta. cursor.
  rewrite mbind_eq, (two_ranges_store_null n Hav). cbv beta iota. cursor.
  rewrite mbind_eq.
  rewrite mas_nomem_no_pool.
  - reflexivity.
  - cursor. intros E. rewrite E in Hne2. discriminate Hne2.
  - reflexivity.
Qed.

End one_leaf_two_ranges.

(** The loads of a tree made of one live leaf, from the words of the
    leaf: up to three ranges, the last one ending at ULONG_MAX. *)
Section one_leaf_loads.

Variables (w : world) (b ta : Z) (l : list Z).
Hypothesis Hb : b mod 128 = 0.
Hypothesis Hb4 : 4096 <= b.
Hypothesis Hh : heap w !! b = Some l.
Hypothesis Hroot : ma_root w = b + 78.
Hypothesis L0 : l !! 0%nat = Some (Z.lor ta MA_ROOT_PARENT).
Hypothesis Hta : mte_to_node ta <> b.

Lemma one_leaf_node_ok : forallb (node_ok w) [b + 76] = true.
Proof.
  destruct (leaf_enode_facts b Hb) as (Hto & Hty & _).
  cbn [forallb]. rewrite andb_true_r. unfold node_ok. rewrite Hty.
  unfold mte_dead_node, mte_parent, rd_parent. rewrite Hto.
  rewrite (rd_word_at w b 0 l Hh) by (unfold NODE_WORDS; lia).
  change (l !! Z.to_nat 0) with (l !! 0%nat). rewrite L0.
  rewrite clear_root_parent. unfold mte_to_node in Hta.
  destruct (Z.eqb_spec (clear_bits ta 127) b); [contradiction|reflexivity].
Qed.

Lemma one_leaf_is_node : xa_is_node (ma_root w) = true.
Proof.
  rewrite Hroot. unfold xa_is_node, xa_is_internal.
  rewrite (aligned_multiple b Hb), aligned_land by lia.
  rewrite <- (aligned_multiple b Hb).
  change (Z.land 78 3 =? 2) with true.
  destruct (Z.ltb_spec 4096 (b + 78)); [reflexivity | lia].
Qed.

Lemma one_leaf_loads_of_ranges (rs : list range_entry) (j : Z) :
  node_ranges (Z.to_nat (mt_slots maple_leaf_64)) w (b + 76) maple_leaf_64
    0 0 ULONG_MAX = Some rs ->
  ranges_ascending rs = true ->
  0 <= j <= ULONG_MAX ->
  exists e, ranges_entry rs j = Some e
            /\ mtree_load w j = Some (if xa_is_zero e then 0 else e).
Proof.
  intros Hrs Hasc Hj.
  destruct (leaf_enode_facts b Hb) as (Hto & Hty & Hmk & Hsr).
  destruct (mas_load_subtree_ranges w j rs [b + 76])
    as (e & mas & He & Hload).
  - exact one_leaf_is_node.
  - rewrite Hroot, Hsr. change TREE_DEPTH with (S 31).
    rewrite subtree_ranges_unfold, Hty, Hrs. reflexivity.
  - rewrite Hroot, Hsr. change TREE_DEPTH with (S 31).
    rewrite subtree_nodes_unfold, Hty, Hrs. reflexivity.
  - exact one_leaf_node_ok.
  - exact Hasc.
  - exact Hj.
  - exists e. split; [exact He|].
    exact (mtree_load_of_mas_load w j e mas Hload).
Qed.

(** One range: the whole leaf holds [s]. *)
Lemma one_range_loads (s j : Z) :
  l !! 1%nat = Some ULONG_MAX -> l !! 16%nat = Some s ->
  0 <= j <= ULONG_MAX ->
  mtree_load w j = Some (if xa_is_zero s then 0 else s).
Proof.
  intros L1 L16 Hj.
  destruct (one_leaf_loads_of_ranges [MkRange 0 ULONG_MAX s] j)
    as (e & He & Hload).
  - change (Z.to_nat (mt_slots maple_leaf_64)) with (S 15).
    rewrite node_ranges_unfold.
    change (mt_slots maple_leaf_64 <=? 0) with false.
    change (mt_pivots maple_leaf_64 <=? 0) with false. cbv iota.
    rewrite (leaf_pivot w b 0 ULONG_MAX l)
      by (try assumption; unfold ULONG_MAX; lia).
    rewrite (leaf_slot w b 0 l) by (try assumption; lia).
    change (l !! Z.to_nat (16 + 0)) with (l !! 16%nat). rewrite L16.
    reflexivity.
  - reflexivity.
  - exact Hj.
  - cbn [ranges_entry re_last re_entry] in He.
    destruct (Z.leb_spec j ULONG_MAX); [|lia].
    injection He as <-. exact Hload.
Qed.

(** Three ranges. *)
Lemma three_ranges_loads (p0 p1 s0 s1 s2 j : Z) :
  l !! 1%nat = Some p0 -> l !! 2%nat = Some p1 -> l !! 3%nat = Some 0 ->
  l !! 16%nat = Some s0 -> l !! 17%nat = Some s1 ->
  l !! 18%nat = Some s2 ->
  0 <= p0 < p1 -> p1 < ULONG_MAX ->
  0 <= j <= ULONG_MAX ->
  mtree_load w j
  = Some (let e := if j <=? p0 then s0 else if j <=? p1 then s1 else s2 in
          if xa_is_zero e then 0 else e).
Proof.
  intros L1 L2 L3 L16 L17 L18 Hp Hp1 Hj.
  destruct (one_leaf_loads_of_ranges
              [MkRange 0 p0 s0; MkRange (p0 + 1) p1 s1;
               MkRange (p1 + 1) ULONG_MAX s2] j)
    as (e & He & Hload).
  - change (Z.to_nat (mt_slots maple_leaf_64)) with (S (S (S 13))).
    assert (S16 : forall i, i < 16 -> (mt_slots maple_leaf_64 <=? i) = false).
    { intros i Hi'. change (mt_slots maple_leaf_64) with 16.
      destruct (Z.leb_spec 16 i); [lia | reflexivity]. }
    assert (P15 : forall i, i < 15 ->
              (mt_pivots maple_leaf_64 <=? i) = false).
    { intros i Hi'. change (mt_pivots maple_leaf_64) with 15.
      destruct (Z.leb_spec 15 i); [lia | reflexivity]. }
    rewrite node_ranges_unfold, S16, P15 by lia.
    rewrite (leaf_pivot w b 0 p0 l)
      by (try assumption; unfold ULONG_MAX in *; lia).
    rewrite (leaf_slot w b 0 l) by (try assumption; lia).
    change (l !! Z.to_nat (16 + 0)) with (l !! 16%nat). rewrite L16.
    unfold ULONG_MAX in *. bsimpl.
    rewrite node_ranges_unfold, S16, P15 by lia.
    rewrite (leaf_pivot w b (0 + 1) p1 l) by (try assumption; lia).
    rewrite (leaf_slot w b (0 + 1) l) by (try assumption; lia).
    change (l !! Z.to_nat (16 + (0 + 1))) with (l !! 17%nat). rewrite L17.
    bsimpl.
    rewrite node_ranges_unfold, S16, P15 by lia.
    rewrite (leaf_pivot w b (0 + 1 + 1) 0 l) by (try assumption; lia).
    rewrite (leaf_slot w b (0 + 1 + 1) l) by (try assumption; lia).
    change (l !! Z.to_nat (16 + (0 + 1 + 1))) with (l !! 18%nat).
    rewrite L18. bsimpl. reflexivity.
  - cbn [ranges_ascending re_first re_last]. unfold ULONG_MAX in *.
    bsimpl. reflexivity.
  - exact Hj.
  - cbn [ranges_entry re_last re_entry] in He. cbv zeta.
    rewrite Hload.
    destruct (j <=? p0); [injection He as <-; reflexivity|].
    destruct (j <=? p1); [injection He as <-; reflexivity|].
    destruct (Z.leb_spec j ULONG_MAX); [|lia].
    injection He as <-. reflexivity.
Qed.

End one_leaf_loads.

(** The end of the data of a leaf with one range in use before the zero
    pivots: slot 0. *)
Lemma mas_data_end_one (w : world) (b p0 : Z) (l : list Z) (mas : ma_state) :
  b mod 128 = 0 -> heap w !! b = Some l -> mas_node mas = b + 76 ->
  l !! 1%nat = Some p0 -> l !! 2%nat = Some 0 ->
  0 <= p0 < mas_max mas -> mas_max mas < 2 ^ 64 ->
  mas_data_end w mas = Some 0.
Proof.
  intros Hb Hh Hn L1 L2 H0 Hm.
  destruct (leaf_enode_facts b Hb) as (_ & Hty & _).
  unfold mas_data_end, _mas_data_end. rewrite Hn, Hty.
  change (Z.to_nat (mt_slots maple_leaf_64)) with (S (S 14)).
  rewrite _mas_data_end_loop_unfold.
  rewrite (proj2 (leaf_safe_pivot w b 0 p0 l mas Hb Hh Hn ltac:(lia) L1
                    ltac:(lia))).
  bsimpl.
  rewrite _mas_data_end_loop_unfold.
  rewrite (proj2 (leaf_safe_pivot w b (0 + 1) 0 l mas Hb Hh Hn ltac:(lia) L2
                    ltac:(lia))).
  bsimpl. reflexivity.
Qed.

Lemma mas_store_b_node_skip_unfold (n : nat) (w : world) (mas : ma_state)
    (slot end_ : Z) :
  mas_store_b_node_skip (S n) w mas slot end_
  = (let slot := u8 (slot + 1) in
     piv <-? mas_get_safe_pivot w mas slot ;;
     if (piv <=? mas_last mas) && (slot <=? end_)
     then mas_store_b_node_skip n w mas slot end_
     else Some (piv, slot)).
Proof. reflexivity. Qed.

Section one_leaf_first_range.

(** A tree of one leaf at [b]: the entry from 0 to [last], nothing
    above. *)
Variables (h : gmap Z (list Z)) (bk : Z) (av : nat) (f t b : Z).
Variables (l : list Z) (last entry : Z).

Hypothesis Hb : b mod 128 = 0.
Hypothesis Hb4 : 4096 <= b.
Hypothesis Hh : h !! b = Some l.
Hypothesis Hta : mte_to_node t <> b.
Hypothesis L0 : l !! 0%nat = Some (Z.lor t MA_ROOT_PARENT).
Hypothesis L1 : l !! 1%nat = Some last.
Hypothesis L2 : l !! 2%nat = Some 0.
Hypothesis L16 : l !! 16%nat = Some entry.
Hypothesis L17 : l !! 17%nat = Some 0.
Hypothesis Hlast : 0 < last < ULONG_MAX.
Hypothesis Hent : entry <> 0.

Lemma first_range_pivot (mas : ma_state) (k v : Z) :
  mas_node mas = b + 76 -> 0 <= k < 15 ->
  l !! Z.to_nat (1 + k) = Some v -> 0 <= v < 2 ^ 64 ->
  mas_get_safe_pivot (MkWorld h bk av f (b + 78) t) mas k = Some v.
Proof.
  intros Hn Hk Hl Hv.
  apply (leaf_safe_pivot (MkWorld h bk av f (b + 78) t) b k v l mas Hb Hh
           Hn Hk Hl Hv).
Qed.

Lemma first_range_slot (mas : ma_state) (k : Z) :
  mas_node mas = b + 76 -> 0 <= k < 16 ->
  mas_get_rcu_slot (MkWorld h bk av f (b + 78) t) mas k
  = l !! Z.to_nat (16 + k).
Proof.
  intros Hn Hk.
  apply (leaf_rcu_slot (MkWorld h bk av f (b + 78) t) b k l mas Hb Hh Hn
           Hk).
Qed.

Lemma first_range_dead :
  mte_dead_node (MkWorld h bk av f (b + 78) t) (b + 76) = Some false.
Proof.
  destruct (leaf_enode_facts b Hb) as (Hto & _).
  unfold mte_dead_node, mte_parent, rd_parent. rewrite Hto.
  rewrite (rd_word_at (MkWorld h bk av f (b + 78) t) b 0 l Hh)
    by (unfold NODE_WORDS; lia).
  change (l !! Z.to_nat 0) with (l !! 0%nat). rewrite L0.
  rewrite clear_root_parent. unfold mte_to_node in Hta.
  destruct (Z.eqb_spec (clear_bits t 127) b); [contradiction|reflexivity].
Qed.

Lemma first_range_node_walk (mas : ma_state) (i rmin rmax : Z) :
  mas_node mas = b + 76 -> mas_max mas = ULONG_MAX ->
  mas_index mas = i -> mas_offset mas = 0 ->
  0 <= i <= last ->
  mas_node_walk (MkWorld h bk av f (b + 78) t) mas maple_leaf_64 rmin rmax
  = Some (MkWalk true (mas_set_offset 0 mas) (mas_min mas) last).
Proof.
  intros Hn Hm Hi Ho Hr.
  rewrite mas_node_walk_64 by reflexivity. rewrite Ho.
  change (Z.to_nat (mt_slots maple_leaf_64 - 0)) with (S 15).
  rewrite mas_node_walk_loop_unfold.
  rewrite (proj2 (leaf_safe_pivot (MkWorld h bk av f (b + 78) t) b 0 last
                    l mas Hb Hh Hn ltac:(lia) L1
                    ltac:(unfold ULONG_MAX in *; lia))).
  rewrite Hi. bsimpl. reflexivity.
Qed.

Lemma first_range_range_load (i : Z) :
  0 <= i <= last ->
  mas_range_load RETRIES (MkWorld h bk av f (b + 78) t) (MA_STATE i i) 0 0
  = Some (entry,
          MkWalk true (MkMas i i (b + 76) 0 ULONG_MAX 0 0 0 1) 0 last).
Proof.
  intros Hr. destruct (leaf_enode_facts b Hb) as (Hto & Hty & _).
  destruct (leaf_not_special b Hb) as (Hnn & Hnr & _).
  change RETRIES with (S 3). rewrite mas_range_load_unfold.
  unfold _mas_range_walk, MA_STATE.
  rewrite (mas_start_at_root _ b) by (try assumption; try reflexivity; lia).
  bsimpl. unfold mas_is_none, mas_is_ptr. cursor. rewrite Hnn, Hnr.
  cbv iota. rewrite mas_set_offset_mk by lia.
  change TREE_DEPTH with (S 31). rewrite __mas_walk_unfold. cbv zeta.
  cursor. rewrite Hty. change (u8 (0 + 1)) with 1.
  rewrite (first_range_node_walk _ i)
    by (try reflexivity; try assumption; apply mas_offset_mk; lia).
  cursor. cbn [negb]. cbv iota.
  change (ma_is_leaf (type_code maple_leaf_64)) with true. cbv iota.
  cbv beta zeta. cursor. rewrite mas_set_offset_mk by lia. cursor.
  rewrite Hnr. cbn [andb]. cbv iota.
  rewrite mas_offset_mk by lia.
  change (MAPLE_NODE_SLOTS <=? 0) with false. cbv iota.
  rewrite first_range_slot by (try reflexivity; lia).
  change (l !! Z.to_nat (16 + 0)) with (l !! 16%nat). rewrite L16.
  rewrite first_range_dead. cbv iota. unfold mas_is_none. cursor.
  rewrite Hnn. reflexivity.
Qed.

Lemma first_range_wr_walk (d : Z) :
  mas_wr_walk (MkWorld h bk av f (b + 78) t)
    (MkMas 0 last (b + 76) 0 ULONG_MAX 0 0 0 d) 0 0 0
  = Some (MkWalk true (MkMas 0 last (b + 76) 0 ULONG_MAX 0 0 0 1) 0 last).
Proof.
  destruct (leaf_enode_facts b Hb) as (Hto & Hty & _).
  destruct (leaf_type_code b Hb) as (Htc & Hleaf).
  unfold mas_wr_walk. cursor. change TREE_DEPTH with (S 31).
  rewrite mas_wr_walk_loop_unfold. cursor. rewrite Hty. cbv zeta.
  change (u8 (0 + 1)) with 1.
  rewrite (mas_data_end_one _ b last l)
    by (try assumption; try reflexivity; cursor; unfold ULONG_MAX in *;
        lia).
  rewrite (first_range_node_walk _ 0)
    by (try reflexivity; try lia; apply mas_offset_mk; lia).
  cursor. cbn [negb]. cbv iota.
  rewrite mas_set_offset_mk by lia.
  unfold mas_is_span_wr. cursor. rewrite Hleaf.
  unfold ULONG_MAX in *. bsimpl.
  change (ma_is_leaf (type_code maple_leaf_64)) with true. cbv iota.
  reflexivity.
Qed.

(** mas_extend_null for a store of NULL over the stored range: the
    zero pivot of the empty range that follows becomes the end of the
    store. *)
Lemma first_range_extend_null :
  mas_extend_null (MkWorld h bk av f (b + 78) t) true
    (MkMas 0 last (b + 76) 0 ULONG_MAX 0 0 0 1)
    (MkMas 0 last (b + 76) 0 ULONG_MAX 0 0 0 1)
  = Some (MkMas 0 0 (b + 76) 0 ULONG_MAX 0 0 0 1,
          MkMas 0 0 (b + 76) 0 ULONG_MAX 0 0 0 1).
Proof.
  unfold mas_extend_null. cbv zeta.
  rewrite !mas_offset_mk by lia.
  rewrite first_range_slot by (try reflexivity; lia).
  change (l !! Z.to_nat (16 + 0)) with (l !! 16%nat). rewrite L16.
  rewrite (first_range_pivot _ 0 last)
    by (try reflexivity; try assumption; unfold ULONG_MAX in *; lia).
  bsimpl. cursor. bsimpl.
  rewrite first_range_slot by (try reflexivity; lia).
  change (l !! Z.to_nat (16 + 0)) with (l !! 16%nat). rewrite L16.
  bsimpl. cursor. unfold ULONG_MAX in *. bsimpl.
  rewrite first_range_slot by (try reflexivity; lia).
  change (l !! Z.to_nat (16 + (0 + 1))) with (l !! 17%nat). rewrite L17.
  bsimpl.
  rewrite (first_range_pivot _ (0 + 1) 0)
    by (try reflexivity; try assumption; lia).
  cursor. bsimpl. cursor. reflexivity.
Qed.

(** The big node for that store: index 0 emptied, the entry kept from
    1 to [last]. *)
Lemma first_range_store_b_node :
  mas_store_b_node (MkWorld h bk av f (b + 78) t)
    (MkMas 0 0 (b + 76) 0 ULONG_MAX 0 0 0 1) big_node_zero 0
  = Some (1, MkBig (0 :: entry :: replicate 32 0)
               (0 :: last :: replicate 31 0) (replicate 34 0) 0 0 0).
Proof.
  unfold mas_store_b_node. cbv zeta.
  rewrite mas_offset_mk by lia.
  rewrite (mas_data_end_one _ b last l)
    by (try assumption; try reflexivity; cursor; unfold ULONG_MAX in *;
        lia).
  rewrite first_range_slot by (try reflexivity; lia).
  change (l !! Z.to_nat (16 + 0)) with (l !! 16%nat). rewrite L16.
  cursor. change (nonzero 0) with false. cbv iota beta.
  change (u64 (u64 (0 - 1) + 1) <? 0) with false. cbv iota beta.
  change (bn_set_slot 0 0 big_node_zero) with (Some big_node_zero).
  cbv iota beta.
  change (bn_set_pivot 0 0 big_node_zero) with (Some big_node_zero).
  cbv iota beta.
  rewrite (first_range_pivot _ 0 last)
    by (try reflexivity; try assumption; unfold ULONG_MAX in *; lia).
  unfold ULONG_MAX in *. bsimpl.
  change (u8 (0 + 1)) with 1.
  change (bn_set_slot 1 entry big_node_zero)
    with (Some (MkBig (0 :: entry :: replicate 32 0) (replicate 33 0)
                  (replicate 34 0) 0 0 0)).
  cbv iota beta.
  change (bn_set_pivot 1 last
            (MkBig (0 :: entry :: replicate 32 0) (replicate 33 0)
               (replicate 34 0) 0 0 0))
    with (Some (MkBig (0 :: entry :: replicate 32 0)
                  (0 :: last :: replicate 31 0) (replicate 34 0) 0 0 0)).
  cbv iota beta. bsimpl.
  change 256%nat with (S 255). rewrite mas_store_b_node_skip_unfold.
  cbv zeta. change (u8 (0 + 1)) with 1.
  rewrite (first_range_pivot _ 1 0) by (try reflexivity; try assumption; lia).
  cursor. bsimpl. reflexivity.
Qed.

Hypothesis Hbk : bk mod 128 = 0.
Hypothesis Hbk4 : 4096 <= bk.
Hypothesis Hne : b <> bk.
Hypothesis Hrcu : mas_in_rcu f = true.

(** The leaf that replaces the old one. *)
Lemma first_range_mab_mas_cp (n : nat) (i la mn mx sp fc d : Z) :
  mab_mas_cp
    (MkBig (0 :: entry :: replicate 32 0) (0 :: last :: replicate 31 0)
       (replicate 34 0) 0 1 (type_code maple_leaf_64))
    0 1 (MkMas i la (bk + 76) mn mx 0 sp fc d)
    (MkWorld (<[bk := <[0%nat := Z.lor t MA_ROOT_PARENT]>
                         (replicate NODE_WORDS 0)]> h)
       (bk + NODE_SIZE) n f (b + 78) t)
  = Some (MkMas i la (bk + 76) mn last 0 sp fc d,
          MkWorld (<[bk := <[2%nat := last]>
                             (<[17%nat := entry]>
                                (<[0%nat := Z.lor t MA_ROOT_PARENT]>
                                   (replicate NODE_WORDS 0)))]> h)
            (bk + NODE_SIZE) n f (b + 78) t).
Proof.
  destruct (leaf_enode_facts bk Hbk) as (_ & Hty2 & _).
  unfold mab_mas_cp. cursor. rewrite Hty2.
  change (Z.to_nat (1 - 0 + 1)) with 2%nat.
  rewrite mab_mas_cp_loop_unfold.
  change (bn_get_pivot _ 0) with (Some 0).
  change (bn_get_slot _ 0) with (Some 0). cbv beta iota.
  change (nonzero 0) with false. cbn [andb]. cbv iota zeta.
  rewrite (mab_mas_cp_step h bk _ n f (b + 78) t _ 0 0 0)
    by (try assumption; try reflexivity; lia).
  rewrite mab_mas_cp_loop_unfold.
  change (bn_get_pivot _ (0 + 1)) with (Some last).
  change (bn_get_slot _ (0 + 1)) with (Some entry). cbv beta iota.
  unfold ULONG_MAX in *. bsimpl. cbv zeta.
  rewrite (mab_mas_cp_step h bk _ n f (b + 78) t _ (0 + 1) last entry)
    by (try assumption; try reflexivity; lia).
  cbn [mab_mas_cp_loop]. unfold mret. cursor.
  do 4 f_equal.
Qed.

(** The store of NULL that mas_erase issues for the stored range. *)
Lemma first_range_store_null (n : nat) :
  av = S n ->
  _mas_store (MkMas 0 last MAS_START 0 ULONG_MAX 0 0 0 1) 0 true
    (MkWorld h bk av f (b + 78) t)
  = Some ((entry, MkMas 0 0 (bk + 76) 0 last 0 0 (-1) 1),
          MkWorld (<[b := <[0%nat := b]> l]>
                     (<[bk := <[2%nat := last]>
                                (<[17%nat := entry]>
                                   (<[0%nat := Z.lor t MA_ROOT_PARENT]>
                                      (replicate NODE_WORDS 0)))]> h))
            (bk + NODE_SIZE) n
            (u32 (Z.lor (u32 (clear_bits f MAPLE_HEIGHT_MASK))
                    (Z.shiftl 1 MAPLE_HEIGHT_OFFSET)))
            (bk + 78) t).
Proof.
  intros Hav.
  destruct (leaf_enode_facts b Hb) as (Hto & Hty & _).
  destruct (leaf_type_code b Hb) as (Htc & Hleaf).
  destruct (leaf_not_special b Hb) as (Hnn & Hnr & _ & Herr).
  unfold _mas_store. rewrite mbind_eq. unfold mget at 1. cbv beta iota.
  rewrite (mas_start_at_root _ b) by (try assumption; try reflexivity; lia).
  cbv beta iota. unfold mas_is_none. cursor. rewrite Hnn, Hnr.
  change (nonzero 0) with false. cbn [orb]. cbv iota.
  unfold _mas_store_walk. rewrite mbind_eq, mread_eq.
  rewrite first_range_wr_walk. cbv beta iota zeta. cursor.
  cbn [negb andb]. cbv iota. change (nonzero 0) with false. cbv iota.
  rewrite Hty. rewrite mas_offset_mk by lia.
  rewrite mbind_eq, mread_eq.
  rewrite first_range_slot by (try reflexivity; lia).
  change (l !! Z.to_nat (16 + 0)) with (l !! 16%nat). rewrite L16.
  cbv beta iota. cbn [negb andb]. cbv iota.
  change (0 =? 0) with true. cbv iota.
  rewrite mbind_eq, mbind_eq, mread_eq.
  rewrite first_range_extend_null. cbv beta iota. unfold mret at 1.
  cbv beta iota. cursor.
  rewrite mas_offset_mk by lia. rewrite mas_set_offset_mk by lia.
  rewrite mbind_eq, mread_eq, first_range_store_b_node.
  cbv beta iota. cursor.
  rewrite mbind_eq, mread_eq.
  rewrite (mas_data_end_one _ b last l)
    by (try assumption; try reflexivity; cursor; unfold ULONG_MAX in *;
        lia).
  cbv beta iota. rewrite mbind_eq, mread_eq.
  rewrite Htc.
  cbv beta iota delta [bn_set_end bn_set_min bn_set_type bn_slot bn_pivot
                       bn_gap bn_min b_end bn_type].
  unfold mas_can_append. cbv beta iota delta [b_end]. cursor.
  change (mt_slots maple_leaf_64) with 16.
  change (16 <=? 1) with false. change (1 <=? 0) with false.
  change (0 =? 0) with true.
  cbv beta iota. cbn [andb]. cbv iota.
  change (1 <? mt_min_slots maple_leaf_64) with true. cbv iota.
  unfold mas_cnt_empty. cursor. change (0 <? 0) with false. cbv iota.
  cursor. change (0 - 1) with (-1).
  rewrite mbind_eq. rewrite Hav.
  rewrite (mas_commit_b_node_root_leaf h bk n f t b l
             (<[2%nat := last]>
                (<[17%nat := entry]>
                   (<[0%nat := Z.lor t MA_ROOT_PARENT]>
                      (replicate NODE_WORDS 0))))
             _ 0 0 0 0 ULONG_MAX 0 (-1) 1
             (MkMas 0 0 (bk + 76) 0 last 0 0 (-1) 1));
    try assumption; try lia.
  - cbv beta iota. cursor. change (2 =? 0) with false. cbv iota.
    reflexivity.
  - cbn [b_end]. lia.
  - cbn [b_end]. apply first_range_mab_mas_cp.
  - reflexivity.
  - reflexivity.
Qed.

(** mtree_erase of an index of the stored range. *)
Lemma first_range_erase (n : nat) (i : Z) :
  av = S n -> 0 <= i <= last ->
  mtree_erase i (MkWorld h bk av f (b + 78) t)
  = Some (entry,
          MkWorld (<[b := <[0%nat := b]> l]>
                     (<[bk := <[2%nat := last]>
                                (<[17%nat := entry]>
                                   (<[0%nat := Z.lor t MA_ROOT_PARENT]>
                                      (replicate NODE_WORDS 0)))]> h))
            (bk + NODE_SIZE) n
            (u32 (Z.lor (u32 (clear_bits f MAPLE_HEIGHT_MASK))
                    (Z.shiftl 1 MAPLE_HEIGHT_OFFSET)))
            (bk + 78) t).
Proof.
  intros Hav Hi.
  destruct (leaf_not_special bk Hbk) as (_ & _ & Hne2 & _).
  unfold mtree_erase, mas_erase. rewrite mbind_eq, mbind_eq, mread_eq.
  rewrite (first_range_range_load i Hi). cbv beta iota. cursor.
  rewrite mbind_eq. change RETRY_FUEL with (S 3).
  rewrite mas_erase_retry_unfold. cbv zeta. cursor.
  rewrite mbind_eq, (first_range_store_null n Hav). cbv beta iota. cursor.
  rewrite mbind_eq.
  rewrite mas_nomem_no_pool.
  - reflexivity.
  - cursor. intros E. rewrite E in Hne2. discriminate Hne2.
  - reflexivity.
Qed.

End one_leaf_first_range.

(** A tree of height 1 counts as in RCU mode: bit 2 of the flags is the
    low bit of the height. *)
Lemma flags_height_1_in_rcu (f : Z) : mas_in_rcu (flags_height_1 f) = true.
Proof.
  unfold mas_in_rcu, flags_height_1, MAPLE_USE_RCU, MAPLE_HEIGHT_OFFSET.
  change (Z.shiftl 1 2) with 4.
  set (x := u32 (clear_bits f MAPLE_HEIGHT_MASK)).
  assert (B : Z.testbit (Z.land (u32 (Z.lor x 4)) 4) 2 = true).
  { rewrite Z.land_spec. unfold u32.
    rewrite Z.mod_pow2_bits_low by lia.
    rewrite Z.lor_spec. change (Z.testbit 4 2) with true.
    rewrite orb_true_r. reflexivity. }
  unfold nonzero.
  destruct (Z.eqb_spec (Z.land (u32 (Z.lor x 4)) 4) 0) as [E|]; [|reflexivity].
  rewrite E in B. rewrite Z.bits_0 in B. discriminate B.
Qed.

Lemma next_node_aligned (b : Z) : b mod 128 = 0 -> (b + NODE_SIZE) mod 128 = 0.
Proof.
  intros H. unfold NODE_SIZE. rewrite <- Z.add_mod_idemp_l by lia.
  rewrite H. reflexivity.
Qed.

(** After a store of an entry over [index, last] with index > 1 in an
    empty tree, mtree_erase of any index of that range returns the entry
    and leaves every index empty. *)
Theorem mtree_erase_stored_range (w : world) (index last entry i : Z) :
  ma_root w = 0 -> (2 <= avail w)%nat ->
  brk w mod 128 = 0 -> 4096 <= brk w ->
  mte_to_node (tree_addr w) <> brk w ->
  mte_to_node (tree_addr w) <> brk w + NODE_SIZE ->
  xa_is_advanced entry = false -> entry <> 0 ->
  1 < index <= last -> last < ULONG_MAX ->
  index <= i <= last ->
  mtree_store_range index last entry w
  = Some (0, root_leaf_world w index last entry)
  /\ exists w',
       mtree_erase i (root_leaf_world w index last entry) = Some (entry, w')
       /\ forall j, 0 <= j <= ULONG_MAX -> mtree_load w' j = Some 0.
Proof.
  intros Hr Hav Hb Hb4 Hta Hta2 Hadv Hent Hidx Hlast Hi.
  split.
  { unfold mtree_store_range. rewrite Hadv.
    destruct (Z.ltb_spec last index); [lia|]. rewrite mbind_eq.
    assert (Ha : avail w <> O) by lia.
    assert (Hz : brk w <> 0) by lia.
    assert (Hl' : 0 < last < 2 ^ 64) by (unfold ULONG_MAX in Hlast; lia).
    assert (Hi' : 0 <= index <= last) by lia.
    destruct (mas_store_retry_empty w index last entry true Hr Ha Hb Hz Hi'
                Hl') as (mas & -> & ->). reflexivity. }
  destruct w as [h0 b0 av0 f0 r0 t0].
  cbn [ma_root avail brk tree_addr] in *.
  destruct av0 as [|[|n]]; [inversion Hav | inversion Hav; lia |].
  destruct (leaf_enode_facts b0 Hb) as (_ & _ & Hmk & _).
  unfold root_leaf_world. cbn [heap brk avail ma_flags ma_root tree_addr].
  rewrite mt_mk_node_leaf, Hmk by exact Hb.
  pose proof (next_node_aligned b0 Hb) as Hbk.
  assert (Hw : forall k v,
            (<[2%nat := last]> (<[17%nat := entry]> (<[1%nat := index - 1]>
               (<[0%nat := Z.lor t0 MA_ROOT_PARENT]>
                  (replicate NODE_WORDS 0))))) !! k = v ->
            root_leaf_words t0 index last entry !! k = v).
  { intros k v E. unfold root_leaf_words.
    destruct (Z.ltb_spec 1 index); [exact E | lia]. }
  rewrite (two_ranges_erase
             (<[b0 := root_leaf_words t0 index last entry]> h0)
             (b0 + NODE_SIZE) (Nat.pred (S (S n))) (flags_height_1 f0) t0 b0
             (root_leaf_words t0 index last entry) index last entry)
    with (n := n);
    try assumption; try (apply Hw; reflexivity); try reflexivity;
    try (unfold NODE_SIZE; lia).
  2:{ apply lookup_insert_eq. }
  2:{ apply flags_height_1_in_rcu. }
  eexists. split; [reflexivity|].
  intros j Hj.
  rewrite (one_range_loads _ (b0 + NODE_SIZE) t0
             (<[1%nat := ULONG_MAX]>
                (<[0%nat := Z.lor t0 MA_ROOT_PARENT]>
                   (replicate NODE_WORDS 0))) Hbk)
    with (s := 0);
    try assumption; try reflexivity; try (unfold NODE_SIZE; lia).
  cbn [heap]. rewrite lookup_insert_ne by (unfold NODE_SIZE; lia).
  apply lookup_insert_eq.
Qed.

Lemma mtree_erase_stored_range_witness :
  exists w',
    mtree_erase 15 (root_leaf_world empty_tree 10 20 entry_A)
    = Some (entry_A, w')
    /\ mtree_load w' 15 = Some 0.
Proof.
  assert (P1 : ma_root empty_tree = 0) by (vm_compute; reflexivity).
  assert (P2 : (2 <= avail empty_tree)%nat) by (vm_compute; lia).
  assert (P3 : brk empty_tree mod 128 = 0) by (vm_compute; reflexivity).
  assert (P4 : 4096 <= brk empty_tree) by (vm_compute; discriminate).
  assert (P5 : mte_to_node (tree_addr empty_tree) <> brk empty_tree)
    by (vm_compute; discriminate).
  assert (P6 : mte_to_node (tree_addr empty_tree)
               <> brk empty_tree + NODE_SIZE) by (vm_compute; discriminate).
  assert (A1 : xa_is_advanced entry_A = false) by (vm_compute; reflexivity).
  assert (A2 : entry_A <> 0) by (vm_compute; discriminate).
  assert (U : 20 < ULONG_MAX) by (vm_compute; reflexivity).
  destruct (mtree_erase_stored_range empty_tree 10 20 entry_A 15
              P1 P2 P3 P4 P5 P6 A1 A2 ltac:(lia) U ltac:(lia))
    as (_ & w' & He & Hl).
  exists w'. split; [exact He|]. apply Hl. unfold ULONG_MAX. lia.
Defined.

(** After a store of an entry over [index, last] with index 0 or 1 in an
    empty tree (the leaf then holds the entry from index 0 on),
    mtree_erase of an index of that range returns the entry but empties
    index 0 only: the indices from 1 to [last] still load the entry. *)
Theorem mtree_erase_first_range (w : world) (index last entry i : Z) :
  ma_root w = 0 -> (2 <= avail w)%nat ->
  brk w mod 128 = 0 -> 4096 <= brk w ->
  mte_to_node (tree_addr w) <> brk w ->
  mte_to_node (tree_addr w) <> brk w + NODE_SIZE ->
  xa_is_advanced entry = false -> entry <> 0 ->
  0 <= index <= 1 -> index <= last -> 0 < last < ULONG_MAX ->
  0 <= i <= last ->
  mtree_store_range index last entry w
  = Some (0, root_leaf_world w index last entry)
  /\ exists w',
       mtree_erase i (root_leaf_world w index last entry) = Some (entry, w')
       /\ mtree_load w' 0 = Some 0
       /\ (forall j, 1 <= j <= last ->
             mtree_load w' j = Some (if xa_is_zero entry then 0 else entry))
       /\ (forall j, last < j <= ULONG_MAX -> mtree_load w' j = Some 0).
Proof.
  intros Hr Hav Hb Hb4 Hta Hta2 Hadv Hent Hidx Hil Hlast Hi.
  split.
  { unfold mtree_store_range. rewrite Hadv.
    destruct (Z.ltb_spec last index); [lia|]. rewrite mbind_eq.
    assert (Ha : avail w <> O) by lia.
    assert (Hz : brk w <> 0) by lia.
    assert (Hl' : 0 < last < 2 ^ 64) by (unfold ULONG_MAX in Hlast; lia).
    assert (Hi' : 0 <= index <= last) by lia.
    destruct (mas_store_retry_empty w index last entry true Hr Ha Hb Hz Hi'
                Hl') as (mas & -> & ->). reflexivity. }
  destruct w as [h0 b0 av0 f0 r0 t0].
  cbn [ma_root avail brk tree_addr] in *.
  destruct av0 as [|[|n]]; [inversion Hav | inversion Hav; lia |].
  destruct (leaf_enode_facts b0 Hb) as (_ & _ & Hmk & _).
  unfold root_leaf_world. cbn [heap brk avail ma_flags ma_root tree_addr].
  rewrite mt_mk_node_leaf, Hmk by exact Hb.
  pose proof (next_node_aligned b0 Hb) as Hbk.
  assert (Hw : forall k v,
            (<[1%nat := last]> (<[16%nat := entry]>
               (<[0%nat := Z.lor t0 MA_ROOT_PARENT]>
                  (replicate NODE_WORDS 0)))) !! k = v ->
            root_leaf_words t0 index last entry !! k = v).
  { intros k v E. unfold root_leaf_words.
    destruct (Z.ltb_spec 1 index); [lia | exact E]. }
  rewrite (first_range_erase
             (<[b0 := root_leaf_words t0 index last entry]> h0)
             (b0 + NODE_SIZE) (Nat.pred (S (S n))) (flags_height_1 f0) t0 b0
             (root_leaf_words t0 index last entry) last entry)
    with (n := n);
    try assumption; try (apply Hw; reflexivity); try reflexivity;
    try (unfold NODE_SIZE; lia).
  2:{ apply lookup_insert_eq. }
  2:{ apply flags_height_1_in_rcu. }
  eexists. split; [reflexivity|].
  set (w' := MkWorld _ _ _ _ _ _).
  assert (L : forall j, 0 <= j <= ULONG_MAX ->
            mtree_load w' j
            = Some (let e := if j <=? 0 then 0
                             else if j <=? last then entry else 0 in
                    if xa_is_zero e then 0 else e)).
  { intros j Hj.
    apply (three_ranges_loads w' (b0 + NODE_SIZE) t0
             (<[2%nat := last]>
                (<[17%nat := entry]>
                   (<[0%nat := Z.lor t0 MA_ROOT_PARENT]>
                      (replicate NODE_WORDS 0)))) Hbk);
      try assumption; try reflexivity; try lia;
      try (unfold NODE_SIZE; lia).
    unfold w'. cbn [heap].
    rewrite lookup_insert_ne by (unfold NODE_SIZE; lia).
    apply lookup_insert_eq. }
  split; [|split].
  - rewrite L by (unfold ULONG_MAX; lia). reflexivity.
  - intros j Hj. rewrite L by (unfold ULONG_MAX in *; lia). cbv zeta.
    destruct (Z.leb_spec j 0); [lia|].
    destruct (Z.leb_spec j last); [reflexivity | lia].
  - intros j Hj. rewrite L by lia. cbv zeta.
    destruct (Z.leb_spec j 0); [lia|].
    destruct (Z.leb_spec j last); [lia | reflexivity].
Qed.

Lemma mtree_erase_first_range_witness :
  exists w',
    mtree_erase 15 (root_leaf_world empty_tree 0 20 entry_A)
    = Some (entry_A, w')
    /\ mtree_load w' 0 = Some 0
    /\ mtree_load w' 15 = Some entry_A.
Proof.
  assert (P1 : ma_root empty_tree = 0) by (vm_compute; reflexivity).
  assert (P2 : (2 <= avail empty_tree)%nat) by (vm_compute; lia).
  assert (P3 : brk empty_tree mod 128 = 0) by (vm_compute; reflexivity).
  assert (P4 : 4096 <= brk empty_tree) by (vm_compute; discriminate).
  assert (P5 : mte_to_node (tree_addr empty_tree) <> brk empty_tree)
    by (vm_compute; discriminate).
  assert (P6 : mte_to_node (tree_addr empty_tree)
               <> brk empty_tree + NODE_SIZE) by (vm_compute; discriminate).
  assert (A1 : xa_is_advanced entry_A = false) by (vm_compute; reflexivity).
  assert (A2 : entry_A <> 0) by (vm_compute; discriminate).
  assert (U : 0 < 20 < ULONG_MAX) by (vm_compute; split; reflexivity).
  destruct (mtree_erase_first_range empty_tree 0 20 entry_A 15
              P1 P2 P3 P4 P5 P6 A1 A2 ltac:(lia) ltac:(lia) U ltac:(lia))
    as (_ & w' & He & H0 & Hin & _).
  exists w'. split; [exact He|]. split; [exact H0|].
  rewrite (Hin 15) by lia. vm_compute. reflexivity.
Defined.

(** ** A second store into the root leaf *)

(** The value written in an eight-byte field over an eight-byte value. *)
Lemma field_value_over (x v : Z) :
  0 <= x < 2 ^ 64 -> 0 <= v < 2 ^ 64 ->
  Z.lor (clear_bits x (Z.shiftl (Z.ones (8 * 8)) (8 * 0)))
    (Z.shiftl (Z.land v (Z.ones (8 * 8))) (8 * 0)) = v.
Proof.
  intros Hx Hv. change (8 * 0) with 0. rewrite !Z.shiftl_0_r.
  change (8 * 8) with 64. unfold clear_bits.
  rewrite <- (Z.mod_small x (2 ^ 64)) at 1 by exact Hx.
  rewrite <- Z.land_ones by lia.
  rewrite <- Z.land_assoc, Z.land_lnot_diag, Z.land_0_r, Z.lor_0_l.
  rewrite Z.land_ones by lia. apply Z.mod_small. exact Hv.
Qed.

Lemma wr_pivot_over (h : gmap Z (list Z)) (b : Z) (a : nat)
    (f r t n k x v : Z) (l : list Z) :
  0 <= k < 15 -> l !! Z.to_nat (1 + k) = Some x ->
  0 <= x < 2 ^ 64 -> 0 <= v < 2 ^ 64 ->
  wr_field n (8 + 8 * k) 8 v (MkWorld (<[n := l]> h) b a f r t)
  = Some (tt, MkWorld (<[n := <[Z.to_nat (1 + k) := v]> l]> h) b a f r t).
Proof.
  intros Hk Hl Hx Hv. unfold wr_field. rewrite mbind_eq, mread_eq.
  replace ((8 + 8 * k) / 8) with (1 + k)
    by (replace (8 + 8 * k) with ((1 + k) * 8) by lia;
        rewrite Z.div_mul; lia).
  replace ((8 + 8 * k) mod 8) with 0
    by (replace (8 + 8 * k) with ((1 + k) * 8) by lia;
        rewrite Z.mod_mul; lia).
  rewrite rd_word_mk by (unfold NODE_WORDS; lia). rewrite Hl.
  rewrite wr_word_mk by (unfold NODE_WORDS; lia).
  rewrite field_value_over by assumption. reflexivity.
Qed.

Lemma mas_append_loop_unfold (n : nat) (mas : ma_state)
    (b_node : maple_big_node) (slot slot_cnt end_ : Z) :
  mas_append_loop (S n) mas b_node slot slot_cnt end_
  = match bn_get_slot b_node slot, bn_get_pivot b_node slot with
    | Some s, Some p =>
      mte_set_rcu_slot (mas_node mas) slot s ;;;
      (if slot <? slot_cnt - 1 then mte_set_pivot (mas_node mas) slot p
       else mret tt) ;;;
      if nonzero slot && (end_ <=? slot)
      then mas_append_loop n mas b_node (u8 (slot - 1)) slot_cnt end_
      else mret tt
    | _, _ => mfail
    end.
Proof. reflexivity. Qed.

Lemma mas_mab_cp_loop_unfold (n : nat) (w : world) (mas : ma_state)
    (t : maple_type) (i j : Z) (b : maple_big_node) :
  mas_mab_cp_loop (S n) w mas t i j b
  = (s <-? mas_get_rcu_slot w mas i ;;
     b <-? bn_set_slot j s b ;;
     b <-? (if negb (mte_is_leaf (mas_node mas)) && mt_is_alloc (ma_flags w)
            then g <-? mte_get_gap w (mas_node mas) i ;; bn_set_gap j g b
            else Some b) ;;
     if i <? mt_pivots t then
       p <-? mas_get_safe_pivot w mas i ;;
       b <-? bn_set_pivot j p b ;;
       if (nonzero j && (p =? 0)) || (mas_max mas =? p)
       then Some (b, j + 1)
       else mas_mab_cp_loop n w mas t (i + 1) (j + 1) b
     else
       b <-? bn_set_pivot j (mas_max mas) b ;;
       Some (b, j + 1)).
Proof. reflexivity. Qed.

(** One round of the append loop in a leaf: the slot, then the pivot. *)
Lemma mas_append_step (h : gmap Z (list Z)) (bk b' : Z) (a : nat)
    (f r t : Z) (l : list Z) (k p s x : Z) (c : M unit) :
  bk mod 128 = 0 -> 0 <= k < 15 -> 0 <= p < 2 ^ 64 ->
  l !! Z.to_nat (1 + k) = Some x -> 0 <= x < 2 ^ 64 ->
  (mte_set_rcu_slot (bk + 76) k s ;;;
   (if k <? 16 - 1 then mte_set_pivot (bk + 76) k p else mret tt) ;;;
   c)
    (MkWorld (<[bk := l]> h) b' a f r t)
  = c (MkWorld (<[bk := <[Z.to_nat (1 + k) := p]>
                           (<[Z.to_nat (16 + k) := s]> l)]> h) b' a f r t).
Proof.
  intros Hbk Hk Hp Hl Hx.
  rewrite mbind_eq, (mte_set_rcu_slot_leaf bk Hbk) by lia.
  rewrite wr_word_mk by (unfold NODE_WORDS; lia).
  change (16 - 1) with 15.
  destruct (Z.ltb_spec k 15); [|lia].
  rewrite mbind_eq, (mte_set_pivot_leaf bk Hbk) by lia.
  rewrite (wr_pivot_over _ _ _ _ _ _ _ k x) by
    (try assumption; rewrite list_lookup_insert_ne by lia; exact Hl).
  reflexivity.
Qed.

Section one_leaf_append.

(** A tree of one leaf at [b]: nothing below [index], the entry from
    [index] to [last], nothing above; a store of [e2] over [i2, l2]
    above [last + 1] and below ULONG_MAX. *)
Variables (h : gmap Z (list Z)) (bk : Z) (av : nat) (f t b : Z).
Variables (l : list Z) (index last entry i2 l2 e2 : Z).

Hypothesis Hb : b mod 128 = 0.
Hypothesis Hb4 : 4096 <= b.
Hypothesis Hta : mte_to_node t <> b.
Hypothesis L0 : l !! 0%nat = Some (Z.lor t MA_ROOT_PARENT).
Hypothesis L1 : l !! 1%nat = Some (index - 1).
Hypothesis L2 : l !! 2%nat = Some last.
Hypothesis L3 : l !! 3%nat = Some 0.
Hypothesis L4 : l !! 4%nat = Some 0.
Hypothesis L16 : l !! 16%nat = Some 0.
Hypothesis L17 : l !! 17%nat = Some entry.
Hypothesis L18 : l !! 18%nat = Some 0.
Hypothesis Hidx : 1 < index <= last.
Hypothesis Hi2 : last + 1 < i2 <= l2.
Hypothesis Hl2 : l2 < ULONG_MAX.
Hypothesis He2 : e2 <> 0.

Lemma append_heap :
  heap (MkWorld (<[b := l]> h) bk av f (b + 78) t) !! b = Some l.
Proof. apply lookup_insert_eq. Qed.

Lemma append_pivot (mas : ma_state) (k v : Z) :
  mas_node mas = b + 76 -> 0 <= k < 15 ->
  l !! Z.to_nat (1 + k) = Some v -> 0 <= v < 2 ^ 64 ->
  mas_get_safe_pivot (MkWorld (<[b := l]> h) bk av f (b + 78) t) mas k
  = Some v.
Proof.
  intros Hn Hk Hl Hv.
  apply (leaf_safe_pivot
           (MkWorld (<[b := l]> h) bk av f (b + 78) t) b k v l
           mas Hb append_heap Hn Hk Hl Hv).
Qed.

Lemma append_pivot_t (mas : ma_state) (k v : Z) :
  mas_node mas = b + 76 -> 0 <= k < 15 ->
  l !! Z.to_nat (1 + k) = Some v -> 0 <= v < 2 ^ 64 ->
  _mas_get_safe_pivot (MkWorld (<[b := l]> h) bk av f (b + 78) t) mas k
    maple_leaf_64 = Some v.
Proof.
  intros Hn Hk Hl Hv.
  apply (leaf_safe_pivot
           (MkWorld (<[b := l]> h) bk av f (b + 78) t) b k v l
           mas Hb append_heap Hn Hk Hl Hv).
Qed.

Lemma append_slot (mas : ma_state) (k : Z) :
  mas_node mas = b + 76 -> 0 <= k < 16 ->
  mas_get_rcu_slot (MkWorld (<[b := l]> h) bk av f (b + 78) t) mas k
  = l !! Z.to_nat (16 + k).
Proof.
  intros Hn Hk. apply (leaf_rcu_slot (MkWorld (<[b := l]> h) bk av f (b + 78) t)
           b k l mas Hb append_heap Hn Hk).
Qed.

Lemma append_data_end (mas : ma_state) :
  mas_node mas = b + 76 -> mas_max mas = ULONG_MAX ->
  mas_data_end (MkWorld (<[b := l]> h) bk av f (b + 78) t) mas = Some 1.
Proof.
  intros Hn Hm.
  apply (mas_data_end_two (MkWorld (<[b := l]> h) bk av f (b + 78) t)
           b (index - 1) last l mas Hb append_heap Hn
           L1 L2 L3); rewrite Hm; unfold ULONG_MAX in *; lia.
Qed.

(** The walk of the leaf for the first index of the store: it ends in
    the empty range after [last]. *)
Lemma append_node_walk (mas : ma_state) (rmin rmax : Z) :
  mas_node mas = b + 76 -> mas_max mas = ULONG_MAX ->
  mas_index mas = i2 -> mas_offset mas = 0 ->
  mas_node_walk (MkWorld (<[b := l]> h) bk av f (b + 78) t) mas
    maple_leaf_64 rmin rmax
  = Some (MkWalk true (mas_set_offset 2 mas) (last + 1) ULONG_MAX).
Proof.
  intros Hn Hm Hi Ho.
  rewrite mas_node_walk_64 by reflexivity. rewrite Ho.
  change (Z.to_nat (mt_slots maple_leaf_64 - 0)) with (S (S (S 13))).
  rewrite mas_node_walk_loop_unfold.
  rewrite (append_pivot_t mas 0 (index - 1))
    by (try assumption; unfold ULONG_MAX in *; lia).
  rewrite Hi. bsimpl.
  rewrite mas_node_walk_loop_unfold.
  rewrite (append_pivot_t mas (0 + 1) last)
    by (try assumption; unfold ULONG_MAX in *; lia).
  rewrite Hi. bsimpl.
  rewrite mas_node_walk_loop_unfold.
  rewrite (append_pivot_t mas (0 + 1 + 1) 0)
    by (try assumption; lia).
  rewrite Hi, Hm. unfold ULONG_MAX in *. bsimpl.
  rewrite (u64_small (last + 1)) by lia. reflexivity.
Qed.

Lemma append_wr_walk (d : Z) :
  mas_wr_walk (MkWorld (<[b := l]> h) bk av f (b + 78) t)
    (MkMas i2 l2 (b + 76) 0 ULONG_MAX 0 0 0 d) 0 0 e2
  = Some (MkWalk true (MkMas i2 l2 (b + 76) 0 ULONG_MAX 2 0 0 1)
            (last + 1) ULONG_MAX).
Proof.
  destruct (leaf_enode_facts b Hb) as (Hto & Hty & _).
  destruct (leaf_type_code b Hb) as (Htc & Hleaf).
  unfold mas_wr_walk. cursor. change TREE_DEPTH with (S 31).
  rewrite mas_wr_walk_loop_unfold. cursor. rewrite Hty. cbv zeta.
  change (u8 (0 + 1)) with 1.
  rewrite append_data_end by reflexivity.
  rewrite append_node_walk
    by (try reflexivity; apply mas_offset_mk; lia).
  cursor. cbn [negb]. cbv iota.
  rewrite mas_set_offset_mk by lia.
  unfold mas_is_span_wr. cursor.
  unfold ULONG_MAX in *. bsimpl. reflexivity.
Qed.

(** The big node of the store: the two ranges of the leaf, the rest of
    the empty range below [i2], and the new range. *)
Lemma append_store_b_node :
  mas_store_b_node (MkWorld (<[b := l]> h) bk av f (b + 78) t)
    (MkMas i2 l2 (b + 76) 0 ULONG_MAX 2 0 0 1) big_node_zero e2
  = Some (3, MkBig (0 :: entry :: 0 :: e2 :: replicate 30 0)
               (index - 1 :: last :: i2 - 1 :: l2 :: replicate 29 0)
               (0 :: 0 :: i2 - 1 - last :: replicate 31 0) 0 2 0).
Proof.
  destruct (leaf_enode_facts b Hb) as (Hto & Hty & _).
  destruct (leaf_type_code b Hb) as (Htc & Hleaf).
  unfold mas_store_b_node. cbv zeta.
  rewrite mas_offset_mk by lia.
  rewrite append_data_end by reflexivity.
  rewrite append_slot by (try reflexivity; lia).
  change (l !! Z.to_nat (16 + 2)) with (l !! 18%nat). rewrite L18.
  change (nonzero 2) with true. cbv iota.
  unfold mas_mab_cp. cursor. rewrite Hty.
  change (Z.to_nat (2 - 1 - 0 + 1)) with 2%nat.
  rewrite mas_mab_cp_loop_unfold.
  rewrite append_slot by (try reflexivity; lia).
  change (l !! Z.to_nat (16 + 0)) with (l !! 16%nat). rewrite L16.
  change (bn_set_slot 0 0 big_node_zero) with (Some big_node_zero).
  cursor. rewrite Hleaf. cbn [negb andb]. cbv iota.
  change (0 <? mt_pivots maple_leaf_64) with true. cbv iota.
  rewrite (append_pivot _ 0 (index - 1))
    by (try reflexivity; try assumption; unfold ULONG_MAX in *; lia).
  change (bn_set_pivot 0 (index - 1) big_node_zero)
    with (Some (MkBig (replicate 34 0) (index - 1 :: replicate 32 0)
                  (replicate 34 0) 0 0 0)).
  cbv iota beta. unfold ULONG_MAX in *. bsimpl.
  rewrite mas_mab_cp_loop_unfold.
  rewrite append_slot by (try reflexivity; lia).
  change (l !! Z.to_nat (16 + (0 + 1))) with (l !! 17%nat). rewrite L17.
  change (bn_set_slot (0 + 1) entry
            (MkBig (replicate 34 0) (index - 1 :: replicate 32 0)
               (replicate 34 0) 0 0 0))
    with (Some (MkBig (0 :: entry :: replicate 32 0)
                  (index - 1 :: replicate 32 0) (replicate 34 0) 0 0 0)).
  cursor. rewrite Hleaf. cbn [negb andb]. cbv iota.
  change (0 + 1 <? mt_pivots maple_leaf_64) with true. cbv iota.
  rewrite (append_pivot _ (0 + 1) last)
    by (try reflexivity; try assumption; lia).
  change (bn_set_pivot (0 + 1) last
            (MkBig (0 :: entry :: replicate 32 0)
               (index - 1 :: replicate 32 0) (replicate 34 0) 0 0 0))
    with (Some (MkBig (0 :: entry :: replicate 32 0)
                  (index - 1 :: last :: replicate 31 0) (replicate 34 0)
                  0 0 0)).
  cbv iota beta. bsimpl.
  cbn [mas_mab_cp_loop fst snd]. change (u8 (0 + 1 + 1)) with 2.
  cbv beta iota delta [bn_set_end bn_slot bn_pivot bn_gap bn_min b_end
                       bn_type].
  change (bn_get_pivot _ (2 - 1)) with (Some last). cbv iota beta.
  rewrite (u64_small (last + 1)) by lia. bsimpl.
  rewrite (u64_small (i2 - 1 - last)), (u64_small (i2 - 1)) by lia.
  change (bn_set_slot 2 0
            (MkBig (0 :: entry :: replicate 32 0)
               (index - 1 :: last :: replicate 31 0) (replicate 34 0)
               0 2 0))
    with (Some (MkBig (0 :: entry :: replicate 32 0)
                  (index - 1 :: last :: replicate 31 0) (replicate 34 0)
                  0 2 0)).
  cbv iota beta.
  change (bn_set_gap 2 (i2 - 1 - last)
            (MkBig (0 :: entry :: replicate 32 0)
               (index - 1 :: last :: replicate 31 0) (replicate 34 0)
               0 2 0))
    with (Some (MkBig (0 :: entry :: replicate 32 0)
                  (index - 1 :: last :: replicate 31 0)
                  (0 :: 0 :: i2 - 1 - last :: replicate 31 0) 0 2 0)).
  cbv iota beta.
  change (bn_set_pivot 2 (i2 - 1)
            (MkBig (0 :: entry :: replicate 32 0)
               (index - 1 :: last :: replicate 31 0)
               (0 :: 0 :: i2 - 1 - last :: replicate 31 0) 0 2 0))
    with (Some (MkBig (0 :: entry :: replicate 32 0)
                  (index - 1 :: last :: i2 - 1 :: replicate 30 0)
                  (0 :: 0 :: i2 - 1 - last :: replicate 31 0) 0 2 0)).
  cbv iota beta. change (u8 (2 + 1)) with 3.
  change (bn_set_slot 3 e2
            (MkBig (0 :: entry :: replicate 32 0)
               (index - 1 :: last :: i2 - 1 :: replicate 30 0)
               (0 :: 0 :: i2 - 1 - last :: replicate 31 0) 0 2 0))
    with (Some (MkBig (0 :: entry :: 0 :: e2 :: replicate 30 0)
                  (index - 1 :: last :: i2 - 1 :: replicate 30 0)
                  (0 :: 0 :: i2 - 1 - last :: replicate 31 0) 0 2 0)).
  cbv iota beta.
  change (bn_set_pivot 3 l2
            (MkBig (0 :: entry :: 0 :: e2 :: replicate 30 0)
               (index - 1 :: last :: i2 - 1 :: replicate 30 0)
               (0 :: 0 :: i2 - 1 - last :: replicate 31 0) 0 2 0))
    with (Some (MkBig (0 :: entry :: 0 :: e2 :: replicate 30 0)
                  (index - 1 :: last :: i2 - 1 :: l2 :: replicate 29 0)
                  (0 :: 0 :: i2 - 1 - last :: replicate 31 0) 0 2 0)).
  cbv iota beta.
  rewrite (append_pivot _ 2 0) by (try reflexivity; try assumption; lia).
  bsimpl.
  change 256%nat with (S 255). rewrite mas_store_b_node_skip_unfold.
  cbv zeta. change (u8 (2 + 1)) with 3.
  rewrite (append_pivot _ 3 0) by (try reflexivity; try assumption; lia).
  cursor. bsimpl. bsimpl. reflexivity.
Qed.

(** The append loop: the slots and pivots 3 to 0 of the leaf are
    written in place. *)
Lemma append_loop_run (mas : ma_state) (mn be ty : Z)
    (g : list Z) :
  mas_node mas = b + 76 ->
  mas_append_loop 256 mas
    (MkBig (0 :: entry :: 0 :: e2 :: replicate 30 0)
       (index - 1 :: last :: i2 - 1 :: l2 :: replicate 29 0) g mn be ty)
    3 16 1
    (MkWorld (<[b := l]> h) bk av f (b + 78) t)
  = Some (tt,
          MkWorld
            (<[b := <[1%nat := index - 1]> (<[16%nat := 0]>
                     (<[2%nat := last]> (<[17%nat := entry]>
                     (<[3%nat := i2 - 1]> (<[18%nat := 0]>
                     (<[4%nat := l2]> (<[19%nat := e2]> l)))))))]> h)
            bk av f (b + 78) t).
Proof.
  intros Hn. unfold ULONG_MAX in *.
  change 256%nat with (S (S (S (S 252)))).
  rewrite mas_append_loop_unfold, Hn.
  change (bn_get_slot _ 3) with (Some e2).
  change (bn_get_pivot _ 3) with (Some l2). cbv iota beta.
  rewrite (mas_append_step h b bk av f (b + 78) t l 3 l2 e2 0)
    by (try assumption; lia).
  change (nonzero 3 && (1 <=? 3)) with true. cbv iota.
  change (u8 (3 - 1)) with 2.
  rewrite mas_append_loop_unfold, Hn.
  change (bn_get_slot _ 2) with (Some 0).
  change (bn_get_pivot _ 2) with (Some (i2 - 1)). cbv iota beta.
  rewrite (mas_append_step h b bk av f (b + 78) t _ 2 (i2 - 1) 0 0)
    by (try assumption; try lia;
        rewrite !list_lookup_insert_ne by lia; assumption).
  change (nonzero 2 && (1 <=? 2)) with true. cbv iota.
  change (u8 (2 - 1)) with 1.
  rewrite mas_append_loop_unfold, Hn.
  change (bn_get_slot _ 1) with (Some entry).
  change (bn_get_pivot _ 1) with (Some last). cbv iota beta.
  rewrite (mas_append_step h b bk av f (b + 78) t _ 1 last entry last)
    by (try assumption; try lia;
        rewrite !list_lookup_insert_ne by lia; assumption).
  change (nonzero 1 && (1 <=? 1)) with true. cbv iota.
  change (u8 (1 - 1)) with 0.
  rewrite mas_append_loop_unfold, Hn.
  change (bn_get_slot _ 0) with (Some 0).
  change (bn_get_pivot _ 0) with (Some (index - 1)). cbv iota beta.
  rewrite (mas_append_step h b bk av f (b + 78) t _ 0 (index - 1) 0
             (index - 1))
    by (try assumption; try lia;
        rewrite !list_lookup_insert_ne by lia; assumption).
  reflexivity.
Qed.

(** The store: an append that rewrites the slots and pivots 3 to 0 of
    the leaf in place. *)
Lemma append_store (ov : bool) (d : Z) :
  _mas_store (MkMas i2 l2 MAS_START 0 ULONG_MAX 0 0 0 d) e2 ov
    (MkWorld (<[b := l]> h) bk av f (b + 78) t)
  = Some ((0, MkMas i2 l2 (b + 76) 0 ULONG_MAX 2 0 0 1),
          MkWorld
            (<[b := <[1%nat := index - 1]> (<[16%nat := 0]>
                     (<[2%nat := last]> (<[17%nat := entry]>
                     (<[3%nat := i2 - 1]> (<[18%nat := 0]>
                     (<[4%nat := l2]> (<[19%nat := e2]> l)))))))]> h)
            bk av f (b + 78) t).
Proof.
  destruct (leaf_enode_facts b Hb) as (Hto & Hty & _).
  destruct (leaf_type_code b Hb) as (Htc & Hleaf).
  destruct (leaf_not_special b Hb) as (Hnn & Hnr & _ & Herr).
  unfold _mas_store. rewrite mbind_eq. unfold mget at 1. cbv beta iota.
  rewrite (mas_start_at_root _ b) by (try assumption; try reflexivity; lia).
  cbv beta iota. unfold mas_is_none. cursor. rewrite Hnn, Hnr.
  change (nonzero 0) with false. cbn [orb]. cbv iota.
  unfold _mas_store_walk. rewrite mbind_eq, mread_eq.
  rewrite append_wr_walk. cbv beta iota zeta. cursor.
  cbn [negb andb]. cbv iota. change (nonzero 0) with false. cbv iota.
  rewrite Hty. rewrite mas_offset_mk by lia.
  rewrite mbind_eq, mread_eq.
  rewrite append_slot by (try reflexivity; lia).
  change (l !! Z.to_nat (16 + 2)) with (l !! 18%nat). rewrite L18.
  cbv beta iota. unfold ULONG_MAX in *. bsimpl.
  change (2 ^ 64 - 1) with ULONG_MAX.
  rewrite mbind_eq. unfold mret at 1. cbv beta iota. cursor.
  rewrite mas_offset_mk by lia. rewrite mas_set_offset_mk by lia.
  rewrite mbind_eq, mread_eq.
  rewrite (append_store_b_node). cbv beta iota. cursor.
  rewrite mbind_eq, mread_eq, append_data_end by reflexivity.
  cbv beta iota. rewrite mbind_eq, mread_eq. rewrite Htc.
  cbv beta iota delta [bn_set_end bn_set_min bn_set_type bn_slot bn_pivot
                       bn_gap bn_min b_end bn_type].
  unfold mas_can_append. cbv beta iota delta [b_end]. cursor.
  change (mt_slots maple_leaf_64) with 16.
  change (16 <=? 3) with false. change (3 <=? 1) with false. cbv iota.
  bsimpl.
  change (bn_get_pivot _ 3) with (Some l2). cbv beta iota.
  rewrite Z.eqb_refl. cbv iota.
  rewrite mbind_eq, append_loop_run by reflexivity. cbv beta iota.
  rewrite mbind_eq. unfold mas_update_gap. rewrite mbind_eq.
  unfold mget at 1. cbv beta iota. cbn [ma_flags].
  destruct (mt_is_alloc f); cbn [negb]; cbv iota.
  - rewrite mbind_eq, mread_eq.
    unfold mte_is_root, ma_is_root, rd_parent. cursor. rewrite Hto.
    rewrite rd_word_mk by (unfold NODE_WORDS; lia).
    rewrite !list_lookup_insert_ne by lia.
    change (l !! Z.to_nat 0) with (l !! 0%nat). rewrite L0.
    rewrite root_parent_bit. reflexivity.
  - reflexivity.
Qed.

(** mtree_store_range and mtree_insert_range of the new range. *)
Lemma append_store_range :
  xa_is_advanced e2 = false ->
  mtree_store_range i2 l2 e2 (MkWorld (<[b := l]> h) bk av f (b + 78) t)
  = Some (0,
          MkWorld
            (<[b := <[1%nat := index - 1]> (<[16%nat := 0]>
                     (<[2%nat := last]> (<[17%nat := entry]>
                     (<[3%nat := i2 - 1]> (<[18%nat := 0]>
                     (<[4%nat := l2]> (<[19%nat := e2]> l)))))))]> h)
            bk av f (b + 78) t)
  /\ mtree_insert_range i2 l2 e2
       (MkWorld (<[b := l]> h) bk av f (b + 78) t)
     = Some (0,
             MkWorld
               (<[b := <[1%nat := index - 1]> (<[16%nat := 0]>
                        (<[2%nat := last]> (<[17%nat := entry]>
                        (<[3%nat := i2 - 1]> (<[18%nat := 0]>
                        (<[4%nat := l2]> (<[19%nat := e2]> l)))))))]> h)
               bk av f (b + 78) t).
Proof.
  intros Hadv.
  destruct (leaf_not_special b Hb) as (_ & _ & Hne2 & Herr).
  assert (R : forall ov,
            mas_store_retry RETRY_FUEL (MA_STATE i2 l2) e2 ov
              (MkWorld (<[b := l]> h) bk av f (b + 78) t)
            = Some (MkMas i2 l2 (b + 76) 0 ULONG_MAX 2 0 0 1,
                    MkWorld
                      (<[b := <[1%nat := index - 1]> (<[16%nat := 0]>
                               (<[2%nat := last]> (<[17%nat := entry]>
                               (<[3%nat := i2 - 1]> (<[18%nat := 0]>
                               (<[4%nat := l2]> (<[19%nat := e2]> l)))))))]>
                         h)
                      bk av f (b + 78) t)).
  { intros ov. change RETRY_FUEL with (S 3). cbn [mas_store_retry].
    unfold MA_STATE. rewrite mbind_eq, append_store. cbv beta iota. cursor.
    rewrite mbind_eq, mas_nomem_no_pool.
    - reflexivity.
    - cursor. intros E. rewrite E in Hne2. discriminate Hne2.
    - reflexivity. }
  split.
  - unfold mtree_store_range. rewrite Hadv.
    destruct (Z.ltb_spec l2 i2); [lia|]. rewrite mbind_eq, R.
    cbv beta iota. unfold mas_is_err. cursor. rewrite Herr. reflexivity.
  - unfold mtree_insert_range. rewrite Hadv.
    destruct (Z.ltb_spec l2 i2); [lia|]. rewrite mbind_eq, R.
    cbv beta iota. unfold mas_is_err. cursor. rewrite Herr. reflexivity.
Qed.

End one_leaf_append.

(** The loads of a tree made of one live leaf with five ranges. *)
Lemma five_ranges_loads (w : world) (b ta : Z) (l : list Z)
    (p0 p1 p2 p3 s0 s1 s2 s3 s4 j : Z) :
  b mod 128 = 0 -> 4096 <= b -> heap w !! b = Some l ->
  ma_root w = b + 78 -> l !! 0%nat = Some (Z.lor ta MA_ROOT_PARENT) ->
  mte_to_node ta <> b ->
  l !! 1%nat = Some p0 -> l !! 2%nat = Some p1 -> l !! 3%nat = Some p2 ->
  l !! 4%nat = Some p3 -> l !! 5%nat = Some 0 ->
  l !! 16%nat = Some s0 -> l !! 17%nat = Some s1 ->
  l !! 18%nat = Some s2 -> l !! 19%nat = Some s3 ->
  l !! 20%nat = Some s4 ->
  0 <= p0 < p1 -> p1 < p2 < p3 -> p3 < ULONG_MAX ->
  0 <= j <= ULONG_MAX ->
  mtree_load w j
  = Some (let e := if j <=? p0 then s0 else if j <=? p1 then s1
                   else if j <=? p2 then s2 else if j <=? p3 then s3
                   else s4 in
          if xa_is_zero e then 0 else e).
Proof.
  intros Hb Hb4 Hh Hroot L0 Hta L1 L2 L3 L4 L5 L16 L17 L18 L19 L20
         Hp Hp2 Hp3 Hj.
  destruct (one_leaf_loads_of_ranges w b ta l Hb Hb4 Hh Hroot L0 Hta
              [MkRange 0 p0 s0; MkRange (p0 + 1) p1 s1;
               MkRange (p1 + 1) p2 s2; MkRange (p2 + 1) p3 s3;
               MkRange (p3 + 1) ULONG_MAX s4] j)
    as (e & He & Hload).
  - change (Z.to_nat (mt_slots maple_leaf_64)) with (S (S (S (S (S 11))))).
    assert (S16 : forall i, i < 16 -> (mt_slots maple_leaf_64 <=? i) = false).
    { intros i Hi'. change (mt_slots maple_leaf_64) with 16.
      destruct (Z.leb_spec 16 i); [lia | reflexivity]. }
    assert (P15 : forall i, i < 15 ->
              (mt_pivots maple_leaf_64 <=? i) = false).
    { intros i Hi'. change (mt_pivots maple_leaf_64) with 15.
      destruct (Z.leb_spec 15 i); [lia | reflexivity]. }
    rewrite node_ranges_unfold, S16, P15 by lia.
    rewrite (leaf_pivot w b 0 p0 l)
      by (try assumption; unfold ULONG_MAX in *; lia).
    rewrite (leaf_slot w b 0 l) by (try assumption; lia).
    change (l !! Z.to_nat (16 + 0)) with (l !! 16%nat). rewrite L16.
    unfold ULONG_MAX in *. bsimpl.
    rewrite node_ranges_unfold, S16, P15 by lia.
    rewrite (leaf_pivot w b (0 + 1) p1 l) by (try assumption; lia).
    rewrite (leaf_slot w b (0 + 1) l) by (try assumption; lia).
    change (l !! Z.to_nat (16 + (0 + 1))) with (l !! 17%nat). rewrite L17.
    bsimpl.
    rewrite node_ranges_unfold, S16, P15 by lia.
    rewrite (leaf_pivot w b (0 + 1 + 1) p2 l) by (try assumption; lia).
    rewrite (leaf_slot w b (0 + 1 + 1) l) by (try assumption; lia).
    change (l !! Z.to_nat (16 + (0 + 1 + 1))) with (l !! 18%nat).
    rewrite L18. bsimpl.
    rewrite node_ranges_unfold, S16, P15 by lia.
    rewrite (leaf_pivot w b (0 + 1 + 1 + 1) p3 l) by (try assumption; lia).
    rewrite (leaf_slot w b (0 + 1 + 1 + 1) l) by (try assumption; lia).
    change (l !! Z.to_nat (16 + (0 + 1 + 1 + 1))) with (l !! 19%nat).
    rewrite L19. bsimpl.
    rewrite node_ranges_unfold, S16, P15 by lia.
    rewrite (leaf_pivot w b (0 + 1 + 1 + 1 + 1) 0 l)
      by (try assumption; lia).
    rewrite (leaf_slot w b (0 + 1 + 1 + 1 + 1) l) by (try assumption; lia).
    change (l !! Z.to_nat (16 + (0 + 1 + 1 + 1 + 1))) with (l !! 20%nat).
    rewrite L20. bsimpl. reflexivity.
  - cbn [ranges_ascending re_first re_last]. unfold ULONG_MAX in *.
    bsimpl. reflexivity.
  - exact Hj.
  - cbn [ranges_entry re_last re_entry] in He. cbv zeta.
    rewrite Hload.
    destruct (j <=? p0); [injection He as <-; reflexivity|].
    destruct (j <=? p1); [injection He as <-; reflexivity|].
    destruct (j <=? p2); [injection He as <-; reflexivity|].
    destruct (j <=? p3); [injection He as <-; reflexivity|].
    destruct (Z.leb_spec j ULONG_MAX); [|lia].
    injection He as <-. reflexivity.
Qed.

(** After a store of [entry] over [index, last] with index > 1 in an
    empty tree, a store or an insert of a second entry over [i2, l2],
    above [last + 1] and below ULONG_MAX, returns 0 and leaves the same
    tree; afterwards every index of the first range loads the first
    entry, every index of the second range the second entry, and every
    other index NULL (the zero sentinel read as NULL). *)
Theorem mtree_store_range_second (w : world)
    (index last entry i2 l2 e2 : Z) :
  ma_root w = 0 -> avail w <> O ->
  brk w mod 128 = 0 -> 4096 <= brk w ->
  mte_to_node (tree_addr w) <> brk w ->
  xa_is_advanced entry = false ->
  xa_is_advanced e2 = false -> e2 <> 0 ->
  1 < index <= last -> last + 1 < i2 <= l2 -> l2 < ULONG_MAX ->
  mtree_store_range index last entry w
  = Some (0, root_leaf_world w index last entry)
  /\ exists w',
       mtree_store_range i2 l2 e2 (root_leaf_world w index last entry)
       = Some (0, w')
       /\ mtree_insert_range i2 l2 e2 (root_leaf_world w index last entry)
          = Some (0, w')
       /\ forall j, 0 <= j <= ULONG_MAX ->
            mtree_load w' j
            = Some (if (index <=? j) && (j <=? last)
                    then if xa_is_zero entry then 0 else entry
                    else if (i2 <=? j) && (j <=? l2)
                    then if xa_is_zero e2 then 0 else e2
                    else 0).
Proof.
  intros Hr Ha Hb Hb4 Hta Hadv Hadv2 He2 Hidx Hi2 Hl2.
  split.
  { unfold mtree_store_range. rewrite Hadv.
    destruct (Z.ltb_spec last index); [lia|]. rewrite mbind_eq.
    assert (Hz : brk w <> 0) by lia.
    assert (Hl' : 0 < last < 2 ^ 64) by (unfold ULONG_MAX in Hl2; lia).
    assert (Hi' : 0 <= index <= last) by lia.
    destruct (mas_store_retry_empty w index last entry true Hr Ha Hb Hz Hi'
                Hl') as (mas & -> & ->). reflexivity. }
  destruct w as [h0 b0 av0 f0 r0 t0].
  cbn [ma_root avail brk tree_addr] in *.
  destruct (leaf_enode_facts b0 Hb) as (_ & _ & Hmk & _).
  unfold root_leaf_world. cbn [heap brk avail ma_flags ma_root tree_addr].
  rewrite mt_mk_node_leaf, Hmk by exact Hb.
  assert (Hw : root_leaf_words t0 index last entry
               = <[2%nat := last]> (<[17%nat := entry]>
                   (<[1%nat := index - 1]>
                      (<[0%nat := Z.lor t0 MA_ROOT_PARENT]>
                         (replicate NODE_WORDS 0))))).
  { unfold root_leaf_words. destruct (Z.ltb_spec 1 index); [reflexivity|lia]. }
  rewrite Hw.
  destruct (append_store_range h0 (b0 + NODE_SIZE) (Nat.pred av0)
              (flags_height_1 f0) t0 b0
              (<[2%nat := last]> (<[17%nat := entry]>
                 (<[1%nat := index - 1]>
                    (<[0%nat := Z.lor t0 MA_ROOT_PARENT]>
                       (replicate NODE_WORDS 0)))))
              index last entry i2 l2 e2)
    as [Hst Hin]; try assumption; try reflexivity.
  match type of Hst with _ = Some (_, ?W) => exists W end.
  split; [exact Hst|]. split; [exact Hin|].
  intros j Hj.
  match goal with
  | |- mtree_load (MkWorld (<[_ := ?L]> _) ?k ?a ?fl ?r ?t) _ = _ =>
    rewrite (five_ranges_loads (MkWorld (<[b0 := L]> h0) k a fl r t) b0 t0 L
               (index - 1) last (i2 - 1) l2 0 entry 0 e2 0 j Hb Hb4);
      try assumption; try reflexivity; try lia
  end.
  2:{ cbn [heap]. apply lookup_insert_eq. }
  cbv zeta. f_equal.
  destruct (Z.leb_spec j (index - 1)); destruct (Z.leb_spec index j);
    try lia; cbn [andb].
  - destruct (Z.leb_spec i2 j); [lia|]. reflexivity.
  - destruct (Z.leb_spec j last); [reflexivity|].
    destruct (Z.leb_spec j (i2 - 1)); destruct (Z.leb_spec i2 j);
      try lia; cbn [andb]; [reflexivity|].
    destruct (Z.leb_spec j l2); reflexivity.
Qed.

(** The ranges [10, 20] and [30, 40] of the specification's scenarios. *)
Lemma mtree_store_range_second_witness :
  exists w',
    mtree_store_range 30 40 entry_B
      (root_leaf_world empty_tree 10 20 entry_A) = Some (0, w')
    /\ mtree_load w' 15 = Some entry_A
    /\ mtree_load w' 25 = Some 0
    /\ mtree_load w' 35 = Some entry_B.
Proof.
  assert (P1 : ma_root empty_tree = 0) by (vm_compute; reflexivity).
  assert (P2 : avail empty_tree <> O) by (vm_compute; discriminate).
  assert (P3 : brk empty_tree mod 128 = 0) by (vm_compute; reflexivity).
  assert (P4 : 4096 <= brk empty_tree) by (vm_compute; discriminate).
  assert (P5 : mte_to_node (tree_addr empty_tree) <> brk empty_tree)
    by (vm_compute; discriminate).
  assert (A1 : xa_is_advanced entry_A = false) by (vm_compute; reflexivity).
  assert (A2 : xa_is_advanced entry_B = false) by (vm_compute; reflexivity).
  assert (A3 : entry_B <> 0) by (vm_compute; discriminate).
  assert (U : 40 < ULONG_MAX) by (vm_compute; reflexivity).
  destruct (mtree_store_range_second empty_tree 10 20 entry_A 30 40 entry_B
              P1 P2 P3 P4 P5 A1 A2 A3 ltac:(lia) ltac:(lia) U)
    as (_ & w' & Hst & _ & Hl).
  exists w'. split; [exact Hst|].
  assert (R : forall j, 0 <= j <= 100 -> 0 <= j <= ULONG_MAX)
    by (intros j Hj; unfold ULONG_MAX; lia).
  split; [|split].
  - rewrite (Hl 15) by (apply R; lia). vm_compute. reflexivity.
  - rewrite (Hl 25) by (apply R; lia). vm_compute. reflexivity.
  - rewrite (Hl 35) by (apply R; lia). vm_compute. reflexivity.
Defined.
